(* ===== verification/_CoqProject ===== *)
-Q . S2P
Prelude.v
Status.v
Checked.v
Identity.v
Bytes.v
Digest.v
Capacity.v
Model.v
Builder.v
BuilderSpec.v
Sample.v
Freeze.v
BuilderOrder.v
Codec.v
CodecSpec.v
Topology.v
TopologySpec.v
Eligibility.v
EligibilitySpec.v
Governance.v
GovernanceSpec.v
Store.v
StoreDir.v
StoreSpec.v
StoreDirSpec.v
Durability.v
ScanSpec.v
Effect.v
EffectSpec.v
Runtime.v
RuntimeSpec.v
Replay.v
Archive.v
Restart.v
Session.v
Transport.v
TransportSpec.v
Service.v
Server.v
ServiceSpec.v
ServiceRoundtrip.v
ServerSpec.v
ServerThreads.v
ServerThreadsSpec.v
Spec.v
SpecText.v
SpecRoundtrip.v
SpecBuild.v
Refusals.v
Platform.v
PlatformSpec.v
Cli.v
CliSpec.v
Scenario.v
