(* ===== verification/Prelude.v ===== *)
(** * Verification of Spine-Leaf-Fabric

    Spine-Leaf-Fabric keeps a validated model of a leaf-spine network, answers
    reachability and eligibility questions about it, and governs who may change
    it. The C++ sources are under src/; this library translates them into
    executable definitions and proves what they promise.

    ** The program and the files that model it

    - [Status] (include/slf/status.hpp, src/status.cpp): status codes with their
      numeric values, [Status], and [Outcome], the value-or-status result of every
      fallible call, with its bind.
    - [Checked] (include/slf/checked.hpp): 64-bit checked, saturating and narrowing
      arithmetic, gcd.
    - [Identity] (src/identity.cpp): identifiers, node keys, controller
      incarnations, their texts, and UTF-8 validation.
    - [Bytes] (src/bytes.cpp): the bounded writer and the bounds-checked reader. A
      sequence of writer calls whose statuses are dropped is a list of [WriteOp];
      a decoder is a [Reader] computation; [decodes] relates the two.
    - [Digest] (src/digest.cpp): streaming SHA-256, [Digest], [DigestBuilder].
    - [Capacity] (src/capacity.cpp): exact ratios and the capacity summary.
    - [Model] (src/model.cpp): enumerations, records, lookups, evidence selection
      and freshness, canonical encodings and digests; [Codec] is
      [deserialize_fabric].
    - [Builder] (src/builder.cpp): the mutable builder. Each operation is a list of
      guards tried in the order of the code's early returns, then the update;
      refused operations log an issue. [freeze] validates and assembles.
    - [Topology] (src/topology.cpp): the compressed-array index and its queries.
    - [Eligibility] (src/eligibility.cpp, include/slf/cancellation.hpp): verdicts on
      uplinks, leaf pairs and the fabric; spine-set selection. Polls of the
      cancellation flag, which other threads may set and reset, are an oracle
      threaded by the [Poll] monad.
    - [Governance] (src/governance.cpp): authority tokens, path authorities,
      commands, results and their encodings.
    - [Effect], [Runtime] (src/runtime.cpp): what a command does to the fabric, and
      the controller: leases, command application with the exactly-once window and
      the journal, installs, compaction, worker turns, start with recovery and
      replay, stop and restart.
    - [Store], [StoreDir] (src/store.cpp): journal segments and the recovery scan;
      snapshots, the segments of a state directory, recovery of a directory.
    - [Transport] (src/transport.cpp): endpoints, frames, the send and receive loops,
      connections and listeners over the set of open socket handles.
    - [Service] (src/service.cpp): request and response codecs and
      [RuntimeService::handle], through the class [RequestHandler] the server is
      written against. [Server]: what a worker does on one connection, and the
      client. [ServerThreads]: start, stop, the accept thread and the workers as a
      step relation, one critical section, atomic access or system call a step.
    - [Spec] (src/spec.cpp): the text format of a fabric: tokenizer, directives,
      printer, file functions.
    - [Platform] (src/platform.cpp): the file wrappers and child processes over the
      answers of the system, and the quoting of a Windows command line.
    - [Cli] (tools/slfctl/main.cpp): option parsing, constraints, exit codes and the
      commands; what a command prints is left out.
    Files, sockets and clocks are not state of the model: what the operating system
    answers to each call is an argument ([AppendIo], [SnapshotIo], [StartIo],
    [SocketOs], [ServiceIo]), so a theorem over all arguments covers every failure
    and every short read or write. The bytes a journal holds are part of the state,
    and what a crash leaves of them is a prefix chosen by the theorem. The operations
    of the runtime are atomic, as its writer mutex makes them.
    [Sample] is a small concrete fabric on which the theorems are instantiated.

    ** What the theorems show

    - [BuilderSpec], [Freeze]: an invariant kept by every builder operation, and
      from it that a successful freeze yields a well-formed fabric
      ([fabric_wf]: sorted tables, no dangling reference, role, tier, speed and
      generation rules, digests of the contents).
    - [BuilderOrder]: the fabric does not depend on the order of insertion.
    - [CodecSpec]: serialising and deserialising a well-formed fabric is the
      identity.
    - [TopologySpec]: the index always builds for an indexable fabric and refines
      the specification that filters the edge list; its promise to clients is the
      class [IndexOf], against which the query theorems are proved (common spines,
      the unreachable class, soundness and completeness of path enumeration).
    - [EligibilitySpec]: the verdict on an uplink, optimality of the selected spine
      set, soundness of an eligible answer, exactness of the health report.
    - [GovernanceSpec]: a token or authority passes exactly at its coordinate,
      minting and validation agree, the authority digest binds the body up to a
      SHA-256 collision, and the encodings round trip.
    - [StoreSpec], [StoreDirSpec], [Durability], [ScanSpec]: the byte formats decode
      what they encode, acknowledged records survive any crash, a clean shutdown
      loses nothing, a snapshot replaces the old one or leaves it, the scan ends on
      any bytes and what it recovers is typed and chained.
    - [EffectSpec], [RuntimeSpec]: a command has exactly the effect it names; it is
      applied with all its effects or with none; the invariant of the runtime.
    - [Replay], [Archive], [Restart], [Session]: a restarted controller refines the
      one that crashed: same topology, same exactly-once window, a later epoch;
      a session of lease, command and retry across restarts.
    - [TransportSpec]: frames cross any splitting of the stream, an accepted frame is
      the encoding of what is returned, sockets are not leaked.
    - [ServiceSpec], [ServiceRoundtrip], [ServerSpec]: the codecs round trip up to
      clamping (class [Wired]), a remote session gives the answers of local calls,
      only intact requests of this version reach the handler.
    - [ServerThreadsSpec]: over all interleavings, every socket has one holder, [stop]
      misses no reader, and every run after [stop] ends with nothing left.
    - [SpecText], [SpecRoundtrip], [SpecBuild]: the printed text of a fabric parses
      back to it; whatever parses is well formed.
    - [Refusals], [PlatformSpec], [CliSpec]: a failure never carries [Ok]; a quoted
      command line determines its arguments; exit status 0 of [slfctl paths] is backed
      by the fabric of the file; what the client asks arrives as it was meant; exit
      codes are those documented.
    - [Scenario]: concrete runs on which the runtime theorems are instantiated.
    - [Checked], [Capacity], [Identity], [Bytes], [Digest], [Model]: exactness,
      bounds and round trips of the parts everything else uses.

    ** Conventions

    A [std::uintN_t] is a [Z]; unchecked arithmetic is written with [wrap], and
    [fits] states a range. A [std::map] keyed by identity is a [gmap], visited in
    key order by [ordered] and [values]; a sorted vector searched with
    [std::lower_bound] is a list searched by [find_sorted]. [std::sort] is
    [merge_sort]; the comparators used have no ties between different elements,
    except for evidence records, where the round trip assumes there is none.
    Enumerations that the code casts from integers without a range check have a
    constructor for the other values. Loops are structural recursions; where the
    code bounds a search by a count of hops that count is the recursion argument,
    and fuel elsewhere (decimal digits, gcd, SHA-256 blocks, journal records,
    bytes of a stream, characters of a line, frames of a connection) is a length or
    width that bounds the number of iterations, with lemmas that it is enough.

    ** Not modelled

    The passage of time (sleeps, deadlines in milliseconds), the multi-line
    human-readable renderings and what the tool prints, and the Windows branches
    other than the quoting of a command line. Benchmarks, examples and tests are
    not part of the program. In the threads of the server [start] is one
    step and a timeout may fire at any time. Data races (which the C++ memory model
    leaves undefined) are outside the step relation.

    ** This file

    Notations in the scope [slf_scope], tactics, the hint database [slf], and the
    lemmas on integers, bytes, sorted lists and maps that the components share. *)
From Stdlib Require Export ZArith Lia Strings.Byte Strings.Ascii Strings.String.
From stdpp Require Export sorting.
From stdpp Require Export base tactics numbers strings gmap option list.

Open Scope Z_scope.

Declare Scope slf_scope.
Delimit Scope slf_scope with slf.
Open Scope slf_scope.

#[export] Set Warnings "-clear-no-such-hyp".

(** ** Automation *)

Create HintDb slf discriminated.

(** [invert H] is inversion with substitution and clean up. *)
Ltac invert H := inversion H; subst; clear H.

(** Splits every [if]/[match] of the goal, keeping the equations, and discards
    the branches closed by congruence. *)
Ltac split_cases :=
  repeat (case_match; try discriminate; simplify_eq).

(** Turns the boolean tests of the context into propositions. *)
Ltac bool_to_prop :=
  repeat match goal with
  | H : (_ && _)%bool = true |- _ => apply andb_true_iff in H as [? ?]
  | H : (_ || _)%bool = false |- _ => apply orb_false_iff in H as [? ?]
  | H : negb _ = true |- _ => apply negb_true_iff in H
  | H : negb _ = false |- _ => apply negb_false_iff in H
  | H : bool_decide _ = true |- _ => apply bool_decide_eq_true_1 in H
  | H : bool_decide _ = false |- _ => apply bool_decide_eq_false_1 in H
  | H : (_ =? _)%Z = true |- _ => apply Z.eqb_eq in H
  | H : (_ =? _)%Z = false |- _ => apply Z.eqb_neq in H
  | H : (_ <? _)%Z = true |- _ => apply Z.ltb_lt in H
  | H : (_ <? _)%Z = false |- _ => apply Z.ltb_ge in H
  | H : (_ >? _)%Z = true |- _ => rewrite Z.gtb_ltb in H
  | H : (_ >? _)%Z = false |- _ => rewrite Z.gtb_ltb in H
  | H : (_ <=? _)%Z = true |- _ => apply Z.leb_le in H
  | H : (_ <=? _)%Z = false |- _ => apply Z.leb_gt in H
  end.

(** Linear arithmetic with division and modulo by constants. *)
Ltac divlia := Z.to_euclidean_division_equations; lia.

(** ** Machine-width integers

    A C++ [std::uintN_t] is a [Z] in the range below; the wrap-around of an
    unchecked operation is written with [wrap]. *)

Definition fits (w z : Z) : Prop := 0 <= z < 2 ^ w.

#[export] Instance fits_dec w z : Decision (fits w z).
Proof. unfold fits. apply _. Defined.

Abbreviation u8_ok := (fits 8).
Abbreviation u16_ok := (fits 16).
Abbreviation u32_ok := (fits 32).
Abbreviation u64_ok := (fits 64).

Definition u64_max : Z := 2 ^ 64 - 1.
Definition u32_max : Z := 2 ^ 32 - 1.

Definition wrap (w z : Z) : Z := z mod 2 ^ w.

Lemma wrap_small w z : fits w z -> wrap w z = z.
Proof. unfold fits, wrap. apply Z.mod_small. Qed.

Lemma wrap_fits w z : 0 <= w -> fits w (wrap w z).
Proof.
  intros Hw. unfold fits, wrap. apply Z.mod_pos_bound.
  apply Z.pow_pos_nonneg; lia.
Qed.

Lemma fits_mono w w' z : 0 <= w <= w' -> fits w z -> fits w' z.
Proof.
  unfold fits. intros Hw Hz. pose proof (Z.pow_le_mono_r 2 w w'). lia.
Qed.

(** ** Bytes *)

Definition byte_of_Z (z : Z) : byte :=
  match Byte.of_N (Z.to_N (z mod 256)) with Some b => b | None => x00 end.

Definition Z_of_byte (b : byte) : Z := Z.of_N (Byte.to_N b).

Lemma Z_of_byte_range b : 0 <= Z_of_byte b < 256.
Proof. unfold Z_of_byte. pose proof (Byte.to_N_bounded b). lia. Qed.

Lemma byte_of_Z_of_byte b : byte_of_Z (Z_of_byte b) = b.
Proof.
  unfold byte_of_Z. rewrite Z.mod_small by apply Z_of_byte_range.
  unfold Z_of_byte. rewrite N2Z.id, Byte.of_to_N. done.
Qed.

Lemma Z_of_byte_of_Z z : Z_of_byte (byte_of_Z z) = z mod 256.
Proof.
  unfold byte_of_Z, Z_of_byte.
  pose proof (Z.mod_pos_bound z 256 ltac:(lia)).
  destruct (Byte.of_N (Z.to_N (z mod 256))) as [b|] eqn:E.
  - apply Byte.to_of_N in E. rewrite E. rewrite Z2N.id; lia.
  - apply Byte.of_N_None_iff in E. lia.
Qed.

#[export] Instance byte_eq_dec : EqDecision byte := Byte.byte_eq_dec.

Definition Zlen {A} (l : list A) : Z := Z.of_nat (List.length l).

Lemma Zlen_nil {A} : Zlen (@nil A) = 0.
Proof. done. Qed.

Lemma Zlen_cons {A} (x : A) l : Zlen (x :: l) = 1 + Zlen l.
Proof. unfold Zlen. simpl List.length. lia. Qed.

Lemma Zlen_app {A} (l k : list A) : Zlen (l ++ k) = Zlen l + Zlen k.
Proof. unfold Zlen. rewrite length_app. lia. Qed.

Lemma Zlen_nonneg {A} (l : list A) : 0 <= Zlen l.
Proof. unfold Zlen. lia. Qed.

#[export] Hint Resolve Zlen_nonneg : slf.

(** Texts are byte strings: [std::string] holds arbitrary bytes. *)
Definition bytes_of (s : string) : list byte := list_byte_of_string s.
Definition text_of (l : list byte) : string := string_of_list_byte l.
Definition strlen (s : string) : Z := Zlen (bytes_of s).

Lemma text_of_bytes_of s : text_of (bytes_of s) = s.
Proof. apply string_of_list_byte_of_string. Qed.

Lemma bytes_of_text_of l : bytes_of (text_of l) = l.
Proof. apply list_byte_of_string_of_list_byte. Qed.

Lemma bytes_of_inj s t : bytes_of s = bytes_of t -> s = t.
Proof. intros H. rewrite <- (text_of_bytes_of s), H. apply text_of_bytes_of. Qed.

(** ** Little-endian integers

    [le_store n sh v] is the loop that pushes [(v >> shift) & 0xFF] for
    [shift = sh, sh + 8, ...]; [le_load sh bs] is the loop that accumulates
    [value |= byte << shift]. *)

Fixpoint le_store (n : nat) (sh v : Z) : list byte :=
  match n with
  | O => []
  | S n' => byte_of_Z (Z.land (Z.shiftr v sh) 255) :: le_store n' (sh + 8) v
  end.

Fixpoint le_load (sh : Z) (bs : list byte) : Z :=
  match bs with
  | [] => 0
  | b :: r => Z.lor (Z.shiftl (Z_of_byte b) sh) (le_load (sh + 8) r)
  end.

Lemma le_store_length n sh v : List.length (le_store n sh v) = n.
Proof. revert sh. induction n; intros sh; simpl; auto. Qed.

Lemma byte_testbit b k : 0 <= k -> 8 <= k -> Z.testbit (Z_of_byte b) k = false.
Proof.
  intros Hk H8. pose proof (Z_of_byte_range b) as Hb.
  destruct (Z.eq_dec (Z_of_byte b) 0) as [->|Hn]; [apply Z.bits_0|].
  apply Z.bits_above_log2; [lia|].
  apply Z.log2_lt_pow2; [lia|].
  pose proof (Z.pow_le_mono_r 2 8 k). lia.
Qed.

Lemma le_load_low sh bs k : 0 <= sh -> 0 <= k < sh -> Z.testbit (le_load sh bs) k = false.
Proof.
  revert sh. induction bs as [|b r IH]; intros sh Hsh Hk; simpl; [apply Z.bits_0|].
  rewrite Z.lor_spec, Z.shiftl_spec by lia.
  rewrite Z.testbit_neg_r by lia. simpl. apply IH; lia.
Qed.

Lemma le_load_bits sh n v k :
  0 <= sh -> 0 <= k ->
  Z.testbit (le_load sh (le_store n sh v)) k
  = ((sh <=? k) && (k <? sh + 8 * Z.of_nat n) && Z.testbit v k)%bool.
Proof.
  revert sh. induction n as [|n IH]; intros sh Hsh Hk.
  - cbn [le_store le_load]. rewrite Z.bits_0.
    destruct (Z.leb_spec sh k), (Z.ltb_spec k (sh + 8 * Z.of_nat 0)); try done. lia.
  - cbn [le_store le_load]. rewrite Z.lor_spec, IH, Z.shiftl_spec by lia.
    rewrite Z_of_byte_of_Z.
    destruct (Z.leb_spec sh k) as [Hle|Hgt].
    + replace 256 with (2 ^ 8) by done.
      destruct (Z.ltb_spec k (sh + 8)) as [Hlt|Hge].
      * rewrite Z.mod_pow2_bits_low by lia.
        rewrite Z.land_spec, Z.shiftr_spec by lia.
        replace 255 with (Z.ones 8) by done.
        rewrite Z.ones_spec_low by lia.
        replace (k - sh + sh) with k by lia.
        destruct (Z.leb_spec (sh + 8) k); [lia|].
        destruct (Z.ltb_spec k (sh + 8 * Z.of_nat (S n))); [|lia].
        simpl. by rewrite andb_true_r, orb_false_r.
      * rewrite Z.mod_pow2_bits_high by lia.
        destruct (Z.leb_spec (sh + 8) k); [|lia].
        simpl. f_equal.
        destruct (Z.ltb_spec k (sh + 8 + 8 * Z.of_nat n)),
          (Z.ltb_spec k (sh + 8 * Z.of_nat (S n))); try done; lia.
    + rewrite Z.testbit_neg_r by lia.
      destruct (Z.leb_spec (sh + 8) k); [lia|]. done.
Qed.

Lemma le_load_store n v :
  le_load 0 (le_store n 0 v) = v mod 2 ^ (8 * Z.of_nat n).
Proof.
  apply Z.bits_inj'. intros k Hk. rewrite le_load_bits by lia.
  destruct (Z.ltb_spec k (0 + 8 * Z.of_nat n)).
  - rewrite Z.mod_pow2_bits_low by lia. destruct (Z.leb_spec 0 k); [done|lia].
  - rewrite Z.mod_pow2_bits_high by lia. by destruct (0 <=? k).
Qed.

Lemma le_load_store_fits n v :
  fits (8 * Z.of_nat n) v -> le_load 0 (le_store n 0 v) = v.
Proof. intros H. rewrite le_load_store. by apply Z.mod_small. Qed.

Lemma le_load_range sh bs : 0 <= sh -> 0 <= le_load sh bs < 2 ^ (sh + 8 * Zlen bs).
Proof.
  revert sh. induction bs as [|b r IH]; intros sh Hsh.
  - cbn [le_load]. change (Zlen []) with 0. split; [lia|]. apply Z.pow_pos_nonneg; lia.
  - cbn [le_load]. rewrite Zlen_cons. specialize (IH (sh + 8) ltac:(lia)).
    pose proof (Z_of_byte_range b) as Hb. pose proof (Zlen_nonneg r) as Hr.
    replace (sh + 8 + 8 * Zlen r) with (sh + 8 * (1 + Zlen r)) in IH by lia.
    assert (0 <= Z.shiftl (Z_of_byte b) sh) by (apply Z.shiftl_nonneg; lia).
    split; [apply Z.lor_nonneg; lia|].
    set (x := Z.lor _ _). destruct (Z.eq_dec x 0) as [->|Hx].
    { apply Z.pow_pos_nonneg; lia. }
    assert (0 <= x) by (apply Z.lor_nonneg; lia).
    apply Z.log2_lt_pow2; [lia|]. unfold x. rewrite Z.log2_lor by lia.
    apply Z.max_lub_lt.
    + destruct (Z.eq_dec (Z.shiftl (Z_of_byte b) sh) 0) as [->|]; [simpl; lia|].
      apply Z.log2_lt_pow2; [lia|]. rewrite Z.shiftl_mul_pow2 by lia.
      replace (sh + 8 * (1 + Zlen r)) with (8 * (1 + Zlen r) + sh) by lia.
      rewrite Z.pow_add_r by lia.
      pose proof (Z.pow_le_mono_r 2 8 (8 * (1 + Zlen r))).
      assert (0 < 2 ^ sh) by (apply Z.pow_pos_nonneg; lia). nia.
    + destruct (Z.eq_dec (le_load (sh + 8) r) 0) as [->|]; [simpl; lia|].
      apply Z.log2_lt_pow2; lia.
Qed.

Lemma le_store_ext n sh v v' :
  0 <= sh -> (forall k, sh <= k -> Z.testbit v k = Z.testbit v' k) -> le_store n sh v = le_store n sh v'.
Proof.
  revert sh. induction n as [|n IH]; intros sh Hsh H; [done|]. cbn [le_store]. f_equal.
  - do 2 f_equal. apply Z.bits_inj'. intros k Hk. rewrite !Z.shiftr_spec by lia. apply H. lia.
  - apply IH; [lia|]. intros k Hk. apply H. lia.
Qed.

Lemma le_store_load n sh l : 0 <= sh -> List.length l = n -> le_store n sh (le_load sh l) = l.
Proof.
  revert sh n. induction l as [|b l IH]; intros sh n Hsh <-; cbn [List.length le_store le_load]; [done|].
  pose proof (Z_of_byte_range b) as Hb. f_equal.
  - rewrite Z.shiftr_lor, Z.shiftr_shiftl_r, Z.sub_diag, Z.shiftr_0_r, Z.land_lor_distr_l by lia.
    replace (Z.land (Z.shiftr (le_load (sh + 8) l) sh) 255) with 0.
    + change 255 with (Z.ones 8). rewrite Z.lor_0_r, Z.land_ones, Z.mod_small by lia. apply byte_of_Z_of_byte.
    + symmetry. apply Z.bits_inj'. intros k Hk. change 255 with (Z.ones 8).
      rewrite Z.land_spec, Z.shiftr_spec, Z.bits_0 by lia.
      destruct (Z.ltb_spec k 8); [by rewrite le_load_low by lia|].
      rewrite Z.ones_spec_high by lia. apply andb_false_r.
  - transitivity (le_store (List.length l) (sh + 8) (le_load (sh + 8) l)); [|apply IH; done || lia].
    apply le_store_ext; [lia|]. intros k Hk. rewrite Z.lor_spec, Z.shiftl_spec, byte_testbit by lia. done.
Qed.

(** ** Sorted vectors

    The record vectors of a fabric are sorted by identity and searched with
    [std::lower_bound]; on a sorted range that is the first element whose key is
    not below the probe. *)

Section Sorted_vectors.
Context {A : Type} (key : A -> Z).

Definition sorted_by (l : list A) : Prop :=
  StronglySorted (fun x y => key x < key y) l.

Fixpoint lower_bound (k : Z) (l : list A) : list A :=
  match l with
  | [] => []
  | x :: r => if key x <? k then lower_bound k r else l
  end.

Definition find_sorted (k : Z) (l : list A) : option A :=
  match lower_bound k l with
  | x :: _ => if key x =? k then Some x else None
  | [] => None
  end.

Lemma find_sorted_Some k l x :
  find_sorted k l = Some x -> x ∈ l /\ key x = k.
Proof.
  unfold find_sorted. induction l as [|y r IH]; simpl; [done|].
  destruct (key y <? k).
  - intros H. destruct (IH H). split; [by right|done].
  - destruct (key y =? k) eqn:E; [|done]. intros [= <-]. bool_to_prop. split; [left|done].
Qed.

Lemma sorted_by_cons x l :
  sorted_by (x :: l) <-> sorted_by l /\ (forall y, y ∈ l -> key x < key y).
Proof.
  unfold sorted_by. split.
  - intros H. inversion H as [|? ? Hs Hf]; subst. split; [done|].
    intros y Hy. by eapply Forall_forall in Hy; [|exact Hf].
  - intros [? Hf]. constructor; [done|]. by rewrite Forall_forall.
Qed.

Lemma find_sorted_elem l x :
  sorted_by l -> x ∈ l -> find_sorted (key x) l = Some x.
Proof.
  unfold find_sorted. induction l as [|y r IH]; simpl; intros Hs Hx.
  { by apply not_elem_of_nil in Hx. }
  apply sorted_by_cons in Hs as [Hs Hy].
  apply elem_of_cons in Hx as [->|Hx].
  - rewrite Z.ltb_irrefl, Z.eqb_refl. done.
  - pose proof (Hy x Hx). destruct (Z.ltb_spec (key y) (key x)); [auto|lia].
Qed.

Lemma find_sorted_None l k :
  sorted_by l -> find_sorted k l = None -> forall x, x ∈ l -> key x <> k.
Proof.
  intros Hs Hn x Hx <-. by rewrite find_sorted_elem in Hn.
Qed.

Lemma sorted_by_inj l x y :
  sorted_by l -> x ∈ l -> y ∈ l -> key x = key y -> x = y.
Proof.
  intros Hs Hx Hy E. pose proof (find_sorted_elem l x Hs Hx) as H1.
  pose proof (find_sorted_elem l y Hs Hy) as H2. congruence.
Qed.

Lemma sorted_by_NoDup l : sorted_by l -> NoDup (key <$> l).
Proof.
  induction l as [|x r IH]; intros Hs; [constructor|].
  apply sorted_by_cons in Hs as [Hs Hx]. constructor; [|auto].
  intros (y & Hk & Hy)%list_elem_of_fmap. specialize (Hx y Hy). lia.
Qed.
End Sorted_vectors.

(** ** Ordered maps

    [std::map<Id, Record>] is a [gmap]; iterating it visits the entries in
    increasing key order, which is [ordered]. *)

Definition key_le {A} (p q : Z * A) : Prop := p.1 <= q.1.

#[export] Instance key_le_dec {A} : RelDecision (@key_le A).
Proof. intros p q. unfold key_le. apply _. Defined.

#[export] Instance key_le_total {A} : Total (@key_le A).
Proof. intros p q. unfold key_le. lia. Qed.

#[export] Instance key_le_trans {A} : Transitive (@key_le A).
Proof. intros p q r. unfold key_le. lia. Qed.

Definition ordered {A} (m : gmap Z A) : list (Z * A) :=
  merge_sort key_le (map_to_list m).

Definition values {A} (m : gmap Z A) : list A := (ordered m).*2.

Lemma ordered_perm {A} (m : gmap Z A) : ordered m ≡ₚ map_to_list m.
Proof. apply merge_sort_Permutation. Qed.

Lemma elem_of_ordered {A} (m : gmap Z A) k x : (k, x) ∈ ordered m <-> m !! k = Some x.
Proof. rewrite ordered_perm. apply elem_of_map_to_list. Qed.

Lemma elem_of_values {A} (m : gmap Z A) x : x ∈ values m <-> exists k, m !! k = Some x.
Proof.
  unfold values. rewrite list_elem_of_fmap. split.
  - intros ([k y] & -> & H). apply elem_of_ordered in H. eauto.
  - intros [k H]. exists (k, x). split; [done|]. by apply elem_of_ordered.
Qed.

Lemma length_ordered {A} (m : gmap Z A) : List.length (ordered m) = size m.
Proof. rewrite ordered_perm. apply length_map_to_list. Qed.

Lemma length_values {A} (m : gmap Z A) : List.length (values m) = size m.
Proof. unfold values. rewrite length_fmap. apply length_ordered. Qed.

(** Two strictly sorted lists with the same elements are equal. *)
Lemma sorted_by_unique {A} (key : A -> Z) (l k : list A) :
  sorted_by key l -> sorted_by key k -> (forall x, x ∈ l <-> x ∈ k) -> l = k.
Proof.
  revert k. induction l as [|x r IH]; intros [|y k] Hl Hk E.
  - done.
  - exfalso. apply (not_elem_of_nil y), E. left.
  - exfalso. apply (not_elem_of_nil x), E. left.
  - apply sorted_by_cons in Hl as [Hl Hx]. apply sorted_by_cons in Hk as [Hk Hy].
    assert (x = y) as <-.
    { assert (x ∈ y :: k) as Hin by (apply E; left).
      assert (y ∈ x :: r) as Hin' by (apply E; left).
      apply elem_of_cons in Hin as [->|Hin]; [done|].
      apply elem_of_cons in Hin' as [->|Hin']; [done|].
      specialize (Hx y Hin'). specialize (Hy x Hin). lia. }
    f_equal. apply IH; [done..|]. intros z. split; intros Hz.
    + assert (z ∈ x :: k) as H by (apply E; by right).
      apply elem_of_cons in H as [->|]; [|done]. specialize (Hx x Hz). lia.
    + assert (z ∈ x :: r) as H by (apply E; by right).
      apply elem_of_cons in H as [->|]; [|done]. specialize (Hy x Hz). lia.
Qed.

Lemma ordered_strict {A} (m : gmap Z A) : sorted_by fst (ordered m).
Proof.
  assert (NoDup (ordered m).*1) as Hnd.
  { unfold ordered. rewrite merge_sort_Permutation. apply NoDup_fst_map_to_list. }
  assert (StronglySorted key_le (ordered m)) as Hs.
  { apply StronglySorted_merge_sort; apply _. }
  revert Hnd Hs. generalize (ordered m). intros l. induction l as [|p l IH]; intros Hnd Hs.
  { constructor. }
  simpl in Hnd. apply NoDup_cons in Hnd as [Hp Hnd].
  inversion Hs as [|? ? Hs' Hf]; subst. rewrite Forall_forall in Hf.
  apply sorted_by_cons. split; [auto|]. intros q Hq.
  assert (p.1 <> q.1). { intros E. apply Hp. rewrite E. by apply list_elem_of_fmap_2. }
  pose proof (Hf q Hq) as Hle.
  unfold key_le in Hle. lia.
Qed.

(** A map whose keys are the identities of its records. *)
Definition keyed {A} (key : A -> Z) (m : gmap Z A) : Prop :=
  forall k x, m !! k = Some x -> key x = k.

Lemma keyed_empty {A} (key : A -> Z) : keyed key ∅.
Proof. intros k x. by rewrite lookup_empty. Qed.

Lemma keyed_insert {A} (key : A -> Z) m x :
  keyed key m -> keyed key (<[key x := x]> m).
Proof.
  intros H k y. rewrite lookup_insert. case_decide; [by intros [= <-]|]. apply H.
Qed.

Lemma values_sorted {A} (key : A -> Z) (m : gmap Z A) :
  keyed key m -> sorted_by key (values m).
Proof.
  intros Hk. unfold values. pose proof (ordered_strict m) as Hs.
  assert (forall p, p ∈ ordered m -> key p.2 = p.1) as Hp.
  { intros [k x] H. apply elem_of_ordered in H. simpl. by apply Hk. }
  revert Hs Hp. generalize (ordered m). intros l.
  induction l as [|p l IH]; intros Hs Hp; [constructor|].
  apply sorted_by_cons in Hs as [Hs Hlt].
  simpl. apply sorted_by_cons. split.
  - apply IH; [done|]. intros q Hq. apply Hp. by right.
  - intros y (q & -> & Hq)%list_elem_of_fmap.
    rewrite (Hp p) by left. rewrite (Hp q) by by right. by apply Hlt.
Qed.

#[export] Hint Resolve keyed_empty keyed_insert values_sorted : slf.

(** Loading a strictly sorted vector into a map and listing the map again is
    the identity: this is what makes the canonical encoding independent of the
    order in which the records arrived. *)
Definition map_of {A} (key : A -> Z) (l : list A) : gmap Z A :=
  fold_left (fun m x => <[key x := x]> m) l ∅.

Lemma map_of_snoc {A} (key : A -> Z) l x :
  map_of key (l ++ [x]) = <[key x := x]> (map_of key l).
Proof. unfold map_of. by rewrite fold_left_app. Qed.

Lemma map_of_keyed {A} (key : A -> Z) l : keyed key (map_of key l).
Proof.
  induction l as [|x l IH] using rev_ind; [apply keyed_empty|].
  rewrite map_of_snoc. auto with slf.
Qed.

Lemma map_of_lookup {A} (key : A -> Z) l k x :
  map_of key l !! k = Some x -> x ∈ l.
Proof.
  induction l as [|y l IH] using rev_ind; [done|].
  rewrite map_of_snoc, lookup_insert. rewrite elem_of_app. case_decide.
  - intros [= <-]. right. left.
  - auto.
Qed.

Lemma map_of_elem {A} (key : A -> Z) l x :
  NoDup (key <$> l) -> x ∈ l -> map_of key l !! key x = Some x.
Proof.
  induction l as [|y l IH] using rev_ind; intros Hnd Hx; [by apply not_elem_of_nil in Hx|].
  rewrite fmap_app in Hnd. apply NoDup_app in Hnd as (Hnd & Hdis & _).
  rewrite map_of_snoc, lookup_insert. apply elem_of_app in Hx as [Hx|Hx].
  - rewrite decide_False; [auto|]. intros E. apply (Hdis (key x)).
    + by apply list_elem_of_fmap_2.
    + rewrite <- E. simpl. left.
  - apply list_elem_of_singleton in Hx as ->. by rewrite decide_True.
Qed.

Lemma values_map_of {A} (key : A -> Z) l : sorted_by key l -> values (map_of key l) = l.
Proof.
  intros Hs. eapply sorted_by_unique; [apply values_sorted, map_of_keyed|done|].
  intros x. rewrite elem_of_values. split.
  - intros [k Hk]. by eapply map_of_lookup.
  - intros Hx. exists (key x). apply map_of_elem; [|done]. by apply sorted_by_NoDup.
Qed.

Lemma map_of_perm {A} (key : A -> Z) l k :
  NoDup (key <$> l) -> l ≡ₚ k -> map_of key l = map_of key k.
Proof.
  intros Hnd Hp. apply map_eq. intros i.
  assert (NoDup (key <$> k)) as Hnd' by by rewrite <- Hp.
  apply option_eq. intros x. split; intros H.
  - pose proof (map_of_keyed key l i x H) as <-.
    apply map_of_lookup in H. apply map_of_elem; [done|]. by rewrite <- Hp.
  - pose proof (map_of_keyed key k i x H) as <-.
    apply map_of_lookup in H. apply map_of_elem; [done|]. by rewrite Hp.
Qed.

Lemma find_values {A} (key : A -> Z) (m : gmap Z A) k :
  keyed key m -> find_sorted key k (values m) = m !! k.
Proof.
  intros Hk. pose proof (values_sorted key m Hk) as Hs.
  destruct (m !! k) as [x|] eqn:E.
  - rewrite <- (Hk k x E). apply find_sorted_elem; [done|]. apply elem_of_values. eauto.
  - destruct (find_sorted key k (values m)) as [x|] eqn:F; [|done].
    apply find_sorted_Some in F as [[k' H]%elem_of_values <-].
    rewrite (Hk k' x H), H in E. done.
Qed.

Lemma elem_of_concat {A} (x : A) ls : x ∈ concat ls <-> exists l, l ∈ ls /\ x ∈ l.
Proof.
  rewrite list_elem_of_In, in_concat. split; intros (l & H1 & H2); exists l;
    rewrite !list_elem_of_In in *; done.
Qed.
