(* ===== verification/Status.v ===== *)
(** * Typed outcomes (include/slf/status.hpp, src/status.cpp)

    The status vocabulary, status values with their detail text, and the
    [Outcome] result type every fallible operation returns, with its monad. *)
From S2P Require Import Prelude.

(** [SC_other n] is a value of the underlying [std::uint16_t] with no
    enumerator: decoders cast a wire value without a range check. *)
Inductive StatusCode : Type :=
| SC_Ok
| SC_Unknown
| SC_Invalid
| SC_NotFound
| SC_DuplicateIdentity
| SC_DanglingEdge
| SC_IllegalAdjacency
| SC_ContradictoryRole
| SC_CrossGeneration
| SC_Stale
| SC_Conflicting
| SC_Incomplete
| SC_Indeterminate
| SC_Unsupported
| SC_Refused
| SC_Fenced
| SC_Cancelled
| SC_Exhausted
| SC_Overflow
| SC_IntegrityError
| SC_Corrupt
| SC_Truncated
| SC_IncompatibleVersion
| SC_IoError
| SC_Busy
| SC_Closed
| SC_AlreadyExists
| SC_NotStarted
| SC_DeadlineExpired
| SC_Internal
| SC_other (n : Z).

#[export] Instance StatusCode_eq_dec : EqDecision StatusCode.
Proof. solve_decision. Defined.

(** The numeric value of a code, part of the wire and journal formats. *)
Definition StatusCode_to_u16 (c : StatusCode) : Z :=
  match c with
  | SC_Ok => 0
  | SC_Unknown => 1
  | SC_Invalid => 2
  | SC_NotFound => 3
  | SC_DuplicateIdentity => 4
  | SC_DanglingEdge => 5
  | SC_IllegalAdjacency => 6
  | SC_ContradictoryRole => 7
  | SC_CrossGeneration => 8
  | SC_Stale => 9
  | SC_Conflicting => 10
  | SC_Incomplete => 11
  | SC_Indeterminate => 12
  | SC_Unsupported => 13
  | SC_Refused => 14
  | SC_Fenced => 15
  | SC_Cancelled => 16
  | SC_Exhausted => 17
  | SC_Overflow => 18
  | SC_IntegrityError => 19
  | SC_Corrupt => 20
  | SC_Truncated => 21
  | SC_IncompatibleVersion => 22
  | SC_IoError => 23
  | SC_Busy => 24
  | SC_Closed => 25
  | SC_AlreadyExists => 26
  | SC_NotStarted => 27
  | SC_DeadlineExpired => 28
  | SC_Internal => 29
  | SC_other n => n
  end.

(** [static_cast<StatusCode>(value)]. *)
Definition StatusCode_of_u16 (n : Z) : StatusCode :=
  match n with
  | 0 => SC_Ok
  | 1 => SC_Unknown
  | 2 => SC_Invalid
  | 3 => SC_NotFound
  | 4 => SC_DuplicateIdentity
  | 5 => SC_DanglingEdge
  | 6 => SC_IllegalAdjacency
  | 7 => SC_ContradictoryRole
  | 8 => SC_CrossGeneration
  | 9 => SC_Stale
  | 10 => SC_Conflicting
  | 11 => SC_Incomplete
  | 12 => SC_Indeterminate
  | 13 => SC_Unsupported
  | 14 => SC_Refused
  | 15 => SC_Fenced
  | 16 => SC_Cancelled
  | 17 => SC_Exhausted
  | 18 => SC_Overflow
  | 19 => SC_IntegrityError
  | 20 => SC_Corrupt
  | 21 => SC_Truncated
  | 22 => SC_IncompatibleVersion
  | 23 => SC_IoError
  | 24 => SC_Busy
  | 25 => SC_Closed
  | 26 => SC_AlreadyExists
  | 27 => SC_NotStarted
  | 28 => SC_DeadlineExpired
  | 29 => SC_Internal
  | _ => SC_other n
  end.

Definition StatusCode_to_string (c : StatusCode) : string :=
  match c with
  | SC_Ok => "ok"
  | SC_Unknown => "unknown"
  | SC_Invalid => "invalid"
  | SC_NotFound => "not_found"
  | SC_DuplicateIdentity => "duplicate_identity"
  | SC_DanglingEdge => "dangling_edge"
  | SC_IllegalAdjacency => "illegal_adjacency"
  | SC_ContradictoryRole => "contradictory_role"
  | SC_CrossGeneration => "cross_generation"
  | SC_Stale => "stale"
  | SC_Conflicting => "conflicting"
  | SC_Incomplete => "incomplete"
  | SC_Indeterminate => "indeterminate"
  | SC_Unsupported => "unsupported"
  | SC_Refused => "refused"
  | SC_Fenced => "fenced"
  | SC_Cancelled => "cancelled"
  | SC_Exhausted => "exhausted"
  | SC_Overflow => "overflow"
  | SC_IntegrityError => "integrity_error"
  | SC_Corrupt => "corrupt"
  | SC_Truncated => "truncated"
  | SC_IncompatibleVersion => "incompatible_version"
  | SC_IoError => "io_error"
  | SC_Busy => "busy"
  | SC_Closed => "closed"
  | SC_AlreadyExists => "already_exists"
  | SC_NotStarted => "not_started"
  | SC_DeadlineExpired => "deadline_expired"
  | SC_Internal => "internal"
  | SC_other _ => "internal"
  end.

Definition is_ok (c : StatusCode) : bool := bool_decide (c = SC_Ok).

Definition is_indeterminate (c : StatusCode) : bool :=
  bool_decide (c = SC_Unknown) || bool_decide (c = SC_Indeterminate)
  || bool_decide (c = SC_Incomplete) || bool_decide (c = SC_Unsupported).

Definition is_stale_family (c : StatusCode) : bool :=
  bool_decide (c = SC_Stale) || bool_decide (c = SC_Fenced).

Record Status : Type := MkStatus { code : StatusCode; detail : string }.

#[export] Instance Status_eq_dec : EqDecision Status.
Proof. solve_decision. Defined.

Definition success : Status := MkStatus SC_Ok "".

Definition status_ok (s : Status) : bool := is_ok (code s).

Definition Status_to_string (s : Status) : string :=
  if bool_decide (detail s = "") then StatusCode_to_string (code s)
  else StatusCode_to_string (code s) ++ ": " ++ detail s.

(** [Outcome<T>]: a value or a status. The status held by a failed outcome is
    never [Ok] in this code base; [value()] is only reached after [ok()]. *)
Inductive Outcome (A : Type) : Type :=
| Value (v : A)
| Failure (s : Status).
Arguments Value {A} v.
Arguments Failure {A} s.

#[export] Instance Outcome_eq_dec {A} `{EqDecision A} : EqDecision (Outcome A).
Proof. solve_decision. Defined.

#[export] Instance Outcome_ret : MRet Outcome := fun A v => Value v.
#[export] Instance Outcome_bind : MBind Outcome := fun A B f o =>
  match o with Value v => f v | Failure s => Failure s end.

Definition fail {A} (c : StatusCode) (d : string) : Outcome A := Failure (MkStatus c d).

Definition ok {A} (o : Outcome A) : bool :=
  match o with Value _ => true | Failure _ => false end.

Definition outcome_code {A} (o : Outcome A) : StatusCode :=
  match o with Value _ => SC_Ok | Failure s => code s end.

Definition value_or {A} (o : Outcome A) (fallback : A) : A :=
  match o with Value v => v | Failure _ => fallback end.

(** A [Status]-returning call used as a step of an [Outcome] computation:
    [if (!status.ok()) return status;]. *)
Definition check (s : Status) : Outcome unit :=
  if status_ok s then Value tt else Failure s.

(** ** Laws *)

Lemma bind_Value {A B} (f : A -> Outcome B) o b :
  (o ≫= f) = Value b <-> exists a, o = Value a /\ f a = Value b.
Proof.
  destruct o as [v|s]; simpl; split.
  - intros H. by exists v.
  - intros (a & [= ->] & H). done.
  - done.
  - by intros (a & ? & ?).
Qed.

Lemma check_Value s u : check s = Value u -> code s = SC_Ok.
Proof. unfold check, status_ok, is_ok. case_bool_decide; done. Qed.

Lemma status_ok_spec s : status_ok s = true <-> code s = SC_Ok.
Proof. unfold status_ok, is_ok. by rewrite bool_decide_eq_true. Qed.

Lemma StatusCode_of_to_u16 c :
  (forall n, c <> SC_other n) -> StatusCode_of_u16 (StatusCode_to_u16 c) = c.
Proof. intros H. destruct c; try reflexivity. by destruct (H n). Qed.

Lemma StatusCode_to_of_u16 n : StatusCode_to_u16 (StatusCode_of_u16 n) = n.
Proof.
  destruct n as [|p|p]; [done| |done].
  do 5 (destruct p as [p|p|]; try done).
Qed.

(** The names printed for the enumerators are pairwise distinct, so distinct
    failure conditions never collapse in CLI or protocol output. *)
Lemma StatusCode_to_string_inj c d :
  (forall n, c <> SC_other n) -> (forall n, d <> SC_other n) ->
  StatusCode_to_string c = StatusCode_to_string d -> c = d.
Proof.
  intros Hc Hd E. destruct c; try (by destruct (Hc n));
  destruct d; try (by destruct (Hd n)); try done.
Qed.

(** Simplifies hypotheses of the form [outcome = Value _] through binds. *)
Ltac inv_value :=
  repeat match goal with
  | H : (_ ≫= _) = Value _ |- _ => apply bind_Value in H as (? & ? & ?)
  | H : Value _ = Value _ |- _ => injection H as H; subst
  | H : Failure _ = Value _ |- _ => discriminate H
  | H : fail _ _ = Value _ |- _ => discriminate H
  | H : check _ = Value _ |- _ => apply check_Value in H
  end.
