(* ===== verification/Checked.v ===== *)
(** * Checked arithmetic (include/slf/checked.hpp)

    [bool f(a, b, out&)] is an option: [None] is the [false] return, which
    leaves [out] untouched. *)
From S2P Require Import Prelude.

Definition checked_add (a b : Z) : option Z :=
  if a >? u64_max - b then None else Some (a + b).

Definition checked_sub (a b : Z) : option Z :=
  if b >? a then None else Some (a - b).

Definition checked_mul (a b : Z) : option Z :=
  if (a =? 0) || (b =? 0) then Some 0
  else if a >? u64_max / b then None
  else Some (a * b).

Definition checked_div (a b : Z) : option Z :=
  if b =? 0 then None else Some (a / b).

Definition checked_widen (v : Z) : option Z :=
  if v <? 0 then None else Some v.

Definition checked_narrow_u32 (v : Z) : option Z :=
  if v >? u32_max then None else Some v.

Definition checked_narrow_u16 (v : Z) : option Z :=
  if v >? 2 ^ 16 - 1 then None else Some v.

Definition checked_narrow_u8 (v : Z) : option Z :=
  if v >? 2 ^ 8 - 1 then None else Some v.

Fixpoint checked_sum_from (acc : Z) (l : list Z) : option Z :=
  match l with
  | [] => Some acc
  | x :: r => match checked_add acc x with
              | Some acc' => checked_sum_from acc' r
              | None => None
              end
  end.

Definition checked_sum (l : list Z) : option Z := checked_sum_from 0 l.

(** The Euclid loop. Each two iterations at least halve the larger operand, so
    [gcd_fuel] (twice the width plus three) iterations always reach [b = 0]. *)
Fixpoint gcd_loop (fuel : nat) (a b : Z) : option Z :=
  match fuel with
  | O => None
  | S fuel' => if b =? 0 then Some a else gcd_loop fuel' b (a mod b)
  end.

Definition gcd_fuel : nat := 131.

Definition gcd_u64 (a b : Z) : Z := default 0 (gcd_loop gcd_fuel a b).

Definition saturating_mul (a b : Z) : Z := default u64_max (checked_mul a b).
Definition saturating_add (a b : Z) : Z := default u64_max (checked_add a b).

(** ** Lemmas *)

Lemma checked_add_spec a b c :
  u64_ok a -> u64_ok b ->
  checked_add a b = Some c <-> c = a + b /\ u64_ok (a + b).
Proof.
  unfold checked_add, u64_max, fits. intros Ha Hb.
  destruct (Z.gtb_spec a (2 ^ 64 - 1 - b)) as [Hg|Hg]; split; intros H; try lia; try done.
  - injection H as <-. lia.
  - f_equal. lia.
Qed.

Lemma checked_add_Some a b c :
  u64_ok a -> u64_ok b -> checked_add a b = Some c -> c = a + b /\ u64_ok c.
Proof. intros Ha Hb H. apply checked_add_spec in H as [-> ?]; done. Qed.

Lemma checked_mul_spec a b c :
  u64_ok a -> u64_ok b ->
  checked_mul a b = Some c <-> c = a * b /\ u64_ok (a * b).
Proof.
  unfold checked_mul, u64_max, fits. intros Ha Hb.
  destruct (Z.eqb_spec a 0) as [->|Ha0]; simpl.
  { split; [intros [= <-]; lia|]. intros [-> _]. done. }
  destruct (Z.eqb_spec b 0) as [->|Hb0]; simpl.
  { rewrite Z.mul_0_r. split; [intros [= <-]; lia|]. intros [-> _]. done. }
  destruct (Z.gtb_spec a ((2 ^ 64 - 1) / b)) as [H|H].
  - split; [done|]. intros [_ Hab].
    pose proof (Z.div_lt_upper_bound (2 ^ 64 - 1) b a ltac:(lia)).
    assert (2 ^ 64 - 1 < b * a \/ b * a <= 2 ^ 64 - 1) as [|Hle] by lia; [lia|].
    pose proof (Z.div_le_lower_bound (2 ^ 64 - 1) b a ltac:(lia) ltac:(lia)). lia.
  - assert (a * b <= 2 ^ 64 - 1).
    { pose proof (Z.mul_div_le (2 ^ 64 - 1) b ltac:(lia)). nia. }
    split; [intros [= <-]; nia|]. intros [-> _]. done.
Qed.

Lemma checked_sum_from_spec acc l :
  u64_ok acc -> Forall (fits 64) l ->
  checked_sum_from acc l
  = (if decide (u64_ok (acc + foldr Z.add 0 l)) then Some (acc + foldr Z.add 0 l) else None).
Proof.
  intros Hacc Hl. revert acc Hacc. induction Hl as [|x l Hx Hl IH]; intros acc Hacc; simpl.
  - rewrite Z.add_0_r. by rewrite decide_True.
  - assert (0 <= foldr Z.add 0 l).
    { clear -Hl. induction Hl as [|y l [Hy _] _ IH]; simpl; lia. }
    destruct (checked_add acc x) as [acc'|] eqn:E.
    + apply checked_add_Some in E as [-> Hf]; [|done..]. rewrite IH by done.
      by rewrite <- Z.add_assoc.
    + rewrite decide_False; [done|]. intros Hf.
      assert (checked_add acc x = Some (acc + x)) as E'; [|by rewrite E' in E].
      apply checked_add_spec; [done..|]. split; [done|].
      unfold fits in *. lia.
Qed.

Lemma gcd_loop_S n a b :
  gcd_loop (S n) a b = if b =? 0 then Some a else gcd_loop n b (a mod b).
Proof. done. Qed.

Lemma gcd_loop_sound fuel a b g :
  0 <= a -> 0 <= b -> gcd_loop fuel a b = Some g -> g = Z.gcd a b.
Proof.
  revert a b. induction fuel as [|fuel IH]; intros a b Ha Hb; simpl; [done|].
  destruct (Z.eqb_spec b 0) as [->|Hb0].
  - intros [= <-]. by rewrite Z.gcd_0_r_nonneg.
  - intros H. apply IH in H; [|lia|apply Z.mod_pos_bound; lia].
    rewrite H. rewrite Z.gcd_comm, Z.gcd_mod by lia. apply Z.gcd_comm.
Qed.

(** [b * 2 ^ k] bounds the operands that two more rounds per bit finish. *)
Lemma gcd_loop_enough (k : nat) a b :
  0 <= b <= a -> b < 2 ^ Z.of_nat k -> exists g, gcd_loop (2 * k + 2) a b = Some g.
Proof.
  revert a b. induction k as [|k IH]; intros a b Hab Hb.
  - assert (b = 0) as -> by (simpl in Hb; lia). simpl. eauto.
  - replace (2 * S k + 2)%nat with (S (S (2 * k + 2))) by lia. rewrite gcd_loop_S.
    destruct (Z.eqb_spec b 0) as [->|Hb0]; [eauto|].
    pose proof (Z.mod_pos_bound a b ltac:(lia)) as Hr.
    set (r := a mod b) in *. rewrite gcd_loop_S.
    destruct (Z.eqb_spec r 0) as [->|Hr0]; [eauto|].
    pose proof (Z.mod_pos_bound b r ltac:(lia)) as Hq.
    apply IH; [lia|].
    assert (2 * (b mod r) < b).
    { pose proof (Z.div_mod b r ltac:(lia)).
      assert (1 <= b / r) by (apply Z.div_le_lower_bound; lia). nia. }
    rewrite Nat2Z.inj_succ, Z.pow_succ_r in Hb by lia. lia.
Qed.

(** C++ [gcd_u64] terminates on every pair of 64-bit operands and returns their
    greatest common divisor. *)
Lemma gcd_loop_total a b : u64_ok a -> u64_ok b -> exists g, gcd_loop gcd_fuel a b = Some g.
Proof.
  unfold fits. intros Ha Hb. unfold gcd_fuel. rewrite gcd_loop_S.
  destruct (Z.eqb_spec b 0) as [_|Hb0]; [by exists a|].
  pose proof (Z.mod_pos_bound a b ltac:(lia)).
  apply (gcd_loop_enough 64 b (a mod b)); [lia|].
  change (2 ^ Z.of_nat 64) with (2 ^ 64). lia.
Qed.

Lemma gcd_u64_spec a b : u64_ok a -> u64_ok b -> gcd_u64 a b = Z.gcd a b.
Proof.
  intros Ha Hb. unfold gcd_u64. destruct (gcd_loop_total a b Ha Hb) as [g Hg].
  rewrite Hg. simpl. unfold fits in *. eapply gcd_loop_sound in Hg; lia.
Qed.


