(* ===== verification/Identity.v ===== *)
(** * Identities, parsing and text validity (include/slf/identity.hpp, src/identity.cpp)

    Strongly typed identifiers are [Z] in the range of their representation
    (32 bits for leaf, spine, port, link and domain ids, 64 bits for the others);
    node keys, controller incarnations, strict decimal and hexadecimal parsing,
    and the UTF-8 validator. *)
From S2P Require Import Prelude.

(** The tags of [StrongId<Tag, Rep>] are documentation here: the kernel sees
    the representation. *)
Abbreviation FabricId := Z (only parsing).
Abbreviation LeafId := Z (only parsing).
Abbreviation SpineId := Z (only parsing).
Abbreviation PortId := Z (only parsing).
Abbreviation LinkId := Z (only parsing).
Abbreviation FailureDomainId := Z (only parsing).
Abbreviation TopologyGeneration := Z (only parsing).
Abbreviation Epoch := Z (only parsing).
Abbreviation RoleIncarnation := Z (only parsing).
Abbreviation LeaseId := Z (only parsing).
Abbreviation RequestId := Z (only parsing).
Abbreviation SequenceNumber := Z (only parsing).

Definition is_zero (id : Z) : bool := id =? 0.

(** [T_other n] is a [Tier] value with no enumerator, produced by an unchecked
    [static_cast] of a wire byte. *)
Inductive Tier : Type := T_Leaf | T_Spine | T_other (n : Z).

#[export] Instance Tier_eq_dec : EqDecision Tier.
Proof. solve_decision. Defined.

Definition Tier_to_u8 (t : Tier) : Z :=
  match t with T_Leaf => 0 | T_Spine => 1 | T_other n => n end.

Definition Tier_of_u8 (n : Z) : Tier :=
  match n with 0 => T_Leaf | 1 => T_Spine | _ => T_other n end.

Definition Tier_to_string (t : Tier) : string :=
  if bool_decide (t = T_Leaf) then "leaf" else "spine".

Definition parse_tier (text : string) : option Tier :=
  if bool_decide (text = "leaf") then Some T_Leaf
  else if bool_decide (text = "spine") then Some T_Spine
  else None.

Record NodeKey : Type := MkNode { tier : Tier; index : Z }.

#[export] Instance NodeKey_eq_dec : EqDecision NodeKey.
Proof. solve_decision. Defined.

Definition node_of_leaf (id : LeafId) : NodeKey := MkNode T_Leaf id.
Definition node_of_spine (id : SpineId) : NodeKey := MkNode T_Spine id.

(** [operator<]: tier first, then index. *)
Definition node_lt (a b : NodeKey) : bool :=
  if bool_decide (tier a = tier b) then index a <? index b
  else Tier_to_u8 (tier a) <? Tier_to_u8 (tier b).

Record ControllerIncarnation : Type := MkInc { hi : Z; lo : Z }.

#[export] Instance ControllerIncarnation_eq_dec : EqDecision ControllerIncarnation.
Proof. solve_decision. Defined.

Definition zero_incarnation : ControllerIncarnation := MkInc 0 0.

Definition inc_is_zero (i : ControllerIncarnation) : bool := (hi i =? 0) && (lo i =? 0).

Definition inc_lt (a b : ControllerIncarnation) : bool :=
  if hi a =? hi b then lo a <? lo b else hi a <? hi b.

(** ** Decimal text *)

(** [std::to_string] of an unsigned value: at most 20 digits for 64 bits. *)
Fixpoint dec_digits (fuel : nat) (z : Z) (acc : list byte) : list byte :=
  let acc' := byte_of_Z (48 + z mod 10) :: acc in
  match fuel with
  | O => acc'
  | S f => if z / 10 =? 0 then acc' else dec_digits f (z / 10) acc'
  end.

Definition std_to_string (z : Z) : string := text_of (dec_digits 19 z []).

Fixpoint parse_digits (value : Z) (bs : list byte) : option Z :=
  match bs with
  | [] => Some value
  | c :: r =>
      if (Z_of_byte c <? 48) || (Z_of_byte c >? 57) then None
      else let digit := Z_of_byte c - 48 in
        if value >? (u64_max - digit) / 10 then None
        else parse_digits (value * 10 + digit) r
  end.

Definition parse_u64 (text : string) : option Z :=
  let bs := bytes_of text in
  if (Zlen bs =? 0) || (Zlen bs >? 20) then None else parse_digits 0 bs.

Definition parse_u32 (text : string) : option Z :=
  match parse_u64 text with
  | Some v => if v >? u32_max then None else Some v
  | None => None
  end.

(** ** Identity text *)

Definition FabricId_to_string (id : FabricId) : string := "fabric:" ++ std_to_string id.
Definition LeafId_to_string (id : LeafId) : string := "leaf:" ++ std_to_string id.
Definition SpineId_to_string (id : SpineId) : string := "spine:" ++ std_to_string id.
Definition PortId_to_string (id : PortId) : string := "port:" ++ std_to_string id.
Definition LinkId_to_string (id : LinkId) : string := "link:" ++ std_to_string id.
Definition FailureDomainId_to_string (id : FailureDomainId) : string :=
  "domain:" ++ std_to_string id.

Definition NodeKey_to_string (key : NodeKey) : string :=
  if bool_decide (tier key = T_Leaf) then LeafId_to_string (index key)
  else SpineId_to_string (index key).

(** [text.find(c)] with the two [substr] halves around the first occurrence. *)
Fixpoint split_at_byte (c : byte) (bs : list byte) : option (list byte * list byte) :=
  match bs with
  | [] => None
  | b :: r => if bool_decide (b = c) then Some ([], r)
              else match split_at_byte c r with
                   | Some (p, s) => Some (b :: p, s)
                   | None => None
                   end
  end.

Definition parse_node_key (text : string) : option NodeKey :=
  match split_at_byte x3a (bytes_of text) with
  | None => None
  | Some (tier_text, index_text) =>
      match parse_tier (text_of tier_text) with
      | None => None
      | Some t => match parse_u32 (text_of index_text) with
                  | None => None
                  | Some i => Some (MkNode t i)
                  end
      end
  end.

Definition parse_leaf_id (text : string) : option LeafId :=
  match parse_node_key text with
  | Some key => if bool_decide (tier key = T_Leaf) then Some (index key) else None
  | None => None
  end.

Definition parse_spine_id (text : string) : option SpineId :=
  match parse_node_key text with
  | Some key => if bool_decide (tier key = T_Spine) then Some (index key) else None
  | None => None
  end.

(** ** Hexadecimal text *)

Definition hex_value (c : byte) : option Z :=
  let z := Z_of_byte c in
  if (48 <=? z) && (z <=? 57) then Some (z - 48)
  else if (97 <=? z) && (z <=? 102) then Some (z - 97 + 10)
  else if (65 <=? z) && (z <=? 70) then Some (z - 65 + 10)
  else None.

(** [kHexDigits[d]]. *)
Definition hex_char (d : Z) : byte := byte_of_Z (if d <? 10 then 48 + d else 97 + (d - 10)).

(** [hex_digits n v] is the loop over [shift = 4 * (n - 1), ..., 4, 0]. *)
Fixpoint hex_digits (n : nat) (v : Z) : list byte :=
  match n with
  | O => []
  | S m => hex_char (Z.land (Z.shiftr v (4 * Z.of_nat m)) 15) :: hex_digits m v
  end.

Definition hex_u64 (v : Z) : list byte := hex_digits 16 v.

Definition incarnation_to_string (i : ControllerIncarnation) : string :=
  text_of (hex_u64 (hi i) ++ hex_u64 (lo i)).

Fixpoint parse_hex (acc : Z) (bs : list byte) : option Z :=
  match bs with
  | [] => Some acc
  | c :: r => match hex_value c with
              | None => None
              | Some v => parse_hex (Z.lor (wrap 64 (Z.shiftl acc 4)) v) r
              end
  end.

Definition strip_0x (bs : list byte) : list byte :=
  match bs with
  | a :: b :: r => if bool_decide (a = x30) && (bool_decide (b = x78) || bool_decide (b = x58))
                   then r else bs
  | _ => bs
  end.

Definition parse_incarnation (text : string) : option ControllerIncarnation :=
  let bs := strip_0x (bytes_of text) in
  if negb (Zlen bs =? 32) then None
  else match parse_hex 0 (take 16 bs) with
       | None => None
       | Some h => match parse_hex 0 (drop 16 bs) with
                   | None => None
                   | Some l => Some (MkInc h l)
                   end
       end.

(** [mint_incarnation] from the process counter, the process id and the two
    clock readings, with the 64-bit wrap-around of each operation. *)
Definition mint_incarnation (seq pid now mono : Z) : ControllerIncarnation :=
  let h0 := wrap 64 (pid * 0x9E3779B97F4A7C15) in
  let h := Z.lxor h0 (wrap 64 (now + 0x165667B19E3779F9 + Z.shiftl h0 6 + Z.shiftr h0 2)) in
  let l0 := wrap 64 (mono * 0xC2B2AE3D27D4EB4F) in
  let l := Z.lxor l0 (wrap 64 (seq * 0x27D4EB2F165667C5 + Z.shiftl l0 7 + Z.shiftr l0 3)) in
  if (h =? 0) && (l =? 0) then MkInc h 1 else MkInc h l.

(** ** UTF-8 *)

(** Leading byte of a multi-byte sequence: the number of continuation bytes and
    the payload bits it contributes. *)
Definition utf8_lead (b : Z) : option (nat * Z) :=
  if Z.land b 0xE0 =? 0xC0 then Some (1%nat, Z.land b 0x1F)
  else if Z.land b 0xF0 =? 0xE0 then Some (2%nat, Z.land b 0x0F)
  else if Z.land b 0xF8 =? 0xF0 then Some (3%nat, Z.land b 0x07)
  else None.

Fixpoint utf8_conts (k : nat) (cp : Z) (bs : list byte) : option (Z * list byte) :=
  match k with
  | O => Some (cp, bs)
  | S k' => match bs with
            | [] => None
            | c :: r => if negb (Z.land (Z_of_byte c) 0xC0 =? 0x80) then None
                        else utf8_conts k' (Z.lor (Z.shiftl cp 6) (Z.land (Z_of_byte c) 0x3F)) r
            end
  end.

(** Overlong forms, values above U+10FFFF and surrogates are refused. *)
Definition utf8_cp_ok (extra : nat) (cp : Z) : bool :=
  negb ((Nat.eqb extra 1) && (cp <? 0x80))
  && negb ((Nat.eqb extra 2) && (cp <? 0x800))
  && negb ((Nat.eqb extra 3) && (cp <? 0x10000))
  && negb (cp >? 0x10FFFF)
  && negb ((cp >=? 0xD800) && (cp <=? 0xDFFF)).

(** The loop consumes at least one byte per iteration, so the length of the
    text is enough fuel. *)
Fixpoint utf8_loop (fuel : nat) (bs : list byte) : bool :=
  match bs with
  | [] => true
  | b :: r =>
      match fuel with
      | O => false
      | S f =>
          if Z_of_byte b <? 0x80 then utf8_loop f r
          else match utf8_lead (Z_of_byte b) with
               | None => false
               | Some (extra, cp0) =>
                   if Zlen r <? Z.of_nat extra then false
                   else match utf8_conts extra cp0 r with
                        | None => false
                        | Some (cp, rest) =>
                            if utf8_cp_ok extra cp then utf8_loop f rest else false
                        end
               end
      end
  end.

Definition is_valid_utf8 (text : string) : bool :=
  let bs := bytes_of text in utf8_loop (List.length bs) bs.

(** ** Lemmas: text and numbers *)

Lemma bytes_of_app s t : bytes_of (s ++ t) = bytes_of s ++ bytes_of t.
Proof.
  unfold bytes_of. induction s as [|c s IH]; [done|].
  cbn [String.append list_byte_of_string list_ascii_of_string] in *.
  unfold list_byte_of_string in *. simpl. by rewrite IH.
Qed.

Lemma byte_of_Z_digit d : 0 <= d < 10 -> Z_of_byte (byte_of_Z (48 + d)) = 48 + d.
Proof. intros H. rewrite Z_of_byte_of_Z. apply Z.mod_small. lia. Qed.

Lemma dec_digits_length fuel z acc :
  (List.length acc < List.length (dec_digits fuel z acc) <= List.length acc + S fuel)%nat.
Proof.
  revert z acc. induction fuel as [|f IH]; intros z acc; cbn [dec_digits]; [simpl; lia|].
  destruct (z / 10 =? 0); [simpl; lia|].
  specialize (IH (z / 10) (byte_of_Z (48 + z mod 10) :: acc)). simpl in IH. lia.
Qed.

(** Printed numbers are made of decimal digits, at least one. *)
Definition is_digit (b : byte) : Prop := 48 <= Z_of_byte b <= 57.

Lemma dec_digits_digits fuel z acc : Forall is_digit acc -> Forall is_digit (dec_digits fuel z acc).
Proof.
  revert z acc. induction fuel as [|f IH]; intros z acc H; cbn [dec_digits];
    assert (is_digit (byte_of_Z (48 + z mod 10))) as Hd
      by (unfold is_digit; pose proof (Z.mod_pos_bound z 10 ltac:(lia)); rewrite byte_of_Z_digit; lia).
  - by constructor.
  - case_match; [by constructor|]. apply IH. by constructor.
Qed.

Lemma std_to_string_digits z : Forall is_digit (bytes_of (std_to_string z)).
Proof. unfold std_to_string. rewrite bytes_of_text_of. by apply dec_digits_digits. Qed.

Lemma std_to_string_length z : (0 < List.length (bytes_of (std_to_string z)) <= 20)%nat.
Proof.
  unfold std_to_string. rewrite bytes_of_text_of. pose proof (dec_digits_length 19 z []) as H.
  change (List.length (@nil byte)) with 0%nat in H. lia.
Qed.

Lemma parse_digits_step v d r :
  0 <= d < 10 -> 0 <= v -> v * 10 + d <= u64_max ->
  parse_digits v (byte_of_Z (48 + d) :: r) = parse_digits (v * 10 + d) r.
Proof.
  intros Hd Hv Hle. cbn [parse_digits]. rewrite byte_of_Z_digit by done.
  destruct (Z.ltb_spec (48 + d) 48); [lia|].
  destruct (Z.gtb_spec (48 + d) 57); [lia|]. simpl.
  replace (48 + d - 48) with d by lia.
  destruct (Z.gtb_spec v ((u64_max - d) / 10)) as [Hg|]; [|done].
  pose proof (Z.div_le_lower_bound (u64_max - d) 10 v). lia.
Qed.

Lemma parse_dec_digits fuel z acc :
  0 <= z < 10 ^ (Z.of_nat fuel + 1) -> z <= u64_max ->
  parse_digits 0 (dec_digits fuel z acc) = parse_digits z acc.
Proof.
  revert z acc. induction fuel as [|f IH]; intros z acc Hz Hmax; cbn [dec_digits].
  - change (10 ^ (Z.of_nat 0 + 1)) with 10 in Hz. rewrite Z.mod_small by lia.
    rewrite parse_digits_step by lia. f_equal.
  - pose proof (Z.div_mod z 10 ltac:(lia)) as Hdm.
    pose proof (Z.mod_pos_bound z 10 ltac:(lia)) as Hm.
    destruct (Z.eqb_spec (z / 10) 0) as [E|E].
    + rewrite parse_digits_step by lia. f_equal. lia.
    + rewrite IH.
      * rewrite parse_digits_step by lia. f_equal. lia.
      * split; [apply Z.div_pos; lia|].
        replace (Z.of_nat (S f) + 1) with (Z.succ (Z.of_nat f + 1)) in Hz by lia.
        rewrite Z.pow_succ_r in Hz by lia. apply Z.div_lt_upper_bound; lia.
      * lia.
Qed.

Lemma parse_u64_to_string z : u64_ok z -> parse_u64 (std_to_string z) = Some z.
Proof.
  unfold fits. intros Hz. unfold parse_u64, std_to_string. rewrite bytes_of_text_of.
  pose proof (dec_digits_length 19 z []) as Hl. change (List.length (@nil byte)) with 0%nat in Hl.
  destruct (Z.eqb_spec (Zlen (dec_digits 19 z [])) 0) as [E|_]; [unfold Zlen in E; lia|].
  destruct (Z.gtb_spec (Zlen (dec_digits 19 z [])) 20) as [E|_]; [unfold Zlen in E; lia|].
  cbn [orb]. rewrite parse_dec_digits; [done| |unfold u64_max; lia].
  change (10 ^ (Z.of_nat 19 + 1)) with 100000000000000000000. lia.
Qed.

Lemma parse_u32_to_string z : u32_ok z -> parse_u32 (std_to_string z) = Some z.
Proof.
  intros Hz. unfold parse_u32. rewrite parse_u64_to_string by (by eapply (fits_mono 32)).
  unfold fits, u32_max in *. destruct (Z.gtb_spec z (2 ^ 32 - 1)); [lia|done].
Qed.

(** Everything the strict parser accepts is in range. *)
Lemma parse_digits_range v bs z :
  0 <= v <= u64_max -> parse_digits v bs = Some z -> 0 <= z <= u64_max.
Proof.
  revert v. induction bs as [|c r IH]; intros v Hv; cbn [parse_digits].
  - by intros [= <-].
  - destruct (_ || _)%bool eqn:E; [done|]. apply orb_false_iff in E as [E1 E2].
    destruct (Z.gtb_spec v ((u64_max - (Z_of_byte c - 48)) / 10)) as [|Hle]; [done|].
    bool_to_prop.
    pose proof (Z.mul_div_le (u64_max - (Z_of_byte c - 48)) 10 ltac:(lia)).
    apply IH. lia.
Qed.

Lemma split_at_byte_app c p s : c ∉ p -> split_at_byte c (p ++ c :: s) = Some (p, s).
Proof.
  induction p as [|b p IH]; intros Hc; cbn [app split_at_byte].
  - by rewrite bool_decide_true.
  - rewrite bool_decide_false by (intros ->; apply Hc; left).
    rewrite IH; [done|]. intros H. apply Hc. by right.
Qed.

(** The key format [leaf:<n>] / [spine:<n>] parses back to the key. *)
Lemma parse_node_key_to_string key :
  (forall n, tier key <> T_other n) -> u32_ok (index key) ->
  parse_node_key (NodeKey_to_string key) = Some key.
Proof.
  destruct key as [[| |n] i]; simpl; intros Ht Hi; [..|by destruct (Ht n)];
    unfold NodeKey_to_string, LeafId_to_string, SpineId_to_string, parse_node_key; simpl tier.
  - rewrite bool_decide_true by done. rewrite bytes_of_app.
    change (bytes_of "leaf:") with (bytes_of "leaf" ++ [x3a]).
    rewrite <- (assoc_L (++)). cbn [app].
    rewrite split_at_byte_app by (compute_done || (vm_compute; set_solver)).
    rewrite !text_of_bytes_of. simpl. rewrite parse_u32_to_string; done.
  - rewrite bool_decide_false by done. rewrite bytes_of_app.
    change (bytes_of "spine:") with (bytes_of "spine" ++ [x3a]).
    rewrite <- (assoc_L (++)). cbn [app].
    rewrite split_at_byte_app by (compute_done || (vm_compute; set_solver)).
    rewrite !text_of_bytes_of. simpl. rewrite parse_u32_to_string; done.
Qed.

(** ** Lemmas: hexadecimal *)

Lemma hex_value_char d : 0 <= d < 16 -> hex_value (hex_char d) = Some d.
Proof.
  intros Hd.
  assert (d = 0 \/ d = 1 \/ d = 2 \/ d = 3 \/ d = 4 \/ d = 5 \/ d = 6 \/ d = 7 \/ d = 8 \/
    d = 9 \/ d = 10 \/ d = 11 \/ d = 12 \/ d = 13 \/ d = 14 \/ d = 15) as H by lia.
  by destruct_or!; subst.
Qed.

Lemma hex_digits_length n v : List.length (hex_digits n v) = n.
Proof. induction n; simpl; auto. Qed.

Lemma land_15 z : Z.land z 15 = z mod 16.
Proof. change 15 with (Z.ones 4). rewrite Z.land_ones by lia. done. Qed.

Lemma testbit_above b k i : 0 <= k <= i -> 0 <= b < 2 ^ k -> Z.testbit b i = false.
Proof.
  intros Hk Hb. destruct (Z.eq_dec b 0) as [->|]; [apply Z.bits_0|].
  apply Z.bits_above_log2; [lia|]. apply Z.log2_lt_pow2; [lia|].
  pose proof (Z.pow_le_mono_r 2 k i). lia.
Qed.

Lemma lor_shiftl_small a k b :
  0 <= k -> 0 <= b < 2 ^ k -> Z.lor (Z.shiftl a k) b = a * 2 ^ k + b.
Proof.
  intros Hk Hb. rewrite Z.shiftl_mul_pow2 by lia.
  assert (Z.land (a * 2 ^ k) b = 0) as Hl.
  { apply Z.bits_inj'. intros i Hi. rewrite Z.land_spec, Z.bits_0.
    destruct (Z.ltb_spec i k).
    - by rewrite Z.mul_pow2_bits_low by lia.
    - rewrite (testbit_above b k i) by lia. apply andb_false_r. }
  rewrite <- Z.lxor_lor, Z.add_nocarry_lxor; done.
Qed.

Lemma parse_hex_digits n acc v tail :
  0 <= acc -> 0 <= v -> acc * 16 ^ Z.of_nat n + v mod 16 ^ Z.of_nat n < 2 ^ 64 ->
  parse_hex acc (hex_digits n v ++ tail)
  = parse_hex (acc * 16 ^ Z.of_nat n + v mod 16 ^ Z.of_nat n) tail.
Proof.
  revert acc. induction n as [|n IH]; intros acc Hacc Hv Hlt.
  - simpl. rewrite Z.mod_1_r. by rewrite Z.mul_1_r, Z.add_0_r.
  - cbn [hex_digits app parse_hex].
    set (p := 16 ^ Z.of_nat n) in *.
    assert (0 < p) as Hp by (apply Z.pow_pos_nonneg; lia).
    assert (16 ^ Z.of_nat (S n) = 16 * p) as Hs
      by (rewrite Nat2Z.inj_succ, Z.pow_succ_r by lia; done).
    rewrite Hs in Hlt |- *.
    rewrite land_15. rewrite hex_value_char by (apply Z.mod_pos_bound; lia).
    set (d := Z.shiftr v (4 * Z.of_nat n) mod 16).
    assert (0 <= d < 16) as Hd by (apply Z.mod_pos_bound; lia).
    assert (v mod (16 * p) = d * p + v mod p) as Hmod.
    { rewrite Z.mul_comm. rewrite Z.rem_mul_r by lia.
      unfold d. rewrite Z.shiftr_div_pow2 by lia.
      rewrite Z.pow_mul_r by lia. fold p. change (2 ^ 4) with 16. fold p. lia. }
    rewrite Hmod in Hlt |- *.
    pose proof (Z.mod_pos_bound v p Hp).
    rewrite wrap_small.
    2: { unfold fits. rewrite Z.shiftl_mul_pow2 by lia. change (2 ^ 4) with 16. nia. }
    rewrite lor_shiftl_small by (change (2 ^ 4) with 16; lia). change (2 ^ 4) with 16.
    rewrite IH by nia. f_equal. lia.
Qed.

Lemma parse_hex_u64 v : u64_ok v -> parse_hex 0 (hex_u64 v) = Some v.
Proof.
  unfold fits, hex_u64. intros Hv. rewrite <- (app_nil_r (hex_digits 16 v)).
  rewrite parse_hex_digits; change (16 ^ Z.of_nat 16) with (2 ^ 64);
    rewrite ?Z.mod_small by lia; try lia. done.
Qed.

Lemma hex_char_not_x d b : 0 <= d < 16 -> b = x78 \/ b = x58 -> hex_char d <> b.
Proof.
  intros Hd Hb E. assert (hex_value (hex_char d) = Some d) as H by by apply hex_value_char.
  rewrite E in H. by destruct Hb as [-> | ->].
Qed.

(** Printing an incarnation gives 32 hexadecimal digits that parse back. *)
Lemma parse_incarnation_to_string i :
  u64_ok (hi i) -> u64_ok (lo i) ->
  parse_incarnation (incarnation_to_string i) = Some i.
Proof.
  intros Hh Hl. unfold parse_incarnation, incarnation_to_string. rewrite bytes_of_text_of.
  assert (strip_0x (hex_u64 (hi i) ++ hex_u64 (lo i)) = hex_u64 (hi i) ++ hex_u64 (lo i)) as ->.
  { unfold hex_u64. change 16%nat with (S (S 14)) at 1 3. cbn [hex_digits app strip_0x].
    rewrite !land_15.
    rewrite (bool_decide_false (hex_char (Z.shiftr (hi i) (4 * Z.of_nat 14) mod 16) = x78)),
      (bool_decide_false (hex_char (Z.shiftr (hi i) (4 * Z.of_nat 14) mod 16) = x58)).
    - by rewrite andb_false_r.
    - apply hex_char_not_x; [apply Z.mod_pos_bound; lia|auto].
    - apply hex_char_not_x; [apply Z.mod_pos_bound; lia|auto]. }
  assert (List.length (hex_u64 (hi i)) = 16%nat) as H16 by apply hex_digits_length.
  unfold Zlen. rewrite length_app. unfold hex_u64 at 2. rewrite H16, hex_digits_length.
  simpl negb. cbv iota.
  rewrite take_app_length' by done. rewrite drop_app_length' by done.
  rewrite !parse_hex_u64 by done. by destruct i.
Qed.

(** ** UTF-8: the validator against the encoding of Unicode scalar values *)

Definition scalar_value (cp : Z) : Prop :=
  0 <= cp <= 0x10FFFF /\ ~ (0xD800 <= cp <= 0xDFFF).

Definition utf8_encode (cp : Z) : list byte :=
  if cp <? 0x80 then [byte_of_Z cp]
  else if cp <? 0x800 then [byte_of_Z (192 + cp / 64); byte_of_Z (128 + cp mod 64)]
  else if cp <? 0x10000 then
    [byte_of_Z (224 + cp / 4096); byte_of_Z (128 + cp / 64 mod 64); byte_of_Z (128 + cp mod 64)]
  else [byte_of_Z (240 + cp / 262144); byte_of_Z (128 + cp / 4096 mod 64);
        byte_of_Z (128 + cp / 64 mod 64); byte_of_Z (128 + cp mod 64)].

Lemma utf8_lead_byte b :
  utf8_lead (Z_of_byte b)
  = (let z := Z_of_byte b in
     if (192 <=? z) && (z <? 224) then Some (1%nat, z - 192)
     else if (224 <=? z) && (z <? 240) then Some (2%nat, z - 224)
     else if (240 <=? z) && (z <? 248) then Some (3%nat, z - 240)
     else None).
Proof. destruct b; reflexivity. Qed.

Lemma utf8_cont_byte b :
  (Z.land (Z_of_byte b) 0xC0 =? 0x80) = ((128 <=? Z_of_byte b) && (Z_of_byte b <? 192))%bool.
Proof. destruct b; reflexivity. Qed.

Lemma utf8_cont_bits b :
  (Z.land (Z_of_byte b) 0xC0 =? 0x80) = true -> Z.land (Z_of_byte b) 0x3F = Z_of_byte b - 128.
Proof. destruct b; (reflexivity || discriminate). Qed.

Lemma utf8_conts_S k cp c r :
  0 <= cp -> 128 <= Z_of_byte c < 192 ->
  utf8_conts (S k) cp (c :: r) = utf8_conts k (cp * 64 + (Z_of_byte c - 128)) r.
Proof.
  intros Hcp Hc. cbn [utf8_conts].
  assert ((Z.land (Z_of_byte c) 0xC0 =? 0x80) = true) as E.
  { rewrite utf8_cont_byte. apply andb_true_iff. split; [apply Z.leb_le|apply Z.ltb_lt]; lia. }
  rewrite E. cbn [negb]. rewrite utf8_cont_bits by done.
  rewrite lor_shiftl_small by lia. done.
Qed.

Lemma utf8_conts_inv k cp bs cp' rest :
  0 <= cp -> utf8_conts (S k) cp bs = Some (cp', rest) ->
  exists c r, bs = c :: r /\ 128 <= Z_of_byte c < 192 /\
    utf8_conts k (cp * 64 + (Z_of_byte c - 128)) r = Some (cp', rest).
Proof.
  intros Hcp H. destruct bs as [|c r]; [done|]. exists c, r. split; [done|].
  assert (128 <= Z_of_byte c < 192) as Hc.
  { cbn [utf8_conts] in H. rewrite utf8_cont_byte in H.
    destruct (_ && _)%bool eqn:E; [|done]. bool_to_prop. lia. }
  split; [done|]. by rewrite utf8_conts_S in H.
Qed.

Lemma byte_of_Z_val z : 0 <= z < 256 -> Z_of_byte (byte_of_Z z) = z.
Proof. intros H. rewrite Z_of_byte_of_Z. by apply Z.mod_small. Qed.

Lemma byte_eq_of_Z b z : Z_of_byte b = z -> b = byte_of_Z z.
Proof. intros <-. by rewrite byte_of_Z_of_byte. Qed.

Lemma utf8_cp_ok_scalar extra cp : 0 <= cp -> utf8_cp_ok extra cp = true -> scalar_value cp.
Proof.
  unfold utf8_cp_ok, scalar_value. intros Hcp H. bool_to_prop.
  split; [lia|]. intros Hd.
  match goal with H : (_ && _)%bool = false |- _ =>
    apply andb_false_iff in H as [H|H]; [rewrite Z.geb_leb in H|]; bool_to_prop; lia end.
Qed.

(** Consumes continuation bytes while [Ec] has a successor count. *)
Ltac conts Ec :=
  let c := fresh "c" in let r := fresh "r" in let Hc := fresh "Hc" in
  match type of Ec with utf8_conts _ ?cp _ = _ =>
    let H := fresh "H" in assert (0 <= cp) as H by lia;
    apply (utf8_conts_inv _ _ _ _ _ H) in Ec as (c & r & -> & Hc & Ec); clear H
  end.

(** One accepted multi-byte iteration consumes the encoding of a scalar value. *)
Lemma utf8_sequence b r extra cp0 cp rest :
  utf8_lead (Z_of_byte b) = Some (extra, cp0) ->
  utf8_conts extra cp0 r = Some (cp, rest) -> utf8_cp_ok extra cp = true ->
  scalar_value cp /\ b :: r = utf8_encode cp ++ rest.
Proof.
  rewrite utf8_lead_byte. cbv zeta. intros Hl Ec Hok.
  assert (0 <= cp -> scalar_value cp) as Hs by (intros; by eapply utf8_cp_ok_scalar).
  unfold utf8_cp_ok in Hok. bool_to_prop.
  destruct (_ && _)%bool eqn:E1 in Hl; [|destruct (_ && _)%bool eqn:E2 in Hl;
    [|destruct (_ && _)%bool eqn:E3 in Hl; [|done]]]; injection Hl as <- <-; bool_to_prop;
    [conts Ec|conts Ec; conts Ec|conts Ec; conts Ec; conts Ec];
    injection Ec as <- <-; (split; [apply Hs; lia|]); simpl in *; bool_to_prop;
    unfold utf8_encode; repeat case_match; bool_to_prop; try lia;
    cbn [app]; repeat f_equal; apply byte_eq_of_Z; clear Hs; divlia.
Qed.

Lemma utf8_loop_sound f bs :
  utf8_loop f bs = true ->
  exists cps, Forall scalar_value cps /\ bs = concat (utf8_encode <$> cps).
Proof.
  revert bs. induction f as [|f IH]; intros [|b r] H; try (by exists []).
  cbn [utf8_loop] in H. pose proof (Z_of_byte_range b) as Hb.
  assert (forall cp rest, scalar_value cp -> b :: r = utf8_encode cp ++ rest ->
    utf8_loop f rest = true ->
    exists cps, Forall scalar_value cps /\ b :: r = concat (utf8_encode <$> cps)) as Hd.
  { intros cp rest Hcp -> Hrest. destruct (IH _ Hrest) as (cps & Hs & ->).
    exists (cp :: cps). by split; [constructor|]. }
  destruct (Z.ltb_spec (Z_of_byte b) 0x80) as [Hlt|Hge].
  { apply (Hd (Z_of_byte b) r); [unfold scalar_value; lia| |done]. unfold utf8_encode.
    destruct (Z.ltb_spec (Z_of_byte b) 0x80); [|lia]. by rewrite byte_of_Z_of_byte. }
  destruct (utf8_lead (Z_of_byte b)) as [[extra cp0]|] eqn:El; [|done].
  destruct (Zlen r <? Z.of_nat extra); [done|].
  destruct (utf8_conts extra cp0 r) as [[cp rest]|] eqn:Ec; [|done].
  destruct (utf8_cp_ok extra cp) eqn:Eo; [|done].
  destruct (utf8_sequence _ _ _ _ _ _ El Ec Eo) as [Hcp Heq]. by eapply Hd.
Qed.

Lemma utf8_cp_ok_intro extra cp :
  scalar_value cp ->
  (extra = 1%nat /\ 0x80 <= cp \/ extra = 2%nat /\ 0x800 <= cp \/ extra = 3%nat /\ 0x10000 <= cp) ->
  utf8_cp_ok extra cp = true.
Proof.
  unfold scalar_value, utf8_cp_ok. intros Hs H.
  rewrite !andb_true_iff, !negb_true_iff, !andb_false_iff, Z.gtb_ltb, Z.geb_leb, !Z.ltb_ge,
    !Z.leb_gt, !Nat.eqb_neq. lia.
Qed.

Lemma utf8_loop_encode f cp rest :
  scalar_value cp -> utf8_loop (S f) (utf8_encode cp ++ rest) = utf8_loop f rest.
Proof.
  intros Hs. assert (0 <= cp <= 0x10FFFF) as Hr by apply Hs. unfold utf8_encode.
  assert (forall extra cp0 b r, utf8_lead (Z_of_byte b) = Some (extra, cp0) ->
    128 <= Z_of_byte b -> Z.of_nat extra <= Zlen r -> utf8_conts extra cp0 r = Some (cp, rest) ->
    utf8_cp_ok extra cp = true -> utf8_loop (S f) (b :: r) = utf8_loop f rest) as Hstep.
  { intros extra cp0 b r Hl Hb Hlen Hc Hok. cbn [utf8_loop]. rewrite Hl, Hc, Hok.
    destruct (Z.ltb_spec (Z_of_byte b) 0x80); [lia|].
    destruct (Z.ltb_spec (Zlen r) (Z.of_nat extra)); [lia|done]. }
  repeat case_match; bool_to_prop; cbn [app].
  { cbn [utf8_loop]. rewrite byte_of_Z_val by lia.
    destruct (Z.ltb_spec cp 0x80); [done|lia]. }
  - apply (Hstep 1%nat (cp / 64)); rewrite ?utf8_lead_byte, ?byte_of_Z_val; try divlia.
    + cbv zeta. repeat case_match; bool_to_prop; try divlia. f_equal. f_equal. divlia.
    + unfold Zlen. simpl. lia.
    + rewrite utf8_conts_S; rewrite ?byte_of_Z_val by divlia; try divlia.
      cbn [utf8_conts]. repeat f_equal. divlia.
    + apply utf8_cp_ok_intro; [done|lia].
  - apply (Hstep 2%nat (cp / 4096)); rewrite ?utf8_lead_byte, ?byte_of_Z_val; try divlia.
    + cbv zeta. repeat case_match; bool_to_prop; try divlia. f_equal. f_equal. divlia.
    + unfold Zlen. simpl. lia.
    + rewrite !utf8_conts_S; rewrite ?byte_of_Z_val by divlia; try divlia.
      cbn [utf8_conts]. repeat f_equal. divlia.
    + apply utf8_cp_ok_intro; [done|lia].
  - apply (Hstep 3%nat (cp / 262144)); rewrite ?utf8_lead_byte, ?byte_of_Z_val; try divlia.
    + cbv zeta. repeat case_match; bool_to_prop; try divlia. f_equal. f_equal. divlia.
    + unfold Zlen. simpl. lia.
    + rewrite !utf8_conts_S; rewrite ?byte_of_Z_val by divlia; try divlia.
      cbn [utf8_conts]. repeat f_equal. divlia.
    + apply utf8_cp_ok_intro; [done|lia].
Qed.

Lemma utf8_encode_length cp : (1 <= List.length (utf8_encode cp))%nat.
Proof. unfold utf8_encode. repeat case_match; simpl; lia. Qed.

Lemma utf8_loop_complete cps f :
  Forall scalar_value cps -> (List.length (concat (utf8_encode <$> cps)) <= f)%nat ->
  utf8_loop f (concat (utf8_encode <$> cps)) = true.
Proof.
  intros Hs. revert f. induction Hs as [|cp cps Hcp Hs IH]; intros f Hf; [by destruct f|].
  cbn [fmap list_fmap concat] in *. rewrite length_app in Hf.
  pose proof (utf8_encode_length cp). destruct f as [|f]; [lia|].
  rewrite utf8_loop_encode by done. apply IH. unfold fmap in *. lia.
Qed.

(** [is_valid_utf8] accepts exactly the concatenations of encodings of Unicode
    scalar values: no overlong form, no surrogate, nothing above U+10FFFF. *)
Lemma is_valid_utf8_spec s :
  is_valid_utf8 s = true
  <-> exists cps, Forall scalar_value cps /\ bytes_of s = concat (utf8_encode <$> cps).
Proof.
  unfold is_valid_utf8. split; [apply utf8_loop_sound|].
  intros (cps & Hs & ->). by apply utf8_loop_complete.
Qed.

Lemma is_valid_utf8_app s t :
  is_valid_utf8 s = true -> is_valid_utf8 t = true -> is_valid_utf8 (s ++ t) = true.
Proof.
  rewrite !is_valid_utf8_spec. intros (c1 & H1 & E1) (c2 & H2 & E2).
  exists (c1 ++ c2). split; [by apply Forall_app|].
  by rewrite bytes_of_app, E1, E2, fmap_app, concat_app.
Qed.

(** C40: [is_valid_utf8] accepts a byte string exactly when it is a sequence of
    UTF-8 encodings of Unicode scalar values: no overlong form, no surrogate, nothing
    above U+10FFFF, no truncated sequence. *)
Theorem utf8_validator_exact s :
  is_valid_utf8 s = true
  <-> exists cps, Forall scalar_value cps /\ bytes_of s = concat (utf8_encode <$> cps).
Proof. apply is_valid_utf8_spec. Qed.

(** the strict parsers invert the printers: a 64-bit number, a node key of
    either tier and a controller incarnation are recovered from their text. *)
Theorem identity_text_roundtrip z key i :
  u64_ok z -> (forall n, tier key <> T_other n) -> u32_ok (index key) -> u64_ok (hi i) -> u64_ok (lo i) ->
  parse_u64 (std_to_string z) = Some z
  /\ parse_node_key (NodeKey_to_string key) = Some key
  /\ parse_incarnation (incarnation_to_string i) = Some i.
Proof.
  intros Hz Ht Hk Hh Hl. split; [by apply parse_u64_to_string|].
  split; [by apply parse_node_key_to_string|by apply parse_incarnation_to_string].
Qed.

Lemma identity_text_roundtrip_witness :
  parse_node_key (NodeKey_to_string (node_of_spine 12)) = Some (node_of_spine 12)
  /\ parse_incarnation (incarnation_to_string (MkInc 5 255)) = Some (MkInc 5 255).
Proof.
  destruct (identity_text_roundtrip 7 (node_of_spine 12) (MkInc 5 255)) as (_ & H1 & H2);
    [split; [discriminate|reflexivity]|intros n; discriminate|split; [discriminate|reflexivity]..|].
  split; [exact H1|exact H2].
Defined.
