(* ===== verification/Bytes.v ===== *)
(** * Bounded byte writer and reader (include/slf/bytes.hpp, src/bytes.cpp)

    [ByteWriter] appends to a buffer under a byte bound; [ByteReader] consumes a
    byte span. Most encoders ignore the status of each write ([(void)writer...]),
    which is [writes]; decoders are computations of the [Reader] monad. *)
From S2P Require Import Prelude Status Identity.

(** ** Writer *)

Record ByteWriter : Type := MkWriter { buffer : list byte; max_bytes : Z }.

Definition kDefaultMaxBytes : Z := 64 * 1024 * 1024.

Definition new_writer (max : Z) : ByteWriter := MkWriter [] max.

Definition require (w : ByteWriter) (additional : Z) : Status :=
  if (additional >? max_bytes w) || (Zlen (buffer w) >? max_bytes w - additional)
  then MkStatus SC_Exhausted "byte writer bound exceeded"
  else success.

Definition append_buffer (w : ByteWriter) (l : list byte) : ByteWriter :=
  MkWriter (buffer w ++ l) (max_bytes w).

(** [buffer_.push_back] after a successful [require]. *)
Definition push_bytes (w : ByteWriter) (l : list byte) : Status * ByteWriter :=
  let s := require w (Zlen l) in
  if negb (status_ok s) then (s, w) else (success, append_buffer w l).

Definition write_u8 (w : ByteWriter) (v : Z) : Status * ByteWriter :=
  push_bytes w (le_store 1 0 v).
Definition write_u16 (w : ByteWriter) (v : Z) : Status * ByteWriter :=
  push_bytes w (le_store 2 0 v).
Definition write_u32 (w : ByteWriter) (v : Z) : Status * ByteWriter :=
  push_bytes w (le_store 4 0 v).
Definition write_u64 (w : ByteWriter) (v : Z) : Status * ByteWriter :=
  push_bytes w (le_store 8 0 v).
Definition write_bytes (w : ByteWriter) (l : list byte) : Status * ByteWriter :=
  push_bytes w l.

Definition write_block (w : ByteWriter) (l : list byte) : Status * ByteWriter :=
  if Zlen l >? u32_max then (MkStatus SC_Overflow "block length does not fit in u32", w)
  else let '(s, w1) := write_u32 w (Zlen l) in
    if negb (status_ok s) then (s, w1) else write_bytes w1 l.

Definition write_string (w : ByteWriter) (t : string) : Status * ByteWriter :=
  if strlen t >? u32_max then (MkStatus SC_Overflow "string length does not fit in u32", w)
  else if negb (is_valid_utf8 t) then (MkStatus SC_Invalid "string is not valid UTF-8", w)
  else let '(s, w1) := write_u32 w (strlen t) in
    if negb (status_ok s) then (s, w1) else write_bytes w1 (bytes_of t).

(** One writer call with its argument. *)
Inductive WriteOp : Type :=
| WU8 (v : Z) | WU16 (v : Z) | WU32 (v : Z) | WU64 (v : Z)
| WBytes (l : list byte) | WBlock (l : list byte) | WString (t : string).

Definition write_op (w : ByteWriter) (op : WriteOp) : Status * ByteWriter :=
  match op with
  | WU8 v => write_u8 w v
  | WU16 v => write_u16 w v
  | WU32 v => write_u32 w v
  | WU64 v => write_u64 w v
  | WBytes l => write_bytes w l
  | WBlock l => write_block w l
  | WString t => write_string w t
  end.

(** A sequence of writer calls whose statuses are discarded. *)
Definition writes (w : ByteWriter) (ops : list WriteOp) : ByteWriter :=
  fold_left (fun w op => (write_op w op).2) ops w.

(** [append_u16], [append_u32], [append_u64] on a raw vector. *)
Definition append_u16 (out : list byte) (v : Z) : list byte := out ++ le_store 2 0 v.
Definition append_u32 (out : list byte) (v : Z) : list byte := out ++ le_store 4 0 v.
Definition append_u64 (out : list byte) (v : Z) : list byte := out ++ le_store 8 0 v.

(** ** Reader *)

(** [br_rest] is [data_.subspan(offset_)]. *)
Record ByteReader : Type :=
  MkReader { br_rest : list byte; br_offset : Z; br_max_string : Z }.

Definition kDefaultMaxString : Z := 1 * 1024 * 1024.

Definition new_reader (data : list byte) (max_string : Z) : ByteReader :=
  MkReader data 0 max_string.

Definition remaining (r : ByteReader) : Z := Zlen (br_rest r).
Definition exhausted (r : ByteReader) : bool := remaining r =? 0.

Definition expect_end (r : ByteReader) : Status :=
  if negb (exhausted r)
  then MkStatus SC_Invalid "trailing bytes after the expected structure"
  else success.

Definition Reader (A : Type) : Type := ByteReader -> Outcome A * ByteReader.

#[export] Instance Reader_ret : MRet Reader := fun A v r => (Value v, r).
#[export] Instance Reader_bind : MBind Reader := fun A B f m r =>
  match m r with
  | (Value v, r') => f v r'
  | (Failure s, r') => (Failure s, r')
  end.

Definition reader_fail {A} (c : StatusCode) (d : string) : Reader A := fun r => (fail c d, r).

(** Takes [count] bytes when they are available. *)
Definition take_bytes (count : Z) (what : string) : Reader (list byte) := fun r =>
  if remaining r <? count then (fail SC_Truncated ("byte reader exhausted reading " ++ what), r)
  else (Value (take (Z.to_nat count) (br_rest r)),
        MkReader (drop (Z.to_nat count) (br_rest r)) (br_offset r + count) (br_max_string r)).

Definition read_le (n : Z) (what : string) : Reader Z :=
  l ← take_bytes n what; mret (le_load 0 l).

Definition read_u8 : Reader Z := read_le 1 "u8".
Definition read_u16 : Reader Z := read_le 2 "u16".
Definition read_u32 : Reader Z := read_le 4 "u32".
Definition read_u64 : Reader Z := read_le 8 "u64".
Definition read_bytes (count : Z) : Reader (list byte) := take_bytes count "byte block".

Definition read_block (max : Z) : Reader (list byte) :=
  size ← read_u32;
  if size >? max
  then reader_fail SC_Exhausted "declared block length exceeds the configured bound"
  else read_bytes size.

Definition read_string : Reader string := fun r =>
  (size ← read_u32;
   if size >? br_max_string r
   then reader_fail SC_Exhausted "declared string length exceeds the configured bound"
   else raw ← read_bytes size;
     if is_valid_utf8 (text_of raw) then mret (text_of raw)
     else reader_fail SC_Invalid "string is not valid UTF-8") r.

(** The decoders read every field of a record and then test all the outcomes at
    once, returning one status whatever field was at fault: [fields c d m] runs
    the reads of [m] and reports any failure among them as [(c, d)]. The reads
    after a failed one have no effect beyond the reader, which is dropped. *)
Definition fields {A} (c : StatusCode) (d : string) (m : Reader A) : Reader A := fun r =>
  match m r with
  | (Value v, r') => (Value v, r')
  | (Failure _, r') => (fail c d, r')
  end.

Definition ensure (b : bool) (c : StatusCode) (d : string) : Reader unit := fun r =>
  if b then (Value tt, r) else (fail c d, r).

Definition lift {A} (o : Outcome A) : Reader A := fun r => (o, r).

Fixpoint read_n {A} (n : nat) (m : Reader A) : Reader (list A) :=
  match n with
  | O => mret []
  | S n' => x ← m; l ← read_n n' m; mret (x :: l)
  end.

(** ** Writer lemmas *)

(** The bytes a successful call appends. *)
Definition enc (op : WriteOp) : list byte :=
  match op with
  | WU8 v => le_store 1 0 v
  | WU16 v => le_store 2 0 v
  | WU32 v => le_store 4 0 v
  | WU64 v => le_store 8 0 v
  | WBytes l => l
  | WBlock l => le_store 4 0 (Zlen l) ++ l
  | WString t => le_store 4 0 (strlen t) ++ bytes_of t
  end.

Definition encs (ops : list WriteOp) : list byte := concat (enc <$> ops).

(** The calls that fail only for lack of room. *)
Definition op_ok (op : WriteOp) : Prop :=
  match op with
  | WBlock l => Zlen l <= u32_max
  | WString t => strlen t <= u32_max /\ is_valid_utf8 t = true
  | _ => True
  end.

Lemma encs_cons op ops : encs (op :: ops) = enc op ++ encs ops.
Proof. done. Qed.

Lemma encs_app ops ops' : encs (ops ++ ops') = encs ops ++ encs ops'.
Proof. unfold encs. by rewrite fmap_app, concat_app. Qed.

Lemma push_bytes_fit w l :
  Zlen (buffer w) + Zlen l <= max_bytes w -> push_bytes w l = (success, append_buffer w l).
Proof.
  intros H. pose proof (Zlen_nonneg (buffer w)). unfold push_bytes, require.
  destruct (Z.gtb_spec (Zlen l) (max_bytes w)); [lia|].
  destruct (Z.gtb_spec (Zlen (buffer w)) (max_bytes w - Zlen l)); [lia|]. done.
Qed.

(** A write never goes past the bound, whatever the argument. *)
Lemma push_bytes_bound w l :
  Zlen (buffer w) <= max_bytes w -> Zlen (buffer (push_bytes w l).2) <= max_bytes w.
Proof.
  intros H. unfold push_bytes, require.
  destruct (Z.gtb_spec (Zlen l) (max_bytes w)); [done|].
  destruct (Z.gtb_spec (Zlen (buffer w)) (max_bytes w - Zlen l)); [done|].
  simpl. rewrite Zlen_app. lia.
Qed.

Lemma push_bytes_max w l : max_bytes (push_bytes w l).2 = max_bytes w.
Proof. unfold push_bytes. by case_match. Qed.

(** A length prefix followed by its payload: [write_block] and [write_string]. *)
Definition push_prefixed (w : ByteWriter) (a b : list byte) : Status * ByteWriter :=
  let '(s, w1) := push_bytes w a in
  if negb (status_ok s) then (s, w1) else push_bytes w1 b.

Lemma push_prefixed_max w a b : max_bytes (push_prefixed w a b).2 = max_bytes w.
Proof.
  unfold push_prefixed. pose proof (push_bytes_max w a) as Hm.
  destruct (push_bytes w a) as [s w1]. simpl in Hm.
  case_match; simpl; [done|]. by rewrite push_bytes_max.
Qed.

Lemma push_prefixed_bound w a b :
  Zlen (buffer w) <= max_bytes w -> Zlen (buffer (push_prefixed w a b).2) <= max_bytes w.
Proof.
  intros H. unfold push_prefixed. pose proof (push_bytes_max w a) as Hm.
  pose proof (push_bytes_bound w a H) as Hb.
  destruct (push_bytes w a) as [s w1]. simpl in Hm, Hb.
  case_match; simpl; [done|]. rewrite <- Hm in *. by apply push_bytes_bound.
Qed.

Lemma write_op_push w op :
  (exists l, write_op w op = push_bytes w l) \/
  (exists a b, write_op w op = push_prefixed w a b) \/
  (exists s, write_op w op = (s, w)).
Proof.
  destruct op; cbn [write_op]; try (left; eexists; reflexivity); right;
    unfold write_block, write_string.
  - destruct (_ >? _); [right; by eexists|left]. by eexists (le_store 4 0 (Zlen l)), l.
  - destruct (_ >? _); [right; by eexists|]. destruct (negb _); [right; by eexists|left].
    by eexists (le_store 4 0 (strlen t)), (bytes_of t).
Qed.

Lemma write_op_max w op : max_bytes (write_op w op).2 = max_bytes w.
Proof.
  destruct (write_op_push w op) as [(l & ->)|[(a & b & ->)|(s & ->)]];
    [apply push_bytes_max|apply push_prefixed_max|done].
Qed.

Lemma write_op_bound w op :
  Zlen (buffer w) <= max_bytes w ->
  Zlen (buffer (write_op w op).2) <= max_bytes (write_op w op).2.
Proof.
  intros H. rewrite write_op_max.
  destruct (write_op_push w op) as [(l & ->)|[(a & b & ->)|(s & ->)]];
    [by apply push_bytes_bound|by apply push_prefixed_bound|done].
Qed.

Lemma writes_bound w ops :
  Zlen (buffer w) <= max_bytes w ->
  Zlen (buffer (writes w ops)) <= max_bytes w /\ max_bytes (writes w ops) = max_bytes w.
Proof.
  revert w. induction ops as [|op ops IH]; intros w H; [done|].
  change (writes w (op :: ops)) with (writes (write_op w op).2 ops).
  rewrite <- (write_op_max w op). apply IH. by apply write_op_bound.
Qed.

Lemma push_prefixed_fit w a b :
  Zlen (buffer w) + (Zlen a + Zlen b) <= max_bytes w ->
  push_prefixed w a b = (success, append_buffer w (a ++ b)).
Proof.
  intros H. pose proof (Zlen_nonneg b). unfold push_prefixed.
  rewrite push_bytes_fit by lia. change (negb (status_ok success)) with false. cbv iota.
  rewrite push_bytes_fit; unfold append_buffer; cbn [buffer max_bytes].
  - by rewrite (assoc_L (++)).
  - rewrite Zlen_app. lia.
Qed.

Lemma write_op_fit w op :
  op_ok op -> Zlen (buffer w) + Zlen (enc op) <= max_bytes w ->
  write_op w op = (success, append_buffer w (enc op)).
Proof.
  intros Hok Hfit.
  destruct op; cbn [write_op enc op_ok] in *;
    try (by apply push_bytes_fit); unfold write_block, write_string, write_u32;
    rewrite Zlen_app in Hfit.
  - destruct (Z.gtb_spec (Zlen l) u32_max); [lia|]. by apply push_prefixed_fit.
  - destruct Hok as [Hl Hu]. destruct (Z.gtb_spec (strlen t) u32_max); [lia|].
    rewrite Hu. by apply push_prefixed_fit.
Qed.

(** When the whole encoding fits, discarding the statuses is harmless. *)
Lemma writes_fit w ops :
  Forall op_ok ops -> Zlen (buffer w) + Zlen (encs ops) <= max_bytes w ->
  buffer (writes w ops) = buffer w ++ encs ops.
Proof.
  intros Hok. revert w. induction Hok as [|op ops Hop Hok IH]; intros w Hfit.
  - by rewrite app_nil_r.
  - rewrite encs_cons, Zlen_app in Hfit. pose proof (Zlen_nonneg (encs ops)).
    change (writes w (op :: ops)) with (writes (write_op w op).2 ops).
    rewrite write_op_fit by (done || lia). simpl. rewrite IH.
    + cbn [append_buffer buffer]. by rewrite <- (assoc_L (++)).
    + cbn [append_buffer buffer max_bytes]. rewrite Zlen_app. lia.
Qed.

Lemma writes_fit_new max ops :
  Forall op_ok ops -> Zlen (encs ops) <= max -> buffer (writes (new_writer max) ops) = encs ops.
Proof. intros Hok Hfit. by rewrite writes_fit. Qed.

(** ** Reader lemmas: a compositional decoding relation *)

(** [decodes mx m bs a]: under the string bound [mx], [m] consumes exactly [bs]
    from the front of any input and returns [a]. *)
Definition decodes {A} (mx : Z) (m : Reader A) (bs : list byte) (a : A) : Prop :=
  forall tail off,
    m (MkReader (bs ++ tail) off mx) = (Value a, MkReader tail (off + Zlen bs) mx).

Lemma decodes_ret {A} mx (a : A) : decodes mx (mret a) [] a.
Proof. intros tail off. unfold mret, Reader_ret. by rewrite Zlen_nil, Z.add_0_r. Qed.

Lemma decodes_bind {A B} mx (m : Reader A) (f : A -> Reader B) bs bs' a b :
  decodes mx m bs a -> decodes mx (f a) bs' b -> decodes mx (m ≫= f) (bs ++ bs') b.
Proof.
  intros Hm Hf tail off. unfold mbind, Reader_bind.
  rewrite <- (assoc_L (++)), Hm, Hf, Zlen_app. by rewrite Z.add_assoc.
Qed.

Lemma decodes_bind_nil {A B} mx (m : Reader A) (f : A -> Reader B) bs a b :
  decodes mx m [] a -> decodes mx (f a) bs b -> decodes mx (m ≫= f) bs b.
Proof. intros Hm Hf. change bs with ([] ++ bs). by eapply decodes_bind. Qed.

Lemma decodes_take mx n l what : Zlen l = n -> decodes mx (take_bytes n what) l l.
Proof.
  intros <- tail off. unfold take_bytes, remaining. cbn [br_rest br_offset br_max_string].
  rewrite Zlen_app. pose proof (Zlen_nonneg tail).
  destruct (Z.ltb_spec (Zlen l + Zlen tail) (Zlen l)); [lia|].
  unfold Zlen. rewrite Nat2Z.id, take_app_length, drop_app_length. done.
Qed.

Lemma decodes_le mx (n : nat) v what :
  fits (8 * Z.of_nat n) v -> decodes mx (read_le (Z.of_nat n) what) (le_store n 0 v) v.
Proof.
  intros Hv. unfold read_le. rewrite <- (app_nil_r (le_store n 0 v)).
  eapply decodes_bind; [apply decodes_take; unfold Zlen; by rewrite le_store_length|].
  rewrite le_load_store_fits by done. apply decodes_ret.
Qed.

Lemma decodes_u8 mx v : u8_ok v -> decodes mx read_u8 (enc (WU8 v)) v.
Proof. apply (decodes_le mx 1). Qed.
Lemma decodes_u16 mx v : u16_ok v -> decodes mx read_u16 (enc (WU16 v)) v.
Proof. apply (decodes_le mx 2). Qed.
Lemma decodes_u32 mx v : u32_ok v -> decodes mx read_u32 (enc (WU32 v)) v.
Proof. apply (decodes_le mx 4). Qed.
Lemma decodes_u64 mx v : u64_ok v -> decodes mx read_u64 (enc (WU64 v)) v.
Proof. apply (decodes_le mx 8). Qed.

Lemma decodes_bytes mx n l : Zlen l = n -> decodes mx (read_bytes n) (enc (WBytes l)) l.
Proof. apply decodes_take. Qed.

Lemma Zlen_u32 {A} (l : list A) : Zlen l <= u32_max -> u32_ok (Zlen l).
Proof. unfold u32_max, fits. pose proof (Zlen_nonneg l). lia. Qed.

Lemma decodes_block mx max l :
  Zlen l <= u32_max -> Zlen l <= max -> decodes mx (read_block max) (enc (WBlock l)) l.
Proof.
  intros Hu Hm. unfold read_block. cbn [enc].
  eapply decodes_bind; [by apply decodes_u32, Zlen_u32|].
  destruct (Z.gtb_spec (Zlen l) max); [lia|]. by apply decodes_bytes.
Qed.

Lemma decodes_string mx t :
  strlen t <= u32_max -> strlen t <= mx -> is_valid_utf8 t = true ->
  decodes mx read_string (enc (WString t)) t.
Proof.
  intros Hu Hm Hv tail off. unfold read_string. cbn [br_max_string enc].
  revert tail off. change (decodes mx (size ← read_u32;
    if size >? mx then reader_fail SC_Exhausted "declared string length exceeds the configured bound"
    else raw ← read_bytes size;
      if is_valid_utf8 (text_of raw) then mret (text_of raw)
      else reader_fail SC_Invalid "string is not valid UTF-8")
    (enc (WU32 (strlen t)) ++ bytes_of t) t).
  eapply decodes_bind; [apply decodes_u32, Zlen_u32, Hu|].
  destruct (Z.gtb_spec (strlen t) mx); [lia|].
  rewrite <- (app_nil_r (bytes_of t)).
  eapply decodes_bind; [by apply (decodes_bytes mx (strlen t) (bytes_of t))|].
  cbv beta. rewrite text_of_bytes_of, Hv. apply decodes_ret.
Qed.

Lemma decodes_fields {A} mx c d (m : Reader A) bs a :
  decodes mx m bs a -> decodes mx (fields c d m) bs a.
Proof. intros H tail off. unfold fields. by rewrite H. Qed.

Lemma decodes_ensure mx b c d : b = true -> decodes mx (ensure b c d) [] tt.
Proof. intros -> tail off. unfold ensure. by rewrite Zlen_nil, Z.add_0_r. Qed.

Lemma decodes_lift {A} mx (a : A) : decodes mx (lift (Value a)) [] a.
Proof. intros tail off. unfold lift. by rewrite Zlen_nil, Z.add_0_r. Qed.

Lemma decodes_read_n {A} mx (m : Reader A) (encode : A -> list byte) l :
  (forall a, a ∈ l -> decodes mx m (encode a) a) ->
  decodes mx (read_n (List.length l) m) (concat (encode <$> l)) l.
Proof.
  induction l as [|a l IH]; intros H; cbn [read_n fmap list_fmap concat length].
  - apply decodes_ret.
  - eapply decodes_bind; [apply H; left|].
    rewrite <- (app_nil_r (concat _)).
    eapply decodes_bind; [apply IH; intros b Hb; apply H; by right|]. apply decodes_ret.
Qed.

(** A decoder run on the whole of a span that an encoder produced. *)
Lemma decodes_run {A} mx (m : Reader A) bs a :
  decodes mx m bs a -> m (new_reader bs mx) = (Value a, MkReader [] (Zlen bs) mx).
Proof. intros H. specialize (H [] 0). rewrite app_nil_r in H. exact H. Qed.

#[export] Hint Resolve decodes_ret decodes_u8 decodes_u16 decodes_u32 decodes_u64
  decodes_bytes decodes_block decodes_string decodes_lift : slf.

(** Every read is bounded by the bytes that are present: a decoder never
    exposes more than the input holds. *)
Lemma take_bytes_bounded n what r l r' :
  0 <= n -> take_bytes n what r = (Value l, r') ->
  Zlen l = n /\ br_rest r = l ++ br_rest r' /\ br_offset r' = br_offset r + n.
Proof.
  unfold take_bytes, remaining. intros Hn.
  destruct (Z.ltb_spec (Zlen (br_rest r)) n) as [|Hle]; [done|]. intros [= <- <-].
  unfold Zlen in *. rewrite length_take. split; [lia|]. split; [|done].
  simpl. by rewrite take_drop.
Qed.

(** a writer never holds more than its bound, whatever it is asked to append,
    and while the whole encoding fits discarding the status of each call loses
    nothing: the buffer is exactly the concatenation of the encoded arguments. *)
Theorem writer_bounded_and_complete max ops :
  0 <= max ->
  Zlen (buffer (writes (new_writer max) ops)) <= max
  /\ (Forall op_ok ops -> Zlen (encs ops) <= max -> buffer (writes (new_writer max) ops) = encs ops).
Proof.
  intros H. split; [|by intros; apply writes_fit_new].
  apply (writes_bound (new_writer max) ops). simpl. by rewrite Zlen_nil.
Qed.

Lemma writer_bounded_and_complete_witness :
  Zlen (buffer (writes (new_writer 6) [WU32 7; WString "abc"])) <= 6.
Proof. apply (writer_bounded_and_complete 6). discriminate. Defined.
