(* ===== verification/Digest.v ===== *)
(** * SHA-256 and digests (include/slf/digest.hpp, src/digest.cpp)

    The in-tree SHA-256 with its streaming interface, the digest value and the
    incremental digest builder. *)
From S2P Require Import Prelude Identity Bytes.

(** ** 32-bit words *)

Definition add32 (a b : Z) : Z := wrap 32 (a + b).

Definition rotr (v n : Z) : Z := Z.lor (Z.shiftr v n) (wrap 32 (Z.shiftl v (32 - n))).

Definition not32 (v : Z) : Z := Z.lxor v 0xFFFFFFFF.

Definition kRoundConstants : list Z :=
  [0x428A2F98; 0x71374491; 0xB5C0FBCF; 0xE9B5DBA5; 0x3956C25B; 0x59F111F1; 0x923F82A4; 0xAB1C5ED5;
   0xD807AA98; 0x12835B01; 0x243185BE; 0x550C7DC3; 0x72BE5D74; 0x80DEB1FE; 0x9BDC06A7; 0xC19BF174;
   0xE49B69C1; 0xEFBE4786; 0x0FC19DC6; 0x240CA1CC; 0x2DE92C6F; 0x4A7484AA; 0x5CB0A9DC; 0x76F988DA;
   0x983E5152; 0xA831C66D; 0xB00327C8; 0xBF597FC7; 0xC6E00BF3; 0xD5A79147; 0x06CA6351; 0x14292967;
   0x27B70A85; 0x2E1B2138; 0x4D2C6DFC; 0x53380D13; 0x650A7354; 0x766A0ABB; 0x81C2C92E; 0x92722C85;
   0xA2BFE8A1; 0xA81A664B; 0xC24B8B70; 0xC76C51A3; 0xD192E819; 0xD6990624; 0xF40E3585; 0x106AA070;
   0x19A4C116; 0x1E376C08; 0x2748774C; 0x34B0BCB5; 0x391C0CB3; 0x4ED8AA4A; 0x5B9CCA4F; 0x682E6FF3;
   0x748F82EE; 0x78A5636F; 0x84C87814; 0x8CC70208; 0x90BEFFFA; 0xA4506CEB; 0xBEF9A3F7; 0xC67178F2].

Definition kInitialState : list Z :=
  [0x6A09E667; 0xBB67AE85; 0x3C6EF372; 0xA54FF53A; 0x510E527F; 0x9B05688C; 0x1F83D9AB; 0x5BE0CD19].

(** ** Compression function *)

Definition nthZ (l : list Z) (i : nat) : Z := nth i l 0.

(** Big-endian words of a 64-byte block. *)
Fixpoint load_words (bs : list byte) : list Z :=
  match bs with
  | a :: b :: c :: d :: r =>
      Z.lor (Z.lor (Z.lor (Z.shiftl (Z_of_byte a) 24) (Z.shiftl (Z_of_byte b) 16))
                   (Z.shiftl (Z_of_byte c) 8)) (Z_of_byte d) :: load_words r
  | _ => []
  end.

(** [w[i]] for [i >= 16] from the sixteen preceding words. *)
Definition schedule_word (w : list Z) (i : nat) : Z :=
  let w15 := nthZ w (i - 15) in
  let w2 := nthZ w (i - 2) in
  let s0 := Z.lxor (Z.lxor (rotr w15 7) (rotr w15 18)) (Z.shiftr w15 3) in
  let s1 := Z.lxor (Z.lxor (rotr w2 17) (rotr w2 19)) (Z.shiftr w2 10) in
  add32 (add32 (add32 (nthZ w (i - 16)) s0) (nthZ w (i - 7))) s1.

Definition message_schedule (block : list byte) : list Z :=
  fold_left (fun w i => w ++ [schedule_word w i]) (seq 16 48) (load_words block).

Definition sha_round (w : list Z) (v : list Z) (i : nat) : list Z :=
  match v with
  | [a; b; c; d; e; f; g; h] =>
      let s1 := Z.lxor (Z.lxor (rotr e 6) (rotr e 11)) (rotr e 25) in
      let ch := Z.lxor (Z.land e f) (Z.land (not32 e) g) in
      let temp1 := add32 (add32 (add32 (add32 h s1) ch) (nthZ kRoundConstants i)) (nthZ w i) in
      let s0 := Z.lxor (Z.lxor (rotr a 2) (rotr a 13)) (rotr a 22) in
      let maj := Z.lxor (Z.lxor (Z.land a b) (Z.land a c)) (Z.land b c) in
      let temp2 := add32 s0 maj in
      [add32 temp1 temp2; a; b; c; add32 d temp1; e; f; g]
  | _ => v
  end.

Definition transform (state : list Z) (block : list byte) : list Z :=
  let w := message_schedule block in
  zip_with add32 state (fold_left (sha_round w) (seq 0 64) state).

(** ** Streaming interface *)

(** [buffered] is the first [buffered_] bytes of [buffer_]; the bytes past them
    are never read before they are overwritten. *)
Record Sha256 : Type := MkSha { state_ : list Z; buffered : list byte; total_bytes : Z }.

Definition sha_reset : Sha256 := MkSha kInitialState [] 0.

Definition update_byte (s : Sha256) (b : byte) : Sha256 :=
  let buf := buffered s ++ [b] in
  let total := wrap 64 (total_bytes s + 1) in
  if Zlen buf =? 64 then MkSha (transform (state_ s) buf) [] total
  else MkSha (state_ s) buf total.

(** The [while (remaining > 0)] loop: whole blocks are transformed in place,
    otherwise the buffer is filled up. Each iteration consumes at least one
    byte, so the length of the input is enough fuel. *)
Fixpoint update_loop (fuel : nat) (s : Sha256) (data : list byte) : Sha256 :=
  match fuel with
  | O => s
  | S f =>
      match data with
      | [] => s
      | _ =>
          if (Zlen (buffered s) =? 0) && (64 <=? Zlen data) then
            update_loop f (MkSha (transform (state_ s) (take 64 data)) []
                                 (wrap 64 (total_bytes s + 64))) (drop 64 data)
          else
            let room := (64 - List.length (buffered s))%nat in
            let n := if decide (room < List.length data)%nat then room else List.length data in
            let buf := buffered s ++ take n data in
            let total := wrap 64 (total_bytes s + Z.of_nat n) in
            let s' := if Zlen buf =? 64 then MkSha (transform (state_ s) buf) [] total
                      else MkSha (state_ s) buf total in
            update_loop f s' (drop n data)
      end
  end.

Definition update_span (s : Sha256) (data : list byte) : Sha256 :=
  update_loop (List.length data) s data.

(** [while (buffered_ != 56) update(zero)]: at most 63 iterations. *)
Fixpoint pad_zeros (fuel : nat) (s : Sha256) : Sha256 :=
  match fuel with
  | O => s
  | S f => if Zlen (buffered s) =? 56 then s else pad_zeros f (update_byte s x00)
  end.

Definition be64 (v : Z) : list byte :=
  (fun i => byte_of_Z (Z.land (Z.shiftr v (56 - 8 * Z.of_nat i)) 255)) <$> seq 0 8.

Definition be32 (v : Z) : list byte :=
  [byte_of_Z (Z.land (Z.shiftr v 24) 255); byte_of_Z (Z.land (Z.shiftr v 16) 255);
   byte_of_Z (Z.land (Z.shiftr v 8) 255); byte_of_Z (Z.land v 255)].

Definition sha_finish (s : Sha256) : list byte :=
  let bit_length := wrap 64 (total_bytes s * 8) in
  let s1 := update_byte s x80 in
  let s2 := pad_zeros 64 s1 in
  let s3 := fold_left update_byte (be64 bit_length) s2 in
  concat (be32 <$> state_ s3).

Definition sha256 (data : list byte) : list byte := sha_finish (update_span sha_reset data).

(** ** Digest values *)

Record Digest : Type := MkDigest { digest_bytes : list byte }.

#[export] Instance Digest_eq_dec : EqDecision Digest.
Proof. solve_decision. Defined.

Definition digest_of (data : list byte) : Digest := MkDigest (sha256 data).

(** A default-constructed [Digest]. *)
Definition zero_digest : Digest := MkDigest (replicate 32 x00).

Definition digest_is_zero (d : Digest) : bool := forallb (fun b => bool_decide (b = x00)) (digest_bytes d).

Definition hex_of_bytes (l : list byte) : list byte :=
  concat ((fun b => [hex_char (Z.land (Z.shiftr (Z_of_byte b) 4) 15);
                     hex_char (Z.land (Z_of_byte b) 15)]) <$> l).

Definition digest_hex (d : Digest) : string := text_of (hex_of_bytes (digest_bytes d)).

Definition short_hex (n : nat) (d : Digest) : string :=
  text_of (hex_of_bytes (take (if decide (32 < n)%nat then 32%nat else n) (digest_bytes d))).

Fixpoint parse_hex_pairs (bs : list byte) : option (list byte) :=
  match bs with
  | [] => Some []
  | a :: b :: r =>
      match hex_value a, hex_value b with
      | Some h, Some l => match parse_hex_pairs r with
                          | Some t => Some (byte_of_Z (Z.lor (Z.shiftl h 4) l) :: t)
                          | None => None
                          end
      | _, _ => None
      end
  | _ => None
  end.

Definition parse_digest_hex (text : string) : option Digest :=
  if negb (strlen text =? 64) then None
  else match parse_hex_pairs (bytes_of text) with
       | Some l => Some (MkDigest l)
       | None => None
       end.

(** Lexicographic order on the bytes. *)
Fixpoint bytes_lt (a b : list byte) : bool :=
  match a, b with
  | x :: a', y :: b' => if Z_of_byte x =? Z_of_byte y then bytes_lt a' b'
                        else Z_of_byte x <? Z_of_byte y
  | _, _ => false
  end.

Definition digest_lt (a b : Digest) : bool := bytes_lt (digest_bytes a) (digest_bytes b).

(** ** DigestBuilder *)

Definition add_le (n : nat) (s : Sha256) (v : Z) : Sha256 := fold_left update_byte (le_store n 0 v) s.

(** One builder call; [add_bytes] is [WBlock], [add_string] is [WString] (the
    builder does not validate the text). *)
Definition digest_add (s : Sha256) (op : WriteOp) : Sha256 :=
  match op with
  | WU8 v => update_byte s (byte_of_Z v)
  | WU16 v => add_le 2 s v
  | WU32 v => add_le 4 s v
  | WU64 v => add_le 8 s v
  | WBytes l => update_span s l
  | WBlock l => update_span (add_le 4 s (Zlen l)) l
  | WString t => update_span (add_le 4 s (strlen t)) (bytes_of t)
  end.

Definition digest_build (ops : list WriteOp) : Digest :=
  MkDigest (sha_finish (fold_left digest_add ops sha_reset)).

(** ** Lemmas: streaming *)

(** The invariant of the streaming state: a partial block and a 64-bit count. *)
Definition sha_wf (s : Sha256) : Prop :=
  (List.length (buffered s) < 64)%nat /\ u64_ok (total_bytes s).

Lemma sha_wf_reset : sha_wf sha_reset.
Proof. split; [simpl; lia|]. unfold fits. simpl. lia. Qed.

Lemma sha_wf_update_byte s b : sha_wf s -> sha_wf (update_byte s b).
Proof.
  intros [Hb Ht]. unfold update_byte. destruct (Z.eqb_spec (Zlen (buffered s ++ [b])) 64) as [E|E];
    (split; [|apply wrap_fits; lia]); simpl; [lia|].
  unfold Zlen in E. rewrite length_app in *. simpl in *. lia.
Qed.

Lemma sha_wf_fold l s : sha_wf s -> sha_wf (fold_left update_byte l s).
Proof. revert s. induction l; intros s H; simpl; auto using sha_wf_update_byte. Qed.

#[export] Hint Resolve sha_wf_reset sha_wf_update_byte sha_wf_fold : slf.

Lemma wrap_add_l w a b : 0 <= w -> wrap w (wrap w a + b) = wrap w (a + b).
Proof. intros H. unfold wrap. apply Z.add_mod_idemp_l. apply Z.pow_nonzero; lia. Qed.

(** Bytes that do not complete the block are buffered. *)
Lemma fold_update_partial l s :
  sha_wf s -> (List.length (buffered s) + List.length l < 64)%nat ->
  fold_left update_byte l s
  = MkSha (state_ s) (buffered s ++ l) (wrap 64 (total_bytes s + Zlen l)).
Proof.
  revert s. induction l as [|b l IH]; intros s Hs Hl.
  - destruct Hs as [_ Ht]. rewrite app_nil_r, Zlen_nil, Z.add_0_r, wrap_small by done.
    by destruct s.
  - simpl in Hl |- *. rewrite IH; [|by apply sha_wf_update_byte|];
      unfold update_byte; destruct (Z.eqb_spec (Zlen (buffered s ++ [b])) 64) as [E|E];
      unfold Zlen in E; rewrite length_app in E; simpl in E; try lia; simpl.
    + rewrite <- (assoc_L (++)), wrap_add_l by lia. f_equal. f_equal.
      rewrite Zlen_cons. lia.
    + rewrite length_app. simpl. lia.
Qed.

(** The bytes that complete the block trigger one transform. *)
Lemma fold_update_block l s :
  sha_wf s -> (List.length (buffered s) + List.length l = 64)%nat ->
  fold_left update_byte l s
  = MkSha (transform (state_ s) (buffered s ++ l)) [] (wrap 64 (total_bytes s + Zlen l)).
Proof.
  intros Hs Hl. destruct l as [|b l] using rev_ind; [destruct Hs; simpl in Hl; lia|].
  rewrite length_app in Hl. simpl in Hl. rewrite fold_left_app. simpl.
  rewrite fold_update_partial by (done || lia). unfold update_byte. simpl.
  rewrite <- (assoc_L (++)), wrap_add_l by lia.
  replace (Zlen (buffered s ++ l ++ [b])) with 64
    by (unfold Zlen; rewrite !length_app; simpl; lia).
  rewrite Z.eqb_refl. f_equal. f_equal. rewrite Zlen_app. change (Zlen [b]) with 1. lia.
Qed.

(** The block-at-a-time [update] is the byte-at-a-time one. *)
Lemma update_loop_spec fuel s data :
  sha_wf s -> (List.length data <= fuel)%nat ->
  update_loop fuel s data = fold_left update_byte data s.
Proof.
  revert s data. induction fuel as [|f IH]; intros s data Hs Hf.
  { by destruct data; [|simpl in Hf; lia]. }
  destruct data as [|b data]; [done|]. cbn [update_loop].
  set (d := b :: data) in *.
  assert (forall n, (0 < n)%nat -> (List.length (drop n d) <= f)%nat) as Hdrop.
  { intros n Hn. rewrite length_drop. lia. }
  destruct (_ && _)%bool eqn:E.
  - bool_to_prop. rewrite IH by ((split; [simpl; lia|apply wrap_fits; lia]) || (apply Hdrop; lia)).
    transitivity (fold_left update_byte (take 64 d ++ drop 64 d) s); [|by rewrite take_drop].
    rewrite fold_left_app.
    assert (buffered s = []) as Hb by (by apply nil_length_inv; unfold Zlen in *; lia).
    assert (List.length (take 64 d) = 64%nat) as Ht by (rewrite length_take; unfold Zlen in *; lia).
    rewrite (fold_update_block (take 64 d)) by (done || rewrite Hb, Ht; done).
    unfold Zlen. by rewrite Hb, Ht.
  - destruct Hs as [Hb Ht]. set (n := if decide _ then _ else _).
    assert (0 < List.length d)%nat as Hd by (unfold d; simpl; lia).
    assert (0 < n <= List.length d)%nat as Hn by (unfold n; case_decide; lia).
    assert (List.length (take n d) = n) as Hlen by (rewrite length_take; lia).
    transitivity (fold_left update_byte (take n d ++ drop n d) s); [|by rewrite take_drop].
    rewrite fold_left_app.
    assert (Zlen (take n d) = Z.of_nat n) as Hz by (unfold Zlen; lia).
    destruct (Z.eqb_spec (Zlen (buffered s ++ take n d)) 64) as [E'|E'];
      unfold Zlen in E'; rewrite length_app, Hlen in E'.
    + rewrite (fold_update_block (take n d)) by ((by split) || lia). rewrite Hz.
      apply IH; [|apply Hdrop; lia]. split; [simpl; lia|apply wrap_fits; lia].
    + assert (List.length (buffered s) + n < 64)%nat by (unfold n in *; case_decide; lia).
      rewrite (fold_update_partial (take n d)) by ((by split) || lia). rewrite Hz.
      apply IH; [|apply Hdrop; lia].
      split; [simpl; rewrite length_app, Hlen; lia|apply wrap_fits; lia].
Qed.

Lemma update_span_spec s data :
  sha_wf s -> update_span s data = fold_left update_byte data s.
Proof. intros Hs. by apply update_loop_spec. Qed.

Lemma update_span_app s a b :
  sha_wf s -> update_span s (a ++ b) = update_span (update_span s a) b.
Proof.
  intros Hs. rewrite !(update_span_spec s) by done. rewrite fold_left_app.
  symmetry. apply update_span_spec. auto with slf.
Qed.

(** ** Lemmas: padding *)

Lemma pad_zeros_spec (k : nat) fuel s :
  sha_wf s -> (k < fuel)%nat ->
  ((List.length (buffered s) + k) mod 64 = 56)%nat -> (k < 64)%nat ->
  pad_zeros fuel s = fold_left update_byte (replicate k x00) s.
Proof.
  revert fuel s. induction k as [|k IH]; intros fuel s Hs Hf Hm Hk;
    (destruct fuel as [|fuel]; [lia|]); cbn [pad_zeros]; destruct Hs as [Hb Ht].
  - rewrite Nat.add_0_r, Nat.mod_small in Hm by lia.
    destruct (Z.eqb_spec (Zlen (buffered s)) 56) as [|E]; [done|unfold Zlen in E; lia].
  - destruct (Z.eqb_spec (Zlen (buffered s)) 56) as [E|E]; unfold Zlen in E.
    + exfalso. replace (List.length (buffered s)) with 56%nat in Hm by lia.
      assert (56 + S k < 64 \/ 64 <= 56 + S k < 128)%nat as [H|H] by lia.
      * rewrite Nat.mod_small in Hm; lia.
      * replace (56 + S k)%nat with ((S k - 8) + 1 * 64)%nat in Hm by lia.
        rewrite Nat.Div0.mod_add, Nat.mod_small in Hm; lia.
    + simpl. apply IH; [apply sha_wf_update_byte; by split|lia| |lia].
      unfold update_byte.
      destruct (Z.eqb_spec (Zlen (buffered s ++ [x00])) 64) as [E'|E'];
        unfold Zlen in E'; rewrite length_app in E'; simpl in E' |- *.
      * replace (List.length (buffered s)) with 63%nat in Hm by lia.
        replace (63 + S k)%nat with (k + 1 * 64)%nat in Hm by lia.
        by rewrite Nat.Div0.mod_add in Hm.
      * rewrite length_app. simpl. by replace (_ + 1 + k)%nat with (List.length (buffered s) + S k)%nat by lia.
Qed.

(** The padded message of FIPS 180-4. *)
Definition sha_padding (len : nat) : nat := (119 - len mod 64) mod 64.

Definition padded (data : list byte) : list byte :=
  data ++ [x80] ++ replicate (sha_padding (List.length data)) x00
  ++ be64 (wrap 64 (wrap 64 (Zlen data) * 8)).

(** The Merkle-Damgard iteration over the 64-byte blocks of a message. *)
Fixpoint iterate_blocks (fuel : nat) (st : list Z) (data : list byte) : list Z :=
  match fuel with
  | O => st
  | S f => if decide (List.length data < 64)%nat then st
           else iterate_blocks f (transform st (take 64 data)) (drop 64 data)
  end.

Lemma fold_update_blocks fuel st t data :
  u64_ok t -> (List.length data <= fuel)%nat ->
  let s := fold_left update_byte data (MkSha st [] t) in
  state_ s = iterate_blocks fuel st data
  /\ List.length (buffered s) = (List.length data mod 64)%nat
  /\ total_bytes s = wrap 64 (t + Zlen data).
Proof.
  revert st t data. induction fuel as [|f IH]; intros st t data Ht Hf; cbv zeta.
  - destruct data; [|simpl in Hf; lia]. simpl. by rewrite Zlen_nil, Z.add_0_r, wrap_small.
  - cbn [iterate_blocks]. case_decide as Hd.
    + rewrite fold_update_partial by ((split; [simpl; lia|done]) || (simpl; lia)).
      cbn [state_ buffered total_bytes app]. rewrite Nat.mod_small by lia. done.
    + assert (List.length (take 64 data) = 64%nat) as Hl by (rewrite length_take; lia).
      assert (fold_left update_byte data (MkSha st [] t)
              = fold_left update_byte (drop 64 data)
                  (MkSha (transform st (take 64 data)) [] (wrap 64 (t + Zlen (take 64 data))))) as ->.
      { transitivity (fold_left update_byte (take 64 data ++ drop 64 data) (MkSha st [] t));
          [by rewrite take_drop|].
        rewrite fold_left_app.
        rewrite (fold_update_block (take 64 data)) by ((split; [simpl; lia|done]) || (cbn [buffered]; rewrite Hl; done)).
        done. }
      destruct (IH (transform st (take 64 data)) (wrap 64 (t + Zlen (take 64 data))) (drop 64 data))
        as (H1 & H2 & H3); [apply wrap_fits; lia|rewrite length_drop; lia|].
      cbv zeta in *. split; [done|]. split.
      * rewrite H2, length_drop. replace (List.length data) with ((List.length data - 64) + 1 * 64)%nat at 2 by lia.
        by rewrite Nat.Div0.mod_add.
      * rewrite H3, wrap_add_l by lia. f_equal.
        rewrite <- Z.add_assoc, <- Zlen_app, take_drop. done.
Qed.

Lemma sha_padding_spec len :
  (sha_padding len < 64)%nat /\ (((len + 1) + sha_padding len) mod 64 = 56)%nat.
Proof.
  unfold sha_padding. split; [by apply Nat.mod_upper_bound|].
  pose proof (Nat.div_mod_eq len 64). pose proof (Nat.mod_upper_bound len 64 ltac:(lia)).
  set (q := (len / 64)%nat) in *. set (r := (len mod 64)%nat) in *.
  replace (len + 1 + (119 - r) mod 64)%nat with ((r + 1 + (119 - r) mod 64) + q * 64)%nat by lia.
  rewrite Nat.Div0.mod_add, Nat.Div0.add_mod_idemp_r.
  replace (r + 1 + (119 - r))%nat with (56 + 1 * 64)%nat by lia. done.
Qed.

(** The streaming implementation computes SHA-256 of FIPS 180-4: the compression
    function iterated over the blocks of the padded message. *)
Lemma sha256_spec data :
  sha256 data
  = concat (be32 <$> iterate_blocks (List.length (padded data)) kInitialState (padded data)).
Proof.
  unfold sha256, sha_finish. rewrite update_span_spec by auto with slf.
  set (s := fold_left update_byte data sha_reset).
  destruct (fold_update_blocks (List.length data) kInitialState 0 data) as (_ & Hb & Ht);
    [unfold fits; lia|lia|].
  fold sha_reset in Hb, Ht. fold s in Hb, Ht. cbv zeta in Hb, Ht.
  assert (sha_wf s) as Hs by (unfold s; auto with slf).
  destruct (sha_padding_spec (List.length data)) as [Hp1 Hp2].
  rewrite (pad_zeros_spec (sha_padding (List.length data)));
    [|by apply sha_wf_update_byte|lia| |lia].
  - rewrite Ht, Z.add_0_l. f_equal. f_equal.
    destruct (fold_update_blocks (List.length (padded data)) kInitialState 0 (padded data))
      as (<- & _); [unfold fits; lia|lia|].
    unfold padded. rewrite !fold_left_app. done.
  - destruct (fold_update_blocks (List.length (data ++ [x80])) kInitialState 0 (data ++ [x80]))
      as (_ & Hb' & _); [unfold fits; lia|lia|].
    rewrite fold_left_app in Hb'. cbv zeta in Hb'. cbn [fold_left] in Hb'. fold sha_reset in Hb'. fold s in Hb'.
    rewrite Hb', length_app. simpl List.length. by rewrite Nat.Div0.add_mod_idemp_l.
Qed.

(** ** Lemmas: digest length and hexadecimal text *)

Lemma be32_length v : List.length (be32 v) = 4%nat.
Proof. done. Qed.

Lemma transform_length st block : List.length st = 8%nat -> List.length (transform st block) = 8%nat.
Proof.
  intros H. unfold transform. rewrite length_zip_with, H.
  assert (forall w js v, List.length v = 8%nat -> List.length (fold_left (sha_round w) js v) = 8%nat) as Hr.
  { intros w js. induction js as [|i js IH]; intros v Hv; simpl; [done|]. apply IH.
    unfold sha_round. do 8 (destruct v as [|? v]; [discriminate|]). by destruct v. }
  by rewrite Hr.
Qed.

Lemma iterate_blocks_length fuel st data :
  List.length st = 8%nat -> List.length (iterate_blocks fuel st data) = 8%nat.
Proof.
  revert st data. induction fuel as [|f IH]; intros st data H; simpl; [done|].
  case_decide; [done|]. apply IH. by apply transform_length.
Qed.

Lemma sha256_length data : List.length (sha256 data) = 32%nat.
Proof.
  rewrite sha256_spec.
  assert (forall l : list Z, List.length (concat (be32 <$> l)) = (4 * List.length l)%nat) as Hc.
  { induction l; simpl; [done|]. unfold fmap in *. lia. }
  by rewrite Hc, iterate_blocks_length.
Qed.

Definition digest_wf (d : Digest) : Prop := List.length (digest_bytes d) = 32%nat.

Lemma digest_of_wf data : digest_wf (digest_of data).
Proof. apply sha256_length. Qed.

Lemma digest_build_encs ops :
  digest_build ops = digest_of (encs ops).
Proof.
  unfold digest_build, digest_of, sha256. f_equal. f_equal.
  rewrite update_span_spec by auto with slf.
  assert (forall s, sha_wf s ->
    fold_left digest_add ops s = fold_left update_byte (encs ops) s) as H; [|auto with slf].
  induction ops as [|op ops IH]; intros s Hs; [done|].
  rewrite encs_cons, fold_left_app. simpl.
  assert (digest_add s op = fold_left update_byte (enc op) s) as ->.
  { destruct op; unfold digest_add, add_le, enc; rewrite ?update_span_spec by auto with slf;
      rewrite ?fold_left_app; try done.
    cbn [le_store fold_left]. rewrite Z.shiftr_0_r. f_equal.
    change 255 with (Z.ones 8). rewrite Z.land_ones by lia.
    unfold byte_of_Z. by rewrite Z.mod_mod by lia. }
  apply IH. auto with slf.
Qed.

Lemma hex_of_bytes_cons b l :
  hex_of_bytes (b :: l)
  = hex_char (Z.land (Z.shiftr (Z_of_byte b) 4) 15) :: hex_char (Z.land (Z_of_byte b) 15) :: hex_of_bytes l.
Proof. done. Qed.

Lemma parse_hex_pairs_hex l : parse_hex_pairs (hex_of_bytes l) = Some l.
Proof.
  induction l as [|b l IH]; [done|]. rewrite hex_of_bytes_cons.
  cbn [parse_hex_pairs]. pose proof (Z_of_byte_range b).
  rewrite !land_15, !hex_value_char by (apply Z.mod_pos_bound; lia).
  rewrite IH. f_equal. f_equal.
  rewrite lor_shiftl_small by (try apply Z.mod_pos_bound; lia).
  rewrite Z.shiftr_div_pow2 by lia. change (2 ^ 4) with 16.
  rewrite (Z.mod_small (Z_of_byte b / 16)) by divlia.
  rewrite <- (byte_of_Z_of_byte b) at 3. f_equal. divlia.
Qed.

Lemma parse_digest_hex_roundtrip d :
  digest_wf d -> parse_digest_hex (digest_hex d) = Some d.
Proof.
  unfold digest_wf, parse_digest_hex, digest_hex, strlen. rewrite bytes_of_text_of. intros H.
  assert (Zlen (hex_of_bytes (digest_bytes d)) = 64) as ->.
  { assert (forall l, Zlen (hex_of_bytes l) = 2 * Zlen l) as Hl.
    { intros l. induction l as [|b l IH]; [done|].
      rewrite hex_of_bytes_cons, !Zlen_cons, IH. lia. }
    rewrite Hl. unfold Zlen. rewrite H. done. }
  simpl. rewrite parse_hex_pairs_hex. by destruct d.
Qed.

(** C38: [Sha256::hash] is SHA-256: the compression function iterated over the
    64-byte blocks of the message padded as FIPS 180-4 prescribes. *)
Theorem sha256_is_iterated_compression data :
  sha256 data
  = concat (be32 <$> iterate_blocks (List.length (padded data)) kInitialState (padded data)).
Proof. apply sha256_spec. Qed.

Lemma update_chunks chunks s :
  sha_wf s -> fold_left update_span chunks s = update_span s (concat chunks).
Proof.
  revert s. induction chunks as [|c cs IH]; intros s Hs; [done|]. cbn [fold_left concat].
  rewrite update_span_app by done. apply IH. rewrite update_span_spec by done. auto with slf.
Qed.

(** the digest does not depend on how a message is cut into [update] calls,
    and [DigestBuilder] is the digest of the canonical byte stream of its
    arguments. *)
Theorem digest_streaming chunks ops :
  sha_finish (fold_left update_span chunks sha_reset) = sha256 (concat chunks)
  /\ digest_build ops = digest_of (encs ops).
Proof. split; [|apply digest_build_encs]. unfold sha256. by rewrite update_chunks by auto with slf. Qed.

(** [parse_digest_hex] recovers every digest from its hexadecimal text. *)
Theorem digest_hex_roundtrip data : parse_digest_hex (digest_hex (digest_of data)) = Some (digest_of data).
Proof. apply parse_digest_hex_roundtrip, digest_of_wf. Qed.
