(* ===== verification/Capacity.v ===== *)
(** Capacity accounting ([src/capacity.cpp], [include/slf/capacity.hpp]): exact
    rationals, checked capacity aggregates and the oversubscription class of a
    leaf.  The decimal rendering ([Rational::to_decimal], binary floating point,
    documented as display only) is not modelled. *)

From S2P Require Import Prelude Status Checked Identity.

(** ** Rationals *)

Record Rational := MkRational { num : Z; den : Z }.

#[export] Instance Rational_eq_dec : EqDecision Rational.
Proof. solve_decision. Defined.

Definition rational_default : Rational := MkRational 0 1.

Definition rational_make (n d : Z) : Outcome Rational :=
  if d =? 0 then fail SC_Invalid "rational with a zero denominator"
  else if n =? 0 then Value (MkRational 0 1)
  else
    let divisor := gcd_u64 n d in
    Value (MkRational (n / divisor) (d / divisor)).

Definition rational_is_zero (r : Rational) : bool := num r =? 0.
Definition rational_is_one (r : Rational) : bool := (num r =? den r) && negb (den r =? 0).

Definition rational_to_string (r : Rational) : string :=
  std_to_string (num r) +:+ "/" +:+ std_to_string (den r).

Definition rational_compare (a b : Rational) : Outcome Z :=
  if (den a =? 0) || (den b =? 0) then fail SC_Invalid "comparison with a zero denominator"
  else
    match checked_mul (num a) (den b), checked_mul (num b) (den a) with
    | Some lhs, Some rhs =>
        if lhs =? rhs then Value 0 else Value (if lhs <? rhs then -1 else 1)
    | _, _ => fail SC_Overflow "oversubscription comparison overflowed 64 bits"
    end.

(** ** Summaries *)

Inductive OversubscriptionClass := OC_Unprovisioned | OC_Subscribed | OC_Oversubscribed | OC_Indeterminate.

#[export] Instance OversubscriptionClass_eq_dec : EqDecision OversubscriptionClass.
Proof. solve_decision. Defined.

Definition OversubscriptionClass_to_string (c : OversubscriptionClass) : string :=
  match c with
  | OC_Unprovisioned => "unprovisioned"
  | OC_Subscribed => "subscribed"
  | OC_Oversubscribed => "oversubscribed"
  | OC_Indeterminate => "indeterminate"
  end.

Record CapacitySummary := MkCapacity {
  uplink_capacity_mbps : Z;
  uplink_count : Z;
  downlink_capacity_mbps : Z;
  downlink_count : Z;
  access_capacity_mbps : Z;
  min_uplink_mbps : Z;
  max_uplink_mbps : Z;
  spine_capacity_mbps : Z;
  cap_spine_count : Z;
  oversubscription : Rational;
  classification : OversubscriptionClass;
  cap_code : StatusCode;
  cap_detail : string
}.

#[export] Instance CapacitySummary_eq_dec : EqDecision CapacitySummary.
Proof. solve_decision. Defined.

Definition empty_capacity : CapacitySummary :=
  MkCapacity 0 0 0 0 0 0 0 0 0 rational_default OC_Unprovisioned SC_Ok "".

Definition with_cap_status (c : StatusCode) (d : string) (s : CapacitySummary) : CapacitySummary :=
  MkCapacity (uplink_capacity_mbps s) (uplink_count s) (downlink_capacity_mbps s) (downlink_count s)
    (access_capacity_mbps s) (min_uplink_mbps s) (max_uplink_mbps s) (spine_capacity_mbps s)
    (cap_spine_count s) (oversubscription s) (classification s) c d.

Definition with_classification (r : Rational) (k : OversubscriptionClass) (s : CapacitySummary)
    : CapacitySummary :=
  MkCapacity (uplink_capacity_mbps s) (uplink_count s) (downlink_capacity_mbps s) (downlink_count s)
    (access_capacity_mbps s) (min_uplink_mbps s) (max_uplink_mbps s) (spine_capacity_mbps s)
    (cap_spine_count s) r k (cap_code s) (cap_detail s).

Definition with_access (v : Z) (s : CapacitySummary) : CapacitySummary :=
  MkCapacity (uplink_capacity_mbps s) (uplink_count s) (downlink_capacity_mbps s) (downlink_count s)
    v (min_uplink_mbps s) (max_uplink_mbps s) (spine_capacity_mbps s)
    (cap_spine_count s) (oversubscription s) (classification s) (cap_code s) (cap_detail s).

Definition with_spines (total count : Z) (s : CapacitySummary) : CapacitySummary :=
  MkCapacity (uplink_capacity_mbps s) (uplink_count s) (downlink_capacity_mbps s) (downlink_count s)
    (access_capacity_mbps s) (min_uplink_mbps s) (max_uplink_mbps s) total count
    (oversubscription s) (classification s) (cap_code s) (cap_detail s).

Definition capacity_add_uplink (s : CapacitySummary) (speed : Z) : bool * CapacitySummary :=
  match checked_add (uplink_capacity_mbps s) speed with
  | None => (false, with_cap_status SC_Overflow "uplink capacity aggregate overflowed" s)
  | Some next =>
      (true, MkCapacity next (wrap 32 (uplink_count s + 1)) (downlink_capacity_mbps s)
               (downlink_count s) (access_capacity_mbps s)
               (if (min_uplink_mbps s =? 0) || (speed <? min_uplink_mbps s) then speed
                else min_uplink_mbps s)
               (if max_uplink_mbps s <? speed then speed else max_uplink_mbps s)
               (spine_capacity_mbps s) (cap_spine_count s) (oversubscription s) (classification s)
               (cap_code s) (cap_detail s))
  end.

Definition capacity_add_downlink (s : CapacitySummary) (speed : Z) : bool * CapacitySummary :=
  match checked_add (downlink_capacity_mbps s) speed with
  | None => (false, with_cap_status SC_Overflow "downlink capacity aggregate overflowed" s)
  | Some next =>
      (true, MkCapacity (uplink_capacity_mbps s) (uplink_count s) next
               (wrap 32 (downlink_count s + 1)) (access_capacity_mbps s) (min_uplink_mbps s)
               (max_uplink_mbps s) (spine_capacity_mbps s) (cap_spine_count s) (oversubscription s)
               (classification s) (cap_code s) (cap_detail s))
  end.

Definition capacity_finalize (s : CapacitySummary) : CapacitySummary :=
  if uplink_count s =? 0 then
    let s := with_classification (MkRational 0 1) OC_Unprovisioned s in
    if decide (cap_code s = SC_Ok) then
      with_cap_status (if 0 <? access_capacity_mbps s then SC_Incomplete else SC_Ok)
        (if decide (cap_detail s = "") then "no eligible uplinks" else cap_detail s) s
    else s
  else
    match rational_make (access_capacity_mbps s) (uplink_capacity_mbps s) with
    | Failure st =>
        with_classification (oversubscription s) OC_Indeterminate
          (with_cap_status (code st)
             (if decide (detail st = "") then "invalid oversubscription ratio" else detail st) s)
    | Value ratio =>
        match rational_compare ratio (MkRational 1 1) with
        | Failure st =>
            with_classification ratio OC_Indeterminate
              (with_cap_status (code st) "oversubscription comparison overflowed" s)
        | Value ordering =>
            with_classification ratio (if ordering <=? 0 then OC_Subscribed else OC_Oversubscribed) s
        end
    end.

(** ** Lemmas *)

(** [rational_make] yields the reduced fraction of the same value. *)
Lemma rational_make_spec n d r :
  u64_ok n -> u64_ok d -> rational_make n d = Value r ->
  u64_ok (num r) /\ u64_ok (den r) /\ 0 < den r
  /\ num r * d = n * den r /\ Z.gcd (num r) (den r) = 1.
Proof.
  unfold rational_make, fits. intros Hn Hd.
  destruct (Z.eqb_spec d 0) as [|Hd0]; [discriminate|].
  destruct (Z.eqb_spec n 0) as [->|Hn0]; intros H; invert H; simpl; [repeat split; done || lia|].
  rewrite gcd_u64_spec by (unfold fits; lia).
  set (g := Z.gcd n d).
  assert (0 < g) as Hg by (pose proof (Z.gcd_nonneg n d); pose proof (Z.gcd_eq_0_l n d); unfold g; lia).
  destruct (Z.gcd_divide_l n d) as [a Ha]. destruct (Z.gcd_divide_r n d) as [b Hb].
  fold g in Ha, Hb.
  assert (n / g = a) as Ea by (rewrite Ha; apply Z.div_mul; lia).
  assert (d / g = b) as Eb by (rewrite Hb; apply Z.div_mul; lia).
  rewrite Ea, Eb.
  assert (0 < a) by nia. assert (0 < b) by nia.
  assert (a <= n) by nia. assert (b <= d) by nia.
  repeat split; try nia.
  rewrite <- Ea, <- Eb. apply Z.gcd_div_gcd; unfold g; lia.
Qed.

(** The comparison is exact; it fails only when a product leaves 64 bits. *)
Lemma rational_compare_spec a b :
  u64_ok (num a) -> u64_ok (den a) -> u64_ok (num b) -> u64_ok (den b) ->
  den a <> 0 -> den b <> 0 ->
  rational_compare a b
  = if decide (u64_ok (num a * den b) /\ u64_ok (num b * den a))
    then Value (match num a * den b ?= num b * den a with Lt => -1 | Eq => 0 | Gt => 1 end)
    else fail SC_Overflow "oversubscription comparison overflowed 64 bits".
Proof.
  intros Ha Hda Hb Hdb Na Nb. unfold rational_compare.
  rewrite (proj2 (Z.eqb_neq _ _) Na), (proj2 (Z.eqb_neq _ _) Nb). simpl.
  destruct (checked_mul (num a) (den b)) as [l|] eqn:El;
    [apply checked_mul_spec in El as [-> Hl]; [|done..]|];
    [destruct (checked_mul (num b) (den a)) as [r|] eqn:Er;
       [apply checked_mul_spec in Er as [-> Hr]; [|done..]|]|].
  - rewrite decide_True by done.
    destruct (Z.eqb_spec (num a * den b) (num b * den a)) as [->|E]; [by rewrite Z.compare_refl|].
    destruct (Z.compare_spec (num a * den b) (num b * den a)) as [|H|H]; [done| |];
      destruct (Z.ltb_spec (num a * den b) (num b * den a)); try lia; done.
  - rewrite decide_False; [done|]. intros [_ H].
    assert (checked_mul (num b) (den a) = Some (num b * den a)) as E by (by apply checked_mul_spec).
    by rewrite E in Er.
  - rewrite decide_False; [done|]. intros [H _].
    assert (checked_mul (num a) (den b) = Some (num a * den b)) as E by (by apply checked_mul_spec).
    by rewrite E in El.
Qed.

(** Comparing any 64-bit ratio with 1 never overflows. *)
Lemma rational_compare_one r :
  u64_ok (num r) -> u64_ok (den r) -> 0 < den r ->
  rational_compare r (MkRational 1 1)
  = Value (match num r ?= den r with Lt => -1 | Eq => 0 | Gt => 1 end).
Proof.
  intros Hn Hd Hp. assert (u64_ok 1) by (unfold fits; lia).
  rewrite rational_compare_spec by (simpl; done || lia). simpl.
  by rewrite Z.mul_1_r, Z.mul_1_l, decide_True.
Qed.

Definition sum (l : list Z) : Z := foldr Z.add 0 l.

Lemma sum_app l k : sum (l ++ k) = sum l + sum k.
Proof. unfold sum. induction l; simpl; lia. Qed.

Lemma sum_nonneg l : Forall (fits 64) l -> 0 <= sum l.
Proof. unfold sum. induction 1 as [|x l Hx _ IH]; simpl; [lia|]. unfold fits in Hx. lia. Qed.

(** Accumulating a list of uplink speeds, stopping at the first overflow. *)
Fixpoint add_uplinks (s : CapacitySummary) (l : list Z) : bool * CapacitySummary :=
  match l with
  | [] => (true, s)
  | x :: r => match capacity_add_uplink s x with
              | (true, s') => add_uplinks s' r
              | (false, s') => (false, s')
              end
  end.

Definition min_of (a x : Z) : Z := if (a =? 0) || (x <? a) then x else a.
Definition max_of (a x : Z) : Z := if a <? x then x else a.

Lemma add_uplinks_spec l s :
  u64_ok (uplink_capacity_mbps s) -> Forall (fits 64) l ->
  (add_uplinks s l).1 = bool_decide (u64_ok (uplink_capacity_mbps s + sum l))
  /\ ((add_uplinks s l).1 = true ->
      (add_uplinks s l).2
      = MkCapacity (uplink_capacity_mbps s + sum l)
          (fold_left (fun c _ => wrap 32 (c + 1)) l (uplink_count s))
          (downlink_capacity_mbps s) (downlink_count s) (access_capacity_mbps s)
          (fold_left min_of l (min_uplink_mbps s)) (fold_left max_of l (max_uplink_mbps s))
          (spine_capacity_mbps s) (cap_spine_count s) (oversubscription s) (classification s)
          (cap_code s) (cap_detail s))
  /\ ((add_uplinks s l).1 = false -> cap_code (add_uplinks s l).2 = SC_Overflow).
Proof.
  intros Hs Hl. revert s Hs. induction Hl as [|x l Hx Hl IH]; intros s Hs.
  - simpl. rewrite Z.add_0_r, bool_decide_true by done. destruct s. done.
  - cbn [add_uplinks]. unfold capacity_add_uplink.
    change (sum (x :: l)) with (x + sum l). pose proof (sum_nonneg l Hl).
    destruct (checked_add (uplink_capacity_mbps s) x) as [n|] eqn:E.
    + apply checked_add_Some in E as [-> Hn]; [|done..].
      destruct (IH (capacity_add_uplink s x).2) as (H1 & H2 & H3).
      { unfold capacity_add_uplink. destruct (checked_add _ x) as [n|] eqn:E; simpl; [|done].
        by apply checked_add_Some in E as [-> ?]. }
      assert (checked_add (uplink_capacity_mbps s) x = Some (uplink_capacity_mbps s + x)) as E
        by (by apply checked_add_spec).
      unfold capacity_add_uplink in H1, H2, H3. rewrite E in H1, H2, H3.
      cbn [snd uplink_capacity_mbps] in *. rewrite Z.add_assoc. split; [done|]. split; [|done].
      intros Ht. rewrite (H2 Ht). done.
    + simpl. rewrite bool_decide_false; [done|]. intros Hf.
      assert (checked_add (uplink_capacity_mbps s) x = Some (uplink_capacity_mbps s + x)) as E'
        by (apply checked_add_spec; [done..|]; split; [done|]; unfold fits in *; lia).
      by rewrite E' in E.
Qed.

(** The class of a leaf with uplinks is decided by the exact sums. *)
Lemma capacity_finalize_class s :
  u64_ok (uplink_capacity_mbps s) -> u64_ok (access_capacity_mbps s) ->
  uplink_count s <> 0 -> 0 < uplink_capacity_mbps s ->
  exists r, capacity_finalize s
            = with_classification r
                (if access_capacity_mbps s <=? uplink_capacity_mbps s then OC_Subscribed
                 else OC_Oversubscribed) s
         /\ num r * uplink_capacity_mbps s = access_capacity_mbps s * den r
         /\ Z.gcd (num r) (den r) = 1.
Proof.
  intros Hu Ha Hc Hp. unfold capacity_finalize.
  rewrite (proj2 (Z.eqb_neq _ _) Hc).
  destruct (rational_make (access_capacity_mbps s) (uplink_capacity_mbps s)) as [r|st] eqn:E.
  2:{ unfold rational_make in E. rewrite (proj2 (Z.eqb_neq _ _)) in E by lia. by destruct (_ =? 0). }
  destruct (rational_make_spec _ _ _ Ha Hu E) as (Hn & Hd & Hd0 & Hr & Hg).
  exists r. rewrite rational_compare_one by done. split; [|done]. f_equal.
  unfold fits in *.
  destruct (Z.leb_spec (access_capacity_mbps s) (uplink_capacity_mbps s)) as [H|H];
    destruct (Z.compare_spec (num r) (den r)) as [E1|E1|E1]; try done; simpl; exfalso; nia.
Qed.

(** A leaf without counted uplinks is unprovisioned, and reported usable only
    when it has no access capacity to carry. *)
Lemma capacity_finalize_unprovisioned s :
  uplink_count s = 0 ->
  classification (capacity_finalize s) = OC_Unprovisioned
  /\ (cap_code (capacity_finalize s) = SC_Ok <-> cap_code s = SC_Ok /\ access_capacity_mbps s <= 0).
Proof.
  intros E. unfold capacity_finalize. rewrite E. cbn [Z.eqb with_classification cap_code].
  case_decide as D; simpl; [|naive_solver].
  destruct (Z.ltb_spec 0 (access_capacity_mbps s)); naive_solver lia.
Qed.

(** capacity ratios are exact: [Rational::make] keeps the value and reduces it
    to lowest terms, and comparing two ratios orders them by cross multiplication or
    reports the overflow, never a wrong order. *)
Theorem rational_exact n d a b :
  u64_ok n -> u64_ok d -> d <> 0 ->
  u64_ok (num a) -> u64_ok (den a) -> u64_ok (num b) -> u64_ok (den b) -> den a <> 0 -> den b <> 0 ->
  (exists r, rational_make n d = Value r /\ num r * d = n * den r /\ Z.gcd (num r) (den r) = 1)
  /\ rational_compare a b
     = if decide (u64_ok (num a * den b) /\ u64_ok (num b * den a))
       then Value (match num a * den b ?= num b * den a with Lt => -1 | Eq => 0 | Gt => 1 end)
       else fail SC_Overflow "oversubscription comparison overflowed 64 bits".
Proof.
  intros Hn Hd Hd0 Ha Hda Hb Hdb Na Nb. split; [|by apply rational_compare_spec].
  destruct (rational_make n d) as [r|s] eqn:E.
  - exists r. destruct (rational_make_spec n d r Hn Hd E) as (_ & _ & _ & ? & ?). done.
  - unfold rational_make in E. rewrite (proj2 (Z.eqb_neq _ _) Hd0) in E. by destruct (n =? 0).
Qed.

Lemma rational_exact_witness :
  exists r, rational_make 12 8 = Value r /\ num r * 8 = 12 * den r /\ Z.gcd (num r) (den r) = 1.
Proof.
  apply (rational_exact 12 8 (MkRational 1 2) (MkRational 2 3));
    first [discriminate | split; [discriminate|reflexivity]].
Defined.
