(* ===== verification/Model.v ===== *)
(** * The fabric data model (include/slf/model.hpp, src/model.cpp)

    The enumerations, the records of a fabric, the lookups over a frozen fabric,
    the evidence selection and the canonical encodings with their digests. The
    decoder, which goes through the builder, is in [Codec]. *)
From S2P Require Import Prelude Status Identity Bytes Digest.

(** ** Enumerations

    [*_to_u8] is the [static_cast] an encoder applies; [*_of_u8] is the range
    check of a decoder followed by its cast, [None] when the check refuses. *)

Inductive LeafRole := LR_Access | LR_Tor | LR_BorderLeaf | LR_ServiceLeaf.

#[export] Instance LeafRole_eq_dec : EqDecision LeafRole.
Proof. solve_decision. Defined.

Definition LeafRole_to_u8 (x : LeafRole) : Z :=
  match x with LR_Access => 0 | LR_Tor => 1 | LR_BorderLeaf => 2 | LR_ServiceLeaf => 3 end.

Definition LeafRole_to_string (x : LeafRole) : string :=
  match x with
  | LR_Access => "access"
  | LR_Tor => "tor"
  | LR_BorderLeaf => "border"
  | LR_ServiceLeaf => "service"
  end.

Definition LeafRole_of_u8 (v : Z) : option LeafRole :=
  match v with 0 => Some LR_Access | 1 => Some LR_Tor | 2 => Some LR_BorderLeaf | 3 => Some LR_ServiceLeaf | _ => None end.

Lemma LeafRole_of_to_u8 x : LeafRole_of_u8 (LeafRole_to_u8 x) = Some x.
Proof. by destruct x. Qed.

Lemma LeafRole_u8_ok x : u8_ok (LeafRole_to_u8 x).
Proof. destruct x; unfold fits; simpl; lia. Qed.

Definition parse_leaf_role (text : string) : option LeafRole :=
  if decide (text = "access") then Some LR_Access else
  if decide (text = "tor") then Some LR_Tor else
  if decide (text = "border") then Some LR_BorderLeaf else
  if decide (text = "service") then Some LR_ServiceLeaf else
  None.

Inductive SpineRole := SR_FabricSpine | SR_SuperSpine.

#[export] Instance SpineRole_eq_dec : EqDecision SpineRole.
Proof. solve_decision. Defined.

Definition SpineRole_to_u8 (x : SpineRole) : Z :=
  match x with SR_FabricSpine => 0 | SR_SuperSpine => 1 end.

Definition SpineRole_to_string (x : SpineRole) : string :=
  match x with
  | SR_FabricSpine => "fabric"
  | SR_SuperSpine => "super"
  end.

Definition SpineRole_of_u8 (v : Z) : option SpineRole :=
  match v with 0 => Some SR_FabricSpine | 1 => Some SR_SuperSpine | _ => None end.

Lemma SpineRole_of_to_u8 x : SpineRole_of_u8 (SpineRole_to_u8 x) = Some x.
Proof. by destruct x. Qed.

Lemma SpineRole_u8_ok x : u8_ok (SpineRole_to_u8 x).
Proof. destruct x; unfold fits; simpl; lia. Qed.

Definition parse_spine_role (text : string) : option SpineRole :=
  if decide (text = "fabric") then Some SR_FabricSpine else
  if decide (text = "super") then Some SR_SuperSpine else
  None.

Inductive NodeState := NS_Active | NS_Maintenance | NS_Draining | NS_Failed | NS_Retired.

#[export] Instance NodeState_eq_dec : EqDecision NodeState.
Proof. solve_decision. Defined.

Definition NodeState_to_u8 (x : NodeState) : Z :=
  match x with NS_Active => 0 | NS_Maintenance => 1 | NS_Draining => 2 | NS_Failed => 3 | NS_Retired => 4 end.

Definition NodeState_to_string (x : NodeState) : string :=
  match x with
  | NS_Active => "active"
  | NS_Maintenance => "maintenance"
  | NS_Draining => "draining"
  | NS_Failed => "failed"
  | NS_Retired => "retired"
  end.

Definition NodeState_of_u8 (v : Z) : option NodeState :=
  match v with 0 => Some NS_Active | 1 => Some NS_Maintenance | 2 => Some NS_Draining | 3 => Some NS_Failed | 4 => Some NS_Retired | _ => None end.

Lemma NodeState_of_to_u8 x : NodeState_of_u8 (NodeState_to_u8 x) = Some x.
Proof. by destruct x. Qed.

Lemma NodeState_u8_ok x : u8_ok (NodeState_to_u8 x).
Proof. destruct x; unfold fits; simpl; lia. Qed.

Definition parse_node_state (text : string) : option NodeState :=
  if decide (text = "active") then Some NS_Active else
  if decide (text = "maintenance") then Some NS_Maintenance else
  if decide (text = "draining") then Some NS_Draining else
  if decide (text = "failed") then Some NS_Failed else
  if decide (text = "retired") then Some NS_Retired else
  None.

Inductive PortAdmin := PA_Enabled | PA_Disabled.

#[export] Instance PortAdmin_eq_dec : EqDecision PortAdmin.
Proof. solve_decision. Defined.

Definition PortAdmin_to_u8 (x : PortAdmin) : Z :=
  match x with PA_Enabled => 0 | PA_Disabled => 1 end.

Definition PortAdmin_to_string (x : PortAdmin) : string :=
  match x with
  | PA_Enabled => "enabled"
  | PA_Disabled => "disabled"
  end.

Definition PortAdmin_of_u8 (v : Z) : option PortAdmin :=
  match v with 0 => Some PA_Enabled | 1 => Some PA_Disabled | _ => None end.

Lemma PortAdmin_of_to_u8 x : PortAdmin_of_u8 (PortAdmin_to_u8 x) = Some x.
Proof. by destruct x. Qed.

Lemma PortAdmin_u8_ok x : u8_ok (PortAdmin_to_u8 x).
Proof. destruct x; unfold fits; simpl; lia. Qed.

Definition parse_port_admin (text : string) : option PortAdmin :=
  if decide (text = "enabled" \/ text = "up") then Some PA_Enabled else
  if decide (text = "disabled" \/ text = "down") then Some PA_Disabled else
  None.

(** [LA_other n] is a value with no enumerator: [deserialize_command] casts the
    wire byte without a range check. *)
Inductive LinkAdmin := LA_Enabled | LA_Disabled | LA_other (n : Z).

#[export] Instance LinkAdmin_eq_dec : EqDecision LinkAdmin.
Proof. solve_decision. Defined.

Definition LinkAdmin_to_u8 (x : LinkAdmin) : Z :=
  match x with LA_Enabled => 0 | LA_Disabled => 1 | LA_other n => n end.

Definition LinkAdmin_to_string (x : LinkAdmin) : string :=
  match x with
  | LA_Enabled => "enabled"
  | LA_Disabled => "disabled"
  | LA_other _ => "invalid"
  end.

Definition LinkAdmin_of_u8 (v : Z) : LinkAdmin :=
  match v with 0 => LA_Enabled | 1 => LA_Disabled | _ => LA_other v end.

Definition parse_link_admin (text : string) : option LinkAdmin :=
  if decide (text = "enabled" \/ text = "up") then Some LA_Enabled else
  if decide (text = "disabled" \/ text = "down") then Some LA_Disabled else
  None.

Inductive LinkClass := LC_LeafSpine | LC_SameTierPeer.

#[export] Instance LinkClass_eq_dec : EqDecision LinkClass.
Proof. solve_decision. Defined.

Definition LinkClass_to_u8 (x : LinkClass) : Z :=
  match x with LC_LeafSpine => 0 | LC_SameTierPeer => 1 end.

Definition LinkClass_to_string (x : LinkClass) : string :=
  match x with
  | LC_LeafSpine => "leaf_spine"
  | LC_SameTierPeer => "same_tier_peer"
  end.

Definition LinkClass_of_u8 (v : Z) : option LinkClass :=
  match v with 0 => Some LC_LeafSpine | 1 => Some LC_SameTierPeer | _ => None end.

Lemma LinkClass_of_to_u8 x : LinkClass_of_u8 (LinkClass_to_u8 x) = Some x.
Proof. by destruct x. Qed.

Lemma LinkClass_u8_ok x : u8_ok (LinkClass_to_u8 x).
Proof. destruct x; unfold fits; simpl; lia. Qed.

Inductive FabricState := FS_Unformed | FS_Forming | FS_Operational | FS_Draining | FS_Retired.

#[export] Instance FabricState_eq_dec : EqDecision FabricState.
Proof. solve_decision. Defined.

Definition FabricState_to_u8 (x : FabricState) : Z :=
  match x with FS_Unformed => 0 | FS_Forming => 1 | FS_Operational => 2 | FS_Draining => 3 | FS_Retired => 4 end.

Definition FabricState_to_string (x : FabricState) : string :=
  match x with
  | FS_Unformed => "unformed"
  | FS_Forming => "forming"
  | FS_Operational => "operational"
  | FS_Draining => "draining"
  | FS_Retired => "retired"
  end.

Definition FabricState_of_u8 (v : Z) : option FabricState :=
  match v with 0 => Some FS_Unformed | 1 => Some FS_Forming | 2 => Some FS_Operational | 3 => Some FS_Draining | 4 => Some FS_Retired | _ => None end.

Lemma FabricState_of_to_u8 x : FabricState_of_u8 (FabricState_to_u8 x) = Some x.
Proof. by destruct x. Qed.

Lemma FabricState_u8_ok x : u8_ok (FabricState_to_u8 x).
Proof. destruct x; unfold fits; simpl; lia. Qed.

Definition parse_fabric_state (text : string) : option FabricState :=
  if decide (text = "unformed") then Some FS_Unformed else
  if decide (text = "forming") then Some FS_Forming else
  if decide (text = "operational") then Some FS_Operational else
  if decide (text = "draining") then Some FS_Draining else
  if decide (text = "retired") then Some FS_Retired else
  None.

Inductive EvidencePolicy := EP_ConfigOnly | EP_RequireFresh.

#[export] Instance EvidencePolicy_eq_dec : EqDecision EvidencePolicy.
Proof. solve_decision. Defined.

Definition EvidencePolicy_to_u8 (x : EvidencePolicy) : Z :=
  match x with EP_ConfigOnly => 0 | EP_RequireFresh => 1 end.

Definition EvidencePolicy_to_string (x : EvidencePolicy) : string :=
  match x with
  | EP_ConfigOnly => "config_only"
  | EP_RequireFresh => "require_fresh"
  end.

Definition EvidencePolicy_of_u8 (v : Z) : option EvidencePolicy :=
  match v with 0 => Some EP_ConfigOnly | 1 => Some EP_RequireFresh | _ => None end.

Lemma EvidencePolicy_of_to_u8 x : EvidencePolicy_of_u8 (EvidencePolicy_to_u8 x) = Some x.
Proof. by destruct x. Qed.

Lemma EvidencePolicy_u8_ok x : u8_ok (EvidencePolicy_to_u8 x).
Proof. destruct x; unfold fits; simpl; lia. Qed.

Definition parse_evidence_policy (text : string) : option EvidencePolicy :=
  if decide (text = "config_only") then Some EP_ConfigOnly else
  if decide (text = "require_fresh") then Some EP_RequireFresh else
  None.

Inductive EvidenceFreshness := EF_Fresh | EF_Historical | EF_Absent.

#[export] Instance EvidenceFreshness_eq_dec : EqDecision EvidenceFreshness.
Proof. solve_decision. Defined.

Definition EvidenceFreshness_to_u8 (x : EvidenceFreshness) : Z :=
  match x with EF_Fresh => 0 | EF_Historical => 1 | EF_Absent => 2 end.

Definition EvidenceFreshness_to_string (x : EvidenceFreshness) : string :=
  match x with
  | EF_Fresh => "fresh"
  | EF_Historical => "historical"
  | EF_Absent => "absent"
  end.

Definition EvidenceFreshness_of_u8 (v : Z) : option EvidenceFreshness :=
  match v with 0 => Some EF_Fresh | 1 => Some EF_Historical | 2 => Some EF_Absent | _ => None end.

Lemma EvidenceFreshness_of_to_u8 x : EvidenceFreshness_of_u8 (EvidenceFreshness_to_u8 x) = Some x.
Proof. by destruct x. Qed.

Lemma EvidenceFreshness_u8_ok x : u8_ok (EvidenceFreshness_to_u8 x).
Proof. destruct x; unfold fits; simpl; lia. Qed.

Inductive LinkObservation := LO_Up | LO_Down | LO_Unknown.

#[export] Instance LinkObservation_eq_dec : EqDecision LinkObservation.
Proof. solve_decision. Defined.

Definition LinkObservation_to_u8 (x : LinkObservation) : Z :=
  match x with LO_Up => 0 | LO_Down => 1 | LO_Unknown => 2 end.

Definition LinkObservation_to_string (x : LinkObservation) : string :=
  match x with
  | LO_Up => "up"
  | LO_Down => "down"
  | LO_Unknown => "unknown"
  end.

Definition LinkObservation_of_u8 (v : Z) : option LinkObservation :=
  match v with 0 => Some LO_Up | 1 => Some LO_Down | 2 => Some LO_Unknown | _ => None end.

Lemma LinkObservation_of_to_u8 x : LinkObservation_of_u8 (LinkObservation_to_u8 x) = Some x.
Proof. by destruct x. Qed.

Lemma LinkObservation_u8_ok x : u8_ok (LinkObservation_to_u8 x).
Proof. destruct x; unfold fits; simpl; lia. Qed.

Definition parse_link_observation (text : string) : option LinkObservation :=
  if decide (text = "up") then Some LO_Up else
  if decide (text = "down") then Some LO_Down else
  if decide (text = "unknown") then Some LO_Unknown else
  None.

Inductive FabricHealth := FH_Operational | FH_Degraded | FH_Draining | FH_Unformed | FH_Retired | FH_Indeterminate.

#[export] Instance FabricHealth_eq_dec : EqDecision FabricHealth.
Proof. solve_decision. Defined.

Definition FabricHealth_to_u8 (x : FabricHealth) : Z :=
  match x with FH_Operational => 0 | FH_Degraded => 1 | FH_Draining => 2 | FH_Unformed => 3 | FH_Retired => 4 | FH_Indeterminate => 5 end.

Definition FabricHealth_to_string (x : FabricHealth) : string :=
  match x with
  | FH_Operational => "operational"
  | FH_Degraded => "degraded"
  | FH_Draining => "draining"
  | FH_Unformed => "unformed"
  | FH_Retired => "retired"
  | FH_Indeterminate => "indeterminate"
  end.

Definition FabricHealth_of_u8 (v : Z) : option FabricHealth :=
  match v with 0 => Some FH_Operational | 1 => Some FH_Degraded | 2 => Some FH_Draining | 3 => Some FH_Unformed | 4 => Some FH_Retired | 5 => Some FH_Indeterminate | _ => None end.

Lemma FabricHealth_of_to_u8 x : FabricHealth_of_u8 (FabricHealth_to_u8 x) = Some x.
Proof. by destruct x. Qed.

Lemma FabricHealth_u8_ok x : u8_ok (FabricHealth_to_u8 x).
Proof. destruct x; unfold fits; simpl; lia. Qed.

Inductive IssueSeverity := IS_Info | IS_Warning | IS_Error.

#[export] Instance IssueSeverity_eq_dec : EqDecision IssueSeverity.
Proof. solve_decision. Defined.

Definition IssueSeverity_to_u8 (x : IssueSeverity) : Z :=
  match x with IS_Info => 0 | IS_Warning => 1 | IS_Error => 2 end.

Definition IssueSeverity_to_string (x : IssueSeverity) : string :=
  match x with
  | IS_Info => "info"
  | IS_Warning => "warning"
  | IS_Error => "error"
  end.

Definition IssueSeverity_of_u8 (v : Z) : option IssueSeverity :=
  match v with 0 => Some IS_Info | 1 => Some IS_Warning | 2 => Some IS_Error | _ => None end.

Lemma IssueSeverity_of_to_u8 x : IssueSeverity_of_u8 (IssueSeverity_to_u8 x) = Some x.
Proof. by destruct x. Qed.

Lemma IssueSeverity_u8_ok x : u8_ok (IssueSeverity_to_u8 x).
Proof. destruct x; unfold fits; simpl; lia. Qed.

Definition leaf_role_in_tier (t : Tier) (_ : LeafRole) : bool := bool_decide (t = T_Leaf).
Definition spine_role_in_tier (t : Tier) (_ : SpineRole) : bool := bool_decide (t = T_Spine).

Definition is_peer_capable (r : LeafRole) : bool :=
  bool_decide (r = LR_BorderLeaf) || bool_decide (r = LR_ServiceLeaf).

Definition state_is_serving (s : NodeState) : bool := bool_decide (s = NS_Active).

(** ** Records *)

Record FailureDomainRecord := MkDomain {
  dom_id : FailureDomainId;
  dom_name : string;
  dom_generation : TopologyGeneration
}.

Record LeafRecord := MkLeaf {
  leaf_id : LeafId;
  leaf_name : string;
  leaf_role : LeafRole;
  leaf_incarnation : RoleIncarnation;
  leaf_domain : FailureDomainId;
  leaf_state : NodeState;
  leaf_access_capacity : Z;
  leaf_access_links : Z;
  leaf_generation : TopologyGeneration
}.

Record SpineRecord := MkSpine {
  spine_id : SpineId;
  spine_name : string;
  spine_role : SpineRole;
  spine_incarnation : RoleIncarnation;
  spine_domain : FailureDomainId;
  spine_state : NodeState;
  spine_fabric_capacity : Z;
  spine_generation : TopologyGeneration
}.

Record PortRecord := MkPort {
  port_id : PortId;
  port_owner : NodeKey;
  port_speed : Z;
  port_admin : PortAdmin;
  port_generation : TopologyGeneration
}.

Record LinkRecord := MkLink {
  link_id : LinkId;
  link_a : NodeKey;
  link_port_a : PortId;
  link_b : NodeKey;
  link_port_b : PortId;
  link_cls : LinkClass;
  link_admin : LinkAdmin;
  link_declared_speed : Z;
  link_generation : TopologyGeneration
}.

Record LinkEvidence := MkEvidence {
  ev_link : LinkId;
  ev_observed : LinkObservation;
  ev_generation : TopologyGeneration;
  ev_observer : ControllerIncarnation;
  ev_epoch : Epoch;
  ev_seq : SequenceNumber;
  ev_at_ms : Z
}.

#[export] Instance FailureDomainRecord_eq_dec : EqDecision FailureDomainRecord.
Proof. solve_decision. Defined.
#[export] Instance LeafRecord_eq_dec : EqDecision LeafRecord.
Proof. solve_decision. Defined.
#[export] Instance SpineRecord_eq_dec : EqDecision SpineRecord.
Proof. solve_decision. Defined.
#[export] Instance PortRecord_eq_dec : EqDecision PortRecord.
Proof. solve_decision. Defined.
#[export] Instance LinkRecord_eq_dec : EqDecision LinkRecord.
Proof. solve_decision. Defined.
#[export] Instance LinkEvidence_eq_dec : EqDecision LinkEvidence.
Proof. solve_decision. Defined.

Definition touches (l : LinkRecord) (key : NodeKey) : bool :=
  bool_decide (link_a l = key) || bool_decide (link_b l = key).
Definition other (l : LinkRecord) (key : NodeKey) : NodeKey :=
  if decide (link_a l = key) then link_b l else link_a l.

Record FabricOptions := MkOptions {
  allow_same_tier_adjacency : bool;
  require_domain_diversity : bool;
  min_eligible_spines : Z;
  evidence_policy : EvidencePolicy
}.

Definition default_options : FabricOptions := MkOptions false false 1 EP_ConfigOnly.

#[export] Instance FabricOptions_eq_dec : EqDecision FabricOptions.
Proof. solve_decision. Defined.

Record BuilderLimits := MkLimits {
  max_leaves : Z;
  max_spines : Z;
  max_ports : Z;
  max_links : Z;
  max_failure_domains : Z;
  max_evidence_records : Z;
  max_history_records : Z;
  max_name_bytes : Z;
  max_capacity_mbps : Z
}.

Definition default_limits : BuilderLimits :=
  MkLimits 4096 1024 65536 131072 4096 131072 4096 256 1000000000000.

Record ValidationIssue := MkIssue {
  issue_severity : IssueSeverity;
  issue_code : StatusCode;
  issue_where : string;
  issue_detail : string
}.

#[export] Instance ValidationIssue_eq_dec : EqDecision ValidationIssue.
Proof. solve_decision. Defined.

Record ValidationReport := MkReport {
  issues : list ValidationIssue;
  leaf_count : Z;
  spine_count : Z;
  port_count : Z;
  link_count : Z;
  domain_count : Z;
  history_count : Z;
  evidence_count : Z;
  error_count : Z;
  warning_count : Z
}.

Definition empty_report : ValidationReport := MkReport [] 0 0 0 0 0 0 0 0 0.

Definition structural_ok (r : ValidationReport) : bool := error_count r =? 0.

Definition has_code (r : ValidationReport) (c : StatusCode) : bool :=
  existsb (fun i => bool_decide (issue_code i = c)) (issues r).

Definition report_summary (r : ValidationReport) : string :=
  (if structural_ok r then "structurally valid" else "structurally invalid") +:+ ": "
  +:+ std_to_string (leaf_count r) +:+ " leaves, " +:+ std_to_string (spine_count r) +:+ " spines, "
  +:+ std_to_string (link_count r) +:+ " links, " +:+ std_to_string (port_count r) +:+ " ports, "
  +:+ std_to_string (domain_count r) +:+ " failure domains, "
  +:+ std_to_string (history_count r) +:+ " historical links, "
  +:+ std_to_string (evidence_count r) +:+ " evidence records; "
  +:+ std_to_string (error_count r) +:+ " error(s), "
  +:+ std_to_string (warning_count r) +:+ " warning(s)".

Definition report_digest (r : ValidationReport) : Digest :=
  digest_build
    ([WString "slf.report.v1"; WU32 (Zlen (issues r))]
     ++ concat ((fun i => [WU8 (IssueSeverity_to_u8 (issue_severity i));
                           WU16 (StatusCode_to_u16 (issue_code i));
                           WString (issue_where i); WString (issue_detail i)]) <$> issues r)).

(** ** Fabric *)

Record Fabric := MkFabric {
  fab_id : FabricId;
  fab_name : string;
  fab_site : string;
  fab_generation : TopologyGeneration;
  fab_epoch : Epoch;
  fab_state : FabricState;
  fab_options : FabricOptions;
  domains : list FailureDomainRecord;
  leaves : list LeafRecord;
  spines : list SpineRecord;
  ports : list PortRecord;
  links : list LinkRecord;
  history_links : list LinkRecord;
  evidence : list LinkEvidence;
  topology_digest : Digest;
  evidence_digest : Digest
}.

Definition fabric_empty (f : Fabric) : bool :=
  bool_decide (leaves f = []) && bool_decide (spines f = []).

Definition active_leaf_count (f : Fabric) : Z :=
  fold_left (fun n l => if state_is_serving (leaf_state l) then wrap 32 (n + 1) else n) (leaves f) 0.
Definition active_spine_count (f : Fabric) : Z :=
  fold_left (fun n s => if state_is_serving (spine_state s) then wrap 32 (n + 1) else n) (spines f) 0.

Definition find_leaf (f : Fabric) (k : LeafId) : option LeafRecord := find_sorted leaf_id k (leaves f).
Definition find_spine (f : Fabric) (k : SpineId) : option SpineRecord := find_sorted spine_id k (spines f).
Definition find_port (f : Fabric) (k : PortId) : option PortRecord := find_sorted port_id k (ports f).
Definition find_link (f : Fabric) (k : LinkId) : option LinkRecord := find_sorted link_id k (links f).
Definition find_domain (f : Fabric) (k : FailureDomainId) : option FailureDomainRecord :=
  find_sorted dom_id k (domains f).

(** Each node accessor branches on the tier: a key that is not a leaf key is
    looked up among the spines. *)
Definition node_state (f : Fabric) (key : NodeKey) : option NodeState :=
  if decide (tier key = T_Leaf) then leaf_state <$> find_leaf f (index key)
  else spine_state <$> find_spine f (index key).

Definition node_role_incarnation (f : Fabric) (key : NodeKey) : option RoleIncarnation :=
  if decide (tier key = T_Leaf) then leaf_incarnation <$> find_leaf f (index key)
  else spine_incarnation <$> find_spine f (index key).

Definition node_domain (f : Fabric) (key : NodeKey) : option FailureDomainId :=
  if decide (tier key = T_Leaf) then leaf_domain <$> find_leaf f (index key)
  else spine_domain <$> find_spine f (index key).

Definition node_name (f : Fabric) (key : NodeKey) : option string :=
  if decide (tier key = T_Leaf) then leaf_name <$> find_leaf f (index key)
  else spine_name <$> find_spine f (index key).

Definition node_nominal_capacity (f : Fabric) (key : NodeKey) : option Z :=
  if decide (tier key = T_Leaf) then leaf_access_capacity <$> find_leaf f (index key)
  else spine_fabric_capacity <$> find_spine f (index key).

Definition effective_link_speed (f : Fabric) (l : LinkRecord) : option Z :=
  match find_port f (link_port_a l), find_port f (link_port_b l) with
  | Some pa, Some pb =>
      if negb (link_declared_speed l =? 0) then Some (link_declared_speed l)
      else Some (if port_speed pa <? port_speed pb then port_speed pa else port_speed pb)
  | _, _ => None
  end.

(** *** Evidence selection *)

Definition better_evidence (link : LinkId) (best : option LinkEvidence) (r : LinkEvidence)
    : option LinkEvidence :=
  if negb (ev_link r =? link) then best
  else match best with
       | None => Some r
       | Some b =>
           if ev_seq b <? ev_seq r then Some r
           else if (ev_seq b =? ev_seq r) && (ev_generation b <? ev_generation r) then Some r
           else best
       end.

Definition conflicts_with (link : LinkId) (b r : LinkEvidence) : bool :=
  (ev_link r =? link) && (ev_seq r =? ev_seq b) && (ev_generation r =? ev_generation b)
  && negb (bool_decide (r = b)).

Definition evidence_for (f : Fabric) (link : LinkId) : Outcome LinkEvidence :=
  match fold_left (better_evidence link) (evidence f) None with
  | None => fail SC_NotFound "no evidence recorded for the link"
  | Some b =>
      if existsb (conflicts_with link b) (evidence f)
      then fail SC_Conflicting
             "two evidence records share the same observation sequence and generation"
      else Value b
  end.

Definition evidence_freshness (f : Fabric) (r : LinkEvidence) (controller : ControllerIncarnation)
    (observed_epoch : Epoch) : EvidenceFreshness :=
  if negb (bool_decide (ev_observer r = controller)) || negb (ev_generation r =? fab_generation f)
     || negb (ev_epoch r =? observed_epoch)
  then EF_Historical else EF_Fresh.

(** ** Canonical encoding *)

Definition bool_u8 (b : bool) : Z := if b then 1 else 0.

Definition header_ops (f : Fabric) : list WriteOp :=
  [WString "slf.topology.v1"; WU64 (fab_id f); WString (fab_name f); WString (fab_site f);
   WU64 (fab_generation f); WU64 (fab_epoch f); WU8 (FabricState_to_u8 (fab_state f));
   WU8 (bool_u8 (allow_same_tier_adjacency (fab_options f)));
   WU8 (bool_u8 (require_domain_diversity (fab_options f)));
   WU32 (min_eligible_spines (fab_options f));
   WU8 (EvidencePolicy_to_u8 (evidence_policy (fab_options f)))].

Definition domain_ops (d : FailureDomainRecord) : list WriteOp :=
  [WU32 (dom_id d); WString (dom_name d); WU64 (dom_generation d)].

Definition leaf_ops (l : LeafRecord) : list WriteOp :=
  [WU32 (leaf_id l); WString (leaf_name l); WU8 (LeafRole_to_u8 (leaf_role l));
   WU64 (leaf_incarnation l); WU32 (leaf_domain l); WU8 (NodeState_to_u8 (leaf_state l));
   WU64 (leaf_access_capacity l); WU32 (leaf_access_links l); WU64 (leaf_generation l)].

Definition spine_ops (s : SpineRecord) : list WriteOp :=
  [WU32 (spine_id s); WString (spine_name s); WU8 (SpineRole_to_u8 (spine_role s));
   WU64 (spine_incarnation s); WU32 (spine_domain s); WU8 (NodeState_to_u8 (spine_state s));
   WU64 (spine_fabric_capacity s); WU64 (spine_generation s)].

Definition port_ops (p : PortRecord) : list WriteOp :=
  [WU32 (port_id p); WU8 (Tier_to_u8 (tier (port_owner p))); WU32 (index (port_owner p));
   WU64 (port_speed p); WU8 (PortAdmin_to_u8 (port_admin p)); WU64 (port_generation p)].

Definition link_ops (l : LinkRecord) : list WriteOp :=
  [WU32 (link_id l); WU8 (Tier_to_u8 (tier (link_a l))); WU32 (index (link_a l));
   WU32 (link_port_a l); WU8 (Tier_to_u8 (tier (link_b l))); WU32 (index (link_b l));
   WU32 (link_port_b l); WU8 (LinkClass_to_u8 (link_cls l)); WU8 (LinkAdmin_to_u8 (link_admin l));
   WU64 (link_declared_speed l); WU64 (link_generation l)].

Definition evidence_ops (r : LinkEvidence) : list WriteOp :=
  [WU32 (ev_link r); WU8 (LinkObservation_to_u8 (ev_observed r)); WU64 (ev_generation r);
   WU64 (hi (ev_observer r)); WU64 (lo (ev_observer r)); WU64 (ev_epoch r); WU64 (ev_seq r);
   WU64 (ev_at_ms r)].

(** A count followed by the records: each vector of the canonical encoding. *)
Definition counted {A} (ops : A -> list WriteOp) (l : list A) : list WriteOp :=
  WU32 (Zlen l) :: concat (ops <$> l).

Definition topology_ops (f : Fabric) : list WriteOp :=
  header_ops f ++ counted domain_ops (domains f) ++ counted leaf_ops (leaves f)
  ++ counted spine_ops (spines f) ++ counted port_ops (ports f)
  ++ counted link_ops (links f) ++ counted link_ops (history_links f).

Definition canonical_topology_bytes (f : Fabric) : list byte :=
  buffer (writes (new_writer kDefaultMaxBytes) (topology_ops f)).

Definition evidence_block_ops (f : Fabric) : list WriteOp :=
  [WString "slf.evidence.v1"; WU64 (fab_generation f)] ++ counted evidence_ops (evidence f).

Definition canonical_evidence_bytes (f : Fabric) : list byte :=
  buffer (writes (new_writer kDefaultMaxBytes) (evidence_block_ops f)).

Definition compute_digests (f : Fabric) : Digest * Digest :=
  (digest_of (canonical_topology_bytes f),
   if decide (evidence f = []) then zero_digest else digest_of (canonical_evidence_bytes f)).

Definition kPersistenceFormatVersion : Z := 1.

Definition serialize_fabric (f : Fabric) : list byte :=
  buffer (writes (new_writer kDefaultMaxBytes)
    [WU32 kPersistenceFormatVersion; WBlock (canonical_topology_bytes f);
     WBlock (canonical_evidence_bytes f)]).

(** ** Lemmas: evidence selection *)

(** The coordinate by which two observations of a link are ordered. *)
Definition ev_older (r b : LinkEvidence) : Prop :=
  ev_seq r < ev_seq b \/ (ev_seq r = ev_seq b /\ ev_generation r < ev_generation b).
Definition ev_same (r b : LinkEvidence) : Prop :=
  ev_seq r = ev_seq b /\ ev_generation r = ev_generation b.

(** What the first loop has established about the records it has seen. *)
Definition best_of (link : LinkId) (l : list LinkEvidence) (best : option LinkEvidence) : Prop :=
  match best with
  | None => forall r, r ∈ l -> ev_link r <> link
  | Some b => b ∈ l /\ ev_link b = link
              /\ forall r, r ∈ l -> ev_link r = link -> ev_older r b \/ ev_same r b
  end.

Lemma better_evidence_step link l best r :
  best_of link l best -> best_of link (l ++ [r]) (better_evidence link best r).
Proof.
  unfold better_evidence, best_of, ev_older, ev_same. intros H.
  destruct (Z.eqb_spec (ev_link r) link) as [E|E]; simpl.
  2:{ destruct best as [b|]; [destruct H as (Hb & Hl & Hm)|].
      - split; [set_solver|]. split; [done|]. intros r'. rewrite elem_of_app, list_elem_of_singleton.
        intros [?| ->]; [by apply Hm|done].
      - intros r'. rewrite elem_of_app, list_elem_of_singleton. intros [?| ->]; [by apply H|done]. }
  destruct best as [b|].
  - destruct H as (Hb & Hl & Hm).
    destruct (Z.ltb_spec (ev_seq b) (ev_seq r)) as [Hs|Hs];
      [|destruct (_ && _)%bool eqn:Eg; bool_to_prop];
      (split; [set_solver|]); (split; [done|]);
      intros r'; rewrite elem_of_app, list_elem_of_singleton; intros [Hr'| ->] Hl';
      try (specialize (Hm r' Hr' Hl')); try lia.
  - split; [set_solver|]. split; [done|].
    intros r'. rewrite elem_of_app, list_elem_of_singleton. intros [Hr'| ->] Hl'; [|lia].
    by destruct (H r' Hr').
Qed.

Lemma better_evidence_fold link l :
  best_of link l (fold_left (better_evidence link) l None).
Proof.
  induction l as [|r l IH] using rev_ind; [by intros r ?%elem_of_nil|].
  rewrite fold_left_app. simpl. by apply better_evidence_step.
Qed.

Lemma conflicts_with_true link b r :
  conflicts_with link b r = true <-> ev_link r = link /\ ev_same r b /\ r <> b.
Proof.
  unfold conflicts_with, ev_same. rewrite !andb_true_iff, negb_true_iff, !Z.eqb_eq, bool_decide_eq_false.
  naive_solver.
Qed.

(** [evidence_for] answers the unique newest record of the link. *)
Lemma evidence_for_Value f link b :
  evidence_for f link = Value b <->
  b ∈ evidence f /\ ev_link b = link
  /\ forall r, r ∈ evidence f -> ev_link r = link -> r = b \/ ev_older r b.
Proof.
  unfold evidence_for. pose proof (better_evidence_fold link (evidence f)) as H.
  destruct (fold_left _ _ _) as [c|]; simpl in H.
  - destruct H as (Hc & Hl & Hm). destruct (existsb _ _) eqn:E; split.
    + done.
    + intros (Hb & Hlb & Hu). apply existsb_exists in E as (r & Hr & Hcf).
      apply list_elem_of_In in Hr. apply conflicts_with_true in Hcf as (Hlr & Hs & Hne).
      unfold ev_older, ev_same in *.
      destruct (Hu c Hc Hl) as [->|?], (Hm b Hb Hlb) as [?|?], (Hu r Hr Hlr) as [->|?]; try done; lia.
    + intros [= <-]. split; [done|]. split; [done|]. intros r Hr Hlr.
      destruct (Hm r Hr Hlr) as [?|Hs]; [by right|]. left.
      destruct (decide (r = c)) as [->|Hne]; [done|]. exfalso.
      assert (existsb (conflicts_with link c) (evidence f) = true) as E'; [|by rewrite E' in E].
      apply existsb_exists. exists r. split; [by apply list_elem_of_In|].
      by apply conflicts_with_true.
    + intros (Hb & Hlb & Hu). f_equal. unfold ev_older, ev_same in *.
      destruct (Hu c Hc Hl) as [->|?]; [done|]. destruct (Hm b Hb Hlb) as [?|?]; lia.
  - split; [done|]. intros (Hb & Hlb & _). by destruct (H b Hb).
Qed.

(** It answers [NotFound] exactly when no record names the link, and
    [Conflicting] exactly when two different records tie for the newest. *)
Lemma evidence_for_NotFound f link :
  outcome_code (evidence_for f link) = SC_NotFound <->
  forall r, r ∈ evidence f -> ev_link r <> link.
Proof.
  unfold evidence_for. pose proof (better_evidence_fold link (evidence f)) as H.
  destruct (fold_left _ _ _) as [c|]; simpl in H; [|done].
  destruct H as (Hc & Hl & _). split; [by destruct (existsb _ _)|]. intros Hn. by destruct (Hn c Hc).
Qed.

Lemma evidence_for_Conflicting f link :
  outcome_code (evidence_for f link) = SC_Conflicting <->
  exists b r, b ∈ evidence f /\ r ∈ evidence f /\ ev_link b = link /\ ev_link r = link
    /\ b <> r /\ ev_same r b
    /\ forall q, q ∈ evidence f -> ev_link q = link -> ev_older q b \/ ev_same q b.
Proof.
  unfold evidence_for. pose proof (better_evidence_fold link (evidence f)) as H.
  destruct (fold_left _ _ _) as [c|]; simpl in H.
  - destruct H as (Hc & Hl & Hm). destruct (existsb _ _) eqn:E.
    + split; [intros _|done]. apply existsb_exists in E as (r & Hr%list_elem_of_In & Hcf).
      apply conflicts_with_true in Hcf as (Hlr & Hs & Hne). by exists c, r.
    + split; [done|]. intros (b & r & Hb & Hr & Hlb & Hlr & Hne & Hs & Hmax). exfalso.
      assert (forall q, q ∈ evidence f -> ev_link q = link -> ev_same q c -> q = c) as Hq.
      { intros q Hq Hlq Hsq. destruct (decide (q = c)) as [|Hqc]; [done|].
        assert (existsb (conflicts_with link c) (evidence f) = true) as E'; [|by rewrite E' in E].
        apply existsb_exists. exists q. split; [by apply list_elem_of_In|].
        by apply conflicts_with_true. }
      assert (ev_same b c /\ ev_same r c) as [Sb Sr].
      { unfold ev_older, ev_same in *. destruct (Hm b Hb Hlb), (Hmax c Hc Hl); lia. }
      apply Hne. by rewrite (Hq b), (Hq r).
  - split; [done|]. intros (b & _ & Hb & _ & Hl & _). by destruct (H b Hb).
Qed.

(** Evidence counts as fresh only for the incarnation, the epoch and the
    generation it was observed under. *)
Lemma evidence_freshness_fresh f r c e :
  evidence_freshness f r c e = EF_Fresh <->
  ev_observer r = c /\ ev_generation r = fab_generation f /\ ev_epoch r = e.
Proof.
  unfold evidence_freshness. rewrite <- !Z.eqb_eq.
  destruct (decide (ev_observer r = c)) as [E|E];
    [rewrite (bool_decide_true _ E)|rewrite (bool_decide_false _ E)]; simpl; [|naive_solver].
  by destruct (_ =? _), (_ =? _); simpl; naive_solver.
Qed.

(** [evidence_for] decides a link from its newest observation only: it answers
    the record that is strictly newer (by sequence, then generation) than every other
    record of the link, [NotFound] exactly when no record names the link, and
    [Conflicting] exactly when two different records tie for the newest. *)
Theorem evidence_selection f link :
  (forall b, evidence_for f link = Value b <->
     b ∈ evidence f /\ ev_link b = link
     /\ forall r, r ∈ evidence f -> ev_link r = link -> r = b \/ ev_older r b)
  /\ (outcome_code (evidence_for f link) = SC_NotFound <-> forall r, r ∈ evidence f -> ev_link r <> link)
  /\ (outcome_code (evidence_for f link) = SC_Conflicting <->
      exists b r, b ∈ evidence f /\ r ∈ evidence f /\ ev_link b = link /\ ev_link r = link
        /\ b <> r /\ ev_same r b
        /\ forall q, q ∈ evidence f -> ev_link q = link -> ev_older q b \/ ev_same q b).
Proof.
  split; [intros b; apply evidence_for_Value|].
  split; [apply evidence_for_NotFound|apply evidence_for_Conflicting].
Qed.
