(* ===== verification/Builder.v ===== *)
(** * The fabric builder (include/slf/builder.hpp, src/builder.cpp)

    [FabricBuilder] collects records, refusing the locally wrong ones, and
    [freeze] validates the whole and produces the immutable [Fabric]. Each
    operation returns its status with the next builder state; issues recorded by
    [note] are part of the state. *)
From S2P Require Import Prelude Status Identity Bytes Digest Model.

(** ** State *)

Record FabricBuilder := MkBuilder {
  b_id : FabricId;
  b_name : string;
  b_site : string;
  b_state : FabricState;
  b_generation : TopologyGeneration;
  b_epoch : Epoch;
  b_options : FabricOptions;
  b_limits : BuilderLimits;
  b_domains : gmap Z FailureDomainRecord;
  b_leaves : gmap Z LeafRecord;
  b_spines : gmap Z SpineRecord;
  b_ports : gmap Z PortRecord;
  b_links : gmap Z LinkRecord;
  b_history : gmap Z LinkRecord;
  b_evidence : list LinkEvidence;
  b_report : ValidationReport;
  b_frozen : bool
}.

Definition with_report (r : ValidationReport) (b : FabricBuilder) : FabricBuilder :=
  MkBuilder (b_id b) (b_name b) (b_site b) (b_state b) (b_generation b) (b_epoch b) (b_options b)
    (b_limits b) (b_domains b) (b_leaves b) (b_spines b) (b_ports b) (b_links b) (b_history b)
    (b_evidence b) r (b_frozen b).

Definition with_site (s : string) (b : FabricBuilder) : FabricBuilder :=
  MkBuilder (b_id b) (b_name b) s (b_state b) (b_generation b) (b_epoch b) (b_options b)
    (b_limits b) (b_domains b) (b_leaves b) (b_spines b) (b_ports b) (b_links b) (b_history b)
    (b_evidence b) (b_report b) (b_frozen b).

Definition with_state (s : FabricState) (b : FabricBuilder) : FabricBuilder :=
  MkBuilder (b_id b) (b_name b) (b_site b) s (b_generation b) (b_epoch b) (b_options b)
    (b_limits b) (b_domains b) (b_leaves b) (b_spines b) (b_ports b) (b_links b) (b_history b)
    (b_evidence b) (b_report b) (b_frozen b).

Definition with_domains (m : gmap Z FailureDomainRecord) (b : FabricBuilder) : FabricBuilder :=
  MkBuilder (b_id b) (b_name b) (b_site b) (b_state b) (b_generation b) (b_epoch b) (b_options b)
    (b_limits b) m (b_leaves b) (b_spines b) (b_ports b) (b_links b) (b_history b)
    (b_evidence b) (b_report b) (b_frozen b).

Definition with_leaves (m : gmap Z LeafRecord) (b : FabricBuilder) : FabricBuilder :=
  MkBuilder (b_id b) (b_name b) (b_site b) (b_state b) (b_generation b) (b_epoch b) (b_options b)
    (b_limits b) (b_domains b) m (b_spines b) (b_ports b) (b_links b) (b_history b)
    (b_evidence b) (b_report b) (b_frozen b).

Definition with_spines (m : gmap Z SpineRecord) (b : FabricBuilder) : FabricBuilder :=
  MkBuilder (b_id b) (b_name b) (b_site b) (b_state b) (b_generation b) (b_epoch b) (b_options b)
    (b_limits b) (b_domains b) (b_leaves b) m (b_ports b) (b_links b) (b_history b)
    (b_evidence b) (b_report b) (b_frozen b).

Definition with_ports (m : gmap Z PortRecord) (b : FabricBuilder) : FabricBuilder :=
  MkBuilder (b_id b) (b_name b) (b_site b) (b_state b) (b_generation b) (b_epoch b) (b_options b)
    (b_limits b) (b_domains b) (b_leaves b) (b_spines b) m (b_links b) (b_history b)
    (b_evidence b) (b_report b) (b_frozen b).

Definition with_links (m : gmap Z LinkRecord) (b : FabricBuilder) : FabricBuilder :=
  MkBuilder (b_id b) (b_name b) (b_site b) (b_state b) (b_generation b) (b_epoch b) (b_options b)
    (b_limits b) (b_domains b) (b_leaves b) (b_spines b) (b_ports b) m (b_history b)
    (b_evidence b) (b_report b) (b_frozen b).

Definition with_history (m : gmap Z LinkRecord) (b : FabricBuilder) : FabricBuilder :=
  MkBuilder (b_id b) (b_name b) (b_site b) (b_state b) (b_generation b) (b_epoch b) (b_options b)
    (b_limits b) (b_domains b) (b_leaves b) (b_spines b) (b_ports b) (b_links b) m
    (b_evidence b) (b_report b) (b_frozen b).

Definition with_evidence (l : list LinkEvidence) (b : FabricBuilder) : FabricBuilder :=
  MkBuilder (b_id b) (b_name b) (b_site b) (b_state b) (b_generation b) (b_epoch b) (b_options b)
    (b_limits b) (b_domains b) (b_leaves b) (b_spines b) (b_ports b) (b_links b) (b_history b)
    l (b_report b) (b_frozen b).

Definition with_frozen (b : FabricBuilder) : FabricBuilder :=
  MkBuilder (b_id b) (b_name b) (b_site b) (b_state b) (b_generation b) (b_epoch b) (b_options b)
    (b_limits b) (b_domains b) (b_leaves b) (b_spines b) (b_ports b) (b_links b) (b_history b)
    (b_evidence b) (b_report b) true.

(** ** Names and issues *)

Inductive NameVerdict := Acceptable | NameInvalid | TooLong.

#[export] Instance NameVerdict_eq_dec : EqDecision NameVerdict.
Proof. solve_decision. Defined.

Definition check_name (name : string) (max : Z) : NameVerdict :=
  if strlen name >? max then TooLong
  else if bool_decide (name = "") || negb (is_valid_utf8 name) then NameInvalid
  else Acceptable.

Definition add_issue (r : ValidationReport) (i : ValidationIssue) : ValidationReport :=
  MkReport (issues r ++ [i]) (leaf_count r) (spine_count r) (port_count r) (link_count r)
    (domain_count r) (history_count r) (evidence_count r)
    (if decide (issue_severity i = IS_Error) then wrap 32 (error_count r + 1) else error_count r)
    (if decide (issue_severity i = IS_Warning) then wrap 32 (warning_count r + 1) else warning_count r).

Definition note (b : FabricBuilder) (sev : IssueSeverity) (c : StatusCode) (loc d : string)
    : Status * FabricBuilder :=
  let b' := with_report (add_issue (b_report b) (MkIssue sev c loc d)) b in
  if decide (sev = IS_Error) then (MkStatus c (loc +:+ ": " +:+ d), b') else (success, b').

(** [(void)note(...)] *)
Definition noted (b : FabricBuilder) (sev : IssueSeverity) (c : StatusCode) (loc d : string)
    : FabricBuilder := (note b sev c loc d).2.

Definition builder_closed : Status := MkStatus SC_Closed "fabric builder is already frozen".

(** A local refusal: [if (g_cond) return note(Error, g_code, g_where, g_detail);].
    An operation's refusals are tried in order; a lookup made by a later guard
    ([at], [find]) is only reached when the earlier guards passed. *)
Record Guard := MkGuard { g_cond : bool; g_code : StatusCode; g_where : string; g_detail : string }.

Definition first_guard (gs : list Guard) : option Guard := List.find g_cond gs.

Definition guarded (b : FabricBuilder) (gs : list Guard) (accept : FabricBuilder)
    : Status * FabricBuilder :=
  if b_frozen b then (builder_closed, b)
  else match first_guard gs with
       | Some g => note b IS_Error (g_code g) (g_where g) (g_detail g)
       | None => (success, accept)
       end.

(** ** Construction *)

Definition new_builder (id : FabricId) (name : string) (gen : TopologyGeneration) (epoch : Epoch)
    (opts : FabricOptions) (lim : BuilderLimits) : FabricBuilder :=
  let b := MkBuilder id name "" FS_Operational gen epoch opts lim ∅ ∅ ∅ ∅ ∅ ∅ [] empty_report false in
  let b := match check_name name (max_name_bytes lim) with
           | TooLong => noted b IS_Error SC_Exhausted "fabric"
                          "fabric name exceeds the configured length bound"
           | NameInvalid => noted b IS_Error SC_Invalid "fabric"
                              "fabric name is missing or is not valid UTF-8"
           | Acceptable => b
           end in
  let b := if is_zero gen then noted b IS_Warning SC_Invalid "fabric" "topology generation is zero"
           else b in
  if min_eligible_spines opts =? 0
  then noted b IS_Error SC_Invalid "fabric" "min_eligible_spines must be at least 1" else b.

Definition set_site (b : FabricBuilder) (site : string) : Status * FabricBuilder :=
  let v := if decide (site = "") then Acceptable else check_name site (max_name_bytes (b_limits b)) in
  guarded b
    [MkGuard (bool_decide (v = TooLong)) SC_Exhausted "fabric"
       "site name exceeds the configured length bound";
     MkGuard (bool_decide (v = NameInvalid)) SC_Invalid "fabric" "site name is not valid UTF-8"]
    (with_site site b).

Definition set_state (b : FabricBuilder) (s : FabricState) : Status * FabricBuilder :=
  guarded b [] (with_state s b).

(** ** Adding records *)

Definition node_common_guards (b : FabricBuilder) (key : NodeKey) (name : string)
    (gen : TopologyGeneration) (capacity : Z) : list Guard :=
  let v := check_name name (max_name_bytes (b_limits b)) in
  [MkGuard (negb (gen =? b_generation b)) SC_CrossGeneration (NodeKey_to_string key)
     ("record generation " +:+ std_to_string gen +:+ " does not match fabric generation "
      +:+ std_to_string (b_generation b));
   MkGuard (bool_decide (v = TooLong)) SC_Exhausted (NodeKey_to_string key)
     "name exceeds the configured length bound";
   MkGuard (bool_decide (v = NameInvalid)) SC_Invalid (NodeKey_to_string key)
     "name is missing or is not valid UTF-8";
   MkGuard (capacity >? max_capacity_mbps (b_limits b)) SC_Overflow (NodeKey_to_string key)
     "declared capacity exceeds the configured maximum"].

Definition validate_node_common (b : FabricBuilder) (key : NodeKey) (name : string)
    (gen : TopologyGeneration) (domain : FailureDomainId) (capacity : Z) : Status * FabricBuilder :=
  match first_guard (node_common_guards b key name gen capacity) with
  | Some g => note b IS_Error (g_code g) (g_where g) (g_detail g)
  | None =>
      if is_zero domain
      then note b IS_Warning SC_Incomplete (NodeKey_to_string key) "node has no failure domain (domain 0)"
      else (success, b)
  end.

Definition add_failure_domain (b : FabricBuilder) (r : FailureDomainRecord) : Status * FabricBuilder :=
  let label := FailureDomainId_to_string (dom_id r) in
  let v := check_name (dom_name r) (max_name_bytes (b_limits b)) in
  guarded b
    [MkGuard (max_failure_domains (b_limits b) <=? Z.of_nat (size (b_domains b))) SC_Exhausted "domain"
       "failure domain count exceeds the configured bound";
     MkGuard (bool_decide (is_Some (b_domains b !! dom_id r))) SC_DuplicateIdentity label
       "failure domain identity is already defined";
     MkGuard (negb (dom_generation r =? b_generation b)) SC_CrossGeneration label
       "failure domain generation does not match the fabric generation";
     MkGuard (bool_decide (v = TooLong)) SC_Exhausted label
       "failure domain name exceeds the configured length bound";
     MkGuard (bool_decide (v = NameInvalid)) SC_Invalid label
       "failure domain name is missing or is not valid UTF-8"]
    (with_domains (<[dom_id r := r]> (b_domains b)) b).

Definition leaf_guards (b : FabricBuilder) (r : LeafRecord) : list Guard :=
  [MkGuard (max_leaves (b_limits b) <=? Z.of_nat (size (b_leaves b))) SC_Exhausted "leaf"
     "leaf count exceeds the configured bound";
   MkGuard (is_zero (leaf_id r)) SC_Invalid (LeafId_to_string (leaf_id r))
     "leaf identity zero is reserved";
   MkGuard (bool_decide (is_Some (b_leaves b !! leaf_id r))) SC_DuplicateIdentity
     (LeafId_to_string (leaf_id r)) "leaf identity is already defined"].

Definition warn_duplicate_leaf_name (b : FabricBuilder) (r : LeafRecord) : FabricBuilder :=
  match List.find (fun p => bool_decide (leaf_name p.2 = leaf_name r)) (ordered (b_leaves b)) with
  | Some p => noted b IS_Warning SC_Conflicting (LeafId_to_string (leaf_id r))
                ("leaf name duplicates " +:+ LeafId_to_string p.1)
  | None => b
  end.

Definition add_leaf (b : FabricBuilder) (r : LeafRecord) : Status * FabricBuilder :=
  if b_frozen b then (builder_closed, b)
  else match first_guard (leaf_guards b r) with
  | Some g => note b IS_Error (g_code g) (g_where g) (g_detail g)
  | None =>
      let b1 := warn_duplicate_leaf_name b r in
      let '(common, b2) := validate_node_common b1 (node_of_leaf (leaf_id r)) (leaf_name r)
                             (leaf_generation r) (leaf_domain r) (leaf_access_capacity r) in
      if negb (status_ok common) then (common, b2)
      else
        let b3 := if leaf_access_capacity r =? 0
                  then noted b2 IS_Warning SC_Incomplete (LeafId_to_string (leaf_id r))
                         "leaf declares zero access capacity"
                  else b2 in
        (success, with_leaves (<[leaf_id r := r]> (b_leaves b3)) b3)
  end.

Definition spine_guards (b : FabricBuilder) (r : SpineRecord) : list Guard :=
  [MkGuard (max_spines (b_limits b) <=? Z.of_nat (size (b_spines b))) SC_Exhausted "spine"
     "spine count exceeds the configured bound";
   MkGuard (is_zero (spine_id r)) SC_Invalid (SpineId_to_string (spine_id r))
     "spine identity zero is reserved";
   MkGuard (bool_decide (is_Some (b_spines b !! spine_id r))) SC_DuplicateIdentity
     (SpineId_to_string (spine_id r)) "spine identity is already defined"].

Definition warn_duplicate_spine_name (b : FabricBuilder) (r : SpineRecord) : FabricBuilder :=
  match List.find (fun p => bool_decide (spine_name p.2 = spine_name r)) (ordered (b_spines b)) with
  | Some p => noted b IS_Warning SC_Conflicting (SpineId_to_string (spine_id r))
                ("spine name duplicates " +:+ SpineId_to_string p.1)
  | None => b
  end.

Definition add_spine (b : FabricBuilder) (r : SpineRecord) : Status * FabricBuilder :=
  if b_frozen b then (builder_closed, b)
  else match first_guard (spine_guards b r) with
  | Some g => note b IS_Error (g_code g) (g_where g) (g_detail g)
  | None =>
      let b1 := warn_duplicate_spine_name b r in
      let '(common, b2) := validate_node_common b1 (node_of_spine (spine_id r)) (spine_name r)
                             (spine_generation r) (spine_domain r) (spine_fabric_capacity r) in
      if negb (status_ok common) then (common, b2)
      else
        let b3 := if spine_fabric_capacity r =? 0
                  then noted b2 IS_Warning SC_Incomplete (SpineId_to_string (spine_id r))
                         "spine declares zero fabric capacity"
                  else b2 in
        (success, with_spines (<[spine_id r := r]> (b_spines b3)) b3)
  end.

(** [endpoint_exists] and the owner test of [add_port]: any tier but [Leaf] is
    looked up among the spines. *)
Definition endpoint_exists (b : FabricBuilder) (key : NodeKey) : bool :=
  if decide (tier key = T_Leaf) then bool_decide (is_Some (b_leaves b !! index key))
  else bool_decide (is_Some (b_spines b !! index key)).

Definition port_guards (b : FabricBuilder) (r : PortRecord) : list Guard :=
  let label := PortId_to_string (port_id r) in
  [MkGuard (max_ports (b_limits b) <=? Z.of_nat (size (b_ports b))) SC_Exhausted label
     "port count exceeds the configured bound";
   MkGuard (is_zero (port_id r)) SC_Invalid label "port identity zero is reserved";
   MkGuard (bool_decide (is_Some (b_ports b !! port_id r))) SC_DuplicateIdentity label
     "port identity is already defined";
   MkGuard (negb (port_generation r =? b_generation b)) SC_CrossGeneration label
     "port generation does not match the fabric generation";
   MkGuard (negb (endpoint_exists b (port_owner r))) SC_DanglingEdge label
     ("port owner " +:+ NodeKey_to_string (port_owner r) +:+ " does not exist");
   MkGuard (port_speed r >? max_capacity_mbps (b_limits b)) SC_Overflow label
     "port speed exceeds the configured maximum";
   MkGuard ((port_speed r =? 0) && bool_decide (port_admin r = PA_Enabled)) SC_Invalid label
     "an enabled port must declare a non-zero speed"].

Definition add_port (b : FabricBuilder) (r : PortRecord) : Status * FabricBuilder :=
  guarded b (port_guards b r) (with_ports (<[port_id r := r]> (b_ports b)) b).

Definition same_tier (r : LinkRecord) : bool := bool_decide (tier (link_a r) = tier (link_b r)).

Definition port_belongs (b : FabricBuilder) (p : PortId) (owner : NodeKey) : bool :=
  match b_ports b !! p with
  | Some port => bool_decide (port_owner port = owner)
  | None => false
  end.

(** [leaves_.at(...).role] and [ports_.at(...).speed_mbps], reached only after
    the endpoint and the port ownership guards have passed. *)
Definition leaf_peer_capable_at (b : FabricBuilder) (k : Z) : bool :=
  match b_leaves b !! k with Some l => is_peer_capable (leaf_role l) | None => false end.
Definition port_speed_at (b : FabricBuilder) (k : Z) : Z :=
  match b_ports b !! k with Some p => port_speed p | None => 0 end.

Definition slower_speed (b : FabricBuilder) (r : LinkRecord) : Z :=
  let speed_a := port_speed_at b (link_port_a r) in
  let speed_b := port_speed_at b (link_port_b r) in
  if speed_a <? speed_b then speed_a else speed_b.

Definition equivalent_ports (o r : LinkRecord) : bool :=
  ((link_port_a o =? link_port_a r) && (link_port_b o =? link_port_b r))
  || ((link_port_a o =? link_port_b r) && (link_port_b o =? link_port_a r)).

Definition equivalent_link (b : FabricBuilder) (r : LinkRecord) : option (Z * LinkRecord) :=
  List.find (fun p => equivalent_ports p.2 r) (ordered (b_links b)).

Definition link_guards (b : FabricBuilder) (r : LinkRecord) : list Guard :=
  let label := LinkId_to_string (link_id r) in
  [MkGuard (max_links (b_limits b) <=? Z.of_nat (size (b_links b))) SC_Exhausted label
     "link count exceeds the configured bound";
   MkGuard (is_zero (link_id r)) SC_Invalid label "link identity zero is reserved";
   MkGuard (bool_decide (is_Some (b_links b !! link_id r))) SC_DuplicateIdentity label
     "link identity is already defined";
   MkGuard (negb (link_generation r =? b_generation b)) SC_CrossGeneration label
     "link generation does not match the fabric generation";
   MkGuard (bool_decide (link_a r = link_b r)) SC_IllegalAdjacency label
     "a link cannot connect a node to itself";
   MkGuard (same_tier r && negb (allow_same_tier_adjacency (b_options b))) SC_IllegalAdjacency label
     "same-tier adjacency is disabled by fabric policy";
   MkGuard (negb (same_tier r) && bool_decide (link_cls r = LC_SameTierPeer)) SC_ContradictoryRole label
     "a leaf-to-spine link cannot be classified as a same-tier peer link";
   MkGuard (same_tier r && bool_decide (link_cls r = LC_LeafSpine)) SC_ContradictoryRole label
     "a same-tier link cannot be classified as a leaf-to-spine link";
   MkGuard (negb (endpoint_exists b (link_a r))) SC_DanglingEdge label
     ("endpoint " +:+ NodeKey_to_string (link_a r) +:+ " does not exist");
   MkGuard (negb (endpoint_exists b (link_b r))) SC_DanglingEdge label
     ("endpoint " +:+ NodeKey_to_string (link_b r) +:+ " does not exist");
   MkGuard (negb (port_belongs b (link_port_a r) (link_a r))) SC_DanglingEdge label
     ("port " +:+ PortId_to_string (link_port_a r) +:+ " does not belong to "
      +:+ NodeKey_to_string (link_a r));
   MkGuard (negb (port_belongs b (link_port_b r) (link_b r))) SC_DanglingEdge label
     ("port " +:+ PortId_to_string (link_port_b r) +:+ " does not belong to "
      +:+ NodeKey_to_string (link_b r));
   MkGuard (same_tier r && bool_decide (tier (link_a r) = T_Leaf)
            && (negb (leaf_peer_capable_at b (index (link_a r)))
                || negb (leaf_peer_capable_at b (index (link_b r))))) SC_ContradictoryRole label
     "peer link endpoints must both carry a peer-capable leaf role";
   MkGuard (negb (link_declared_speed r =? 0) && (link_declared_speed r >? slower_speed b r))
     SC_Conflicting label "declared link speed exceeds the slower endpoint port speed";
   MkGuard (link_declared_speed r >? max_capacity_mbps (b_limits b)) SC_Overflow label
     "declared link speed exceeds the configured maximum";
   MkGuard (bool_decide (is_Some (equivalent_link b r))) SC_AlreadyExists label
     ("an equivalent link already exists as "
      +:+ match equivalent_link b r with Some p => LinkId_to_string p.1 | None => "" end)].

Definition add_link (b : FabricBuilder) (r : LinkRecord) : Status * FabricBuilder :=
  guarded b (link_guards b r) (with_links (<[link_id r := r]> (b_links b)) b).

Definition add_history_link (b : FabricBuilder) (r : LinkRecord) : Status * FabricBuilder :=
  let label := "history:" +:+ LinkId_to_string (link_id r) in
  guarded b
    [MkGuard (max_history_records (b_limits b) <=? Z.of_nat (size (b_history b))) SC_Exhausted
       (LinkId_to_string (link_id r)) "historical link count exceeds the configured bound";
     MkGuard (is_zero (link_id r)) SC_Invalid label "historical link identity zero is reserved";
     MkGuard (bool_decide (is_Some (b_history b !! link_id r))
              || bool_decide (is_Some (b_links b !! link_id r))) SC_DuplicateIdentity label
       "historical link identity is already defined";
     MkGuard (b_generation b <=? link_generation r) SC_CrossGeneration label
       "historical links must belong to a generation older than the fabric generation"]
    (with_history (<[link_id r := r]> (b_history b)) b).

Definition add_evidence (b : FabricBuilder) (r : LinkEvidence) : Status * FabricBuilder :=
  let label := "evidence:" +:+ LinkId_to_string (ev_link r) in
  guarded b
    [MkGuard (max_evidence_records (b_limits b) <=? Zlen (b_evidence b)) SC_Exhausted label
       "evidence count exceeds the configured bound";
     MkGuard (ev_generation r >? b_generation b) SC_CrossGeneration label
       "evidence refers to a future topology generation";
     MkGuard (inc_is_zero (ev_observer r)) SC_Invalid label
       "evidence must name the observing controller incarnation";
     MkGuard (is_zero (ev_seq r)) SC_Invalid label
       "evidence must carry a non-zero observation sequence";
     MkGuard (negb (bool_decide (is_Some (b_links b !! ev_link r)))
              && negb (bool_decide (is_Some (b_history b !! ev_link r)))) SC_DanglingEdge label
       "evidence refers to a link that does not exist in this fabric"]
    (with_evidence (b_evidence b ++ [r]) b).

(** ** Whole-fabric validation *)

Definition validate_domains (b : FabricBuilder) : FabricBuilder :=
  if decide (b_domains b = ∅) then b
  else
    let b := fold_left (fun b p =>
        if bool_decide (is_Some (b_domains b !! leaf_domain p.2)) then b
        else noted b IS_Warning SC_NotFound (LeafId_to_string p.1)
               ("failure domain " +:+ std_to_string (leaf_domain p.2) +:+ " is not declared"))
      (ordered (b_leaves b)) b in
    fold_left (fun b p =>
        if bool_decide (is_Some (b_domains b !! spine_domain p.2)) then b
        else noted b IS_Warning SC_NotFound (SpineId_to_string p.1)
               ("failure domain " +:+ std_to_string (spine_domain p.2) +:+ " is not declared"))
      (ordered (b_spines b)) b.

Definition validate_ports (b : FabricBuilder) : FabricBuilder :=
  fold_left (fun b p =>
      if existsb (fun l => (link_port_a l.2 =? port_id p.2) || (link_port_b l.2 =? port_id p.2))
           (ordered (b_links b)) then b
      else noted b IS_Info SC_NotFound (PortId_to_string p.1) "port is not used by any link")
    (ordered (b_ports b)) b.

(** The speed the validation resolves for a link. *)
Definition builder_link_speed (b : FabricBuilder) (l : LinkRecord) : option Z :=
  match b_ports b !! link_port_a l, b_ports b !! link_port_b l with
  | Some pa, Some pb =>
      if negb (link_declared_speed l =? 0) then Some (link_declared_speed l)
      else Some (if port_speed pa <? port_speed pb then port_speed pa else port_speed pb)
  | _, _ => None
  end.

Definition link_speed_unusable (b : FabricBuilder) (l : LinkRecord) : bool :=
  match builder_link_speed b l with None => true | Some s => s =? 0 end.

(** One iteration of the loop of [validate_links]. [spines_.at] is reached for
    an accepted link only, whose endpoints exist: its spine endpoint is found. *)
Definition validate_link (b : FabricBuilder) (p : Z * LinkRecord) : FabricBuilder :=
  let '(id, l) := p in
  let label := LinkId_to_string id in
  if link_speed_unusable b l
  then noted b IS_Error SC_Invalid label
         "link has no usable speed (a port is missing or declares zero speed)"
  else
    let b := if decide (link_admin l = LA_Disabled)
             then noted b IS_Info SC_Refused label
                    "link is administratively disabled and is excluded from the structural graph"
             else b in
    let leaf_endpoint := bool_decide (tier (link_a l) = T_Leaf) || bool_decide (tier (link_b l) = T_Leaf) in
    let b := if bool_decide (link_cls l = LC_LeafSpine) && negb leaf_endpoint
             then noted b IS_Error SC_ContradictoryRole label "leaf-to-spine link has no leaf endpoint"
             else b in
    let leaf_key := if decide (tier (link_a l) = T_Leaf) then link_a l else link_b l in
    let spine_key := if decide (tier (link_a l) = T_Leaf) then link_b l else link_a l in
    let b := if decide (link_cls l = LC_LeafSpine)
             then match b_spines b !! index spine_key with
                  | Some s => if decide (spine_state s = NS_Retired)
                              then noted b IS_Info SC_Stale label "link attaches to a retired spine"
                              else b
                  | None => b
                  end
             else b in
    if bool_decide (link_cls l = LC_SameTierPeer) && bool_decide (tier (link_a l) = T_Leaf)
    then noted b IS_Info SC_Ok label
           ("peer link " +:+ NodeKey_to_string leaf_key +:+ " <-> " +:+ NodeKey_to_string (link_b l))
    else b.

Definition validate_links (b : FabricBuilder) : FabricBuilder :=
  fold_left validate_link (ordered (b_links b)) b.

(** The first loop of [validate_evidence]: the highest sequence per link and
    how many records carry it. *)
Definition evidence_tally (st : FabricBuilder * gmap Z Z * gmap Z Z) (r : LinkEvidence)
    : FabricBuilder * gmap Z Z * gmap Z Z :=
  let '(b, highest, duplicates) := st in
  if ev_generation r >? b_generation b then
    (noted b IS_Error SC_CrossGeneration ("evidence:" +:+ LinkId_to_string (ev_link r))
       "evidence refers to a future topology generation", highest, duplicates)
  else match highest !! ev_link r with
  | None => (b, <[ev_link r := ev_seq r]> highest, <[ev_link r := 1]> duplicates)
  | Some h =>
      if h <? ev_seq r then (b, <[ev_link r := ev_seq r]> highest, <[ev_link r := 1]> duplicates)
      else if h =? ev_seq r
           then (b, highest, <[ev_link r := default 0 (duplicates !! ev_link r) + 1]> duplicates)
           else (b, highest, duplicates)
  end.

Definition validate_evidence (b : FabricBuilder) : FabricBuilder :=
  let '(b, highest, duplicates) := fold_left evidence_tally (b_evidence b) (b, ∅, ∅) in
  let b := fold_left (fun b (p : Z * Z) =>
      if 1 <? p.2 then
        noted b IS_Warning SC_Conflicting ("evidence:" +:+ LinkId_to_string p.1)
          "multiple evidence records share the highest observation sequence; the link is reported as conflicting rather than decided"
      else b) (ordered duplicates) b in
  fold_left (fun b (p : Z * Z) =>
      if bool_decide (is_Some (b_links b !! p.1)) then
        match List.find (fun r => (ev_link r =? p.1) && (ev_seq r =? p.2)) (b_evidence b) with
        | Some r => if decide (ev_observed r = LO_Unknown)
                    then noted b IS_Warning SC_Indeterminate ("evidence:" +:+ LinkId_to_string p.1)
                           "the newest observation is unknown; the link cannot be decided from evidence"
                    else b
        | None => b
        end
      else b) (ordered highest) b.

(** ** Freezing *)

Definition count_report (b : FabricBuilder) : ValidationReport :=
  let r := b_report b in
  MkReport (issues r) (wrap 32 (Z.of_nat (size (b_leaves b)))) (wrap 32 (Z.of_nat (size (b_spines b))))
    (wrap 32 (Z.of_nat (size (b_ports b)))) (wrap 32 (Z.of_nat (size (b_links b))))
    (wrap 32 (Z.of_nat (size (b_domains b)))) (wrap 32 (Z.of_nat (size (b_history b))))
    (wrap 32 (Zlen (b_evidence b))) (error_count r) (warning_count r).

Definition finish_report (b : FabricBuilder) : Status * FabricBuilder :=
  let b := with_report (count_report b) b in
  (if negb (error_count (b_report b) =? 0) then
     match List.find (fun i => bool_decide (issue_severity i = IS_Error)) (issues (b_report b)) with
     | Some i => MkStatus (issue_code i) (issue_where i +:+ ": " +:+ issue_detail i)
     | None => MkStatus SC_Invalid "fabric has validation errors"
     end
   else success, b).

(** The comparator of the evidence sort. *)
Definition ev_before (a b : LinkEvidence) : bool :=
  if negb (ev_link a =? ev_link b) then ev_link a <? ev_link b
  else if negb (ev_seq a =? ev_seq b) then ev_seq a <? ev_seq b
  else if negb (ev_generation a =? ev_generation b) then ev_generation a <? ev_generation b
  else inc_lt (ev_observer a) (ev_observer b).

Definition ev_order (a b : LinkEvidence) : Prop := ev_before b a = false.

#[export] Instance ev_order_dec a b : Decision (ev_order a b).
Proof. unfold ev_order. apply _. Defined.

Definition sort_evidence (l : list LinkEvidence) : list LinkEvidence := merge_sort ev_order l.

Definition with_digests (f : Fabric) (d : Digest * Digest) : Fabric :=
  MkFabric (fab_id f) (fab_name f) (fab_site f) (fab_generation f) (fab_epoch f) (fab_state f)
    (fab_options f) (domains f) (leaves f) (spines f) (ports f) (links f) (history_links f)
    (evidence f) d.1 d.2.

Definition assemble (b : FabricBuilder) : Fabric :=
  let f := MkFabric (b_id b) (b_name b) (b_site b) (b_generation b) (b_epoch b) (b_state b)
             (b_options b) (values (b_domains b)) (values (b_leaves b)) (values (b_spines b))
             (values (b_ports b)) (values (b_links b)) (values (b_history b))
             (sort_evidence (b_evidence b)) zero_digest zero_digest in
  with_digests f (compute_digests f).

Definition validate_all (b : FabricBuilder) : FabricBuilder :=
  validate_evidence (validate_links (validate_ports (validate_domains b))).

Definition freeze (b : FabricBuilder) : Outcome Fabric * FabricBuilder :=
  if b_frozen b then (Failure builder_closed, b)
  else
    let '(s, b) := finish_report (validate_all (with_frozen b)) in
    if negb (status_ok s) then (Failure s, b) else (Value (assemble b), b).

(** ** [build_fabric] *)

(** A loop of additions that stops at the first refusal. *)
Fixpoint add_all {R} (add : FabricBuilder -> R -> Status * FabricBuilder) (b : FabricBuilder)
    (l : list R) : Status * FabricBuilder :=
  match l with
  | [] => (success, b)
  | r :: l => match add b r with
              | (s, b') => if status_ok s then add_all add b' l else (s, b')
              end
  end.

(** The report written through [report_out] is the second component. *)
Definition build_fabric (id : FabricId) (name : string) (gen : TopologyGeneration) (epoch : Epoch)
    (opts : FabricOptions) (ls : list LeafRecord) (ss : list SpineRecord) (ps : list PortRecord)
    (ks : list LinkRecord) (lim : BuilderLimits) : Outcome Fabric * ValidationReport :=
  let b := new_builder id name gen epoch opts lim in
  let '(s, b) := add_all add_leaf b ls in
  if negb (status_ok s) then (Failure s, b_report b) else
  let '(s, b) := add_all add_spine b ss in
  if negb (status_ok s) then (Failure s, b_report b) else
  let '(s, b) := add_all add_port b ps in
  if negb (status_ok s) then (Failure s, b_report b) else
  let '(s, b) := add_all add_link b ks in
  if negb (status_ok s) then (Failure s, b_report b) else
  let '(o, b) := freeze b in (o, b_report b).
