(* ===== verification/BuilderSpec.v ===== *)
(** * What the builder promises (src/builder.cpp)

    The well-formedness of a frozen fabric, the invariant of the builder that
    implies it, the log of issues the validation appends, and independence of
    the insertion order. *)
From S2P Require Import Prelude Status Identity Bytes Digest Model Builder.

(** ** Well-formed records

    The records of a fabric refer to one another through lookups; the builder's
    maps and the frozen fabric's sorted vectors are two implementations. *)

Record Lookup := MkLookup {
  lk_leaf : Z -> option LeafRecord;
  lk_spine : Z -> option SpineRecord;
  lk_port : Z -> option PortRecord
}.

Definition b_lookup (b : FabricBuilder) : Lookup :=
  MkLookup (fun k => b_leaves b !! k) (fun k => b_spines b !! k) (fun k => b_ports b !! k).
Definition f_lookup (f : Fabric) : Lookup := MkLookup (find_leaf f) (find_spine f) (find_port f).

(** [lk'] knows every record [lk] knows. *)
Record extends (lk lk' : Lookup) : Prop := {
  ext_leaf : forall k x, lk_leaf lk k = Some x -> lk_leaf lk' k = Some x;
  ext_spine : forall k x, lk_spine lk k = Some x -> lk_spine lk' k = Some x;
  ext_port : forall k x, lk_port lk k = Some x -> lk_port lk' k = Some x
}.

Definition node_known (lk : Lookup) (key : NodeKey) : Prop :=
  if decide (tier key = T_Leaf) then is_Some (lk_leaf lk (index key))
  else is_Some (lk_spine lk (index key)).

Definition name_ok (lim : BuilderLimits) (n : string) : Prop :=
  n <> "" /\ is_valid_utf8 n = true /\ strlen n <= max_name_bytes lim.

Record domain_wf (lim : BuilderLimits) (gen : Z) (d : FailureDomainRecord) : Prop := {
  dw_gen : dom_generation d = gen;
  dw_name : name_ok lim (dom_name d)
}.

Record leaf_wf (lim : BuilderLimits) (gen : Z) (l : LeafRecord) : Prop := {
  lfw_id : leaf_id l <> 0;
  lfw_gen : leaf_generation l = gen;
  lfw_name : name_ok lim (leaf_name l);
  lfw_capacity : leaf_access_capacity l <= max_capacity_mbps lim
}.

Record spine_wf (lim : BuilderLimits) (gen : Z) (s : SpineRecord) : Prop := {
  spw_id : spine_id s <> 0;
  spw_gen : spine_generation s = gen;
  spw_name : name_ok lim (spine_name s);
  spw_capacity : spine_fabric_capacity s <= max_capacity_mbps lim
}.

Record port_wf (lim : BuilderLimits) (lk : Lookup) (gen : Z) (p : PortRecord) : Prop := {
  pw_id : port_id p <> 0;
  pw_gen : port_generation p = gen;
  pw_owner : node_known lk (port_owner p);
  pw_speed : port_speed p <= max_capacity_mbps lim;
  pw_enabled : port_admin p = PA_Enabled -> port_speed p <> 0
}.

Record link_wf (lim : BuilderLimits) (opts : FabricOptions) (lk : Lookup) (gen : Z)
    (l : LinkRecord) : Prop := {
  lw_id : link_id l <> 0;
  lw_gen : link_generation l = gen;
  lw_distinct : link_a l <> link_b l;
  lw_same : tier (link_a l) = tier (link_b l) ->
            allow_same_tier_adjacency opts = true /\ link_cls l = LC_SameTierPeer;
  lw_cross : tier (link_a l) <> tier (link_b l) -> link_cls l = LC_LeafSpine;
  lw_a : node_known lk (link_a l);
  lw_b : node_known lk (link_b l);
  lw_port_a : exists p, lk_port lk (link_port_a l) = Some p /\ port_owner p = link_a l;
  lw_port_b : exists p, lk_port lk (link_port_b l) = Some p /\ port_owner p = link_b l;
  lw_peer : tier (link_a l) = T_Leaf -> tier (link_b l) = T_Leaf ->
            exists x y, lk_leaf lk (index (link_a l)) = Some x /\ lk_leaf lk (index (link_b l)) = Some y
                        /\ is_peer_capable (leaf_role x) = true /\ is_peer_capable (leaf_role y) = true;
  lw_declared : link_declared_speed l = 0 \/
                exists p q, lk_port lk (link_port_a l) = Some p /\ lk_port lk (link_port_b l) = Some q
                            /\ link_declared_speed l <= port_speed p
                            /\ link_declared_speed l <= port_speed q;
  lw_max : link_declared_speed l <= max_capacity_mbps lim
}.

Record history_wf (gen : Z) (l : LinkRecord) : Prop := {
  hw_id : link_id l <> 0;
  hw_gen : link_generation l < gen
}.

Record evidence_wf (known : Z -> Prop) (gen : Z) (r : LinkEvidence) : Prop := {
  ew_gen : ev_generation r <= gen;
  ew_observer : inc_is_zero (ev_observer r) = false;
  ew_seq : ev_seq r <> 0;
  ew_link : known (ev_link r)
}.

Lemma node_known_mono lk lk' key : extends lk lk' -> node_known lk key -> node_known lk' key.
Proof.
  intros [Hl Hs _]. unfold node_known. case_decide; intros [x Hx]; exists x; auto.
Qed.

Lemma port_wf_mono lim lk lk' gen p : extends lk lk' -> port_wf lim lk gen p -> port_wf lim lk' gen p.
Proof. intros He []. split; try done. by eapply node_known_mono. Qed.

Lemma link_wf_mono lim opts lk lk' gen l :
  extends lk lk' -> link_wf lim opts lk gen l -> link_wf lim opts lk' gen l.
Proof.
  intros He []. pose proof He as [Hl Hs Hp]. split; try done.
  - by eapply node_known_mono.
  - by eapply node_known_mono.
  - naive_solver.
  - naive_solver.
  - intros Ta Tb. destruct (lw_peer0 Ta Tb) as (x & y & ? & ? & ? & ?). exists x, y. auto.
  - destruct lw_declared0 as [?|(p & q & ? & ? & ?)]; [by left|right]. exists p, q. auto.
Qed.

(** ** The builder invariant *)

Record builder_wf (b : FabricBuilder) : Prop := {
  bw_kd : keyed dom_id (b_domains b);
  bw_kl : keyed leaf_id (b_leaves b);
  bw_ks : keyed spine_id (b_spines b);
  bw_kp : keyed port_id (b_ports b);
  bw_kk : keyed link_id (b_links b);
  bw_kh : keyed link_id (b_history b);
  bw_domains : forall k d, b_domains b !! k = Some d -> domain_wf (b_limits b) (b_generation b) d;
  bw_leaves : forall k l, b_leaves b !! k = Some l -> leaf_wf (b_limits b) (b_generation b) l;
  bw_spines : forall k s, b_spines b !! k = Some s -> spine_wf (b_limits b) (b_generation b) s;
  bw_ports : forall k p, b_ports b !! k = Some p ->
             port_wf (b_limits b) (b_lookup b) (b_generation b) p;
  bw_links : forall k l, b_links b !! k = Some l ->
             link_wf (b_limits b) (b_options b) (b_lookup b) (b_generation b) l;
  bw_history : forall k l, b_history b !! k = Some l -> history_wf (b_generation b) l;
  bw_evidence : forall r, r ∈ b_evidence b ->
      evidence_wf (fun k => is_Some (b_links b !! k) \/ is_Some (b_history b !! k)) (b_generation b) r;
  bw_cables : forall k l k' l', b_links b !! k = Some l -> b_links b !! k' = Some l' ->
              equivalent_ports l l' = true -> k = k';
  bw_site : b_site b = "" \/ name_ok (b_limits b) (b_site b)
}.

(** ** Guards and notes *)

Lemma first_guard_None gs : first_guard gs = None <-> Forall (fun g => g_cond g = false) gs.
Proof.
  unfold first_guard. split.
  - intros H. apply Forall_forall. intros g Hg. eapply find_none in H; [done|]. by apply list_elem_of_In.
  - intros H. induction H as [|g gs Hg _ IH]; simpl; [done|]. by rewrite Hg.
Qed.

Lemma guarded_cases b gs accept s b' :
  guarded b gs accept = (s, b') ->
  (status_ok s = true -> b' = accept /\ b_frozen b = false /\ Forall (fun g => g_cond g = false) gs)
  \/ exists r, b' = with_report r b.
Proof.
  unfold guarded. destruct (b_frozen b) eqn:F.
  - intros [= <- <-]. right. exists (b_report b). by destruct b.
  - destruct (first_guard gs) as [g|] eqn:E; intros [= <- <-].
    + right. by eexists.
    + left. intros _. split; [done|]. split; [done|]. by apply first_guard_None.
Qed.

(** The invariant does not read the report. *)
Lemma builder_wf_report b r : builder_wf b -> builder_wf (with_report r b).
Proof. intros []. by split. Qed.

Lemma check_name_ok n lim :
  check_name n (max_name_bytes lim) = Acceptable <-> name_ok lim n.
Proof.
  unfold check_name, name_ok. destruct (Z.gtb_spec (strlen n) (max_name_bytes lim)).
  - split; [done|]. lia.
  - destruct (decide (n = "")) as [->|Hn]; [rewrite bool_decide_true by done|rewrite bool_decide_false by done];
      simpl; [naive_solver|]. destruct (is_valid_utf8 n); naive_solver lia.
Qed.

Lemma name_verdict_ok v : bool_decide (v = TooLong) = false -> bool_decide (v = NameInvalid) = false -> v = Acceptable.
Proof. by destruct v. Qed.

Lemma endpoint_exists_known b key : endpoint_exists b key = true <-> node_known (b_lookup b) key.
Proof. unfold endpoint_exists, node_known. case_decide; apply bool_decide_eq_true. Qed.

Lemma port_belongs_true b p owner :
  port_belongs b p owner = true <-> exists q, b_ports b !! p = Some q /\ port_owner q = owner.
Proof.
  unfold port_belongs. destruct (b_ports b !! p) as [q|]; [|naive_solver].
  rewrite bool_decide_eq_true. naive_solver.
Qed.

Lemma equivalent_link_None b l :
  equivalent_link b l = None <->
  forall k o, b_links b !! k = Some o -> equivalent_ports o l = false.
Proof.
  unfold equivalent_link. split.
  - intros H k o Ho. apply elem_of_ordered in Ho. apply list_elem_of_In in Ho.
    exact (find_none _ _ H (k, o) Ho).
  - intros H. destruct (List.find _ _) as [[k o]|] eqn:E; [|done].
    apply find_some in E as [Hin Ht]. apply list_elem_of_In, elem_of_ordered in Hin.
    simpl in Ht. by rewrite (H k o Hin) in Ht.
Qed.

(** ** Every operation preserves the invariant *)

(** Reads the guards of an accepted operation as propositions. *)
Ltac guards_to_prop :=
  repeat match goal with
  | H : Forall _ (_ :: _) |- _ => apply Forall_cons in H as [? H]; cbn [g_cond] in *
  | H : Forall _ [] |- _ => clear H
  end; bool_to_prop.

Lemma new_builder_wf id name gen epoch opts lim : builder_wf (new_builder id name gen epoch opts lim).
Proof.
  assert (builder_wf (MkBuilder id name "" FS_Operational gen epoch opts lim ∅ ∅ ∅ ∅ ∅ ∅ []
                        empty_report false)) as H.
  { split; simpl; auto with slf; try (by intros k x; rewrite lookup_empty). by intros r ?%elem_of_nil. }
  unfold new_builder. cbv zeta. split_cases; repeat apply builder_wf_report; done.
Qed.

Lemma guarded_wf b gs accept :
  builder_wf b -> (Forall (fun g => g_cond g = false) gs -> builder_wf accept) ->
  builder_wf (guarded b gs accept).2.
Proof.
  intros Hb Ha. unfold guarded. destruct (b_frozen b); [done|].
  destruct (first_guard gs) eqn:E; simpl; [by apply builder_wf_report|].
  apply Ha. by apply first_guard_None.
Qed.

Lemma set_site_wf b site : builder_wf b -> builder_wf (set_site b site).2.
Proof.
  intros Hb. apply guarded_wf; [done|]. intros Hg. guards_to_prop. destruct Hb. split; try done.
  simpl. case_decide; [by left|right].
  apply check_name_ok. by destruct (check_name _ _).
Qed.

Lemma set_state_wf b st : builder_wf b -> builder_wf (set_state b st).2.
Proof. intros Hb. apply guarded_wf; [done|]. intros _. destruct Hb. by split. Qed.

Lemma add_failure_domain_wf b r : builder_wf b -> builder_wf (add_failure_domain b r).2.
Proof.
  intros Hb. apply guarded_wf; [done|]. intros Hg. guards_to_prop.
  destruct Hb. split; try done; simpl; [auto with slf|].
  intros k d. rewrite lookup_insert. case_decide; [|by eauto]. intros [= <-].
  split; [done|]. apply check_name_ok. by destruct (check_name _ _).
Qed.

(** Adding a leaf or a spine under a new identity keeps what was known. *)
Lemma extends_leaves b r :
  b_leaves b !! leaf_id r = None ->
  extends (b_lookup b) (b_lookup (with_leaves (<[leaf_id r := r]> (b_leaves b)) b)).
Proof.
  intros Hn. split; simpl; try done. intros k x Hx. rewrite lookup_insert_ne; [done|]. congruence.
Qed.

Lemma extends_spines b r :
  b_spines b !! spine_id r = None ->
  extends (b_lookup b) (b_lookup (with_spines (<[spine_id r := r]> (b_spines b)) b)).
Proof.
  intros Hn. split; simpl; try done. intros k x Hx. rewrite lookup_insert_ne; [done|]. congruence.
Qed.

Lemma extends_ports b r :
  b_ports b !! port_id r = None ->
  extends (b_lookup b) (b_lookup (with_ports (<[port_id r := r]> (b_ports b)) b)).
Proof.
  intros Hn. split; simpl; try done. intros k x Hx. rewrite lookup_insert_ne; [done|]. congruence.
Qed.

Lemma not_is_Some_None {A} (o : option A) : ~ is_Some o -> o = None.
Proof. destruct o; [|done]. intros H. by destruct H. Qed.

(** The outcome of [validate_node_common]: on success only the report changed
    and the record passed the shared checks. *)
Lemma validate_node_common_cases b key name gen dom cap s b' :
  validate_node_common b key name gen dom cap = (s, b') ->
  (exists r, b' = with_report r b)
  /\ (status_ok s = true ->
      gen = b_generation b /\ name_ok (b_limits b) name /\ cap <= max_capacity_mbps (b_limits b)).
Proof.
  unfold validate_node_common. destruct (first_guard _) as [g|] eqn:E.
  - intros [= <- <-]. split; [by eexists|]. unfold first_guard in E.
    apply find_some in E as [Hin _]. simpl in Hin.
    destruct Hin as [<-|[<-|[<-|[<-|[]]]]]; done.
  - intros H. split.
    + revert H. destruct (is_zero dom); intros [= <- <-]; [by eexists|]. exists (b_report b). by destruct b.
    + intros _. apply first_guard_None in E. unfold node_common_guards in E. guards_to_prop. split; [done|]. split; [|lia].
      apply check_name_ok. by destruct (check_name _ _).
Qed.

Lemma warn_duplicate_leaf_name_report b r : exists p, warn_duplicate_leaf_name b r = with_report p b.
Proof. unfold warn_duplicate_leaf_name. case_match; [by eexists|]. exists (b_report b). by destruct b. Qed.

Lemma warn_duplicate_spine_name_report b r : exists p, warn_duplicate_spine_name b r = with_report p b.
Proof. unfold warn_duplicate_spine_name. case_match; [by eexists|]. exists (b_report b). by destruct b. Qed.

(** An accepted leaf: the report apart, the new state is the old one with the
    leaf inserted, and the leaf is well formed and new. *)
Lemma add_leaf_cases b r s b' :
  add_leaf b r = (s, b') ->
  (status_ok s = false /\ exists p, b' = with_report p b) \/
  (s = success /\ b_frozen b = false
   /\ (exists p, b' = with_report p (with_leaves (<[leaf_id r := r]> (b_leaves b)) b))
   /\ leaf_wf (b_limits b) (b_generation b) r /\ b_leaves b !! leaf_id r = None
   /\ Z.of_nat (size (b_leaves b)) < max_leaves (b_limits b)).
Proof.
  unfold add_leaf. destruct (b_frozen b) eqn:F.
  { intros [= <- <-]. left. split; [done|]. exists (b_report b). by destruct b. }
  destruct (first_guard _) as [g|] eqn:E.
  { intros [= <- <-]. left. split; [|by eexists]. apply find_some in E as [Hin _]. simpl in Hin.
    destruct Hin as [<-|[<-|[<-|[]]]]; done. }
  apply first_guard_None in E. unfold leaf_guards in E. guards_to_prop.
  destruct (warn_duplicate_leaf_name_report b r) as [p1 ->].
  destruct (validate_node_common _ _ _ _ _ _) as [c b2] eqn:V.
  apply validate_node_common_cases in V as [[p2 ->] Hc].
  destruct (status_ok c) eqn:Ec; cbn [negb]; intros [= <- <-]; [|left; split; [done|by eexists]].
  destruct (Hc eq_refl) as (Hg & Hn & Hcap). right. split; [done|]. split; [done|]. split.
  - destruct (_ =? 0); by eexists.
  - split; [split; [unfold is_zero in *; by apply Z.eqb_neq|done..]|]. split; [|done].
    by apply not_is_Some_None.
Qed.

Lemma add_spine_cases b r s b' :
  add_spine b r = (s, b') ->
  (status_ok s = false /\ exists p, b' = with_report p b) \/
  (s = success /\ b_frozen b = false
   /\ (exists p, b' = with_report p (with_spines (<[spine_id r := r]> (b_spines b)) b))
   /\ spine_wf (b_limits b) (b_generation b) r /\ b_spines b !! spine_id r = None
   /\ Z.of_nat (size (b_spines b)) < max_spines (b_limits b)).
Proof.
  unfold add_spine. destruct (b_frozen b) eqn:F.
  { intros [= <- <-]. left. split; [done|]. exists (b_report b). by destruct b. }
  destruct (first_guard _) as [g|] eqn:E.
  { intros [= <- <-]. left. split; [|by eexists]. apply find_some in E as [Hin _]. simpl in Hin.
    destruct Hin as [<-|[<-|[<-|[]]]]; done. }
  apply first_guard_None in E. unfold spine_guards in E. guards_to_prop.
  destruct (warn_duplicate_spine_name_report b r) as [p1 ->].
  destruct (validate_node_common _ _ _ _ _ _) as [c b2] eqn:V.
  apply validate_node_common_cases in V as [[p2 ->] Hc].
  destruct (status_ok c) eqn:Ec; cbn [negb]; intros [= <- <-]; [|left; split; [done|by eexists]].
  destruct (Hc eq_refl) as (Hg & Hn & Hcap). right. split; [done|]. split; [done|]. split.
  - destruct (_ =? 0); by eexists.
  - split; [split; [unfold is_zero in *; by apply Z.eqb_neq|done..]|]. split; [|done].
    by apply not_is_Some_None.
Qed.

Lemma with_leaves_wf b r :
  builder_wf b -> leaf_wf (b_limits b) (b_generation b) r -> b_leaves b !! leaf_id r = None ->
  builder_wf (with_leaves (<[leaf_id r := r]> (b_leaves b)) b).
Proof.
  intros Hb Hr Hn. pose proof (extends_leaves b r Hn) as He. destruct Hb.
  split; try done; simpl; [auto with slf| | |].
  - intros k l. rewrite lookup_insert. case_decide; [by intros [= <-]|by eauto].
  - intros k p Hp. eapply port_wf_mono; eauto.
  - intros k l Hl. eapply link_wf_mono; eauto.
Qed.

Lemma with_spines_wf b r :
  builder_wf b -> spine_wf (b_limits b) (b_generation b) r -> b_spines b !! spine_id r = None ->
  builder_wf (with_spines (<[spine_id r := r]> (b_spines b)) b).
Proof.
  intros Hb Hr Hn. pose proof (extends_spines b r Hn) as He. destruct Hb.
  split; try done; simpl; [auto with slf| | |].
  - intros k l. rewrite lookup_insert. case_decide; [by intros [= <-]|by eauto].
  - intros k p Hp. eapply port_wf_mono; eauto.
  - intros k l Hl. eapply link_wf_mono; eauto.
Qed.

Lemma add_leaf_wf b r : builder_wf b -> builder_wf (add_leaf b r).2.
Proof.
  intros Hb. destruct (add_leaf b r) as [s b'] eqn:E. simpl.
  apply add_leaf_cases in E as [[_ [p ->]]|(_ & _ & [p ->] & Hr & Hn & _)]; apply builder_wf_report; [done|].
  by apply with_leaves_wf.
Qed.

Lemma add_spine_wf b r : builder_wf b -> builder_wf (add_spine b r).2.
Proof.
  intros Hb. destruct (add_spine b r) as [s b'] eqn:E. simpl.
  apply add_spine_cases in E as [[_ [p ->]]|(_ & _ & [p ->] & Hr & Hn & _)]; apply builder_wf_report; [done|].
  by apply with_spines_wf.
Qed.

Lemma add_port_wf b r : builder_wf b -> builder_wf (add_port b r).2.
Proof.
  intros Hb. apply guarded_wf; [done|]. intros Hg. unfold port_guards in Hg. guards_to_prop.
  assert (b_ports b !! port_id r = None) as Hn by by apply not_is_Some_None.
  pose proof (extends_ports b r Hn) as He. destruct Hb.
  split; try done; simpl; [auto with slf| |].
  - intros k p. rewrite lookup_insert. destruct (decide (port_id r = k)); intros Hp; [|eapply port_wf_mono; eauto].
    injection Hp as <-. split; try done.
    + by apply Z.eqb_neq.
    + eapply node_known_mono; [done|]. by apply endpoint_exists_known.
    + intros Hen. rewrite Hen in *. rewrite bool_decide_true, andb_true_r in * by done. lia.
  - intros k l Hl. eapply link_wf_mono; eauto.
Qed.

(** The guards of [add_link], all passed, are the well-formedness of the link. *)
Lemma link_guards_wf b r :
  Forall (fun g => g_cond g = false) (link_guards b r) ->
  Z.of_nat (size (b_links b)) < max_links (b_limits b)
  /\ b_links b !! link_id r = None
  /\ link_wf (b_limits b) (b_options b) (b_lookup b) (b_generation b) r
  /\ forall k o, b_links b !! k = Some o -> equivalent_ports o r = false.
Proof.
  unfold link_guards. cbv zeta. intros Hg. guards_to_prop.
  split; [done|]. split; [by apply not_is_Some_None|].
  split; [|by apply equivalent_link_None, not_is_Some_None].
  assert (exists p, b_ports b !! link_port_a r = Some p /\ port_owner p = link_a r) as Ha
    by by apply port_belongs_true.
  assert (exists p, b_ports b !! link_port_b r = Some p /\ port_owner p = link_b r) as Hb
    by by apply port_belongs_true.
  unfold same_tier in *. split; try done.
  - by apply Z.eqb_neq.
  - intros Hs. rewrite (bool_decide_true _ Hs) in *. simpl in *. split; [by destruct (allow_same_tier_adjacency _)|].
    by destruct (link_cls r).
  - intros Hs. rewrite (bool_decide_false _ Hs) in *. simpl in *. by destruct (link_cls r).
  - by apply endpoint_exists_known.
  - by apply endpoint_exists_known.
  - intros Ta Tb. rewrite Ta, Tb, !bool_decide_true in * by done. cbn [andb] in *. bool_to_prop.
    unfold leaf_peer_capable_at in *. simpl.
    destruct (b_leaves b !! index (link_a r)) as [x|]; [|done].
    destruct (b_leaves b !! index (link_b r)) as [y|]; [|done]. by exists x, y.
  - destruct (Z.eq_dec (link_declared_speed r) 0) as [|Hd]; [by left|right].
    destruct Ha as (p & Hp & _), Hb as (q & Hq & _). exists p, q. split; [done|]. split; [done|].
    rewrite (proj2 (Z.eqb_neq _ _) Hd) in *. cbn [negb andb] in *. bool_to_prop.
    unfold slower_speed, port_speed_at in *. rewrite Hp, Hq in *.
    destruct (Z.ltb_spec (port_speed p) (port_speed q)); lia.
Qed.

Lemma equivalent_ports_sym o r : equivalent_ports o r = equivalent_ports r o.
Proof.
  unfold equivalent_ports. apply eq_true_iff_eq.
  rewrite !orb_true_iff, !andb_true_iff, !Z.eqb_eq. naive_solver.
Qed.

Lemma add_link_wf b r : builder_wf b -> builder_wf (add_link b r).2.
Proof.
  intros Hb. apply guarded_wf; [done|]. intros Hg.
  apply link_guards_wf in Hg as (_ & Hn & Hr & He). destruct Hb.
  split; try done; simpl; [auto with slf| | |].
  - intros k l. rewrite lookup_insert. case_decide; [by intros [= <-]|by eauto].
  - intros e [? ? ? Hk]%bw_evidence0. split; try done. rewrite lookup_insert. case_decide; naive_solver.
  - intros k l k' l'. rewrite !lookup_insert. do 2 case_decide; simplify_eq; intros; simplify_eq; try done.
    + rewrite equivalent_ports_sym, (He k' l') in *; done.
    + by rewrite (He k l) in *.
    + by eapply bw_cables0.
Qed.

Lemma add_history_link_wf b r : builder_wf b -> builder_wf (add_history_link b r).2.
Proof.
  intros Hb. apply guarded_wf; [done|]. intros Hg. guards_to_prop.
  destruct Hb. split; try done; simpl; [auto with slf| |].
  - intros k l. rewrite lookup_insert. case_decide; [intros [= <-]|by eauto].
    split; [by apply Z.eqb_neq|done].
  - intros e [? ? ? Hk]%bw_evidence0. split; try done. rewrite lookup_insert. case_decide; naive_solver.
Qed.

Lemma add_evidence_wf b r : builder_wf b -> builder_wf (add_evidence b r).2.
Proof.
  intros Hb. apply guarded_wf; [done|]. intros Hg. guards_to_prop.
  destruct Hb. split; try done; simpl.
  intros e. rewrite elem_of_app, list_elem_of_singleton. intros [He| ->]; [by apply bw_evidence0|].
  split; try done; [by apply Z.eqb_neq|].
  match goal with H : (_ && _)%bool = false |- _ => apply andb_false_iff in H as [H|H] end;
    bool_to_prop; [by left|by right].
Qed.

(** ** Any sequence of operations *)

Inductive BuilderOp :=
| OpSite (s : string) | OpState (s : FabricState) | OpDomain (r : FailureDomainRecord)
| OpLeaf (r : LeafRecord) | OpSpine (r : SpineRecord) | OpPort (r : PortRecord)
| OpLink (r : LinkRecord) | OpHistory (r : LinkRecord) | OpEvidence (r : LinkEvidence).

Definition apply_op (b : FabricBuilder) (op : BuilderOp) : Status * FabricBuilder :=
  match op with
  | OpSite s => set_site b s
  | OpState s => set_state b s
  | OpDomain r => add_failure_domain b r
  | OpLeaf r => add_leaf b r
  | OpSpine r => add_spine b r
  | OpPort r => add_port b r
  | OpLink r => add_link b r
  | OpHistory r => add_history_link b r
  | OpEvidence r => add_evidence b r
  end.

(** The state after a sequence of operations, refused ones included. *)
Definition run_ops (b : FabricBuilder) (ops : list BuilderOp) : FabricBuilder :=
  fold_left (fun b op => (apply_op b op).2) ops b.

#[export] Hint Resolve set_site_wf set_state_wf add_failure_domain_wf add_leaf_wf add_spine_wf
  add_port_wf add_link_wf add_history_link_wf add_evidence_wf new_builder_wf : slf.

Lemma apply_op_wf b op : builder_wf b -> builder_wf (apply_op b op).2.
Proof. destruct op; simpl; auto with slf. Qed.

Lemma run_ops_wf b ops : builder_wf b -> builder_wf (run_ops b ops).
Proof. revert b. induction ops as [|op ops IH]; intros b Hb; [done|]. apply IH. by apply apply_op_wf. Qed.

(** ** The configured bounds *)

Record builder_sizes (b : FabricBuilder) : Prop := {
  bs_domains : Z.of_nat (size (b_domains b)) <= Z.max 0 (max_failure_domains (b_limits b));
  bs_leaves : Z.of_nat (size (b_leaves b)) <= Z.max 0 (max_leaves (b_limits b));
  bs_spines : Z.of_nat (size (b_spines b)) <= Z.max 0 (max_spines (b_limits b));
  bs_ports : Z.of_nat (size (b_ports b)) <= Z.max 0 (max_ports (b_limits b));
  bs_links : Z.of_nat (size (b_links b)) <= Z.max 0 (max_links (b_limits b));
  bs_history : Z.of_nat (size (b_history b)) <= Z.max 0 (max_history_records (b_limits b));
  bs_evidence : Zlen (b_evidence b) <= Z.max 0 (max_evidence_records (b_limits b))
}.

Lemma size_insert_le {A} (m : gmap Z A) k x : (size (<[k := x]> m) <= S (size m))%nat.
Proof. rewrite map_size_insert. case_match; simpl; lia. Qed.

Lemma builder_sizes_report b r : builder_sizes b -> builder_sizes (with_report r b).
Proof. intros []. by split. Qed.

Lemma guarded_sizes b gs accept :
  builder_sizes b -> (Forall (fun g => g_cond g = false) gs -> builder_sizes accept) ->
  builder_sizes (guarded b gs accept).2.
Proof.
  intros Hb Ha. unfold guarded. destruct (b_frozen b); [done|].
  destruct (first_guard gs) eqn:E; simpl; [by apply builder_sizes_report|].
  apply Ha. by apply first_guard_None.
Qed.

Lemma apply_op_sizes b op : builder_sizes b -> builder_sizes (apply_op b op).2.
Proof.
  intros Hb. destruct op; cbn [apply_op];
    try (apply guarded_sizes; [done|]; intros Hg; try unfold link_guards in Hg; try unfold port_guards in Hg; cbv zeta in Hg; guards_to_prop; destruct Hb; split; try done; simpl;
         first [ match goal with |- context [size (<[?k := ?x]> ?m)] => pose proof (size_insert_le m k x) end; lia
               | rewrite Zlen_app; change (Zlen [r]) with 1; lia ]).
  - destruct (add_leaf b r) as [s b'] eqn:E. simpl.
    apply add_leaf_cases in E as [[_ [p ->]]|(_ & _ & [p ->] & _ & _ & Hs)]; apply builder_sizes_report; [done|].
    destruct Hb. split; try done. simpl. pose proof (size_insert_le (b_leaves b) (leaf_id r) r). lia.
  - destruct (add_spine b r) as [s b'] eqn:E. simpl.
    apply add_spine_cases in E as [[_ [p ->]]|(_ & _ & [p ->] & _ & _ & Hs)]; apply builder_sizes_report; [done|].
    destruct Hb. split; try done. simpl. pose proof (size_insert_le (b_spines b) (spine_id r) r). lia.
Qed.

Lemma new_builder_sizes id name gen epoch opts lim : builder_sizes (new_builder id name gen epoch opts lim).
Proof.
  assert (builder_sizes (MkBuilder id name "" FS_Operational gen epoch opts lim ∅ ∅ ∅ ∅ ∅ ∅ []
                        empty_report false)) as H.
  { split; simpl; rewrite ?map_size_empty, ?Zlen_nil; lia. }
  unfold new_builder. cbv zeta. split_cases; repeat apply builder_sizes_report; done.
Qed.

Lemma run_ops_sizes b ops : builder_sizes b -> builder_sizes (run_ops b ops).
Proof. revert b. induction ops as [|op ops IH]; intros b Hb; [done|]. apply IH. by apply apply_op_sizes. Qed.
