(* ===== verification/Sample.v ===== *)
(** * A sample fabric

    Two leaves, two spines and a full mesh of four links, used by the concrete
    instances that accompany the theorems. *)
From S2P Require Import Prelude Status Identity Bytes Digest Model Builder BuilderSpec.

Module Sample.
Definition leaf1 : LeafRecord := MkLeaf 1 "leaf-1" LR_Access 1 1 NS_Active 20000 4 7.
Definition leaf2 : LeafRecord := MkLeaf 2 "leaf-2" LR_Access 1 2 NS_Active 20000 4 7.
Definition spine1 : SpineRecord := MkSpine 1 "spine-1" SR_FabricSpine 1 1 NS_Active 100000 7.
Definition spine2 : SpineRecord := MkSpine 2 "spine-2" SR_FabricSpine 1 2 NS_Active 100000 7.
Definition port (i : Z) (n : NodeKey) : PortRecord := MkPort i n 10000 PA_Enabled 7.
Definition ports : list PortRecord :=
  [port 1 (node_of_leaf 1); port 2 (node_of_leaf 1); port 3 (node_of_leaf 2); port 4 (node_of_leaf 2);
   port 5 (node_of_spine 1); port 6 (node_of_spine 1); port 7 (node_of_spine 2); port 8 (node_of_spine 2)].
Definition link (i : Z) (l : Z) (pl : Z) (s : Z) (ps : Z) : LinkRecord :=
  MkLink i (node_of_leaf l) pl (node_of_spine s) ps LC_LeafSpine LA_Enabled 0 7.
Definition links : list LinkRecord := [link 1 1 1 1 5; link 2 1 2 2 7; link 3 2 3 1 6; link 4 2 4 2 8].

Definition build : Outcome Fabric * ValidationReport :=
  build_fabric 9 "sample" 7 3 default_options [leaf1; leaf2] [spine1; spine2] ports links default_limits.

Definition fabric : Fabric := Eval vm_compute in
  match build.1 with
  | Value f => f
  | Failure _ => MkFabric 0 "" "" 0 0 FS_Unformed default_options [] [] [] [] [] [] [] zero_digest zero_digest
  end.
Definition report : ValidationReport := Eval vm_compute in build.2.

Lemma build_eq : build = (Value fabric, report).
Proof. vm_compute. reflexivity. Qed.

(** The same records as a sequence of builder operations, with one observation. *)
Definition observation : LinkEvidence := MkEvidence 1 LO_Up 7 (MkInc 5 6) 3 1 1000.
Definition ops : list BuilderOp :=
  [OpSite "lab"; OpLeaf leaf2; OpLeaf leaf1; OpSpine spine2; OpSpine spine1]
  ++ (OpPort <$> ports) ++ (OpLink <$> links) ++ [OpEvidence observation].
Definition start : FabricBuilder := new_builder 9 "sample" 7 3 default_options default_limits.
Definition observed : Fabric := Eval vm_compute in
  match (freeze (run_ops start ops)).1 with Value f => f | Failure _ => fabric end.
End Sample.
