(* ===== verification/Freeze.v ===== *)
(** * Freezing (src/builder.cpp, [FabricBuilder::freeze] and the validations)

    What a successful [freeze] guarantees of its fabric, and that the result does
    not depend on the order in which the records were added. *)
From S2P Require Import Prelude Status Identity Bytes Digest Model Builder BuilderSpec Sample.

(** ** The report only grows *)

Definition has_error (l : list ValidationIssue) : Prop :=
  exists i, i ∈ l /\ issue_severity i = IS_Error.

Definition errors (l : list ValidationIssue) : Z :=
  Zlen (filter (fun i => issue_severity i = IS_Error) l).

Definition add_issues (r : ValidationReport) (l : list ValidationIssue) : ValidationReport :=
  fold_left add_issue l r.

Lemma add_issues_app r l k : add_issues r (l ++ k) = add_issues (add_issues r l) k.
Proof. apply fold_left_app. Qed.

Lemma add_issues_issues r l : issues (add_issues r l) = issues r ++ l.
Proof.
  revert r. induction l as [|i l IH]; intros r; simpl; [by rewrite app_nil_r|].
  rewrite IH. simpl. by rewrite <- (assoc_L (++)).
Qed.

Lemma errors_app l k : errors (l ++ k) = errors l + errors k.
Proof. unfold errors. by rewrite filter_app, Zlen_app. Qed.

Lemma add_issues_errors r l :
  error_count r = wrap 32 (errors (issues r)) ->
  error_count (add_issues r l) = wrap 32 (errors (issues r ++ l)).
Proof.
  revert r. induction l as [|i l IH]; intros r Hr; simpl; [by rewrite app_nil_r|].
  assert (issues r ++ i :: l = issues (add_issue r i) ++ l) as -> by (simpl; by rewrite <- (assoc_L (++))).
  apply IH. simpl. rewrite errors_app. unfold errors at 2. rewrite filter_cons, filter_nil.
  case_decide; [|by rewrite Zlen_nil, Z.add_0_r].
  rewrite Hr. unfold wrap, Zlen. simpl. by rewrite Z.add_mod_idemp_l.
Qed.

(** The part of an error count that matters for the outcome of [freeze]. *)
Lemma add_issues_error_count r r' l :
  error_count r = error_count r' -> error_count (add_issues r l) = error_count (add_issues r' l).
Proof.
  revert r r'. induction l as [|i l IH]; intros r r' H; [done|]. simpl. apply IH. simpl. by rewrite H.
Qed.

Lemma errors_zero l : errors l = 0 <-> ~ has_error l.
Proof.
  unfold errors, has_error. split.
  - intros H (i & Hi & Hs). assert (i ∈ filter (fun i => issue_severity i = IS_Error) l) as Hf
      by by apply list_elem_of_filter.
    destruct (filter _ l); [by apply elem_of_nil in Hf|]. rewrite Zlen_cons in H. pose proof (Zlen_nonneg l0). lia.
  - intros H. destruct (filter _ l) as [|i k] eqn:E; [done|]. exfalso. apply H. exists i.
    assert (i ∈ filter (fun i => issue_severity i = IS_Error) l) as Hf by (rewrite E; left).
    by apply list_elem_of_filter in Hf as [? ?].
Qed.

Lemma errors_range l : 0 <= errors l <= Zlen l.
Proof.
  unfold errors, Zlen. split; [lia|]. apply inj_le. apply length_filter.
Qed.

(** An error issue never carries the code [Ok]. *)
Definition issue_sound (i : ValidationIssue) : Prop :=
  issue_severity i = IS_Error -> issue_code i <> SC_Ok.

(** ** What the report records *)

Record report_wf (b : FabricBuilder) : Prop := {
  rw_sound : Forall issue_sound (issues (b_report b));
  rw_count : error_count (b_report b) = wrap 32 (errors (issues (b_report b)));
  rw_name : name_ok (b_limits b) (b_name b) \/ has_error (issues (b_report b));
  rw_min : min_eligible_spines (b_options b) <> 0 \/ has_error (issues (b_report b))
}.

(** [b'] is a later state of the builder [b]: same configuration, a longer report. *)
Record grows (b b' : FabricBuilder) : Prop := {
  gr_name : b_name b' = b_name b;
  gr_options : b_options b' = b_options b;
  gr_limits : b_limits b' = b_limits b;
  gr_report : exists l, Forall issue_sound l /\ b_report b' = add_issues (b_report b) l
}.

Lemma has_error_app l k : has_error l -> has_error (l ++ k).
Proof. intros (i & Hi & Hs). exists i. split; [|done]. apply elem_of_app. by left. Qed.

Lemma report_wf_grows b b' : grows b b' -> report_wf b -> report_wf b'.
Proof.
  intros [Hn Ho Hl (l & Hs & Hr)] [Hso Hc Hname Hmin].
  split; rewrite ?Hn, ?Ho, ?Hl, ?Hr, ?add_issues_issues.
  - by apply Forall_app.
  - by apply add_issues_errors.
  - destruct Hname; [by left|right]. by apply has_error_app.
  - destruct Hmin; [by left|right]. by apply has_error_app.
Qed.

Lemma grows_refl b : grows b b.
Proof. split; try done. by exists []. Qed.

Lemma grows_trans a b c : grows a b -> grows b c -> grows a c.
Proof.
  intros [Hn Ho Hl (l & Hs & Hr)] [Hn' Ho' Hl' (l' & Hs' & Hr')]. split; try congruence.
  exists (l ++ l'). split; [by apply Forall_app|]. by rewrite Hr', Hr, add_issues_app.
Qed.

Lemma grows_note b sev c loc d : (sev = IS_Error -> c <> SC_Ok) -> grows b (note b sev c loc d).2.
Proof.
  intros Hc. unfold note. case_decide; (split; [done..|]; exists [MkIssue sev c loc d]);
    (split; [by repeat constructor|done]).
Qed.

Lemma grows_noted b sev c loc d : (sev = IS_Error -> c <> SC_Ok) -> grows b (noted b sev c loc d).
Proof. apply grows_note. Qed.

#[export] Hint Resolve grows_refl : slf.
#[export] Hint Extern 4 (grows _ (noted _ _ _ _ _)) => (apply grows_noted; done) : slf.

(** The guards' codes are failures. *)
Definition guards_sound (gs : list Guard) : Prop := Forall (fun g => g_code g <> SC_Ok) gs.

Ltac solve_guards_sound :=
  unfold guards_sound, leaf_guards, spine_guards, port_guards, link_guards, node_common_guards; cbv zeta;
  repeat (apply Forall_cons; split; [cbn [g_code]; discriminate|]); apply Forall_nil; try exact I.

Lemma grows_first_guard b gs g :
  guards_sound gs -> first_guard gs = Some g ->
  grows b (note b IS_Error (g_code g) (g_where g) (g_detail g)).2.
Proof.
  unfold guards_sound, first_guard. intros Hg Hf. apply grows_note. intros _.
  rewrite Forall_forall in Hg. apply Hg. apply find_some in Hf as [Hin _]. by apply list_elem_of_In.
Qed.

Lemma grows_guarded b gs a : guards_sound gs -> grows b a -> grows b (guarded b gs a).2.
Proof. intros Hg Ha. unfold guarded. destruct (b_frozen b); [apply grows_refl|].
  destruct (first_guard gs) eqn:E; [by eapply grows_first_guard|done]. Qed.

Lemma grows_validate_node_common b key name gen dom cap :
  grows b (validate_node_common b key name gen dom cap).2.
Proof.
  unfold validate_node_common. destruct (first_guard _) eqn:E.
  - eapply grows_first_guard; [|exact E]; solve_guards_sound.
  - case_match; [by apply grows_note|apply grows_refl].
Qed.

Lemma grows_add_leaf b r : grows b (add_leaf b r).2.
Proof.
  unfold add_leaf. destruct (b_frozen b); [apply grows_refl|].
  destruct (first_guard _) eqn:E; [eapply grows_first_guard; [|exact E]; solve_guards_sound|]. cbv zeta.
  assert (grows b (warn_duplicate_leaf_name b r)) as H1
    by (unfold warn_duplicate_leaf_name; case_match; auto with slf).
  pose proof (grows_validate_node_common (warn_duplicate_leaf_name b r) (node_of_leaf (leaf_id r))
    (leaf_name r) (leaf_generation r) (leaf_domain r) (leaf_access_capacity r)) as H2.
  destruct (validate_node_common _ _ _ _ _ _) as [c b2]. simpl in H2.
  pose proof (grows_trans _ _ _ H1 H2) as H3. destruct (negb (status_ok c)); [done|].
  destruct (_ =? 0); [|by destruct H3].
  pose proof (grows_trans _ _ _ H3 (grows_noted b2 IS_Warning SC_Incomplete
    (LeafId_to_string (leaf_id r)) "leaf declares zero access capacity" ltac:(done))) as [].
  by split.
Qed.

Lemma grows_add_spine b r : grows b (add_spine b r).2.
Proof.
  unfold add_spine. destruct (b_frozen b); [apply grows_refl|].
  destruct (first_guard _) eqn:E; [eapply grows_first_guard; [|exact E]; solve_guards_sound|]. cbv zeta.
  assert (grows b (warn_duplicate_spine_name b r)) as H1
    by (unfold warn_duplicate_spine_name; case_match; auto with slf).
  pose proof (grows_validate_node_common (warn_duplicate_spine_name b r) (node_of_spine (spine_id r))
    (spine_name r) (spine_generation r) (spine_domain r) (spine_fabric_capacity r)) as H2.
  destruct (validate_node_common _ _ _ _ _ _) as [c b2]. simpl in H2.
  pose proof (grows_trans _ _ _ H1 H2) as H3. destruct (negb (status_ok c)); [done|].
  destruct (_ =? 0); [|by destruct H3].
  pose proof (grows_trans _ _ _ H3 (grows_noted b2 IS_Warning SC_Incomplete
    (SpineId_to_string (spine_id r)) "spine declares zero fabric capacity" ltac:(done))) as [].
  by split.
Qed.

Lemma grows_apply_op b op : grows b (apply_op b op).2.
Proof.
  destruct op; simpl; try apply grows_add_leaf; try apply grows_add_spine;
    (apply grows_guarded; [solve_guards_sound|split; try done; by exists []]).
Qed.

Lemma grows_run_ops b ops : grows b (run_ops b ops).
Proof.
  revert b. induction ops as [|op ops IH]; intros b; [apply grows_refl|].
  eapply grows_trans; [apply grows_apply_op|apply IH].
Qed.

Lemma new_builder_report_wf id name gen epoch opts lim :
  report_wf (new_builder id name gen epoch opts lim).
Proof.
  unfold new_builder. cbv zeta.
  set (b0 := MkBuilder id name "" FS_Operational gen epoch opts lim ∅ ∅ ∅ ∅ ∅ ∅ [] empty_report false).
  set (b1 := match check_name name (max_name_bytes lim) with TooLong => _ | NameInvalid => _ | Acceptable => _ end).
  set (b2 := if is_zero gen then _ else _).
  assert (grows b0 b1) as G1 by (unfold b1; case_match; auto with slf).
  assert (grows b1 b2) as G2 by (unfold b2; case_match; auto with slf).
  assert (name_ok lim name \/ has_error (issues (b_report b1))) as Hn.
  { unfold b1. destruct (check_name name (max_name_bytes lim)) eqn:E; [left; by apply check_name_ok|right..];
      eexists; (split; [left|done]). }
  assert (name_ok lim name \/ has_error (issues (b_report b2))) as Hn2.
  { destruct G2 as [_ _ _ (l & _ & ->)]. rewrite add_issues_issues. destruct Hn; [by left|right; by apply has_error_app]. }
  pose proof (grows_trans _ _ _ G1 G2) as [E1 E2 E3 (l & Hso & El)].
  assert (error_count (b_report b2) = wrap 32 (errors (issues (b_report b2)))) as Hc.
  { rewrite El, add_issues_issues. by apply add_issues_errors. }
  destruct (Z.eqb_spec (min_eligible_spines opts) 0) as [Hm|Hm].
  - set (i := MkIssue IS_Error SC_Invalid "fabric" "min_eligible_spines must be at least 1").
    assert (has_error (issues (b_report b2) ++ [i])) as Hi.
    { exists i. split; [|done]. apply elem_of_app. right. left. }
    split; simpl; [| |by right..].
    + apply Forall_app. split; [|by repeat constructor]. by rewrite El, add_issues_issues.
    + pose proof (add_issues_errors (b_report b2) [i] Hc) as H. exact H.
  - split; [by rewrite El, add_issues_issues|done| |]; rewrite ?E1, ?E2, ?E3; [done|by left].
Qed.

(** ** The validations only append issues

    What a validation appends depends on the records, never on the report it
    starts from. *)

Definition log_of (g : FabricBuilder -> FabricBuilder) (b : FabricBuilder) : list ValidationIssue :=
  issues (b_report (g (with_report empty_report b))).

Definition logs (g : FabricBuilder -> FabricBuilder) (b : FabricBuilder) : Prop :=
  forall r, g (with_report r b) = with_report (add_issues r (log_of g b)) b.

Lemma with_report_same b : with_report (b_report b) b = b.
Proof. by destruct b. Qed.

Lemma logs_run g b : logs g b -> g b = with_report (add_issues (b_report b) (log_of g b)) b.
Proof. intros H. rewrite <- (with_report_same b) at 1. apply H. Qed.

Lemma logs_log g b l :
  (forall r, g (with_report r b) = with_report (add_issues r l) b) -> logs g b /\ log_of g b = l.
Proof.
  intros H. assert (log_of g b = l) as E.
  { unfold log_of. rewrite H. simpl. by rewrite add_issues_issues. }
  split; [|done]. intros r. by rewrite H, E.
Qed.

Lemma logs_comp g h b :
  logs g b -> logs h b ->
  logs (fun b => h (g b)) b /\ log_of (fun b => h (g b)) b = log_of g b ++ log_of h b.
Proof. intros Hg Hh. apply logs_log. intros r. by rewrite Hg, Hh, add_issues_app. Qed.

Lemma logs_fold {X} (g : FabricBuilder -> X -> FabricBuilder) xs b :
  (forall x, x ∈ xs -> logs (fun b => g b x) b) ->
  logs (fun b => fold_left g xs b) b
  /\ log_of (fun b => fold_left g xs b) b = concat ((fun x => log_of (fun b => g b x) b) <$> xs).
Proof.
  induction xs as [|x xs IH]; intros Hx.
  - by apply logs_log.
  - destruct (logs_comp (fun b => g b x) (fun b => fold_left g xs b) b) as [Hl Hlog].
    + apply Hx. left.
    + apply IH. intros y Hy. apply Hx. by right.
    + split; [exact Hl|]. rewrite fmap_cons. cbn [concat].
      rewrite <- (proj2 (IH (fun y Hy => Hx y (list_elem_of_further y x xs Hy)))). exact Hlog.
Qed.

(** Settles a [logs] goal by evaluating both sides on every branch. *)
Ltac solve_logs :=
  intros r; unfold log_of; cbn [b_domains b_leaves b_spines b_ports b_links b_evidence
    b_generation with_report]; repeat (case_match; try done).

Lemma logs_validate_domains b : logs validate_domains b.
Proof.
  unfold validate_domains. destruct (decide (b_domains b = ∅)) as [E|E].
  - intros r. unfold log_of. cbn [b_domains with_report]. by rewrite !decide_True.
  - destruct (logs_fold (fun b p =>
        if bool_decide (is_Some (b_domains b !! leaf_domain p.2)) then b
        else noted b IS_Warning SC_NotFound (LeafId_to_string p.1)
               ("failure domain " +:+ std_to_string (leaf_domain p.2) +:+ " is not declared"))
        (ordered (b_leaves b)) b) as [H1 _]; [intros p _; solve_logs|].
    destruct (logs_fold (fun b p =>
        if bool_decide (is_Some (b_domains b !! spine_domain p.2)) then b
        else noted b IS_Warning SC_NotFound (SpineId_to_string p.1)
               ("failure domain " +:+ std_to_string (spine_domain p.2) +:+ " is not declared"))
        (ordered (b_spines b)) b) as [H2 _]; [intros p _; solve_logs|].
    eapply logs_log. intros r.
    cbn [b_domains b_leaves with_report]. rewrite decide_False by done. cbv zeta.
    rewrite (H1 r). etransitivity; [apply H2|]. by rewrite <- add_issues_app.
Qed.

Lemma logs_validate_ports b : logs validate_ports b.
Proof.
  destruct (logs_fold (fun b p =>
      if existsb (fun l => (link_port_a l.2 =? port_id p.2) || (link_port_b l.2 =? port_id p.2))
           (ordered (b_links b)) then b
      else noted b IS_Info SC_NotFound (PortId_to_string p.1) "port is not used by any link")
    (ordered (b_ports b)) b) as [H _]; [intros p _; solve_logs|]. exact H.
Qed.

(** The link validation reports an error exactly for a link without a usable
    speed and for a leaf-spine link without a leaf endpoint. *)
Definition link_unsound (b : FabricBuilder) (l : LinkRecord) : bool :=
  link_speed_unusable b l
  || bool_decide (link_cls l = LC_LeafSpine)
     && negb (bool_decide (tier (link_a l) = T_Leaf) || bool_decide (tier (link_b l) = T_Leaf)).

Lemma logs_validate_link b p :
  logs (fun b => validate_link b p) b
  /\ (link_unsound b p.2 = true -> has_error (log_of (fun b => validate_link b p) b)).
Proof.
  destruct p as [id l]. unfold link_unsound. cbn [snd].
  assert (forall r, link_speed_unusable (with_report r b) l = link_speed_unusable b l) as Hs by done.
  unfold logs, log_of, validate_link. cbv zeta.
  setoid_rewrite Hs. destruct (link_speed_unusable b l); simpl.
  { split; [done|]. intros _. eexists. split; [left|done]. }
  (* every branch is decided by the records; each side then evaluates *)
  assert (forall sev c w d b', b_spines (noted b' sev c w d) = b_spines b') as Hsp
    by (intros; unfold noted, note; by case_decide).
  destruct (decide (link_admin l = LA_Disabled)), (link_cls l); rewrite ?bool_decide_true by done;
    rewrite ?(bool_decide_false (LC_SameTierPeer = LC_LeafSpine)) by done;
    destruct (decide (tier (link_a l) = T_Leaf)) as [Ta|Ta];
    rewrite ?(bool_decide_true _ Ta), ?(bool_decide_false _ Ta); cbn [orb negb andb];
    try (destruct (bool_decide (tier (link_b l) = T_Leaf)); cbn [orb negb andb]);
    try (split; [done|]; done); simpl; try setoid_rewrite Hsp; simpl;
    (destruct (b_spines b !! _) as [sp|]; [destruct (decide (spine_state sp = NS_Retired))|]); simpl;
    (split; [done|]); try done; intros _;
    exists (MkIssue IS_Error SC_ContradictoryRole (LinkId_to_string id) "leaf-to-spine link has no leaf endpoint");
    (split; [|done]); apply list_elem_of_In; simpl; tauto.
Qed.

Lemma logs_validate_links b :
  logs validate_links b
  /\ (forall k l, b_links b !! k = Some l -> link_unsound b l = true -> has_error (log_of validate_links b)).
Proof.
  destruct (logs_fold validate_link (ordered (b_links b)) b) as [H Hlog].
  { intros p _. apply logs_validate_link. }
  split; [exact H|]. intros k l Hl Hu.
  change (log_of validate_links b) with (log_of (fun b0 => fold_left validate_link (ordered (b_links b)) b0) b).
  rewrite Hlog. apply elem_of_ordered in Hl.
  destruct (proj2 (logs_validate_link b (k, l)) Hu) as (i & Hi & Hs). exists i. split; [|done].
  apply elem_of_concat. eexists. split; [|exact Hi].
  apply (list_elem_of_fmap_2 (fun x => log_of (fun b => validate_link b x) b) _ (k, l) Hl).
Qed.

Lemma evidence_tally_logs l b h d :
  exists k h' d', forall r,
    fold_left evidence_tally l (with_report r b, h, d) = (with_report (add_issues r k) b, h', d').
Proof.
  revert h d. induction l as [|e l IH]; intros h d.
  - by exists [], h, d.
  - cbn [fold_left]. unfold evidence_tally at 2. cbn [b_generation with_report].
    destruct (ev_generation e >? b_generation b).
    + destruct (IH h d) as (k & h' & d' & H).
      exists (MkIssue IS_Error SC_CrossGeneration ("evidence:" +:+ LinkId_to_string (ev_link e))
               "evidence refers to a future topology generation" :: k), h', d'.
      intros r. apply (H (add_issue r _)).
    + destruct (h !! ev_link e) as [x|]; [|apply IH].
      destruct (x <? ev_seq e); [apply IH|]. destruct (x =? ev_seq e); apply IH.
Qed.

Lemma logs_validate_evidence b : logs validate_evidence b.
Proof.
  destruct (evidence_tally_logs (b_evidence b) b ∅ ∅) as (k & h & d & Ht).
  destruct (logs_fold (fun b (p : Z * Z) =>
      if 1 <? p.2 then
        noted b IS_Warning SC_Conflicting ("evidence:" +:+ LinkId_to_string p.1)
          "multiple evidence records share the highest observation sequence; the link is reported as conflicting rather than decided"
      else b) (ordered d) b) as [H1 _]; [intros p _; solve_logs|].
  destruct (logs_fold (fun b (p : Z * Z) =>
      if bool_decide (is_Some (b_links b !! p.1)) then
        match List.find (fun r => (ev_link r =? p.1) && (ev_seq r =? p.2)) (b_evidence b) with
        | Some r => if decide (ev_observed r = LO_Unknown)
                    then noted b IS_Warning SC_Indeterminate ("evidence:" +:+ LinkId_to_string p.1)
                           "the newest observation is unknown; the link cannot be decided from evidence"
                    else b
        | None => b
        end
      else b) (ordered h) b) as [H2 _]; [intros p _; solve_logs|].
  eapply logs_log. intros r. unfold validate_evidence. cbn [b_evidence with_report].
  rewrite Ht. cbv zeta. rewrite H1. etransitivity; [apply H2|]. by rewrite <- !add_issues_app.
Qed.

Lemma logs_validate_all b :
  logs validate_all b
  /\ (forall k l, b_links b !! k = Some l -> link_unsound b l = true -> has_error (log_of validate_all b)).
Proof.
  pose proof (logs_validate_domains b) as H1. pose proof (logs_validate_ports b) as H2.
  destruct (logs_validate_links b) as [H3 E3]. pose proof (logs_validate_evidence b) as H4.
  destruct (logs_comp _ _ _ H1 H2) as [H12 L12]. destruct (logs_comp _ _ _ H12 H3) as [H123 L123].
  destruct (logs_comp _ _ _ H123 H4) as [H Hl]. split; [exact H|].
  intros k l Hk Hu. change (log_of validate_all b) with
    (log_of (fun b => validate_evidence (validate_links (validate_ports (validate_domains b)))) b).
  rewrite Hl, L123. apply has_error_app. destruct (E3 k l Hk Hu) as (i & Hi & Hs).
  exists i. split; [|done]. apply elem_of_app. by right.
Qed.

Lemma grows_fold {X} (g : FabricBuilder -> X -> FabricBuilder) xs b :
  (forall b x, grows b (g b x)) -> grows b (fold_left g xs b).
Proof.
  intros Hg. revert b. induction xs as [|x xs IH]; intros b; [apply grows_refl|].
  eapply grows_trans; [apply Hg|apply IH].
Qed.

Lemma grows_if b (c : bool) b1 b2 : grows b b1 -> grows b b2 -> grows b (if c then b1 else b2).
Proof. by destruct c. Qed.

Lemma grows_validate_link b p : grows b (validate_link b p).
Proof.
  destruct p as [id l]. unfold validate_link. case_match; [auto with slf|]. cbv zeta.
  repeat match goal with
  | |- grows ?a ?a => apply grows_refl
  | |- grows _ (if _ then noted ?x _ _ _ _ else ?x) =>
      apply (grows_trans _ x); [|case_match; auto with slf]
  | |- grows _ (if _ then match _ with Some _ => _ | None => ?x end else ?x) =>
      apply (grows_trans _ x); [|repeat case_match; auto with slf]
  end.
Qed.

Lemma grows_tally l b h d : grows b (fold_left evidence_tally l (b, h, d)).1.1.
Proof.
  revert b h d. induction l as [|e l IH]; intros b h d; [apply grows_refl|]. cbn [fold_left].
  unfold evidence_tally at 2. repeat case_match; try apply IH.
  eapply grows_trans; [|apply IH]. auto with slf.
Qed.

Lemma grows_validate_all b : grows b (validate_all b).
Proof.
  unfold validate_all.
  assert (forall b, grows b (validate_domains b)) as H1.
  { intros b0. unfold validate_domains. case_decide; [auto with slf|]. cbv zeta.
    eapply grows_trans; [|apply grows_fold; intros; case_match; auto with slf].
    apply grows_fold. intros. case_match; auto with slf. }
  assert (forall b, grows b (validate_ports b)) as H2.
  { intros b0. apply grows_fold. intros. case_match; auto with slf. }
  assert (forall b, grows b (validate_links b)) as H3.
  { intros b0. apply grows_fold. apply grows_validate_link. }
  assert (forall b, grows b (validate_evidence b)) as H4.
  { intros b0. unfold validate_evidence. pose proof (grows_tally (b_evidence b0) b0 ∅ ∅) as H.
    destruct (fold_left evidence_tally _ _) as [[b1 h] d]. simpl in H. cbv zeta.
    eapply grows_trans; [exact H|].
    eapply grows_trans; [|apply grows_fold; intros; repeat case_match; auto with slf].
    apply grows_fold. intros. case_match; auto with slf. }
  eauto using grows_trans.
Qed.

(** ** The frozen fabric *)

Record fabric_wf (lim : BuilderLimits) (f : Fabric) : Prop := {
  fw_sorted_domains : sorted_by dom_id (domains f);
  fw_sorted_leaves : sorted_by leaf_id (leaves f);
  fw_sorted_spines : sorted_by spine_id (spines f);
  fw_sorted_ports : sorted_by port_id (ports f);
  fw_sorted_links : sorted_by link_id (links f);
  fw_sorted_history : sorted_by link_id (history_links f);
  fw_sorted_evidence : StronglySorted ev_order (evidence f);
  fw_domains : forall d, d ∈ domains f -> domain_wf lim (fab_generation f) d;
  fw_leaves : forall l, l ∈ leaves f -> leaf_wf lim (fab_generation f) l;
  fw_spines : forall s, s ∈ spines f -> spine_wf lim (fab_generation f) s;
  fw_ports : forall p, p ∈ ports f -> port_wf lim (f_lookup f) (fab_generation f) p;
  fw_links : forall l, l ∈ links f -> link_wf lim (fab_options f) (f_lookup f) (fab_generation f) l;
  fw_speed : forall l, l ∈ links f -> exists s, effective_link_speed f l = Some s /\ s <> 0;
  fw_leaf_endpoint : forall l, l ∈ links f -> link_cls l = LC_LeafSpine ->
                     tier (link_a l) = T_Leaf \/ tier (link_b l) = T_Leaf;
  fw_history : forall l, l ∈ history_links f -> history_wf (fab_generation f) l;
  fw_evidence : forall r, r ∈ evidence f ->
      evidence_wf (fun k => exists l, (l ∈ links f \/ l ∈ history_links f) /\ link_id l = k)
        (fab_generation f) r;
  fw_cables : forall l l', l ∈ links f -> l' ∈ links f -> equivalent_ports l l' = true -> l = l';
  fw_name : name_ok lim (fab_name f);
  fw_site : fab_site f = "" \/ name_ok lim (fab_site f);
  fw_min_spines : min_eligible_spines (fab_options f) <> 0;
  fw_digests : (topology_digest f, evidence_digest f) = compute_digests f
}.

(** The comparator is a lexicographic order on the coordinates of a record. *)
Lemma ev_before_spec a b :
  ev_before a b = true <->
  ev_link a < ev_link b \/ ev_link a = ev_link b /\
  (ev_seq a < ev_seq b \/ ev_seq a = ev_seq b /\
   (ev_generation a < ev_generation b \/ ev_generation a = ev_generation b /\
    (hi (ev_observer a) < hi (ev_observer b) \/ hi (ev_observer a) = hi (ev_observer b) /\
     lo (ev_observer a) < lo (ev_observer b)))).
Proof.
  unfold ev_before, inc_lt.
  destruct (Z.eqb_spec (ev_link a) (ev_link b)); simpl; [|rewrite Z.ltb_lt; lia].
  destruct (Z.eqb_spec (ev_seq a) (ev_seq b)); simpl; [|rewrite Z.ltb_lt; lia].
  destruct (Z.eqb_spec (ev_generation a) (ev_generation b)); simpl; [|rewrite Z.ltb_lt; lia].
  destruct (Z.eqb_spec (hi (ev_observer a)) (hi (ev_observer b))); simpl; rewrite Z.ltb_lt; lia.
Qed.

Lemma ev_order_spec a b : ev_order a b <-> ~ ev_before b a = true.
Proof. unfold ev_order. by destruct (ev_before b a). Qed.

#[export] Instance ev_order_total : Total ev_order.
Proof. intros a b. rewrite !ev_order_spec, !ev_before_spec. lia. Qed.

#[export] Instance ev_order_trans : Transitive ev_order.
Proof. intros a b c. rewrite !ev_order_spec, !ev_before_spec. lia. Qed.

Lemma sort_evidence_perm l : sort_evidence l ≡ₚ l.
Proof. apply merge_sort_Permutation. Qed.

Lemma sort_evidence_sorted l : StronglySorted ev_order (sort_evidence l).
Proof. apply StronglySorted_merge_sort; apply _. Qed.

(** Two records the comparator does not separate. *)
Definition ev_tied (a b : LinkEvidence) : Prop := ev_order a b /\ ev_order b a.

(** Without ties the sorted vector is determined by its elements. *)
Lemma sort_evidence_unique l k :
  (forall a b, a ∈ l -> b ∈ l -> ev_tied a b -> a = b) ->
  StronglySorted ev_order k -> k ≡ₚ l -> sort_evidence l = k.
Proof.
  intros Ht Hs Hp.
  assert (forall x y, x ∈ sort_evidence l -> y ∈ k -> ev_order x y -> ev_order y x -> x = y) as Ha.
  { intros x y Hx Hy ? ?. apply Ht; [by rewrite <- sort_evidence_perm|by rewrite <- Hp|by split]. }
  revert Ha. pose proof (sort_evidence_sorted l) as Hl.
  assert (sort_evidence l ≡ₚ k) as Hlk by (by rewrite sort_evidence_perm).
  revert Hl Hlk Hs. clear. generalize (sort_evidence l). intros m Hm.
  revert k. induction Hm as [|x m Hm IH Hx]; intros k Hp Hk Ha.
  - symmetry in Hp. by apply Permutation_nil_r in Hp as ->.
  - destruct k as [|y k]; [by apply Permutation_nil_r in Hp|].
    rewrite Forall_forall in Hx. inversion Hk as [|? ? Hk' Hy]; subst. rewrite Forall_forall in Hy.
    assert (x = y) as <-.
    { assert (x ∈ y :: k) as Hin by (rewrite <- Hp; left).
      assert (y ∈ x :: m) as Hin' by (rewrite Hp; left).
      apply elem_of_cons in Hin as [->|Hin]; [done|].
      apply elem_of_cons in Hin' as [->|Hin']; [done|].
      apply Ha; [left|left|by apply Hx|by apply Hy]. }
    f_equal. apply IH; [by eapply Permutation_cons_inv|done|].
    intros u v Hu Hv. apply Ha; by right.
Qed.

(** ** [freeze] *)

Lemma freeze_Value b f b' :
  report_wf b -> freeze b = (Value f, b') ->
  b_frozen b = false /\ f = assemble b
  /\ error_count (add_issues (b_report b) (log_of validate_all (with_frozen b))) = 0
  /\ issues (b_report b') = issues (b_report b) ++ log_of validate_all (with_frozen b).
Proof.
  intros Hr. unfold freeze. destruct (b_frozen b) eqn:F; [done|].
  assert (report_wf (validate_all (with_frozen b))) as [Hs _ _ _].
  { eapply report_wf_grows; [apply grows_validate_all|]. destruct Hr. by split. }
  revert Hs. rewrite (logs_run _ _ (proj1 (logs_validate_all (with_frozen b)))).
  unfold finish_report. cbn [b_report with_report count_report error_count issues with_frozen].
  set (r := add_issues (b_report b) (log_of validate_all (with_frozen b))). intros Hs.
  destruct (Z.eqb_spec (error_count r) 0) as [E|E]; cbn [negb].
  - change (negb (status_ok success)) with false. cbv iota. intros [= <- <-].
    split; [done|]. split; [done|]. split; [done|]. simpl. apply add_issues_issues.
  - destruct (List.find _ _) as [i|] eqn:Ef; [|done].
    apply find_some in Ef as [Hin Hb]. apply list_elem_of_In in Hin. bool_to_prop.
    rewrite Forall_forall in Hs. specialize (Hs i Hin Hb).
    unfold status_ok, is_ok. cbn [code]. by destruct (issue_code i).
Qed.

Lemma find_leaf_assemble b k : builder_wf b -> find_leaf (assemble b) k = b_leaves b !! k.
Proof. intros []. by apply find_values. Qed.
Lemma find_spine_assemble b k : builder_wf b -> find_spine (assemble b) k = b_spines b !! k.
Proof. intros []. by apply find_values. Qed.
Lemma find_port_assemble b k : builder_wf b -> find_port (assemble b) k = b_ports b !! k.
Proof. intros []. by apply find_values. Qed.

Lemma extends_assemble b : builder_wf b -> extends (b_lookup b) (f_lookup (assemble b)).
Proof.
  intros H. split; simpl; intros k x Hx;
    [rewrite find_leaf_assemble|rewrite find_spine_assemble|rewrite find_port_assemble]; done.
Qed.

Lemma assemble_speed b l :
  builder_wf b -> effective_link_speed (assemble b) l = builder_link_speed b l.
Proof.
  intros H. unfold effective_link_speed, builder_link_speed. by rewrite !find_port_assemble.
Qed.

(** The digests are computed on the fabric before they are stored in it. *)
Lemma compute_digests_with f d : compute_digests (with_digests f d) = compute_digests f.
Proof. done. Qed.

(** A successful [freeze] yields a well-formed fabric: sorted, closed under its
    references, with a usable speed on every link. *)
Lemma freeze_wf b f b' :
  builder_wf b -> report_wf b -> freeze b = (Value f, b') ->
  Zlen (issues (b_report b')) < 2 ^ 32 -> fabric_wf (b_limits b) f.
Proof.
  intros Hb Hr Hf Hlen. pose proof Hr as [Hs Hc Hn Hm].
  destruct (freeze_Value b f b' Hr Hf) as (_ & -> & He & Hi). rewrite Hi in Hlen.
  assert (~ has_error (issues (b_report b) ++ log_of validate_all (with_frozen b))) as Hno.
  { apply errors_zero. rewrite add_issues_errors in He by done.
    pose proof (errors_range (issues (b_report b) ++ log_of validate_all (with_frozen b))).
    rewrite wrap_small in He by (unfold fits; lia). done. }
  assert (forall l, l ∈ values (b_links b) -> link_unsound b l = false) as Hsound.
  { intros l [k Hk]%elem_of_values. destruct (link_unsound b l) eqn:E; [|done]. exfalso. apply Hno.
    destruct (proj2 (logs_validate_all (with_frozen b)) k l Hk E) as (i & Hin & Hsev).
    exists i. split; [|done]. apply elem_of_app. by right. }
  pose proof (extends_assemble b Hb) as Hext. pose proof Hb as Hb'. destruct Hb'.
  split; simpl; auto with slf.
  - apply sort_evidence_sorted.
  - intros d [k Hk]%elem_of_values. eauto.
  - intros d [k Hk]%elem_of_values. eauto.
  - intros d [k Hk]%elem_of_values. eauto.
  - intros p [k Hk]%elem_of_values. eapply port_wf_mono; eauto.
  - intros p [k Hk]%elem_of_values. eapply link_wf_mono; eauto.
  - intros l Hl. specialize (Hsound l Hl). unfold link_unsound in Hsound. bool_to_prop.
    rewrite assemble_speed by done. unfold link_speed_unusable in *.
    destruct (builder_link_speed b l) as [s|]; [|done]. exists s. bool_to_prop. done.
  - intros l Hl Hcls. specialize (Hsound l Hl). unfold link_unsound in Hsound. bool_to_prop.
    rewrite Hcls, (bool_decide_true (LC_LeafSpine = LC_LeafSpine)) in * by done. cbn [andb] in *.
    bool_to_prop.
    match goal with H : (_ || _)%bool = true |- _ => apply orb_true_iff in H as [H|H] end; bool_to_prop; auto.
  - intros l [k Hk]%elem_of_values. eauto.
  - intros r. rewrite sort_evidence_perm. intros [? ? ? Hk]%bw_evidence. split; try done.
    setoid_rewrite elem_of_values.
    destruct Hk as [[l Hl]|[l Hl]]; exists l; split; eauto.
  - intros l l' [k Hk]%elem_of_values [k' Hk']%elem_of_values Heq.
    assert (k = k') as <- by by eapply bw_cables. congruence.
  - destruct Hn as [?|Hn]; [done|]. exfalso. apply Hno. by apply has_error_app.
  - destruct Hm as [?|Hn']; [done|]. exfalso. apply Hno. by apply has_error_app.
Qed.

(** ** Properties *)

(** C23: whatever sequence of operations a builder has processed, a successful
    [freeze] returns a well-formed fabric: its vectors are sorted by identity
    without duplicates, every record belongs to the fabric's generation, every
    port and link endpoint exists, each link's ports belong to its endpoints, no
    two links join the same pair of ports, every link has a non-zero effective
    speed, evidence names known links, names are valid UTF-8 within bounds, and
    the stored digests are those of its canonical encoding. *)
Theorem freeze_yields_well_formed id name gen epoch opts lim ops f b' :
  freeze (run_ops (new_builder id name gen epoch opts lim) ops) = (Value f, b') ->
  Zlen (issues (b_report b')) < 2 ^ 32 -> fabric_wf lim f.
Proof.
  intros Hf Hlen.
  assert (b_limits (run_ops (new_builder id name gen epoch opts lim) ops) = lim) as <-.
  { rewrite (gr_limits _ _ (grows_run_ops _ ops)). unfold new_builder. cbv zeta. by repeat case_match. }
  eapply freeze_wf; [apply run_ops_wf, new_builder_wf| |exact Hf|exact Hlen].
  eapply report_wf_grows; [apply grows_run_ops|apply new_builder_report_wf].
Qed.

Lemma freeze_yields_well_formed_witness : fabric_wf default_limits Sample.observed.
Proof.
  apply (freeze_yields_well_formed 9 "sample" 7 3 default_options default_limits Sample.ops _
           (freeze (run_ops Sample.start Sample.ops)).2); vm_compute; reflexivity.
Defined.
