(* ===== verification/BuilderOrder.v ===== *)
(** * Independence of the insertion order (src/builder.cpp, [build_fabric])

    The fabric [build_fabric] produces, digests included, depends only on the
    sets of records it is given. *)
From S2P Require Import Prelude Status Identity Bytes Digest Model Builder BuilderSpec Sample Freeze.

(** ** States that differ in their warnings only

    Informational issues depend on the order of the records; the outcome of
    [freeze] reads the error count alone. *)

Definition core_eq (b b' : FabricBuilder) : Prop :=
  exists r, b' = with_report r b /\ error_count r = error_count (b_report b).

#[export] Instance core_eq_equiv : Equivalence core_eq.
Proof.
  split.
  - intros b. exists (b_report b). by rewrite with_report_same.
  - intros b b' (r & -> & Hr). exists (b_report b). split; [by destruct b|done].
  - intros a b c (r & -> & Hr) (r' & -> & Hr'). exists r'. split; [done|]. simpl in Hr'. congruence.
Qed.

(** An operation reads and updates the core only. *)
Definition respects {R} (op : FabricBuilder -> R -> Status * FabricBuilder) : Prop :=
  forall b b' x, core_eq b b' -> (op b x).1 = (op b' x).1 /\ core_eq (op b x).2 (op b' x).2.

Lemma core_note b b' sev c w d :
  core_eq b b' ->
  (note b sev c w d).1 = (note b' sev c w d).1 /\ core_eq (note b sev c w d).2 (note b' sev c w d).2.
Proof.
  intros (r & -> & Hr). unfold note. case_decide; (split; [done|]); simpl;
    (eexists; split; [reflexivity|]); simpl; by rewrite Hr.
Qed.

Lemma core_noted b b' sev c w d : core_eq b b' -> core_eq (noted b sev c w d) (noted b' sev c w d).
Proof. intros H. by apply core_note. Qed.

Lemma core_warn b w c d sev : sev <> IS_Error -> core_eq b (noted b sev c w d).
Proof.
  intros H. unfold noted, note. rewrite decide_False by done. simpl. eexists. split; [reflexivity|].
  simpl. by rewrite decide_False.
Qed.

Lemma core_guarded b b' gs a a' :
  core_eq b b' -> core_eq a a' ->
  (guarded b gs a).1 = (guarded b' gs a').1 /\ core_eq (guarded b gs a).2 (guarded b' gs a').2.
Proof.
  intros Hb Ha. unfold guarded.
  assert (b_frozen b' = b_frozen b) as -> by by destruct Hb as (r & -> & _).
  destruct (b_frozen b); [done|]. destruct (first_guard gs); [by apply core_note|done].
Qed.

(** ** Permuting a loop of additions *)

Section Permuting.
Context {R : Type} (op : FabricBuilder -> R -> Status * FabricBuilder).
Hypothesis op_core : respects op.
(** Two additions that succeed in one order succeed in the other. *)
Hypothesis op_swap : forall b x y b1 b2 s1 s2,
  op b x = (s1, b1) -> status_ok s1 = true -> op b1 y = (s2, b2) -> status_ok s2 = true ->
  exists b1' b2' s1' s2', op b y = (s1', b1') /\ status_ok s1' = true
    /\ op b1' x = (s2', b2') /\ status_ok s2' = true /\ core_eq b2 b2'.

Lemma add_all_cons b x l b' :
  add_all op b (x :: l) = (success, b') <->
  exists s b1, op b x = (s, b1) /\ status_ok s = true /\ add_all op b1 l = (success, b').
Proof.
  cbn [add_all]. destruct (op b x) as [s b1]. destruct (status_ok s) eqn:E; split.
  - intros H. eauto.
  - intros (? & ? & [= <- <-] & _ & H). done.
  - intros [= -> <-]. done.
  - intros (? & ? & [= <- <-] & H & _). congruence.
Qed.

Lemma add_all_core l b b0 b' :
  core_eq b b0 -> add_all op b l = (success, b') ->
  exists b'', add_all op b0 l = (success, b'') /\ core_eq b' b''.
Proof.
  revert b b0. induction l as [|x l IH]; intros b b0 Hb.
  - intros [= <-]. by exists b0.
  - intros (s & b1 & Hx & Hs & Hl)%add_all_cons.
    destruct (op_core b b0 x Hb) as [H1 H2]. rewrite Hx in H1, H2. simpl in H1, H2.
    destruct (op b0 x) as [s0 b10] eqn:E0. simpl in H1, H2. subst s0.
    destruct (IH b1 b10 H2 Hl) as (b'' & Hl' & Hc). exists b''. split; [|done].
    apply add_all_cons. eauto.
Qed.

Lemma add_all_perm l l' b b' :
  l ≡ₚ l' -> add_all op b l = (success, b') ->
  exists b'', add_all op b l' = (success, b'') /\ core_eq b' b''.
Proof.
  intros Hp. revert b b'. induction Hp as [|x l l' Hp IH|x y l|l1 l2 l3 Hp1 IH1 Hp2 IH2]; intros b b' H.
  - exists b'. by split.
  - apply add_all_cons in H as (s & b1 & Hx & Hs & Hl).
    destruct (IH b1 b' Hl) as (b'' & Hl' & Hc). exists b''. split; [|done]. apply add_all_cons. eauto.
  - apply add_all_cons in H as (s & b1 & Hx & Hs & (s2 & b2 & Hy & Hs2 & Hl)%add_all_cons).
    destruct (op_swap _ _ _ _ _ _ _ Hx Hs Hy Hs2) as (b1' & b2' & s1' & s2' & E1 & E2 & E3 & E4 & Hc).
    destruct (add_all_core l b2 b2' b' Hc Hl) as (b'' & Hl' & Hc'). exists b''. split; [|done].
    apply add_all_cons. exists s1', b1'. split; [done|]. split; [done|]. apply add_all_cons. eauto.
  - destruct (IH1 _ _ H) as (b2 & H2 & Hc2). destruct (IH2 _ _ H2) as (b3 & H3 & Hc3).
    exists b3. split; [done|]. by transitivity b2.
Qed.
End Permuting.

(** ** The operations of [build_fabric] *)

(** A guarded operation succeeds exactly when every guard passes. *)
Lemma guarded_ok b gs a s b' :
  guards_sound gs ->
  guarded b gs a = (s, b') /\ status_ok s = true <->
  s = success /\ b' = a /\ b_frozen b = false /\ Forall (fun g => g_cond g = false) gs.
Proof.
  intros Hg. rewrite <- first_guard_None. unfold guarded. destruct (b_frozen b).
  { split; [by intros [[= <- <-] ?]|]. by intros (_ & _ & ? & _). }
  destruct (first_guard gs) as [g|] eqn:E.
  - split; [|by intros (_ & _ & _ & ?)]. intros [[= <- <-] Hs]. exfalso.
    apply find_some in E as [Hin%list_elem_of_In _]. unfold guards_sound in Hg.
    rewrite Forall_forall in Hg. apply (Hg g Hin). unfold status_ok, is_ok in Hs. simpl in Hs.
    by destruct (g_code g).
  - split; [by intros [[= <- <-] _]|]. by intros (-> & -> & _ & _).
Qed.

Lemma core_with_report b r : error_count r = error_count (b_report b) -> core_eq b (with_report r b).
Proof. intros H. by exists r. Qed.

Lemma core_validate_node_common b b' key name gen dom cap :
  core_eq b b' ->
  (validate_node_common b key name gen dom cap).1 = (validate_node_common b' key name gen dom cap).1
  /\ core_eq (validate_node_common b key name gen dom cap).2
             (validate_node_common b' key name gen dom cap).2.
Proof.
  intros Hc. unfold validate_node_common.
  assert (node_common_guards b' key name gen cap = node_common_guards b key name gen cap) as ->
    by by destruct Hc as (r & -> & _).
  destruct (first_guard _); [by apply core_note|]. destruct (is_zero dom); [by apply core_note|done].
Qed.

(** A node that passes the shared checks costs at most a warning. *)
Lemma validate_node_common_accept b key name gen dom cap :
  gen = b_generation b -> name_ok (b_limits b) name -> cap <= max_capacity_mbps (b_limits b) ->
  exists b', validate_node_common b key name gen dom cap = (success, b') /\ core_eq b b'.
Proof.
  intros -> Hn Hc. unfold validate_node_common.
  destruct (first_guard _) as [g|] eqn:E.
  - exfalso. apply check_name_ok in Hn. unfold node_common_guards in E. cbv zeta in E.
    rewrite Hn, Z.eqb_refl in E. cbn [negb] in E. rewrite (bool_decide_false (Acceptable = TooLong)),
      (bool_decide_false (Acceptable = NameInvalid)) in E by done.
    destruct (Z.gtb_spec cap (max_capacity_mbps (b_limits b))); [lia|]. done.
  - destruct (is_zero dom); eexists; (split; [reflexivity|]); [|done].
    apply (core_warn b (NodeKey_to_string key) SC_Incomplete "node has no failure domain (domain 0)" IS_Warning).
    done.
Qed.

(** *** Leaves and spines *)

Lemma core_warn_leaf b b' r :
  core_eq b b' -> core_eq (warn_duplicate_leaf_name b r) (warn_duplicate_leaf_name b' r).
Proof.
  intros Hc. unfold warn_duplicate_leaf_name.
  assert (b_leaves b' = b_leaves b) as -> by by destruct Hc as (p & -> & _).
  case_match; [by apply core_noted|done].
Qed.

Lemma core_warn_spine b b' r :
  core_eq b b' -> core_eq (warn_duplicate_spine_name b r) (warn_duplicate_spine_name b' r).
Proof.
  intros Hc. unfold warn_duplicate_spine_name.
  assert (b_spines b' = b_spines b) as -> by by destruct Hc as (p & -> & _).
  case_match; [by apply core_noted|done].
Qed.

Lemma core_with_leaves b b' k x :
  core_eq b b' ->
  core_eq (with_leaves (<[k := x]> (b_leaves b)) b) (with_leaves (<[k := x]> (b_leaves b')) b').
Proof. intros (r & -> & Hr). by exists r. Qed.

Lemma core_with_spines b b' k x :
  core_eq b b' ->
  core_eq (with_spines (<[k := x]> (b_spines b)) b) (with_spines (<[k := x]> (b_spines b')) b').
Proof. intros (r & -> & Hr). by exists r. Qed.

Lemma add_leaf_respects : respects add_leaf.
Proof.
  intros b b' x Hc. unfold add_leaf.
  assert (b_frozen b' = b_frozen b /\ leaf_guards b' x = leaf_guards b x) as [-> ->]
    by by destruct Hc as (r & -> & _).
  destruct (b_frozen b); [done|]. destruct (first_guard _); [by apply core_note|]. cbv zeta.
  destruct (core_validate_node_common _ _ (node_of_leaf (leaf_id x)) (leaf_name x)
    (leaf_generation x) (leaf_domain x) (leaf_access_capacity x) (core_warn_leaf b b' x Hc)) as [H1 H2].
  destruct (validate_node_common _ _ _ _ _ _) as [s1 b1], (validate_node_common _ _ _ _ _ _) as [s2 b2].
  simpl in H1, H2. subst s2. destruct (negb (status_ok s1)); [done|]. split; [done|].
  apply core_with_leaves. destruct (_ =? 0); [by apply core_noted|done].
Qed.

Lemma add_spine_respects : respects add_spine.
Proof.
  intros b b' x Hc. unfold add_spine.
  assert (b_frozen b' = b_frozen b /\ spine_guards b' x = spine_guards b x) as [-> ->]
    by by destruct Hc as (r & -> & _).
  destruct (b_frozen b); [done|]. destruct (first_guard _); [by apply core_note|]. cbv zeta.
  destruct (core_validate_node_common _ _ (node_of_spine (spine_id x)) (spine_name x)
    (spine_generation x) (spine_domain x) (spine_fabric_capacity x) (core_warn_spine b b' x Hc)) as [H1 H2].
  destruct (validate_node_common _ _ _ _ _ _) as [s1 b1], (validate_node_common _ _ _ _ _ _) as [s2 b2].
  simpl in H1, H2. subst s2. destruct (negb (status_ok s1)); [done|]. split; [done|].
  apply core_with_spines. destruct (_ =? 0); [by apply core_noted|done].
Qed.

(** What makes a leaf acceptable. *)
Record leaf_admissible (b : FabricBuilder) (r : LeafRecord) : Prop := {
  la_open : b_frozen b = false;
  la_size : Z.of_nat (size (b_leaves b)) < max_leaves (b_limits b);
  la_wf : leaf_wf (b_limits b) (b_generation b) r;
  la_new : b_leaves b !! leaf_id r = None
}.

Record spine_admissible (b : FabricBuilder) (r : SpineRecord) : Prop := {
  sa_open : b_frozen b = false;
  sa_size : Z.of_nat (size (b_spines b)) < max_spines (b_limits b);
  sa_wf : spine_wf (b_limits b) (b_generation b) r;
  sa_new : b_spines b !! spine_id r = None
}.

Lemma add_leaf_accept b r :
  leaf_admissible b r ->
  exists b', add_leaf b r = (success, b')
    /\ core_eq (with_leaves (<[leaf_id r := r]> (b_leaves b)) b) b'.
Proof.
  intros [Hf Hs Hwf Hn]. pose proof Hwf as []. unfold add_leaf. rewrite Hf.
  destruct (first_guard _) as [g|] eqn:E.
  { exfalso. unfold leaf_guards, is_zero in E. rewrite Hn, bool_decide_false in E by (by intros [? ?]).
    rewrite (proj2 (Z.leb_gt _ _) Hs), (proj2 (Z.eqb_neq _ _)) in E by done. done. }
  assert (core_eq b (warn_duplicate_leaf_name b r)) as H1.
  { unfold warn_duplicate_leaf_name. case_match; [by apply core_warn|done]. }
  cbv zeta. set (b1 := warn_duplicate_leaf_name b r) in *.
  assert (b_generation b1 = b_generation b /\ b_limits b1 = b_limits b) as [Eg El]
    by by destruct H1 as (p & -> & _).
  destruct (validate_node_common_accept b1 (node_of_leaf (leaf_id r)) (leaf_name r) (leaf_generation r)
    (leaf_domain r) (leaf_access_capacity r)) as (b2 & -> & H2); [by rewrite ?Eg, ?El..|].
  change (negb (status_ok success)) with false. cbv iota. eexists. split; [reflexivity|].
  apply core_with_leaves. transitivity b1; [done|]. transitivity b2; [done|].
  destruct (_ =? 0); [by apply core_warn|done].
Qed.

Lemma add_spine_accept b r :
  spine_admissible b r ->
  exists b', add_spine b r = (success, b')
    /\ core_eq (with_spines (<[spine_id r := r]> (b_spines b)) b) b'.
Proof.
  intros [Hf Hs Hwf Hn]. pose proof Hwf as []. unfold add_spine. rewrite Hf.
  destruct (first_guard _) as [g|] eqn:E.
  { exfalso. unfold spine_guards, is_zero in E. rewrite Hn, bool_decide_false in E by (by intros [? ?]).
    rewrite (proj2 (Z.leb_gt _ _) Hs), (proj2 (Z.eqb_neq _ _)) in E by done. done. }
  assert (core_eq b (warn_duplicate_spine_name b r)) as H1.
  { unfold warn_duplicate_spine_name. case_match; [by apply core_warn|done]. }
  cbv zeta. set (b1 := warn_duplicate_spine_name b r) in *.
  assert (b_generation b1 = b_generation b /\ b_limits b1 = b_limits b) as [Eg El]
    by by destruct H1 as (p & -> & _).
  destruct (validate_node_common_accept b1 (node_of_spine (spine_id r)) (spine_name r) (spine_generation r)
    (spine_domain r) (spine_fabric_capacity r)) as (b2 & -> & H2); [by rewrite ?Eg, ?El..|].
  change (negb (status_ok success)) with false. cbv iota. eexists. split; [reflexivity|].
  apply core_with_spines. transitivity b1; [done|]. transitivity b2; [done|].
  destruct (_ =? 0); [by apply core_warn|done].
Qed.

Lemma add_leaf_ok b r s b' :
  add_leaf b r = (s, b') -> status_ok s = true ->
  leaf_admissible b r /\ core_eq (with_leaves (<[leaf_id r := r]> (b_leaves b)) b) b'.
Proof.
  intros H Hs. assert (leaf_admissible b r) as Ha.
  { destruct (add_leaf_cases _ _ _ _ H) as [[? _]|(_ & ? & _ & ? & ? & ?)]; [congruence|by split]. }
  split; [done|]. destruct (add_leaf_accept b r Ha) as (b0 & E & Hc). rewrite H in E. by injection E as _ ->.
Qed.

Lemma add_spine_ok b r s b' :
  add_spine b r = (s, b') -> status_ok s = true ->
  spine_admissible b r /\ core_eq (with_spines (<[spine_id r := r]> (b_spines b)) b) b'.
Proof.
  intros H Hs. assert (spine_admissible b r) as Ha.
  { destruct (add_spine_cases _ _ _ _ H) as [[? _]|(_ & ? & _ & ? & ? & ?)]; [congruence|by split]. }
  split; [done|]. destruct (add_spine_accept b r Ha) as (b0 & E & Hc). rewrite H in E. by injection E as _ ->.
Qed.

(** Inserting a second, distinct key: what the swaps below need of a map. *)
Lemma insert_new {A} (m : gmap Z A) k x k' :
  <[k := x]> m !! k' = None -> k <> k' /\ m !! k' = None.
Proof. rewrite lookup_insert. case_decide; naive_solver. Qed.

Lemma size_insert_new {A} (m : gmap Z A) k x : m !! k = None -> size (<[k := x]> m) = S (size m).
Proof. intros H. by rewrite map_size_insert_None. Qed.

Lemma add_leaf_swap b x y b1 b2 s1 s2 :
  add_leaf b x = (s1, b1) -> status_ok s1 = true -> add_leaf b1 y = (s2, b2) -> status_ok s2 = true ->
  exists b1' b2' s1' s2', add_leaf b y = (s1', b1') /\ status_ok s1' = true
    /\ add_leaf b1' x = (s2', b2') /\ status_ok s2' = true /\ core_eq b2 b2'.
Proof.
  intros Hx Hs1 Hy Hs2.
  destruct (add_leaf_ok _ _ _ _ Hx Hs1) as [[Fx Zx Wx Nx] (r1 & -> & Er1)].
  destruct (add_leaf_ok _ _ _ _ Hy Hs2) as [[Fy Zy Wy Ny] Cy]. simpl in Fy, Zy, Wy, Ny, Er1.
  apply insert_new in Ny as [Hne Ny]. rewrite size_insert_new in Zy by done.
  destruct (add_leaf_accept b y) as (b1' & E1 & (r1' & -> & Er1')); [split; done || lia|].
  destruct (add_leaf_accept (with_report r1' (with_leaves (<[leaf_id y := y]> (b_leaves b)) b)) x)
    as (b2' & E2 & C2).
  { split; simpl; try done; [rewrite size_insert_new by done; lia|by rewrite lookup_insert_ne]. }
  eexists _, b2', success, success. do 4 (split; [done|]).
  rewrite <- Cy, <- C2. exists r1'. split; [|simpl in *; congruence].
  unfold with_leaves, with_report. simpl. by rewrite (insert_insert_ne _ (leaf_id y)).
Qed.

Lemma add_spine_swap b x y b1 b2 s1 s2 :
  add_spine b x = (s1, b1) -> status_ok s1 = true -> add_spine b1 y = (s2, b2) -> status_ok s2 = true ->
  exists b1' b2' s1' s2', add_spine b y = (s1', b1') /\ status_ok s1' = true
    /\ add_spine b1' x = (s2', b2') /\ status_ok s2' = true /\ core_eq b2 b2'.
Proof.
  intros Hx Hs1 Hy Hs2.
  destruct (add_spine_ok _ _ _ _ Hx Hs1) as [[Fx Zx Wx Nx] (r1 & -> & Er1)].
  destruct (add_spine_ok _ _ _ _ Hy Hs2) as [[Fy Zy Wy Ny] Cy]. simpl in Fy, Zy, Wy, Ny, Er1.
  apply insert_new in Ny as [Hne Ny]. rewrite size_insert_new in Zy by done.
  destruct (add_spine_accept b y) as (b1' & E1 & (r1' & -> & Er1')); [split; done || lia|].
  destruct (add_spine_accept (with_report r1' (with_spines (<[spine_id y := y]> (b_spines b)) b)) x)
    as (b2' & E2 & C2).
  { split; simpl; try done; [rewrite size_insert_new by done; lia|by rewrite lookup_insert_ne]. }
  eexists _, b2', success, success. do 4 (split; [done|]).
  rewrite <- Cy, <- C2. exists r1'. split; [|simpl in *; congruence].
  unfold with_spines, with_report. simpl. by rewrite (insert_insert_ne _ (spine_id y)).
Qed.

(** *** Ports and links *)

Lemma add_port_respects : respects add_port.
Proof.
  intros b b' x (r & -> & Hr). apply (core_guarded b (with_report r b)); [by exists r|].
  exists r. by split.
Qed.

Lemma add_link_respects : respects add_link.
Proof.
  intros b b' x (r & -> & Hr). apply (core_guarded b (with_report r b)); [by exists r|].
  exists r. by split.
Qed.

(** Splits a list of guards into one hypothesis per guard, kept as booleans. *)
Ltac split_guards H :=
  repeat (apply Forall_cons in H as [? H]; cbn [g_cond] in *).
Ltac rebuild_guards special :=
  repeat (apply Forall_cons; split; [cbn [g_cond]; first [assumption | special]|]); by apply Forall_nil.

Lemma port_guards_other b x y :
  Forall (fun g => g_cond g = false) (port_guards b x) -> port_id y <> port_id x ->
  Z.of_nat (size (<[port_id y := y]> (b_ports b))) < max_ports (b_limits b) ->
  Forall (fun g => g_cond g = false) (port_guards (with_ports (<[port_id y := y]> (b_ports b)) b) x).
Proof.
  unfold port_guards. cbv zeta. intros Hg Hne Hs. split_guards Hg.
  rebuild_guards ltac:(first [by apply Z.leb_gt | simpl; by rewrite lookup_insert_ne]).
Qed.

(** What the guards of a port say of the collection being extended. *)
Lemma port_guards_new b x :
  Forall (fun g => g_cond g = false) (port_guards b x) ->
  b_ports b !! port_id x = None /\ Z.of_nat (size (b_ports b)) < max_ports (b_limits b).
Proof.
  unfold port_guards. cbv zeta. intros Hg. guards_to_prop. split; [by apply not_is_Some_None|done].
Qed.

Lemma port_guards_earlier b x y :
  Forall (fun g => g_cond g = false) (port_guards (with_ports (<[port_id y := y]> (b_ports b)) b) x) ->
  b_ports b !! port_id y = None ->
  port_id y <> port_id x /\ Forall (fun g => g_cond g = false) (port_guards b x).
Proof.
  intros Hg Hy. destruct (port_guards_new _ _ Hg) as [Hn Hs]. simpl in Hn, Hs.
  apply insert_new in Hn as [Hne Hn]. rewrite size_insert_new in Hs by done. split; [done|].
  unfold port_guards in *. cbv zeta in *. split_guards Hg.
  rebuild_guards ltac:(first [apply Z.leb_gt; lia | rewrite Hn; by apply bool_decide_false; intros [? ?]]).
Qed.

Lemma port_guards_sound b r : guards_sound (port_guards b r).
Proof. solve_guards_sound. Qed.

Lemma link_guards_sound b r : guards_sound (link_guards b r).
Proof. solve_guards_sound. Qed.

Lemma add_port_swap b x y b1 b2 s1 s2 :
  add_port b x = (s1, b1) -> status_ok s1 = true -> add_port b1 y = (s2, b2) -> status_ok s2 = true ->
  exists b1' b2' s1' s2', add_port b y = (s1', b1') /\ status_ok s1' = true
    /\ add_port b1' x = (s2', b2') /\ status_ok s2' = true /\ core_eq b2 b2'.
Proof.
  intros Hx Hs1 Hy Hs2.
  destruct (proj1 (guarded_ok _ _ _ _ _ (port_guards_sound b x)) (conj Hx Hs1)) as (-> & -> & Fx & Gx).
  destruct (proj1 (guarded_ok _ _ _ _ _ (port_guards_sound _ y)) (conj Hy Hs2)) as (-> & -> & Fy & Gy).
  destruct (port_guards_new _ _ Gx) as [Nx _]. destruct (port_guards_new _ _ Gy) as [_ Sy].
  apply port_guards_earlier in Gy as [Hne Gy]; [|done]. destruct (port_guards_new _ _ Gy) as [Ny _].
  exists (with_ports (<[port_id y := y]> (b_ports b)) b). eexists _, success, success.
  split; [by apply (guarded_ok _ _ _ _ _ (port_guards_sound b y))|]. split; [done|].
  split; [apply (guarded_ok _ _ _ _ _ (port_guards_sound _ x)); do 3 (split; [done|])|].
  - apply port_guards_other; [done|done|]. simpl in Sy. rewrite size_insert_new in Sy |- * by done. done.
  - split; [done|]. unfold with_ports. simpl. by rewrite (insert_insert_ne _ (port_id y)).
Qed.

Lemma equivalent_link_insert b k o l :
  b_links b !! k = None ->
  equivalent_link (with_links (<[k := o]> (b_links b)) b) l = None <->
  equivalent_link b l = None /\ equivalent_ports o l = false.
Proof.
  intros Hk. rewrite !equivalent_link_None. simpl. split.
  - intros H. split; [|by apply (H k o), lookup_insert_eq].
    intros k' o' Ho. apply (H k' o'). rewrite lookup_insert_ne; [done|congruence].
  - intros [H1 H2] k' o'. rewrite lookup_insert. case_decide; [by intros [= <-]|by apply H1].
Qed.

Lemma link_guards_other b x y :
  Forall (fun g => g_cond g = false) (link_guards b x) -> link_id y <> link_id x ->
  b_links b !! link_id y = None -> equivalent_ports y x = false ->
  Z.of_nat (size (<[link_id y := y]> (b_links b))) < max_links (b_limits b) ->
  Forall (fun g => g_cond g = false) (link_guards (with_links (<[link_id y := y]> (b_links b)) b) x).
Proof.
  intros Hg Hne Hy He Hs. destruct (link_guards_wf b x Hg) as (_ & _ & _ & Heq).
  apply equivalent_link_None in Heq.
  assert (equivalent_link (with_links (<[link_id y := y]> (b_links b)) b) x = None) as Hn
    by by apply equivalent_link_insert.
  unfold link_guards in *. cbv zeta in *. split_guards Hg.
  rebuild_guards ltac:(first [by apply Z.leb_gt | rewrite Hn; by apply bool_decide_false; intros [? ?]
                             | simpl; by rewrite lookup_insert_ne]).
Qed.

Lemma link_guards_earlier b x y :
  Forall (fun g => g_cond g = false) (link_guards (with_links (<[link_id y := y]> (b_links b)) b) x) ->
  b_links b !! link_id y = None ->
  link_id y <> link_id x /\ equivalent_ports y x = false
  /\ Forall (fun g => g_cond g = false) (link_guards b x).
Proof.
  intros Hg Hy. destruct (link_guards_wf _ _ Hg) as (Hs & Hn & _ & Heq). simpl in Hn, Hs.
  apply equivalent_link_None, equivalent_link_insert in Heq as [Heq He]; [|done].
  apply insert_new in Hn as [Hne Hn]. rewrite size_insert_new in Hs by done.
  split; [done|]. split; [done|]. unfold link_guards in *. cbv zeta in *. split_guards Hg.
  rebuild_guards ltac:(first [apply Z.leb_gt; lia | rewrite Hn; by apply bool_decide_false; intros [? ?]
                             | rewrite Heq; by apply bool_decide_false; intros [? ?]]).
Qed.

Lemma add_link_swap b x y b1 b2 s1 s2 :
  add_link b x = (s1, b1) -> status_ok s1 = true -> add_link b1 y = (s2, b2) -> status_ok s2 = true ->
  exists b1' b2' s1' s2', add_link b y = (s1', b1') /\ status_ok s1' = true
    /\ add_link b1' x = (s2', b2') /\ status_ok s2' = true /\ core_eq b2 b2'.
Proof.
  intros Hx Hs1 Hy Hs2.
  destruct (proj1 (guarded_ok _ _ _ _ _ (link_guards_sound b x)) (conj Hx Hs1)) as (-> & -> & Fx & Gx).
  destruct (proj1 (guarded_ok _ _ _ _ _ (link_guards_sound _ y)) (conj Hy Hs2)) as (-> & -> & Fy & Gy).
  destruct (link_guards_wf _ _ Gx) as (_ & Nx & _ & _). destruct (link_guards_wf _ _ Gy) as (Sy & _ & _ & _).
  apply link_guards_earlier in Gy as (Hne & He & Gy); [|done].
  destruct (link_guards_wf _ _ Gy) as (_ & Ny & _ & _).
  exists (with_links (<[link_id y := y]> (b_links b)) b). eexists _, success, success.
  split; [by apply (guarded_ok _ _ _ _ _ (link_guards_sound b y))|]. split; [done|].
  split; [apply (guarded_ok _ _ _ _ _ (link_guards_sound _ x)); do 3 (split; [done|])|].
  - apply link_guards_other; [done|done|done|by rewrite equivalent_ports_sym|].
    simpl in Sy. rewrite size_insert_new in Sy |- * by done. done.
  - split; [done|]. unfold with_links. simpl. by rewrite (insert_insert_ne _ (link_id y)).
Qed.

(** ** [build_fabric] *)

Lemma freeze_accept b :
  b_frozen b = false ->
  error_count (add_issues (b_report b) (log_of validate_all (with_frozen b))) = 0 ->
  (freeze b).1 = Value (assemble b).
Proof.
  intros F E. unfold freeze. rewrite F.
  rewrite (logs_run _ _ (proj1 (logs_validate_all (with_frozen b)))).
  unfold finish_report. cbn [b_report with_report count_report error_count issues with_frozen].
  rewrite E. done.
Qed.

Lemma freeze_core b b0 f b' :
  report_wf b -> core_eq b b0 -> freeze b = (Value f, b') -> (freeze b0).1 = Value f.
Proof.
  intros Hr (r & -> & Er) Hf. destruct (freeze_Value b f b' Hr Hf) as (F & -> & E & _).
  rewrite freeze_accept; [done|done|].
  rewrite <- E. apply add_issues_error_count. exact Er.
Qed.

Lemma add_all_success {R} (op : FabricBuilder -> R -> Status * FabricBuilder) l b s b' :
  add_all op b l = (s, b') -> status_ok s = true -> s = success.
Proof.
  revert b. induction l as [|x l IH]; intros b; cbn [add_all]; [by intros [= <- _]|].
  destruct (op b x) as [s1 b1]. destruct (status_ok s1) eqn:E; [apply IH|]. intros [= -> _]. congruence.
Qed.

Lemma add_all_grows {R} (op : FabricBuilder -> R -> Status * FabricBuilder) l b :
  (forall b x, grows b (op b x).2) -> grows b (add_all op b l).2.
Proof.
  intros Hop. revert b. induction l as [|x l IH]; intros b; cbn [add_all]; [apply grows_refl|].
  pose proof (Hop b x) as H. destruct (op b x) as [s1 b1]. simpl in H.
  destruct (status_ok s1); [|done]. eapply grows_trans; [exact H|apply IH].
Qed.

(** Permuted inputs from equivalent states lead to equivalent states. *)
Lemma add_all_perm_core {R} (op : FabricBuilder -> R -> Status * FabricBuilder) l l' b b0 b' :
  respects op ->
  (forall b x y b1 b2 s1 s2,
    op b x = (s1, b1) -> status_ok s1 = true -> op b1 y = (s2, b2) -> status_ok s2 = true ->
    exists b1' b2' s1' s2', op b y = (s1', b1') /\ status_ok s1' = true
      /\ op b1' x = (s2', b2') /\ status_ok s2' = true /\ core_eq b2 b2') ->
  core_eq b b0 -> l ≡ₚ l' -> add_all op b l = (success, b') ->
  exists b'', add_all op b0 l' = (success, b'') /\ core_eq b' b''.
Proof.
  intros Hc Hs Hb Hp H. destruct (add_all_perm op Hc Hs l l' b b' Hp H) as (b1 & H1 & C1).
  destruct (add_all_core op Hc l' b b0 b1 Hb H1) as (b2 & H2 & C2).
  exists b2. split; [done|]. by transitivity b1.
Qed.

Lemma build_fabric_order id name gen epoch opts lim ls ss ps ks ls' ss' ps' ks' f rep :
  ls ≡ₚ ls' -> ss ≡ₚ ss' -> ps ≡ₚ ps' -> ks ≡ₚ ks' ->
  build_fabric id name gen epoch opts ls ss ps ks lim = (Value f, rep) ->
  (build_fabric id name gen epoch opts ls' ss' ps' ks' lim).1 = Value f.
Proof.
  intros Hl Hs Hp Hk. unfold build_fabric. cbv zeta.
  set (b := new_builder id name gen epoch opts lim).
  pose proof (new_builder_report_wf id name gen epoch opts lim) as R0. fold b in R0.
  pose proof (add_all_grows add_leaf ls b grows_add_leaf) as G1.
  destruct (add_all add_leaf b ls) as [s1 b1] eqn:E1.
  destruct (status_ok s1) eqn:O1; cbn [negb]; [|done]. rewrite (add_all_success _ _ _ _ _ E1 O1) in E1.
  pose proof (add_all_grows add_spine ss b1 grows_add_spine) as G2.
  destruct (add_all add_spine b1 ss) as [s2 b2] eqn:E2.
  destruct (status_ok s2) eqn:O2; cbn [negb]; [|done]. rewrite (add_all_success _ _ _ _ _ E2 O2) in E2.
  pose proof (add_all_grows add_port ps b2 (fun b r => grows_apply_op b (OpPort r))) as G3.
  destruct (add_all add_port b2 ps) as [s3 b3] eqn:E3.
  destruct (status_ok s3) eqn:O3; cbn [negb]; [|done]. rewrite (add_all_success _ _ _ _ _ E3 O3) in E3.
  pose proof (add_all_grows add_link ks b3 (fun b r => grows_apply_op b (OpLink r))) as G4.
  destruct (add_all add_link b3 ks) as [s4 b4] eqn:E4.
  destruct (status_ok s4) eqn:O4; cbn [negb]; [|done]. rewrite (add_all_success _ _ _ _ _ E4 O4) in E4.
  simpl in G1, G2, G3, G4.
  assert (report_wf b4) as R4 by eauto using report_wf_grows.
  destruct (freeze b4) as [o b5] eqn:E5. intros [= -> _].
  destruct (add_all_perm_core _ _ _ _ _ _ add_leaf_respects add_leaf_swap (reflexivity b) Hl E1)
    as (c1 & -> & C1).
  destruct (add_all_perm_core _ _ _ _ _ _ add_spine_respects add_spine_swap C1 Hs E2) as (c2 & -> & C2).
  destruct (add_all_perm_core _ _ _ _ _ _ add_port_respects add_port_swap C2 Hp E3) as (c3 & -> & C3).
  destruct (add_all_perm_core _ _ _ _ _ _ add_link_respects add_link_swap C3 Hk E4) as (c4 & -> & C4).
  change (negb (status_ok success)) with false. cbv iota.
  pose proof (freeze_core _ _ _ _ R4 C4 E5) as H. by destruct (freeze c4).
Qed.

(** ** Freezing a sound builder

    The converse of [freeze_wf]: validations of sound records note no error. *)

Lemma fold_core {X} (g : FabricBuilder -> X -> FabricBuilder) xs b :
  (forall b' x, x ∈ xs -> core_eq b b' -> core_eq b' (g b' x)) -> core_eq b (fold_left g xs b).
Proof.
  intros Hg. assert (forall b', core_eq b b' -> core_eq b (fold_left g xs b')) as H; [|by apply H].
  induction xs as [|x xs IH]; intros b' Hb; [done|]. simpl. apply IH.
  - intros c y Hy. apply Hg. by right.
  - transitivity b'; [done|]. apply Hg; [left|done].
Qed.

Ltac core_warns := repeat case_match; first [done | by apply core_warn].

Lemma validate_link_core b p : link_unsound b p.2 = false -> core_eq b (validate_link b p).
Proof.
  destruct p as [id l]. unfold link_unsound. cbn [snd]. intros H. bool_to_prop.
  unfold validate_link. rewrite H. cbv zeta.
  match goal with H : (_ && negb _)%bool = false |- _ => rewrite H end. cbv iota.
  repeat match goal with
  | |- core_eq ?a ?a => done
  | |- core_eq _ (if _ then noted ?x _ _ _ _ else ?x) => transitivity x; [|core_warns]
  | |- core_eq _ (if _ then match _ with Some _ => _ | None => ?x end else ?x) =>
      transitivity x; [|core_warns]
  end.
Qed.

Lemma evidence_tally_core l b h d :
  (forall r, r ∈ l -> ev_generation r <= b_generation b) ->
  (fold_left evidence_tally l (b, h, d)).1.1 = b.
Proof.
  revert h d. induction l as [|e l IH]; intros h d Hl; [done|]. cbn [fold_left].
  unfold evidence_tally at 2. destruct (Z.gtb_spec (ev_generation e) (b_generation b)).
  { assert (ev_generation e <= b_generation b) by (apply Hl; left). lia. }
  assert (forall r, r ∈ l -> ev_generation r <= b_generation b) as Hl' by (intros r Hr; apply Hl; by right).
  repeat case_match; by apply IH.
Qed.

Lemma validate_all_core b :
  (forall k l, b_links b !! k = Some l -> link_unsound b l = false) ->
  (forall r, r ∈ b_evidence b -> ev_generation r <= b_generation b) ->
  core_eq b (validate_all b).
Proof.
  intros Hl He. unfold validate_all.
  assert (core_eq b (validate_domains b)) as (r1 & -> & E1).
  { unfold validate_domains. case_decide; [done|]. cbv zeta.
    transitivity (fold_left (fun b p =>
        if bool_decide (is_Some (b_domains b !! leaf_domain p.2)) then b
        else noted b IS_Warning SC_NotFound (LeafId_to_string p.1)
               ("failure domain " +:+ std_to_string (leaf_domain p.2) +:+ " is not declared"))
        (ordered (b_leaves b)) b); apply fold_core; intros; core_warns. }
  transitivity (with_report r1 b); [by exists r1|]. set (b1 := with_report r1 b).
  assert (core_eq b1 (validate_ports b1)) as (r2 & -> & E2) by (apply fold_core; intros; core_warns).
  transitivity (with_report r2 b1); [by exists r2|]. set (b2 := with_report r2 b1).
  assert (core_eq b2 (validate_links b2)) as (r3 & -> & E3).
  { apply fold_core. intros b' [k l] Hin (r & -> & _). apply validate_link_core.
    apply elem_of_ordered in Hin. exact (Hl k l Hin). }
  transitivity (with_report r3 b2); [by exists r3|]. set (b3 := with_report r3 b2).
  unfold validate_evidence. pose proof (evidence_tally_core (b_evidence b3) b3 ∅ ∅ He) as Ht.
  destruct (fold_left evidence_tally _ _) as [[b4 h] d]. simpl in Ht. subst b4. cbv zeta.
  etransitivity; [|apply fold_core; intros; core_warns]. apply fold_core. intros. core_warns.
Qed.

Lemma freeze_sound b :
  b_frozen b = false -> error_count (b_report b) = 0 ->
  (forall k l, b_links b !! k = Some l -> link_unsound b l = false) ->
  (forall r, r ∈ b_evidence b -> ev_generation r <= b_generation b) ->
  (freeze b).1 = Value (assemble b).
Proof.
  intros F E Hl He. apply freeze_accept; [done|].
  destruct (validate_all_core (with_frozen b) Hl He) as (r & Hr & Er). simpl in Er.
  pose proof (logs_run _ _ (proj1 (logs_validate_all (with_frozen b)))) as Hv. rewrite Hr in Hv.
  assert (r = add_issues (b_report b) (log_of validate_all (with_frozen b))) as <-
    by (by apply (f_equal b_report) in Hv). congruence.
Qed.

(** C25: [build_fabric] is independent of the insertion order: permuting the leaf,
    spine, port and link lists of a successful build yields a successful build of
    the same fabric, digests included. *)
Theorem build_fabric_insertion_order id name gen epoch opts lim ls ss ps ks ls' ss' ps' ks' f rep :
  ls ≡ₚ ls' -> ss ≡ₚ ss' -> ps ≡ₚ ps' -> ks ≡ₚ ks' ->
  build_fabric id name gen epoch opts ls ss ps ks lim = (Value f, rep) ->
  (build_fabric id name gen epoch opts ls' ss' ps' ks' lim).1 = Value f.
Proof. apply build_fabric_order. Qed.

Lemma build_fabric_insertion_order_witness :
  (build_fabric 9 "sample" 7 3 default_options [Sample.leaf2; Sample.leaf1] [Sample.spine2; Sample.spine1]
     (rev Sample.ports) (rev Sample.links) default_limits).1 = Value Sample.fabric.
Proof.
  apply (build_fabric_insertion_order 9 "sample" 7 3 default_options default_limits
           [Sample.leaf1; Sample.leaf2] [Sample.spine1; Sample.spine2] Sample.ports Sample.links
           _ _ _ _ _ Sample.report).
  - apply Permutation_swap.
  - apply Permutation_swap.
  - apply Permutation_rev.
  - apply Permutation_rev.
  - exact Sample.build_eq.
Defined.
