(* ===== verification/Codec.v ===== *)
(** * Fabric decoding (src/model.cpp, [deserialize_fabric])

    The decoder parses the canonical encoding record by record into a builder,
    which re-validates everything, and freezes it. *)
From S2P Require Import Prelude Status Identity Bytes Digest Model Builder BuilderSpec Freeze BuilderOrder.

(** A loop of the decoder: read one record, add it, stop at the first failure of
    either. *)
Fixpoint read_add {R} (n : nat) (m : Reader R) (add : FabricBuilder -> R -> Status * FabricBuilder)
    (b : FabricBuilder) : Reader FabricBuilder :=
  match n with
  | O => mret b
  | S n' => r ← m;
            let '(s, b') := add b r in
            if status_ok s then read_add n' m add b' else lift (Failure s)
  end.

(** [const auto count = topology.u32(); if (!count.ok()) ...; if (count > bound) ...]
    followed by the loop. *)
Definition read_counted {R} (missing : string) (bound : Z) (exceeded : string) (m : Reader R)
    (add : FabricBuilder -> R -> Status * FabricBuilder) (b : FabricBuilder) : Reader FabricBuilder :=
  count ← fields SC_Truncated missing read_u32;
  _ ← ensure (negb (count >? bound)) SC_Exhausted exceeded;
  read_add (Z.to_nat count) m add b.

Definition opt_or {A} (o : option A) (c : StatusCode) (d : string) : Outcome A :=
  match o with Some a => Value a | None => fail c d end.

Definition decode_domain : Reader FailureDomainRecord :=
  fields SC_Truncated "failure domain record is incomplete"
    (id ← read_u32; name ← read_string; gen ← read_u64; mret (MkDomain id name gen)).

Definition decode_leaf : Reader LeafRecord :=
  '(id, name, role, inc, dom, st, cap, acc, gen) ←
    fields SC_Truncated "leaf record is incomplete"
      (id ← read_u32; name ← read_string; role ← read_u8; inc ← read_u64; dom ← read_u32;
       st ← read_u8; cap ← read_u64; acc ← read_u32; gen ← read_u64;
       mret (id, name, role, inc, dom, st, cap, acc, gen));
  role ← lift (opt_or (LeafRole_of_u8 role) SC_Invalid "leaf record carries an unknown enumeration value");
  st ← lift (opt_or (NodeState_of_u8 st) SC_Invalid "leaf record carries an unknown enumeration value");
  mret (MkLeaf id name role inc dom st cap acc gen).

Definition decode_spine : Reader SpineRecord :=
  '(id, name, role, inc, dom, st, cap, gen) ←
    fields SC_Truncated "spine record is incomplete"
      (id ← read_u32; name ← read_string; role ← read_u8; inc ← read_u64; dom ← read_u32;
       st ← read_u8; cap ← read_u64; gen ← read_u64;
       mret (id, name, role, inc, dom, st, cap, gen));
  role ← lift (opt_or (SpineRole_of_u8 role) SC_Invalid "spine record carries an unknown enumeration value");
  st ← lift (opt_or (NodeState_of_u8 st) SC_Invalid "spine record carries an unknown enumeration value");
  mret (MkSpine id name role inc dom st cap gen).

Definition decode_port : Reader PortRecord :=
  '(id, t, i, speed, adm, gen) ←
    fields SC_Truncated "port record is incomplete"
      (id ← read_u32; t ← read_u8; i ← read_u32; speed ← read_u64; adm ← read_u8; gen ← read_u64;
       mret (id, t, i, speed, adm, gen));
  _ ← ensure (negb (t >? 1)) SC_Invalid "port record carries an unknown enumeration value";
  adm ← lift (opt_or (PortAdmin_of_u8 adm) SC_Invalid "port record carries an unknown enumeration value");
  mret (MkPort id (MkNode (Tier_of_u8 t) i) speed adm gen).

Definition decode_link : Reader LinkRecord :=
  '(id, at_, ai, pa, bt, bi, pb, cls, adm, speed, gen) ←
    fields SC_Truncated "link record is incomplete"
      (id ← read_u32; at_ ← read_u8; ai ← read_u32; pa ← read_u32; bt ← read_u8; bi ← read_u32;
       pb ← read_u32; cls ← read_u8; adm ← read_u8; speed ← read_u64; gen ← read_u64;
       mret (id, at_, ai, pa, bt, bi, pb, cls, adm, speed, gen));
  _ ← ensure (negb ((at_ >? 1) || (bt >? 1))) SC_Invalid "link record carries an unknown enumeration value";
  cls ← lift (opt_or (LinkClass_of_u8 cls) SC_Invalid "link record carries an unknown enumeration value");
  _ ← ensure (negb (adm >? 1)) SC_Invalid "link record carries an unknown enumeration value";
  mret (MkLink id (MkNode (Tier_of_u8 at_) ai) pa (MkNode (Tier_of_u8 bt) bi) pb cls
          (LinkAdmin_of_u8 adm) speed gen).

Definition decode_evidence_record : Reader LinkEvidence :=
  '(link, obs, gen, ohi, olo, ep, seq, at_ms) ←
    fields SC_Truncated "evidence record is incomplete"
      (link ← read_u32; obs ← read_u8; gen ← read_u64; ohi ← read_u64; olo ← read_u64;
       ep ← read_u64; seq ← read_u64; at_ms ← read_u64;
       mret (link, obs, gen, ohi, olo, ep, seq, at_ms));
  obs ← lift (opt_or (LinkObservation_of_u8 obs) SC_Invalid
                "evidence record carries an unknown observation value");
  mret (MkEvidence link obs gen (MkInc ohi olo) ep seq at_ms).

(** The topology block: header, then the six counted vectors. The domain tag is
    read and not compared; bytes after the last vector are not looked at. *)
Definition decode_topology (lim : BuilderLimits) : Reader FabricBuilder :=
  _ ← read_string;
  '(id, name, site, gen, epoch, state, peer, diversity, min_spines, policy) ←
    fields SC_Truncated "fabric header is incomplete"
      (id ← read_u64; name ← read_string; site ← read_string; gen ← read_u64; epoch ← read_u64;
       state ← read_u8; peer ← read_u8; diversity ← read_u8; min_spines ← read_u32; policy ← read_u8;
       mret (id, name, site, gen, epoch, state, peer, diversity, min_spines, policy));
  policy ← lift (opt_or (EvidencePolicy_of_u8 policy) SC_Invalid "unknown evidence policy value");
  let opts := MkOptions (negb (peer =? 0)) (negb (diversity =? 0)) min_spines policy in
  let b := new_builder id name gen epoch opts lim in
  let b := (set_site b site).2 in
  state ← lift (opt_or (FabricState_of_u8 state) SC_Invalid "unknown fabric state value");
  let b := (set_state b state).2 in
  b ← read_counted "missing failure domain count" (max_failure_domains lim)
        "failure domain count exceeds the configured bound" decode_domain add_failure_domain b;
  b ← read_counted "missing leaf count" (max_leaves lim)
        "leaf count exceeds the configured bound" decode_leaf add_leaf b;
  b ← read_counted "missing spine count" (max_spines lim)
        "spine count exceeds the configured bound" decode_spine add_spine b;
  b ← read_counted "missing port count" (max_ports lim)
        "port count exceeds the configured bound" decode_port add_port b;
  b ← read_counted "missing link count" (max_links lim)
        "link count exceeds the configured bound" decode_link add_link b;
  read_counted "missing link count" (max_history_records lim)
    "link count exceeds the configured bound" decode_link add_history_link b.

Definition decode_evidence (lim : BuilderLimits) (b : FabricBuilder) : Reader FabricBuilder :=
  '(_, _, count) ← fields SC_Truncated "evidence block header is incomplete"
    (tag ← read_string; gen ← read_u64; count ← read_u32; mret (tag, gen, count));
  _ ← ensure (negb (count >? max_evidence_records lim)) SC_Exhausted
        "evidence count exceeds the configured bound";
  read_add (Z.to_nat count) decode_evidence_record add_evidence b.

Definition kMaxBlockBytes : Z := 64 * 1024 * 1024.

(** The outer envelope: version and two blocks, nothing after them. *)
Definition decode_envelope : Reader (list byte * list byte) :=
  version ← read_u32;
  _ ← ensure (version =? kPersistenceFormatVersion) SC_IncompatibleVersion
        ("fabric payload version " +:+ std_to_string version +:+ " is not supported");
  topology ← read_block kMaxBlockBytes;
  evidence ← read_block kMaxBlockBytes;
  mret (topology, evidence).

Definition deserialize_fabric (data : list byte) (lim : BuilderLimits) : Outcome Fabric :=
  match decode_envelope (new_reader data kDefaultMaxString) with
  | (Failure s, _) => Failure s
  | (Value (topology, evidence), r) =>
      if negb (exhausted r) then fail SC_Invalid "trailing bytes after the fabric payload"
      else match decode_topology lim (new_reader topology (max_name_bytes lim)) with
      | (Failure s, _) => Failure s
      | (Value b, _) =>
          match decode_evidence lim b (new_reader evidence (max_name_bytes lim)) with
          | (Failure s, _) => Failure s
          | (Value b, r) =>
              if negb (status_ok (expect_end r)) then Failure (expect_end r) else (freeze b).1
          end
      end
  end.
