(* ===== verification/CodecSpec.v ===== *)
(** * Round trip of the fabric encoding (src/model.cpp)

    [deserialize_fabric] inverts [serialize_fabric] on every well-formed fabric
    whose fields are in range: the bytes decode record by record, the builder
    accepts every record again, and the fabric it freezes is the original one. *)
From S2P Require Import Prelude Status Identity Bytes Digest Model Builder BuilderSpec Freeze BuilderOrder Codec Sample.

(** ** Fields in range

    What C++ integer and enumeration types guarantee of a record. *)

Definition tier_valid (t : Tier) : Prop := t = T_Leaf \/ t = T_Spine.

Definition domain_fits (d : FailureDomainRecord) : Prop := u32_ok (dom_id d) /\ u64_ok (dom_generation d).

Definition leaf_fits (l : LeafRecord) : Prop :=
  u32_ok (leaf_id l) /\ u64_ok (leaf_incarnation l) /\ u32_ok (leaf_domain l)
  /\ u64_ok (leaf_access_capacity l) /\ u32_ok (leaf_access_links l) /\ u64_ok (leaf_generation l).

Definition spine_fits (s : SpineRecord) : Prop :=
  u32_ok (spine_id s) /\ u64_ok (spine_incarnation s) /\ u32_ok (spine_domain s)
  /\ u64_ok (spine_fabric_capacity s) /\ u64_ok (spine_generation s).

Definition port_fits (p : PortRecord) : Prop :=
  u32_ok (port_id p) /\ tier_valid (tier (port_owner p)) /\ u32_ok (index (port_owner p))
  /\ u64_ok (port_speed p) /\ u64_ok (port_generation p).

Definition link_fits (l : LinkRecord) : Prop :=
  u32_ok (link_id l) /\ tier_valid (tier (link_a l)) /\ u32_ok (index (link_a l)) /\ u32_ok (link_port_a l)
  /\ tier_valid (tier (link_b l)) /\ u32_ok (index (link_b l)) /\ u32_ok (link_port_b l)
  /\ (link_admin l = LA_Enabled \/ link_admin l = LA_Disabled)
  /\ u64_ok (link_declared_speed l) /\ u64_ok (link_generation l).

Definition evidence_fits (r : LinkEvidence) : Prop :=
  u32_ok (ev_link r) /\ u64_ok (ev_generation r) /\ u64_ok (hi (ev_observer r))
  /\ u64_ok (lo (ev_observer r)) /\ u64_ok (ev_epoch r) /\ u64_ok (ev_seq r) /\ u64_ok (ev_at_ms r).

Record fabric_fits (f : Fabric) : Prop := {
  ff_id : u64_ok (fab_id f);
  ff_generation : u64_ok (fab_generation f);
  ff_epoch : u64_ok (fab_epoch f);
  ff_min : u32_ok (min_eligible_spines (fab_options f));
  ff_domains : forall d, d ∈ domains f -> domain_fits d;
  ff_leaves : forall l, l ∈ leaves f -> leaf_fits l;
  ff_spines : forall s, s ∈ spines f -> spine_fits s;
  ff_ports : forall p, p ∈ ports f -> port_fits p;
  ff_links : forall l, l ∈ links f -> link_fits l;
  ff_history : forall l, l ∈ history_links f -> link_fits l;
  ff_evidence : forall r, r ∈ evidence f -> evidence_fits r
}.

(** The configured bounds admit the fabric. *)
Record fabric_bounded (lim : BuilderLimits) (f : Fabric) : Prop := {
  fb_name_bytes : 15 <= max_name_bytes lim <= u32_max;
  fb_domains : Zlen (domains f) <= max_failure_domains lim <= u32_max;
  fb_leaves : Zlen (leaves f) <= max_leaves lim <= u32_max;
  fb_spines : Zlen (spines f) <= max_spines lim <= u32_max;
  fb_ports : Zlen (ports f) <= max_ports lim <= u32_max;
  fb_links : Zlen (links f) <= max_links lim <= u32_max;
  fb_history : Zlen (history_links f) <= max_history_records lim <= u32_max;
  fb_evidence : Zlen (evidence f) <= max_evidence_records lim <= u32_max;
  fb_bytes : 12 + Zlen (encs (topology_ops f)) + Zlen (encs (evidence_block_ops f)) <= kDefaultMaxBytes
}.

(** ** Records decode *)

Lemma decodes_to_nil {A B} mx (m : Reader A) (k : A -> Reader B) bs a b :
  decodes mx m bs a -> decodes mx (k a) [] b -> decodes mx (m ≫= k) bs b.
Proof. intros Hm Hk. rewrite <- (app_nil_r bs). by eapply decodes_bind. Qed.

(** Decodes the fields of a record in order. *)
Ltac decode_fields :=
  apply decodes_fields; repeat (rewrite encs_cons; eapply decodes_bind; [first [eassumption | auto with slf]|]); apply decodes_ret.

(** The checks between the fields and the record. *)
Ltac decode_checks :=
  repeat (cbv beta iota; first
    [ eapply decodes_bind_nil; [apply decodes_ensure; reflexivity|]
    | eapply decodes_bind_nil; [apply decodes_lift|] ]); cbv beta iota; apply decodes_ret.

Lemma name_ok_string lim n :
  max_name_bytes lim <= u32_max -> n = "" \/ name_ok lim n -> 0 <= max_name_bytes lim ->
  decodes (max_name_bytes lim) read_string (enc (WString n)) n.
Proof.
  intros Hm Hn H0. apply decodes_string; destruct Hn as [->|(_ & Hu & Hl)]; try done; try lia.
Qed.

Section Records.
Context (lim : BuilderLimits) (Hlim : 15 <= max_name_bytes lim <= u32_max).
Local Abbreviation mx := (max_name_bytes lim).

Lemma decodes_name n : name_ok lim n -> decodes mx read_string (enc (WString n)) n.
Proof. intros Hn. apply name_ok_string; [lia|by right|lia]. Qed.

#[local] Hint Resolve decodes_name LeafRole_u8_ok SpineRole_u8_ok NodeState_u8_ok PortAdmin_u8_ok
  LinkClass_u8_ok LinkObservation_u8_ok FabricState_u8_ok EvidencePolicy_u8_ok : slf.

Lemma decodes_domain d gen :
  domain_fits d -> domain_wf lim gen d -> decodes mx decode_domain (encs (domain_ops d)) d.
Proof.
  intros [H1 H2] [_ Hn]. unfold decode_domain, domain_ops. destruct d; simpl in *.
  decode_fields.
Qed.

Lemma decodes_leaf l gen :
  leaf_fits l -> leaf_wf lim gen l -> decodes mx decode_leaf (encs (leaf_ops l)) l.
Proof.
  intros (H1 & H2 & H3 & H4 & H5 & H6) [_ _ Hn _]. unfold decode_leaf, leaf_ops.
  destruct l as [id nm ro inc dm st cp ac gn]; cbn [leaf_id leaf_name leaf_role leaf_incarnation leaf_domain leaf_state
    leaf_access_capacity leaf_access_links leaf_generation] in *.
  eapply decodes_to_nil; [decode_fields|]. cbv beta iota.
  rewrite LeafRole_of_to_u8, NodeState_of_to_u8. decode_checks.
Qed.

Lemma decodes_spine s gen :
  spine_fits s -> spine_wf lim gen s -> decodes mx decode_spine (encs (spine_ops s)) s.
Proof.
  intros (H1 & H2 & H3 & H4 & H5) [_ _ Hn _]. unfold decode_spine, spine_ops.
  destruct s as [id nm ro inc dm st cp gn]; cbn [spine_id spine_name spine_role spine_incarnation spine_domain spine_state
    spine_fabric_capacity spine_generation] in *.
  eapply decodes_to_nil; [decode_fields|]. cbv beta iota.
  rewrite SpineRole_of_to_u8, NodeState_of_to_u8. decode_checks.
Qed.

Lemma tier_u8 t : tier_valid t -> u8_ok (Tier_to_u8 t) /\ Tier_of_u8 (Tier_to_u8 t) = t /\ (Tier_to_u8 t >? 1) = false.
Proof. intros [-> | ->]; by repeat split. Qed.

Lemma decodes_port p : port_fits p -> decodes mx decode_port (encs (port_ops p)) p.
Proof.
  intros (H1 & H2 & H3 & H4 & H5). unfold decode_port, port_ops.
  destruct p as [id [t i] sp adm gen]; cbn [port_id port_owner tier index port_speed port_admin port_generation] in *.
  destruct (tier_u8 t H2) as (Ht & Ht' & Ht'').
  eapply decodes_to_nil; [decode_fields|]. cbv beta iota.
  rewrite PortAdmin_of_to_u8, Ht''. eapply decodes_bind_nil; [by apply decodes_ensure|].
  rewrite Ht'. decode_checks.
Qed.

Lemma decodes_link l : link_fits l -> decodes mx decode_link (encs (link_ops l)) l.
Proof.
  intros (H1 & H2 & H3 & H4 & H5 & H6 & H7 & H8 & H9 & H10). unfold decode_link, link_ops.
  destruct l as [id [ta ia] pa [tb ib] pb cls adm sp gen];
    cbn [link_id link_a link_b link_port_a link_port_b link_cls link_admin link_declared_speed
         link_generation tier index] in *.
  destruct (tier_u8 ta H2) as (A1 & A2 & A3). destruct (tier_u8 tb H5) as (B1 & B2 & B3).
  assert (u8_ok (LinkAdmin_to_u8 adm) /\ LinkAdmin_of_u8 (LinkAdmin_to_u8 adm) = adm
          /\ (LinkAdmin_to_u8 adm >? 1) = false) as (D1 & D2 & D3)
    by (destruct H8 as [-> | ->]; by repeat split).
  eapply decodes_to_nil; [decode_fields|]. cbv beta iota.
  rewrite A3, B3, LinkClass_of_to_u8, D3, A2, B2, D2. decode_checks.
Qed.

Lemma decodes_evidence r : evidence_fits r -> decodes mx decode_evidence_record (encs (evidence_ops r)) r.
Proof.
  intros (H1 & H2 & H3 & H4 & H5 & H6 & H7). unfold decode_evidence_record, evidence_ops.
  destruct r as [lk obs gen [oh ol] ep sq ms];
    cbn [ev_link ev_observed ev_generation ev_observer ev_epoch ev_seq ev_at_ms hi lo] in *.
  eapply decodes_to_nil; [decode_fields|]. cbv beta iota.
  rewrite LinkObservation_of_to_u8. decode_checks.
Qed.
End Records.

(** ** Counted vectors decode into the builder *)

Lemma encs_concat {A} (ops : A -> list WriteOp) l :
  encs (concat (ops <$> l)) = concat ((fun x => encs (ops x)) <$> l).
Proof.
  induction l as [|x l IH]; [done|]. rewrite !fmap_cons. cbn [concat]. by rewrite encs_app, IH.
Qed.

Lemma decodes_read_add {R} mx (m : Reader R) add (encode : R -> list byte) l b b' :
  (forall a, a ∈ l -> decodes mx m (encode a) a) -> add_all add b l = (success, b') ->
  decodes mx (read_add (List.length l) m add b) (concat (encode <$> l)) b'.
Proof.
  revert b. induction l as [|x l IH]; intros b Hm Ha.
  - injection Ha as <-. apply decodes_ret.
  - apply add_all_cons in Ha as (s & b1 & Hx & Hs & Hl). rewrite fmap_cons. cbn [read_add concat length].
    eapply decodes_bind; [apply Hm; left|]. cbv beta. rewrite Hx, Hs.
    apply IH; [|done]. intros a Ha'. apply Hm. by right.
Qed.

Lemma decodes_counted {R} mx missing bound exceeded (m : Reader R) add (ops : R -> list WriteOp) l b b' :
  (forall a, a ∈ l -> decodes mx m (encs (ops a)) a) -> Zlen l <= bound <= u32_max ->
  add_all add b l = (success, b') ->
  decodes mx (read_counted missing bound exceeded m add b) (encs (counted ops l)) b'.
Proof.
  intros Hm Hb Ha. unfold read_counted, counted. rewrite encs_cons, encs_concat.
  eapply decodes_bind; [apply decodes_fields, decodes_u32, Zlen_u32; lia|].
  eapply decodes_bind_nil.
  - apply decodes_ensure. destruct (Z.gtb_spec (Zlen l) bound); [lia|done].
  - unfold Zlen. rewrite Nat2Z.id. by apply (decodes_read_add mx m add (fun x => encs (ops x))).
Qed.

(** ** The builder accepts the records again *)

Lemma add_all_stages {R} (op : FabricBuilder -> R -> Status * FabricBuilder)
    (st : list R -> FabricBuilder) l :
  respects op ->
  (forall pre x post, l = pre ++ x :: post ->
     exists s b', op (st pre) x = (s, b') /\ status_ok s = true /\ core_eq (st (pre ++ [x])) b') ->
  forall b, core_eq (st []) b -> exists b', add_all op b l = (success, b') /\ core_eq (st l) b'.
Proof.
  intros Hop Hst.
  assert (forall post pre b, l = pre ++ post -> core_eq (st pre) b ->
    exists b', add_all op b post = (success, b') /\ core_eq (st l) b') as H.
  { induction post as [|x post IH]; intros pre b Hl Hb.
    - exists b. split; [done|]. by rewrite app_nil_r in Hl; subst.
    - destruct (Hst pre x post Hl) as (s & b1 & Hx & Hs & Hc).
      destruct (Hop (st pre) b x Hb) as [E1 E2]. rewrite Hx in E1, E2. simpl in E1, E2.
      destruct (op b x) as [s' b1'] eqn:Ex. simpl in E1, E2. subst s'.
      destruct (IH (pre ++ [x]) b1') as (b' & Ha & Hc').
      + by rewrite <- (assoc_L (++)).
      + by transitivity b1.
      + exists b'. split; [|done]. apply add_all_cons. eauto. }
  intros b Hb. by apply (H l []).
Qed.

Lemma size_map_of_le {A} (key : A -> Z) l : (size (map_of key l) <= List.length l)%nat.
Proof.
  induction l as [|x l IH] using rev_ind; [done|]. rewrite map_of_snoc, length_app. simpl.
  pose proof (size_insert_le (map_of key l) (key x) x). lia.
Qed.

(** The state of a map halfway through a sorted vector. *)
Lemma map_of_prefix {A} (key : A -> Z) l pre x post :
  sorted_by key l -> l = pre ++ x :: post ->
  map_of key pre !! key x = None /\ (S (size (map_of key pre)) <= List.length l)%nat.
Proof.
  intros Hs ->. split.
  - destruct (map_of key pre !! key x) as [y|] eqn:E; [|done]. exfalso.
    pose proof (map_of_keyed key pre _ _ E) as Hk. apply map_of_lookup in E.
    apply sorted_by_NoDup in Hs. rewrite fmap_app, NoDup_app in Hs. destruct Hs as (_ & Hd & _).
    apply (Hd (key y)); [by apply list_elem_of_fmap_2|]. rewrite Hk, fmap_cons. left.
  - pose proof (size_map_of_le key pre). rewrite length_app. simpl. lia.
Qed.

Lemma size_prefix_lt {A} (key : A -> Z) l pre x post bound :
  sorted_by key l -> l = pre ++ x :: post -> Zlen l <= bound -> Z.of_nat (size (map_of key pre)) < bound.
Proof. intros Hs Hl Hb. destruct (map_of_prefix key l pre x post Hs Hl) as [_ H]. unfold Zlen in Hb. lia. Qed.

Lemma guarded_accept b gs a :
  b_frozen b = false -> Forall (fun g => g_cond g = false) gs ->
  exists s b', guarded b gs a = (s, b') /\ status_ok s = true /\ core_eq a b'.
Proof.
  intros F G. exists success, a. split; [|done]. apply first_guard_None in G.
  unfold guarded. by rewrite F, G.
Qed.

(** A complete guard list from the facts that make each guard pass. *)
Ltac pass_guards :=
  repeat (apply Forall_cons; split; [cbn [g_cond]|]); [..|by apply Forall_nil].

Lemma not_Some_false {A} (o : option A) : o = None -> bool_decide (is_Some o) = false.
Proof. intros ->. apply bool_decide_false. by intros [? ?]. Qed.

Lemma name_guards lim n :
  name_ok lim n -> bool_decide (check_name n (max_name_bytes lim) = TooLong) = false
                /\ bool_decide (check_name n (max_name_bytes lim) = NameInvalid) = false.
Proof. intros ->%check_name_ok. done. Qed.

Lemma gtb_false a b : a <= b -> (a >? b) = false.
Proof. intros H. rewrite Z.gtb_ltb. by apply Z.ltb_ge. Qed.

Lemma neq_is_zero a : a <> 0 -> is_zero a = false.
Proof. apply Z.eqb_neq. Qed.

Lemma eqb_negb_false a b : a = b -> negb (a =? b) = false.
Proof. intros ->. by rewrite Z.eqb_refl. Qed.

#[local] Hint Resolve gtb_false neq_is_zero eqb_negb_false not_Some_false : slf.

Lemma port_guards_pass b p :
  Z.of_nat (size (b_ports b)) < max_ports (b_limits b) -> b_ports b !! port_id p = None ->
  port_wf (b_limits b) (b_lookup b) (b_generation b) p ->
  Forall (fun g => g_cond g = false) (port_guards b p).
Proof.
  intros Hs Hn [Hid Hg Ho Hsp He]. unfold port_guards. cbv zeta. pass_guards; auto with slf.
  - by apply Z.leb_gt.
  - apply negb_false_iff. by apply endpoint_exists_known.
  - apply andb_false_iff. destruct (decide (port_admin p = PA_Enabled)) as [E|E].
    + left. by apply Z.eqb_neq, He.
    + right. by apply bool_decide_false.
Qed.

Lemma link_guards_pass b l :
  Z.of_nat (size (b_links b)) < max_links (b_limits b) -> b_links b !! link_id l = None ->
  link_wf (b_limits b) (b_options b) (b_lookup b) (b_generation b) l ->
  (forall k o, b_links b !! k = Some o -> equivalent_ports o l = false) ->
  Forall (fun g => g_cond g = false) (link_guards b l).
Proof.
  intros Hs Hn [Hid Hg Hab Hsame Hcross Ha Hb Hpa Hpb Hpeer Hdecl Hmax] Heq.
  apply equivalent_link_None in Heq. unfold link_guards, same_tier. cbv zeta.
  pass_guards; auto with slf.
  - by apply Z.leb_gt.
  - by apply bool_decide_false.
  - destruct (decide (tier (link_a l) = tier (link_b l))) as [E|E];
      [rewrite (bool_decide_true _ E)|by rewrite (bool_decide_false _ E)].
    destruct (Hsame E) as [-> _]. done.
  - destruct (decide (tier (link_a l) = tier (link_b l))) as [E|E];
      [by rewrite (bool_decide_true _ E)|rewrite (bool_decide_false _ E)]. by rewrite (Hcross E).
  - destruct (decide (tier (link_a l) = tier (link_b l))) as [E|E];
      [rewrite (bool_decide_true _ E)|by rewrite (bool_decide_false _ E)].
    destruct (Hsame E) as [_ ->]. done.
  - apply negb_false_iff. by apply endpoint_exists_known.
  - apply negb_false_iff. by apply endpoint_exists_known.
  - apply negb_false_iff. by apply port_belongs_true.
  - apply negb_false_iff. by apply port_belongs_true.
  - destruct (decide (tier (link_a l) = tier (link_b l))) as [E|E];
      [rewrite (bool_decide_true _ E)|by rewrite (bool_decide_false _ E)].
    destruct (decide (tier (link_a l) = T_Leaf)) as [T|T];
      [rewrite (bool_decide_true _ T)|by rewrite (bool_decide_false _ T)].
    destruct Hpeer as (x & y & Hx & Hy & Px & Py); [done|by rewrite <- E|]. simpl in Hx, Hy.
    unfold leaf_peer_capable_at. by rewrite Hx, Hy, Px, Py.
  - destruct Hdecl as [->|(p & q & Hp & Hq & Hlp & Hlq)]; [done|]. simpl in Hp, Hq.
    apply andb_false_iff. right. apply gtb_false. unfold slower_speed, port_speed_at.
    rewrite Hp, Hq. destruct (_ <? _); lia.
Qed.

Lemma add_failure_domain_respects : respects add_failure_domain.
Proof.
  intros b b' x (r & -> & Hr). apply (core_guarded b (with_report r b)); [by exists r|]. exists r. by split.
Qed.
Lemma add_history_link_respects : respects add_history_link.
Proof.
  intros b b' x (r & -> & Hr). apply (core_guarded b (with_report r b)); [by exists r|]. exists r. by split.
Qed.
Lemma add_evidence_respects : respects add_evidence.
Proof.
  intros b b' x (r & -> & Hr). apply (core_guarded b (with_report r b)); [by exists r|]. exists r. by split.
Qed.

(** ** Rebuilding a fabric *)

Section Rebuild.
Context (lim : BuilderLimits) (f : Fabric).
Hypothesis wf : fabric_wf lim f.
Hypothesis bounded : fabric_bounded lim f.
(** A live link and a historical link never share an identity. *)
Hypothesis disjoint : forall l h, l ∈ links f -> h ∈ history_links f -> link_id l <> link_id h.

Definition st_base : FabricBuilder :=
  MkBuilder (fab_id f) (fab_name f) (fab_site f) (fab_state f) (fab_generation f) (fab_epoch f)
    (fab_options f) lim ∅ ∅ ∅ ∅ ∅ ∅ [] empty_report false.
Definition st_domains l := with_domains (map_of dom_id l) st_base.
Definition st_leaves l := with_leaves (map_of leaf_id l) (st_domains (domains f)).
Definition st_spines l := with_spines (map_of spine_id l) (st_leaves (leaves f)).
Definition st_ports l := with_ports (map_of port_id l) (st_spines (spines f)).
Definition st_links l := with_links (map_of link_id l) (st_ports (ports f)).
Definition st_history l := with_history (map_of link_id l) (st_links (links f)).
Definition st_evidence l := with_evidence l (st_history (history_links f)).

(** Before its first record a stage is the stage before it. *)
Lemma with_domains_same b : b_domains b = ∅ -> with_domains ∅ b = b.
Proof. destruct b. cbn. by intros ->. Qed.
Lemma with_leaves_same b : b_leaves b = ∅ -> with_leaves ∅ b = b.
Proof. destruct b. cbn. by intros ->. Qed.
Lemma with_spines_same b : b_spines b = ∅ -> with_spines ∅ b = b.
Proof. destruct b. cbn. by intros ->. Qed.
Lemma with_ports_same b : b_ports b = ∅ -> with_ports ∅ b = b.
Proof. destruct b. cbn. by intros ->. Qed.
Lemma with_links_same b : b_links b = ∅ -> with_links ∅ b = b.
Proof. destruct b. cbn. by intros ->. Qed.
Lemma with_history_same b : b_history b = ∅ -> with_history ∅ b = b.
Proof. destruct b. cbn. by intros ->. Qed.
Lemma with_evidence_same b : b_evidence b = [] -> with_evidence [] b = b.
Proof. destruct b. cbn. by intros ->. Qed.

Lemma st_domains_nil : st_domains [] = st_base.
Proof. by apply with_domains_same. Qed.
Lemma st_leaves_nil : st_leaves [] = st_domains (domains f).
Proof. by apply with_leaves_same. Qed.
Lemma st_spines_nil : st_spines [] = st_leaves (leaves f).
Proof. by apply with_spines_same. Qed.
Lemma st_ports_nil : st_ports [] = st_spines (spines f).
Proof. by apply with_ports_same. Qed.
Lemma st_links_nil : st_links [] = st_ports (ports f).
Proof. by apply with_links_same. Qed.
Lemma st_history_nil : st_history [] = st_links (links f).
Proof. by apply with_history_same. Qed.
Lemma st_evidence_nil : st_evidence [] = st_history (history_links f).
Proof. by apply with_evidence_same. Qed.

Lemma rebuild_header :
  core_eq st_base
    (set_state (set_site (new_builder (fab_id f) (fab_name f) (fab_generation f) (fab_epoch f)
                            (fab_options f) lim) (fab_site f)).2 (fab_state f)).2.
Proof.
  destruct wf.
  assert (core_eq (MkBuilder (fab_id f) (fab_name f) "" FS_Operational (fab_generation f) (fab_epoch f)
     (fab_options f) lim ∅ ∅ ∅ ∅ ∅ ∅ [] empty_report false)
     (new_builder (fab_id f) (fab_name f) (fab_generation f) (fab_epoch f) (fab_options f) lim))
    as (r & -> & Hr).
  { unfold new_builder. cbv zeta. apply check_name_ok in fw_name as ->.
    rewrite (proj2 (Z.eqb_neq _ _) fw_min_spines). case_match; [by apply core_warn|done]. }
  unfold set_site, guarded. cbn [b_frozen with_report b_limits].
  assert (forall v, v = Acceptable -> first_guard
    [MkGuard (bool_decide (v = TooLong)) SC_Exhausted "fabric" "site name exceeds the configured length bound";
     MkGuard (bool_decide (v = NameInvalid)) SC_Invalid "fabric" "site name is not valid UTF-8"] = None)
    as Hg by by intros v ->.
  rewrite Hg.
  - exists r. by split.
  - case_decide; [done|]. destruct fw_site as [?|Hn]; [done|]. by apply check_name_ok.
Qed.

Lemma rebuild_domains b :
  core_eq st_base b ->
  exists b', add_all add_failure_domain b (domains f) = (success, b') /\ core_eq (st_domains (domains f)) b'.
Proof.
  rewrite <- st_domains_nil. apply (add_all_stages _ st_domains); [apply add_failure_domain_respects|].
  intros pre x post Hl. destruct wf, bounded.
  destruct (map_of_prefix dom_id _ _ _ _ fw_sorted_domains Hl) as [Hn _].
  destruct (fw_domains x) as [Hg Hname]; [rewrite Hl; set_solver|].
  destruct (name_guards lim _ Hname) as [N1 N2].
  replace (st_domains (pre ++ [x])) with (with_domains (<[dom_id x := x]> (b_domains (st_domains pre))) (st_domains pre))
    by (unfold st_domains; by rewrite map_of_snoc).
  apply guarded_accept; [done|]. cbv zeta. pass_guards; auto with slf.
  simpl. apply Z.leb_gt. eapply size_prefix_lt; [exact fw_sorted_domains|exact Hl|lia].
Qed.

Lemma rebuild_leaves b :
  core_eq (st_domains (domains f)) b ->
  exists b', add_all add_leaf b (leaves f) = (success, b') /\ core_eq (st_leaves (leaves f)) b'.
Proof.
  rewrite <- st_leaves_nil. apply (add_all_stages _ st_leaves); [apply add_leaf_respects|].
  intros pre x post Hl. destruct wf, bounded.
  destruct (map_of_prefix leaf_id _ _ _ _ fw_sorted_leaves Hl) as [Hn _].
  destruct (add_leaf_accept (st_leaves pre) x) as (b' & Hb & Hc).
  - split; simpl; [done|eapply size_prefix_lt; [exact fw_sorted_leaves|exact Hl|lia]|apply fw_leaves; rewrite Hl; set_solver|done].
  - exists success, b'. split; [done|]. split; [done|].
    rewrite <- Hc. unfold st_leaves. by rewrite map_of_snoc.
Qed.

Lemma rebuild_spines b :
  core_eq (st_leaves (leaves f)) b ->
  exists b', add_all add_spine b (spines f) = (success, b') /\ core_eq (st_spines (spines f)) b'.
Proof.
  rewrite <- st_spines_nil. apply (add_all_stages _ st_spines); [apply add_spine_respects|].
  intros pre x post Hl. destruct wf, bounded.
  destruct (map_of_prefix spine_id _ _ _ _ fw_sorted_spines Hl) as [Hn _].
  destruct (add_spine_accept (st_spines pre) x) as (b' & Hb & Hc).
  - split; simpl; [done|eapply size_prefix_lt; [exact fw_sorted_spines|exact Hl|lia]|apply fw_spines; rewrite Hl; set_solver|done].
  - exists success, b'. split; [done|]. split; [done|].
    rewrite <- Hc. unfold st_spines. by rewrite map_of_snoc.
Qed.

(** On a sorted vector the frozen lookup and the builder's map agree. *)
Lemma find_map_of {A} (key : A -> Z) l k : sorted_by key l -> find_sorted key k l = map_of key l !! k.
Proof. intros Hs. rewrite <- (find_values key _ k (map_of_keyed key l)). by rewrite values_map_of. Qed.

Lemma extends_spines_stage l : extends (MkLookup (find_leaf f) (find_spine f) (fun _ => None)) (b_lookup (st_ports l)).
Proof.
  destruct wf. split; simpl; [| |done]; intros k x; unfold find_leaf, find_spine;
    by rewrite find_map_of.
Qed.

Lemma node_known_stage l key : node_known (f_lookup f) key -> node_known (b_lookup (st_ports l)) key.
Proof. intros H. by apply (node_known_mono _ _ _ (extends_spines_stage l)). Qed.

Lemma rebuild_ports b :
  core_eq (st_spines (spines f)) b ->
  exists b', add_all add_port b (ports f) = (success, b') /\ core_eq (st_ports (ports f)) b'.
Proof.
  rewrite <- st_ports_nil. apply (add_all_stages _ st_ports); [apply add_port_respects|].
  intros pre x post Hl. pose proof wf as []. destruct bounded.
  destruct (map_of_prefix port_id _ _ _ _ fw_sorted_ports Hl) as [Hn _].
  replace (st_ports (pre ++ [x])) with (with_ports (<[port_id x := x]> (b_ports (st_ports pre))) (st_ports pre))
    by (unfold st_ports; by rewrite map_of_snoc).
  apply guarded_accept; [done|]. apply port_guards_pass; simpl; [eapply size_prefix_lt; [exact fw_sorted_ports|exact Hl|lia]|done|].
  destruct (fw_ports x); [rewrite Hl; set_solver|]. split; try done. by apply node_known_stage.
Qed.

Lemma extends_links_stage l : extends (f_lookup f) (b_lookup (st_links l)).
Proof.
  destruct wf. split; simpl; intros k x; unfold find_leaf, find_spine, find_port; by rewrite find_map_of.
Qed.

Lemma rebuild_links b :
  core_eq (st_ports (ports f)) b ->
  exists b', add_all add_link b (links f) = (success, b') /\ core_eq (st_links (links f)) b'.
Proof.
  rewrite <- st_links_nil. apply (add_all_stages _ st_links); [apply add_link_respects|].
  intros pre x post Hl. pose proof wf as []. destruct bounded.
  destruct (map_of_prefix link_id _ _ _ _ fw_sorted_links Hl) as [Hn _].
  replace (st_links (pre ++ [x])) with (with_links (<[link_id x := x]> (b_links (st_links pre))) (st_links pre))
    by (unfold st_links; by rewrite map_of_snoc).
  assert (x ∈ links f) as Hx by (rewrite Hl; set_solver).
  apply guarded_accept; [done|]. apply link_guards_pass; simpl; [eapply size_prefix_lt; [exact fw_sorted_links|exact Hl|lia]|done| |].
  - eapply link_wf_mono; [apply extends_links_stage|]. by apply fw_links.
  - intros k o Ho. destruct (equivalent_ports o x) eqn:E; [|done]. exfalso.
    pose proof (map_of_keyed _ _ _ _ Ho) as Hk. apply map_of_lookup in Ho as Hin.
    assert (o = x) as -> by (apply fw_cables; [rewrite Hl; set_solver|done|done]).
    rewrite Hk in Hn. congruence.
Qed.

Lemma rebuild_history b :
  core_eq (st_links (links f)) b ->
  exists b', add_all add_history_link b (history_links f) = (success, b')
    /\ core_eq (st_history (history_links f)) b'.
Proof.
  rewrite <- st_history_nil. apply (add_all_stages _ st_history); [apply add_history_link_respects|].
  intros pre x post Hl. pose proof wf as []. destruct bounded.
  destruct (map_of_prefix link_id _ _ _ _ fw_sorted_history Hl) as [Hn _].
  replace (st_history (pre ++ [x]))
    with (with_history (<[link_id x := x]> (b_history (st_history pre))) (st_history pre))
    by (unfold st_history; by rewrite map_of_snoc).
  assert (x ∈ history_links f) as Hx by (rewrite Hl; set_solver).
  destruct (fw_history x Hx) as [Hid Hgen].
  apply guarded_accept; [done|]. cbv zeta. pass_guards; auto with slf.
  - simpl. apply Z.leb_gt. eapply size_prefix_lt; [exact fw_sorted_history|exact Hl|lia].
  - simpl. rewrite not_Some_false by done. simpl. apply not_Some_false.
    destruct (map_of link_id (links f) !! link_id x) as [o|] eqn:E; [|done]. exfalso.
    pose proof (map_of_keyed _ _ _ _ E) as Hk. apply map_of_lookup in E. by apply (disjoint o x).
  - simpl. by apply Z.leb_gt.
Qed.

Lemma rebuild_evidence b :
  core_eq (st_history (history_links f)) b ->
  exists b', add_all add_evidence b (evidence f) = (success, b')
    /\ core_eq (st_evidence (evidence f)) b'.
Proof.
  rewrite <- st_evidence_nil. apply (add_all_stages _ st_evidence); [apply add_evidence_respects|].
  intros pre x post Hl. pose proof wf as []. destruct bounded.
  assert (x ∈ evidence f) as Hx by (rewrite Hl; set_solver).
  destruct (fw_evidence x Hx) as [Hgen Hobs Hseq (l & Hk & Hid)].
  change (st_evidence (pre ++ [x])) with (with_evidence (b_evidence (st_evidence pre) ++ [x]) (st_evidence pre)).
  apply guarded_accept; [done|]. cbv zeta. pass_guards; auto with slf.
  - simpl. apply Z.leb_gt. rewrite Hl, Zlen_app, Zlen_cons in fb_evidence0.
    pose proof (Zlen_nonneg post). lia.
  - simpl. apply andb_false_iff. rewrite !negb_false_iff, !bool_decide_eq_true.
    destruct Hk as [Hk|Hk]; [left|right]; exists l; rewrite <- Hid;
      apply map_of_elem; try done; by apply sorted_by_NoDup.
Qed.
(** The digests are computed from the records alone. *)
Lemma stored_digests_irrelevant (g : Fabric) :
  compute_digests (MkFabric (fab_id g) (fab_name g) (fab_site g) (fab_generation g) (fab_epoch g)
    (fab_state g) (fab_options g) (domains g) (leaves g) (spines g) (ports g) (links g)
    (history_links g) (evidence g) zero_digest zero_digest) = compute_digests g.
Proof. destruct g. reflexivity. Qed.

(** The frozen result of the last stage is the fabric. *)
Lemma rebuild_freeze b :
  (forall r s, r ∈ evidence f -> s ∈ evidence f -> ev_tied r s -> r = s) ->
  core_eq (st_evidence (evidence f)) b -> (freeze b).1 = Value f.
Proof.
  intros Hties (r & -> & Hr). pose proof wf as [].
  rewrite freeze_sound; [|done|done| |].
  - f_equal.
    assert (sort_evidence (evidence f) = evidence f) as He by by apply sort_evidence_unique.
    unfold assemble. cbn [b_id b_name b_site b_state b_generation b_epoch b_options b_domains b_leaves
      b_spines b_ports b_links b_history b_evidence st_evidence st_history st_links st_ports st_spines
      st_leaves st_domains st_base with_evidence with_history with_links with_ports with_spines
      with_leaves with_domains with_report].
    rewrite !values_map_of, He by assumption. rewrite stored_digests_irrelevant, <- fw_digests.
    unfold with_digests. cbn. destruct f. reflexivity.
  - simpl. intros k l Hl. apply map_of_lookup in Hl. unfold link_unsound. apply orb_false_iff. split.
    + destruct (fw_speed l Hl) as (s & Hs & Hs0). unfold link_speed_unusable.
      assert (builder_link_speed (with_report r (st_evidence (evidence f))) l = Some s) as ->.
      { rewrite <- Hs. unfold builder_link_speed, effective_link_speed, find_port. simpl.
        by rewrite !find_map_of. }
      by apply Z.eqb_neq.
    + destruct (decide (link_cls l = LC_LeafSpine)) as [E|E];
        [rewrite (bool_decide_true _ E)|by rewrite (bool_decide_false _ E)].
      destruct (fw_leaf_endpoint l Hl E) as [T|T]; rewrite (bool_decide_true _ T); simpl;
        [done|by rewrite orb_true_r].
  - simpl. intros e He. by destruct (fw_evidence e He).
Qed.

Hypothesis fits : fabric_fits f.

Lemma bool_u8_back b : negb (bool_u8 b =? 0) = b.
Proof. by destruct b. Qed.

Lemma bool_u8_ok b : u8_ok (bool_u8 b).
Proof. destruct b; unfold Prelude.fits; simpl; lia. Qed.

#[local] Hint Resolve bool_u8_ok FabricState_u8_ok EvidencePolicy_u8_ok ff_id ff_generation ff_epoch ff_min : slf.

Lemma decodes_topology :
  exists b, decodes (max_name_bytes lim) (decode_topology lim) (encs (topology_ops f)) b
    /\ core_eq (st_history (history_links f)) b.
Proof.
  pose proof wf as []. pose proof bounded as []. pose proof fits as [].
  destruct (rebuild_domains _ rebuild_header) as (b1 & A1 & C1).
  destruct (rebuild_leaves b1 C1) as (b2 & A2 & C2). destruct (rebuild_spines b2 C2) as (b3 & A3 & C3).
  destruct (rebuild_ports b3 C3) as (b4 & A4 & C4). destruct (rebuild_links b4 C4) as (b5 & A5 & C5).
  destruct (rebuild_history b5 C5) as (b6 & A6 & C6). exists b6. split; [|done].
  unfold decode_topology, topology_ops, header_ops. rewrite !encs_app, encs_cons, <- (assoc_L (++)).
  eapply decodes_bind; [apply decodes_string; unfold strlen; simpl; vm_compute Zlen; done || lia|]. cbv beta.
  assert (decodes (max_name_bytes lim) read_string (enc (WString (fab_name f))) (fab_name f)) as Hn
    by (apply decodes_name; done || lia).
  assert (decodes (max_name_bytes lim) read_string (enc (WString (fab_site f))) (fab_site f)) as Hs
    by (apply name_ok_string; done || lia).
  eapply decodes_bind; [decode_fields|]. cbv beta iota.
  rewrite EvidencePolicy_of_to_u8, FabricState_of_to_u8, !bool_u8_back.
  eapply decodes_bind_nil; [apply decodes_lift|]. eapply decodes_bind_nil; [apply decodes_lift|]. cbv zeta.
  assert (MkOptions (allow_same_tier_adjacency (fab_options f)) (require_domain_diversity (fab_options f))
    (min_eligible_spines (fab_options f)) (evidence_policy (fab_options f)) = fab_options f) as ->
    by by destruct (fab_options f).
  eapply decodes_bind; [eapply decodes_counted; [|done|exact A1]; eauto using decodes_domain|].
  eapply decodes_bind; [eapply decodes_counted; [|done|exact A2]; eauto using decodes_leaf|].
  eapply decodes_bind; [eapply decodes_counted; [|done|exact A3]; eauto using decodes_spine|].
  eapply decodes_bind; [eapply decodes_counted; [|done|exact A4]; eauto using decodes_port|].
  eapply decodes_bind; [eapply decodes_counted; [|done|exact A5]; eauto using decodes_link|].
  eapply decodes_counted; [|done|exact A6]; eauto using decodes_link.
Qed.

Lemma decodes_evidence_block b :
  core_eq (st_history (history_links f)) b ->
  exists b', decodes (max_name_bytes lim) (decode_evidence lim b) (encs (evidence_block_ops f)) b'
    /\ core_eq (st_evidence (evidence f)) b'.
Proof.
  intros C. pose proof bounded as []. pose proof fits as [].
  destruct (rebuild_evidence b C) as (b' & A & C'). exists b'. split; [|done].
  unfold decode_evidence, evidence_block_ops, counted.
  rewrite encs_app, encs_cons, encs_cons. change (encs []) with (@nil byte). rewrite app_nil_r.
  assert (decodes (max_name_bytes lim) read_string (enc (WString "slf.evidence.v1")) "slf.evidence.v1") as Ht
    by (apply decodes_string; unfold strlen; simpl; vm_compute Zlen; done || lia).
  assert (u32_ok (Zlen (evidence f))) by (apply Zlen_u32; lia).
  rewrite encs_cons, encs_concat, !(assoc_L (++)).
  eapply decodes_bind.
  - apply decodes_fields. rewrite <- !(assoc_L (++)).
    eapply decodes_bind; [exact Ht|]. eapply decodes_bind; [auto with slf|].
    eapply decodes_to_nil; [auto with slf|]. apply decodes_ret.
  - cbv beta iota. eapply decodes_bind_nil.
    + apply decodes_ensure. destruct (Z.gtb_spec (Zlen (evidence f)) (max_evidence_records lim)); [lia|done].
    + unfold Zlen. rewrite Nat2Z.id.
      apply (decodes_read_add _ _ _ (fun x => encs (evidence_ops x))); [|done].
      intros a Ha. apply decodes_evidence. by apply ff_evidence0.
Qed.
End Rebuild.

(** ** The writers lose nothing *)

Lemma topology_ops_ok lim f :
  fabric_wf lim f -> max_name_bytes lim <= u32_max -> Forall op_ok (topology_ops f).
Proof.
  intros [] Hm.
  assert (forall n, n = "" \/ name_ok lim n -> strlen n <= u32_max /\ is_valid_utf8 n = true) as Hname.
  { intros n [->|(_ & Hu & Hl)]; [by split|]. split; [lia|done]. }
  assert (forall {A} (ops : A -> list WriteOp) l,
    (forall x, x ∈ l -> Forall op_ok (ops x)) -> Forall op_ok (counted ops l)) as Hc.
  { intros A ops l H. apply Forall_cons. split; [done|]. apply Forall_forall. intros op Hop.
    apply elem_of_concat in Hop as (k & (x & -> & Hx)%list_elem_of_fmap & Hk).
    specialize (H x Hx). rewrite Forall_forall in H. by apply H. }
  unfold topology_ops. rewrite !Forall_app. repeat split; try apply Hc.
  - unfold header_ops. repeat (apply Forall_cons; split); try done; apply Hname; auto.
  - intros d Hd. destruct (fw_domains d Hd). repeat (apply Forall_cons; split); try done. apply Hname. auto.
  - intros d Hd. destruct (fw_leaves d Hd). repeat (apply Forall_cons; split); try done. apply Hname. auto.
  - intros d Hd. destruct (fw_spines d Hd). repeat (apply Forall_cons; split); try done. apply Hname. auto.
  - intros d Hd. repeat (apply Forall_cons; split); done.
  - intros d Hd. repeat (apply Forall_cons; split); done.
  - intros d Hd. repeat (apply Forall_cons; split); done.
Qed.

Lemma evidence_ops_ok f : Forall op_ok (evidence_block_ops f).
Proof.
  unfold evidence_block_ops, counted. apply Forall_app. split; [by repeat (apply Forall_cons; split)|].
  apply Forall_cons. split; [done|]. apply Forall_forall. intros op Hop.
  apply elem_of_concat in Hop as (k & (x & -> & Hx)%list_elem_of_fmap & Hk).
  unfold evidence_ops in Hk.
  repeat (apply elem_of_cons in Hk as [->|Hk]; [done|]). by apply elem_of_nil in Hk.
Qed.

Lemma canonical_bytes_encs lim f :
  fabric_wf lim f -> fabric_bounded lim f ->
  canonical_topology_bytes f = encs (topology_ops f)
  /\ canonical_evidence_bytes f = encs (evidence_block_ops f).
Proof.
  intros Hwf []. pose proof (Zlen_nonneg (encs (topology_ops f))).
  pose proof (Zlen_nonneg (encs (evidence_block_ops f))).
  split; apply writes_fit_new; try lia; [|apply evidence_ops_ok].
  eapply topology_ops_ok; [done|lia].
Qed.

Lemma Zlen_le_store n sh v : Zlen (le_store n sh v) = Z.of_nat n.
Proof. unfold Zlen. by rewrite le_store_length. Qed.

Lemma serialize_roundtrip lim f :
  fabric_wf lim f -> fabric_bounded lim f -> fabric_fits f ->
  (forall l h, l ∈ links f -> h ∈ history_links f -> link_id l <> link_id h) ->
  (forall r s, r ∈ evidence f -> s ∈ evidence f -> ev_tied r s -> r = s) ->
  deserialize_fabric (serialize_fabric f) lim = Value f.
Proof.
  intros Hwf Hb Hf Hd Ht. destruct (canonical_bytes_encs lim f Hwf Hb) as [E1 E2]. pose proof Hb as [].
  unfold serialize_fabric. rewrite E1, E2.
  set (T := encs (topology_ops f)) in *. set (V := encs (evidence_block_ops f)) in *.
  pose proof (Zlen_nonneg T). pose proof (Zlen_nonneg V).
  assert (kDefaultMaxBytes = 67108864) as K by done.
  assert (Zlen T <= u32_max /\ Zlen V <= u32_max) as [LT LV] by (unfold u32_max; lia).
  rewrite writes_fit_new; [|by repeat (apply Forall_cons; split)|].
  2:{ rewrite !encs_cons. cbn [enc]. rewrite !Zlen_app, !Zlen_le_store. change (Zlen (encs [])) with 0. lia. }
  unfold deserialize_fabric.
  assert (decodes kDefaultMaxString decode_envelope
    (encs [WU32 kPersistenceFormatVersion; WBlock T; WBlock V]) (T, V)) as Henv.
  { unfold decode_envelope. rewrite !encs_cons. change (encs []) with (@nil byte).
    eapply decodes_bind; [by apply decodes_u32|]. eapply decodes_bind_nil; [by apply decodes_ensure|].
    eapply decodes_bind; [apply decodes_block; unfold kMaxBlockBytes; lia|].
    eapply decodes_bind; [apply decodes_block; unfold kMaxBlockBytes; lia|]. apply decodes_ret. }
  rewrite (decodes_run _ _ _ _ Henv). cbn [exhausted remaining br_rest negb].
  change (Zlen (@nil byte) =? 0) with true. cbn [negb].
  destruct (decodes_topology lim f Hwf Hb Hd Hf) as (b & Db & Cb). fold T in Db. rewrite (decodes_run _ _ _ _ Db).
  destruct (decodes_evidence_block lim f Hwf Hb Hd Hf b Cb) as (b' & Db' & Cb').
  fold V in Db'. rewrite (decodes_run _ _ _ _ Db'). unfold expect_end, exhausted, remaining. cbn [br_rest].
  change (Zlen (@nil byte) =? 0) with true. cbn [negb]. change (negb (status_ok success)) with false. cbv iota.
  by apply (rebuild_freeze lim f Hwf).
Qed.


(** The sample is well formed, in range and within the default bounds. *)
Lemma sample_wf : fabric_wf default_limits Sample.observed.
Proof.
  eapply (freeze_wf (run_ops Sample.start Sample.ops) _ (freeze (run_ops Sample.start Sample.ops)).2).
  - apply run_ops_wf, new_builder_wf.
  - eapply report_wf_grows; [apply grows_run_ops|apply new_builder_report_wf].
  - vm_compute. reflexivity.
  - vm_compute. reflexivity.
Qed.

Ltac each_elem :=
  intros ? ?; repeat match goal with
  | H : _ ∈ _ :: _ |- _ => apply elem_of_cons in H as [->|H]
  | H : _ ∈ [] |- _ => by apply elem_of_nil in H
  end.

Lemma sample_fits : fabric_fits Sample.observed.
Proof.
  unfold Sample.observed.
  split; cbn [fab_id fab_generation fab_epoch fab_options min_eligible_spines domains leaves spines ports
    links history_links evidence];
    try each_elem; repeat split; simpl; unfold fits; try lia; try (by left); by right.
Qed.

Lemma sample_bounded : fabric_bounded default_limits Sample.observed.
Proof. split; vm_compute; split || idtac; discriminate. Qed.

