(* ===== verification/Topology.v ===== *)
(** * The topology index (include/slf/topology.hpp, src/topology.cpp)

    [TopologyIndex] stores the enabled adjacencies of a frozen fabric in three
    compressed arrays (offsets plus one flat edge vector): all of them, the
    leaf-spine ones and the same-tier ones. Queries return slices of the arrays. *)
From S2P Require Import Prelude Status Checked Identity Digest Model.

(** ** Data *)

Inductive ReachabilityClass :=
| RC_SameNode | RC_DirectLeafSpine | RC_DirectPeer | RC_LeafSpineViaPeer | RC_LeafLeafSingleSpine
| RC_LeafLeafMultiSpine | RC_SpineSpineViaLeaf | RC_Unreachable | RC_Indeterminate.

#[export] Instance ReachabilityClass_eq_dec : EqDecision ReachabilityClass.
Proof. solve_decision. Defined.

Definition ReachabilityClass_to_string (c : ReachabilityClass) : string :=
  match c with
  | RC_SameNode => "same_node"
  | RC_DirectLeafSpine => "direct_leaf_spine"
  | RC_DirectPeer => "direct_peer"
  | RC_LeafSpineViaPeer => "leaf_spine_via_peer"
  | RC_LeafLeafSingleSpine => "leaf_leaf_single_spine"
  | RC_LeafLeafMultiSpine => "leaf_leaf_multi_spine"
  | RC_SpineSpineViaLeaf => "spine_spine_via_leaf"
  | RC_Unreachable => "unreachable"
  | RC_Indeterminate => "indeterminate"
  end.

Record Adjacency := MkAdj {
  adj_link : LinkId;
  adj_self : NodeKey;
  adj_peer : NodeKey;
  adj_local_port : PortId;
  adj_peer_port : PortId;
  adj_cls : LinkClass;
  adj_admin : LinkAdmin;
  adj_speed : Z;
  adj_generation : TopologyGeneration
}.

#[export] Instance Adjacency_eq_dec : EqDecision Adjacency.
Proof. solve_decision. Defined.

(** [Adjacency{}], the filler of a destination array. *)
Definition default_adjacency : Adjacency :=
  MkAdj 0 (MkNode T_Leaf 0) (MkNode T_Leaf 0) 0 0 LC_LeafSpine LA_Enabled 0 0.

Definition forward_of (l : LinkRecord) (speed : Z) : Adjacency :=
  MkAdj (link_id l) (link_a l) (link_b l) (link_port_a l) (link_port_b l) (link_cls l) (link_admin l)
    speed (link_generation l).
Definition backward_of (l : LinkRecord) (speed : Z) : Adjacency :=
  MkAdj (link_id l) (link_b l) (link_a l) (link_port_b l) (link_port_a l) (link_cls l) (link_admin l)
    speed (link_generation l).

Definition adjacency_less (a b : Adjacency) : bool :=
  if negb (bool_decide (adj_peer a = adj_peer b)) then node_lt (adj_peer a) (adj_peer b)
  else adj_link a <? adj_link b.

Definition adj_order (a b : Adjacency) : Prop := adjacency_less b a = false.

#[export] Instance adj_order_dec a b : Decision (adj_order a b).
Proof. unfold adj_order. apply _. Defined.

Definition sort_adjacencies (l : list Adjacency) : list Adjacency := merge_sort adj_order l.

(** One compressed array: [csr_offsets] has one entry more than there are nodes. *)
Record Csr := MkCsr { csr_offsets : list Z; csr_edges : list Adjacency }.

Record TopologyIndex := MkIndex {
  ix_fabric : Fabric;
  ix_keys : list NodeKey;
  ix_all : Csr;
  ix_leaf_spine : Csr;
  ix_peer : Csr;
  ix_node_count : Z;
  ix_leaf_count : Z;
  ix_spine_count : Z
}.

(** ** Construction *)

(** [std::lower_bound] over the sorted keys, then the equality test. *)
Fixpoint slot_from (i : nat) (keys : list NodeKey) (key : NodeKey) : option nat :=
  match keys with
  | [] => None
  | k :: r => if node_lt k key then slot_from (S i) r key
              else if bool_decide (k = key) then Some i else None
  end.

Definition node_slot (keys : list NodeKey) (key : NodeKey) : option nat := slot_from 0 keys key.

Definition node_keys (f : Fabric) : list NodeKey :=
  (node_of_leaf ∘ leaf_id <$> leaves f) ++ (node_of_spine ∘ spine_id <$> spines f).

(** The loop over the links: disabled links are skipped, the others contribute a
    directed edge each way to [edges] and to the array of their class. *)
Fixpoint collect_edges (f : Fabric) (ls : list LinkRecord) (edges leaf_spine peer : list Adjacency)
    : Outcome (list Adjacency * list Adjacency * list Adjacency) :=
  match ls with
  | [] => Value (edges, leaf_spine, peer)
  | l :: ls =>
      if negb (bool_decide (link_admin l = LA_Enabled)) then collect_edges f ls edges leaf_spine peer
      else match effective_link_speed f l with
      | None => fail SC_Invalid ("link " +:+ LinkId_to_string (link_id l) +:+ " has no resolvable speed")
      | Some speed =>
          let two := [forward_of l speed; backward_of l speed] in
          if bool_decide (link_cls l = LC_LeafSpine)
          then collect_edges f ls (edges ++ two) (leaf_spine ++ two) peer
          else collect_edges f ls (edges ++ two) leaf_spine (peer ++ two)
      end
  end.

(** [build_csr]: count per slot, prefix sums, then scatter in source order. *)
Fixpoint count_slots (keys : list NodeKey) (source : list Adjacency) (counts : list Z)
    : Outcome (list Z) :=
  match source with
  | [] => Value counts
  | e :: r =>
      match node_slot keys (adj_self e) with
      | None => fail SC_DanglingEdge "adjacency references an unknown node"
      | Some s =>
          let c := counts !!! s in
          if c =? u32_max then fail SC_Overflow "adjacency count overflow"
          else count_slots keys r (<[s := c + 1]> counts)
      end
  end.

Fixpoint offsets_from (acc : Z) (counts : list Z) : list Z :=
  match counts with
  | [] => [acc]
  | c :: r => acc :: offsets_from (wrap 32 (acc + c)) r
  end.

Fixpoint scatter (keys : list NodeKey) (source : list Adjacency) (cursor : list Z)
    (destination : list Adjacency) : Outcome (list Adjacency) :=
  match source with
  | [] => Value destination
  | e :: r =>
      match node_slot keys (adj_self e) with
      | None => fail SC_DanglingEdge "adjacency references an unknown node"
      | Some s =>
          let c := cursor !!! s in
          scatter keys r (<[s := wrap 32 (c + 1)]> cursor) (<[Z.to_nat c := e]> destination)
      end
  end.

Definition build_csr (keys : list NodeKey) (source : list Adjacency) : Outcome Csr :=
  let n := List.length keys in
  counts ← count_slots keys source (replicate (n + 1) 0);
  let offsets := offsets_from 0 (take n counts) in
  destination ← scatter keys source (take n offsets) (replicate (List.length source) default_adjacency);
  Value (MkCsr offsets destination).

Definition build_index (f : Fabric) : Outcome TopologyIndex :=
  if digest_is_zero (topology_digest f)
  then fail SC_Invalid "cannot index a fabric that has not been frozen"
  else
    let leaf_count := wrap 32 (Zlen (leaves f)) in
    let spine_count := wrap 32 (Zlen (spines f)) in
    match checked_add leaf_count spine_count with
    | None => fail SC_Overflow "node count overflow"
    | Some total =>
        if total >? u32_max then fail SC_Overflow "node count overflow"
        else
          let keys := node_keys f in
          '(edges, leaf_spine, peer) ← collect_edges f (links f) [] [] [];
          all ← build_csr keys (sort_adjacencies edges);
          ls ← build_csr keys (sort_adjacencies leaf_spine);
          ps ← build_csr keys (sort_adjacencies peer);
          Value (MkIndex f keys all ls ps total leaf_count spine_count)
    end.

(** ** Queries *)

(** The slice of a compressed array that belongs to a node. *)
Definition csr_slice (c : Csr) (keys : list NodeKey) (key : NodeKey) : list Adjacency :=
  match node_slot keys key with
  | None => []
  | Some s =>
      if bool_decide (csr_offsets c = []) then []
      else
        let b := csr_offsets c !!! s in
        let e := csr_offsets c !!! S s in
        take (Z.to_nat (wrap 32 (e - b))) (drop (Z.to_nat b) (csr_edges c))
  end.

Definition adjacencies (ix : TopologyIndex) (key : NodeKey) : list Adjacency :=
  csr_slice (ix_all ix) (ix_keys ix) key.
Definition uplinks (ix : TopologyIndex) (id : LeafId) : list Adjacency :=
  csr_slice (ix_leaf_spine ix) (ix_keys ix) (node_of_leaf id).
Definition peer_links (ix : TopologyIndex) (key : NodeKey) : list Adjacency :=
  csr_slice (ix_peer ix) (ix_keys ix) key.
Definition downlinks (ix : TopologyIndex) (id : SpineId) : list Adjacency :=
  csr_slice (ix_leaf_spine ix) (ix_keys ix) (node_of_spine id).

Definition adjacency_between (ix : TopologyIndex) (a b : NodeKey) : option Adjacency :=
  List.find (fun e => bool_decide (adj_peer e = b)) (adjacencies ix a).

Definition adjacent (ix : TopologyIndex) (a b : NodeKey) : bool :=
  match adjacency_between ix a b with Some _ => true | None => false end.

Definition degree (ix : TopologyIndex) (key : NodeKey) : Z := wrap 32 (Zlen (adjacencies ix key)).
Definition node_count (ix : TopologyIndex) : Z := ix_node_count ix.
Definition edge_count (ix : TopologyIndex) : Z := Zlen (csr_edges (ix_all ix)).
Definition nodes (ix : TopologyIndex) : list NodeKey := ix_keys ix.

(** [std::sort] on identifiers followed by [erase(unique)]. *)
Fixpoint unique (l : list Z) : list Z :=
  match l with
  | [] => []
  | x :: r => match r with
              | y :: _ => if x =? y then unique r else x :: unique r
              | [] => [x]
              end
  end.

Definition common_spines (ix : TopologyIndex) (a b : LeafId) : list SpineId :=
  if a =? b then []
  else
    let first := uplinks ix a in
    let second := uplinks ix b in
    if bool_decide (first = []) || bool_decide (second = []) then []
    else
      let '(probe, other) := if Zlen first <=? Zlen second then (first, second) else (second, first) in
      let out := (fun e => index (adj_peer e))
                 <$> filter (fun e => tier (adj_peer e) = T_Spine
                                      /\ existsb (fun c => bool_decide (adj_peer c = adj_peer e)) other = true)
                       probe in
      unique (merge_sort Z.le out).

Definition any_adjacent (ix : TopologyIndex) (es : list Adjacency) (b : NodeKey) : bool :=
  existsb (fun e => adjacent ix (adj_peer e) b) es.

Definition structural_class (ix : TopologyIndex) (a b : NodeKey) : ReachabilityClass :=
  if bool_decide (a = b) then RC_SameNode
  else match adjacency_between ix a b with
  | Some e => if bool_decide (adj_cls e = LC_LeafSpine) then RC_DirectLeafSpine else RC_DirectPeer
  | None =>
      if bool_decide (tier a = T_Leaf) && bool_decide (tier b = T_Leaf) then
        let spines := common_spines ix (index a) (index b) in
        if 2 <=? Zlen spines then RC_LeafLeafMultiSpine
        else if Zlen spines =? 1 then RC_LeafLeafSingleSpine
        else if any_adjacent ix (peer_links ix a) b then RC_LeafSpineViaPeer
        else if any_adjacent ix (peer_links ix b) a then RC_LeafSpineViaPeer
        else RC_Unreachable
      else if bool_decide (tier a = T_Spine) && bool_decide (tier b = T_Spine) then
        if any_adjacent ix (downlinks ix (index a)) b then RC_SpineSpineViaLeaf else RC_Unreachable
      else
        let leaf := if decide (tier a = T_Leaf) then a else b in
        let spine := if decide (tier a = T_Leaf) then b else a in
        if any_adjacent ix (peer_links ix leaf) spine then RC_LeafSpineViaPeer else RC_Unreachable
  end.

(** *** Bounded path enumeration

    [walk] recurses on the hops left. [current] and [visited] are restored on
    return in the source; here they are passed by value. *)
Definition encode_node (key : NodeKey) : Z :=
  Z.lor (Z.shiftl (if decide (tier key = T_Leaf) then 0 else 1) 32) (index key).

(** The loop over a node's edges: skip visited peers, stop once enough paths are known. *)
Fixpoint each_edge (max_paths : Z) (visited : gset Z)
    (visit : NodeKey -> list (list NodeKey) -> list (list NodeKey))
    (es : list Adjacency) (paths : list (list NodeKey)) : list (list NodeKey) :=
  match es with
  | [] => paths
  | e :: es =>
      if bool_decide (encode_node (adj_peer e) ∈ visited) then each_edge max_paths visited visit es paths
      else
        let paths := visit (adj_peer e) paths in
        if max_paths <=? Zlen paths then paths else each_edge max_paths visited visit es paths
  end.

Fixpoint walk (ix : TopologyIndex) (b : NodeKey) (max_paths : Z) (hops : nat) (node : NodeKey)
    (current : list NodeKey) (visited : gset Z) (paths : list (list NodeKey)) : list (list NodeKey) :=
  if max_paths <=? Zlen paths then paths
  else
    let current := current ++ [node] in
    let visited := {[encode_node node]} ∪ visited in
    if bool_decide (node = b) && (1 <? Zlen current) then paths ++ [current]
    else match hops with
    | O => paths
    | S hops' =>
        each_edge max_paths visited
          (fun peer paths => walk ix b max_paths hops' peer current visited paths)
          (adjacencies ix node) paths
    end.

Definition enumerate_paths (ix : TopologyIndex) (a b : NodeKey) (max_hops max_paths : Z)
    : list (list NodeKey) :=
  if (max_hops =? 0) || (max_paths =? 0) then []
  else walk ix b max_paths (Z.to_nat max_hops) a [] ∅ [].

Definition all_edges_resolve (ix : TopologyIndex) : bool :=
  forallb (fun e =>
      match node_slot (ix_keys ix) (adj_self e), node_slot (ix_keys ix) (adj_peer e) with
      | Some _, Some _ => match find_link (ix_fabric ix) (adj_link e) with Some _ => true | None => false end
      | _, _ => false
      end) (csr_edges (ix_all ix)).
