(* ===== verification/TopologySpec.v ===== *)
(** * What the topology index answers (src/topology.cpp)

    The compressed arrays are equivalent to filtering the sorted edge list by
    node, the index of a well-formed fabric always builds, and the queries over
    it are characterised by the enabled links of the fabric. *)
From S2P Require Import Prelude Status Checked Identity Digest Model Builder BuilderSpec Sample Freeze CodecSpec Topology.

(** ** Node keys and slots *)

Definition node_before (a b : NodeKey) : Prop := node_lt a b = true.

Lemma node_lt_irrefl a : node_lt a a = false.
Proof. unfold node_lt. rewrite bool_decide_true by done. apply Z.ltb_irrefl. Qed.

Lemma slot_from_Some i keys key s :
  slot_from i keys key = Some s -> exists j, s = (i + j)%nat /\ keys !! j = Some key.
Proof.
  revert i. induction keys as [|k r IH]; intros i; simpl; [done|].
  destruct (node_lt k key).
  - intros (j & -> & Hj)%IH. exists (S j). split; [lia|done].
  - case_bool_decide; [|done]. intros [= <-]. exists 0%nat. split; [lia|by subst].
Qed.

Lemma node_slot_Some keys key s : node_slot keys key = Some s -> keys !! s = Some key.
Proof. intros (j & -> & Hj)%slot_from_Some. done. Qed.

Lemma slot_from_complete i keys key j :
  StronglySorted node_before keys -> keys !! j = Some key -> slot_from i keys key = Some (i + j)%nat.
Proof.
  intros Hs. revert i j. induction Hs as [|k r Hs IH Hk]; intros i j; [done|].
  destruct j as [|j]; simpl.
  - intros [= ->]. rewrite node_lt_irrefl, bool_decide_true by done. f_equal. lia.
  - intros Hj. rewrite Forall_forall in Hk. rewrite (Hk key) by by eapply list_elem_of_lookup_2.
    rewrite (IH (S i) j Hj). f_equal. lia.
Qed.

Lemma node_slot_elem keys key :
  StronglySorted node_before keys -> key ∈ keys -> exists s, node_slot keys key = Some s /\ (s < List.length keys)%nat.
Proof.
  intros Hs [j Hj]%list_elem_of_lookup_1. exists j. split; [by apply (slot_from_complete 0)|].
  by eapply lookup_lt_Some.
Qed.

Lemma sorted_map_keys {A} (key : A -> Z) (g : A -> NodeKey) l :
  (forall x y, key x < key y -> node_before (g x) (g y)) ->
  sorted_by key l -> StronglySorted node_before (g <$> l).
Proof.
  intros Hg. induction l as [|x l IH]; intros Hs; [constructor|]. rewrite fmap_cons.
  apply sorted_by_cons in Hs as [Hs Hx]. constructor; [by apply IH|].
  apply Forall_forall. intros k (y & -> & Hy)%list_elem_of_fmap. by apply Hg, Hx.
Qed.

Lemma StronglySorted_app_2 (l k : list NodeKey) :
  StronglySorted node_before l -> StronglySorted node_before k ->
  (forall x y, x ∈ l -> y ∈ k -> node_before x y) -> StronglySorted node_before (l ++ k).
Proof.
  induction 1 as [|x l Hl IH Hx]; intros Hk H; [done|]. simpl. constructor.
  - apply IH; [done|]. intros a b Ha. apply H. by right.
  - apply Forall_app. split; [done|]. apply Forall_forall. intros y Hy. apply H; [left|done].
Qed.

(** The keys of a frozen fabric are sorted: leaves before spines, each by identity. *)
Lemma node_keys_sorted f :
  sorted_by leaf_id (leaves f) -> sorted_by spine_id (spines f) ->
  StronglySorted node_before (node_keys f).
Proof.
  intros Hl Hs. apply StronglySorted_app_2.
  - eapply sorted_map_keys; [|exact Hl]. intros x y H. unfold node_before, node_lt. simpl. by apply Z.ltb_lt.
  - eapply sorted_map_keys; [|exact Hs]. intros x y H. unfold node_before, node_lt. simpl. by apply Z.ltb_lt.
  - intros x y (? & -> & _)%list_elem_of_fmap (? & -> & _)%list_elem_of_fmap. done.
Qed.

(** ** Compressed arrays *)

Section Compressed.
Context (keys : list NodeKey) (source : list Adjacency).
Local Abbreviation n := (List.length keys).

Definition at_slot (s : nat) (l : list Adjacency) : list Adjacency :=
  filter (fun e => node_slot keys (adj_self e) = Some s) l.

(** Every edge starts at a known node. *)
Definition resolved (l : list Adjacency) : Prop :=
  forall e, e ∈ l -> exists s, node_slot keys (adj_self e) = Some s /\ (s < n)%nat.

Lemma at_slot_app s l k : at_slot s (l ++ k) = at_slot s l ++ at_slot s k.
Proof. apply filter_app. Qed.

Lemma at_slot_cons s e l :
  at_slot s (e :: l) = if decide (node_slot keys (adj_self e) = Some s) then e :: at_slot s l else at_slot s l.
Proof. unfold at_slot. by rewrite filter_cons. Qed.

Lemma lookup_total_insert_Z (l : list Z) i j x :
  (i < List.length l)%nat -> <[i := x]> l !!! j = if decide (i = j) then x else l !!! j.
Proof.
  intros Hi. case_decide as E.
  - subst. by apply list_lookup_total_insert_eq.
  - by apply list_lookup_total_insert_ne.
Qed.

Lemma count_slots_spec l counts :
  (n <= List.length counts)%nat -> resolved l ->
  (forall s, (s < n)%nat -> counts !!! s + Zlen (at_slot s l) <= u32_max) ->
  exists counts', count_slots keys l counts = Value counts'
    /\ List.length counts' = List.length counts
    /\ forall s, (s < n)%nat -> counts' !!! s = counts !!! s + Zlen (at_slot s l).
Proof.
  revert counts. induction l as [|e l IH]; intros counts Hn Hr Hb.
  - exists counts. split; [done|]. split; [done|]. intros s _. change (Zlen (at_slot s [])) with 0. lia.
  - destruct (Hr e) as (t & Ht & Htn); [left|]. cbn [count_slots]. rewrite Ht.
    assert (resolved l) as Hr' by (intros x Hx; apply Hr; by right).
    assert (forall s, Zlen (at_slot s (e :: l)) = Zlen (at_slot s l) + if decide (t = s) then 1 else 0) as Hz.
    { intros s. rewrite at_slot_cons, Ht. destruct (decide (t = s)) as [->|E].
      - rewrite decide_True by done. rewrite Zlen_cons. lia.
      - rewrite decide_False by congruence. lia. }
    pose proof (Hb t Htn) as Hbt. rewrite Hz, decide_True in Hbt by done.
    pose proof (Zlen_nonneg (at_slot t l)).
    destruct (Z.eqb_spec (counts !!! t) u32_max); [lia|].
    destruct (IH (<[t := counts !!! t + 1]> counts)) as (c' & E1 & E2 & E3).
    + by rewrite length_insert.
    + done.
    + intros s Hs. specialize (Hb s Hs). rewrite Hz in Hb. rewrite lookup_total_insert_Z by lia.
      destruct (decide (t = s)) as [->|]; lia.
    + exists c'. split; [done|]. split; [by rewrite E2, length_insert|]. intros s Hs.
      rewrite E3, Hz, lookup_total_insert_Z by (done || lia). destruct (decide (t = s)) as [->|]; lia.
Qed.

(** The number of edges at the slots before [s]. *)
Definition before_slot (s : nat) : nat := sum_list_with (fun j => List.length (at_slot j source)) (seq 0 s).

Lemma before_slot_S s : before_slot (S s) = (before_slot s + List.length (at_slot s source))%nat.
Proof. unfold before_slot. rewrite seq_S, sum_list_with_app. simpl. lia. Qed.

Lemma before_slot_mono s t : (s < t)%nat -> (before_slot s + List.length (at_slot s source) <= before_slot t)%nat.
Proof.
  intros H. rewrite <- before_slot_S. induction H as [|t H IH]; [done|]. rewrite (before_slot_S t). lia.
Qed.

Lemma before_slot_bound s : (before_slot s <= List.length source)%nat.
Proof.
  unfold before_slot. generalize (NoDup_seq 0 s). generalize (seq 0 s). intros js Hjs.
  induction source as [|e l IH]; simpl.
  - induction js; simpl; [done|]. inversion Hjs; subst. auto.
  - transitivity (sum_list_with (fun j => (if decide (node_slot keys (adj_self e) = Some j) then 1 else 0)
                                  + List.length (at_slot j l))%nat js).
    { clear. induction js as [|j js IH]; simpl; [done|]. rewrite at_slot_cons. case_decide; simpl; lia. }
    assert (forall f g, sum_list_with (fun j : nat => (f j + g j)%nat) js
            = (sum_list_with f js + sum_list_with g js)%nat) as Hs.
    { clear. intros f g. induction js as [|j js IH]; simpl; lia. }
    rewrite Hs.
    assert (sum_list_with (fun j : nat => if decide (node_slot keys (adj_self e) = Some j) then 1 else 0) js <= 1)%nat.
    { clear IH Hs. induction Hjs as [|j js Hj Hjs IH]; simpl; [lia|]. case_decide as E; [|done].
      assert (sum_list_with (fun j : nat => if decide (node_slot keys (adj_self e) = Some j) then 1 else 0) js = 0)%nat as ->; [|done].
      clear IH Hjs. induction js as [|i js IH]; simpl; [done|]. rewrite decide_False; [apply IH; set_solver|].
      intros E'. apply Hj. assert (i = j) as -> by congruence. left. }
    lia.
Qed.

Lemma offsets_from_length acc counts : List.length (offsets_from acc counts) = S (List.length counts).
Proof. revert acc. induction counts as [|c r IH]; intros acc; simpl; [done|]. by rewrite IH. Qed.

(** Prefix sums without wrap-around. *)
Lemma offsets_from_spec (cnt : nat -> nat) counts acc i0 i :
  (forall j, (j < List.length counts)%nat -> counts !!! j = Z.of_nat (cnt (i0 + j)%nat)) ->
  (i <= List.length counts)%nat ->
  (forall j, (j <= List.length counts)%nat -> 0 <= acc /\
     acc + Z.of_nat (sum_list_with cnt (seq i0 j)) < 2 ^ 32) ->
  offsets_from acc counts !!! i = acc + Z.of_nat (sum_list_with cnt (seq i0 i)).
Proof.
  revert acc i0 i. induction counts as [|c r IH]; intros acc i0 i Hc Hi Hb.
  - assert (i = 0%nat) as -> by (simpl in Hi; lia). simpl. lia.
  - destruct i as [|i]; [simpl; lia|]. cbn [offsets_from].
    change ((acc :: offsets_from (wrap 32 (acc + c)) r) !!! S i) with (offsets_from (wrap 32 (acc + c)) r !!! i).
    assert (c = Z.of_nat (cnt i0)) as ->.
    { specialize (Hc 0%nat). simpl in Hc. rewrite Nat.add_0_r in Hc. apply Hc. lia. }
    rewrite wrap_small.
    2:{ specialize (Hb 1%nat). simpl in Hb. unfold fits. lia. }
    rewrite (IH _ (S i0) i); [simpl; lia| |simpl in Hi; lia|].
    + intros j Hj. specialize (Hc (S j)). simpl in Hc. rewrite Hc by lia. f_equal. f_equal. lia.
    + intros j Hj. specialize (Hb (S j)). simpl in Hb. lia.
Qed.

(** The scatter loop fills each node's slice in source order. *)
Definition filled (p : list Adjacency) (destination : list Adjacency) : Prop :=
  forall s k x, (s < n)%nat -> at_slot s p !! k = Some x -> destination !! (before_slot s + k)%nat = Some x.

Lemma scatter_spec p r cursor destination :
  source = p ++ r -> resolved r -> Zlen source < 2 ^ 32 ->
  List.length destination = List.length source -> (n <= List.length cursor)%nat ->
  (forall s, (s < n)%nat -> cursor !!! s = Z.of_nat (before_slot s + List.length (at_slot s p))) ->
  filled p destination ->
  exists destination', scatter keys r cursor destination = Value destination' /\ filled source destination'
    /\ List.length destination' = List.length source.
Proof.
  intros Hsrc Hr Hlen. revert p cursor destination Hsrc.
  induction r as [|e r IH]; intros p cursor destination Hsrc Hd Hn Hc Hf.
  - exists destination. split; [done|]. split; [|done]. by rewrite app_nil_r in Hsrc; rewrite Hsrc at 1.
  - destruct (Hr e) as (t & Ht & Htn); [left|]. cbn [scatter]. rewrite Ht.
    assert (at_slot t source = at_slot t p ++ e :: at_slot t r) as Eat.
    { rewrite Hsrc, at_slot_app, at_slot_cons, decide_True by done. done. }
    pose proof (before_slot_S t) as HS. pose proof (before_slot_bound (S t)) as HB.
    rewrite Eat, length_app in HS. simpl in HS.
    rewrite (Hc t Htn), Nat2Z.id. set (pos := (before_slot t + List.length (at_slot t p))%nat) in *.
    apply (IH (fun x Hx => Hr x (list_elem_of_further x e r Hx)) (p ++ [e])).
    + by rewrite <- (assoc_L (++)).
    + by rewrite length_insert.
    + by rewrite length_insert.
    + intros s Hs. rewrite lookup_total_insert_Z by lia. rewrite at_slot_app, length_app, at_slot_cons, Ht.
      change (at_slot s []) with (@nil Adjacency). destruct (decide (t = s)) as [->|E].
      * rewrite decide_True by done. rewrite wrap_small by (unfold fits, Zlen in *; lia). simpl. lia.
      * rewrite decide_False by congruence. rewrite Hc by done. simpl. lia.
    + intros s k x Hs Hk. rewrite at_slot_app, at_slot_cons, Ht in Hk.
      change (at_slot s []) with (@nil Adjacency) in Hk.
      assert (pos < List.length destination)%nat as Hpos by lia.
      destruct (decide (t = s)) as [->|E].
      * rewrite decide_True in Hk by done. apply lookup_app_Some in Hk as [Hk|[Hk1 Hk2]].
        -- rewrite list_lookup_insert_ne; [by apply Hf|]. apply lookup_lt_Some in Hk. lia.
        -- assert (k = List.length (at_slot s p) /\ x = e) as [-> ->].
           { destruct (k - List.length (at_slot s p))%nat as [|m] eqn:Em; [|done]. simpl in Hk2.
             injection Hk2 as <-. split; [lia|done]. }
           by apply list_lookup_insert_eq.
      * rewrite decide_False, app_nil_r in Hk by congruence.
        rewrite list_lookup_insert_ne; [by apply Hf|].
        pose proof (lookup_lt_Some _ _ _ Hk) as Hlt.
        assert (List.length (at_slot s p) <= List.length (at_slot s source))%nat as Hle
          by (rewrite Hsrc, at_slot_app, length_app; lia).
        assert (s < t \/ t < s)%nat as [L|L] by lia.
        -- pose proof (before_slot_mono s t L). lia.
        -- pose proof (before_slot_mono t s L) as M. rewrite Eat, length_app in M. simpl in M. lia.
Qed.
End Compressed.

Lemma lookup_total_take {l : list Z} {k i : nat} : (i < k)%nat -> take k l !!! i = l !!! i.
Proof. intros H. rewrite !list_lookup_total_alt. by rewrite lookup_take_lt. Qed.

Lemma lookup_total_replicate_0 (k i : nat) : (i < k)%nat -> replicate k 0 !!! i = 0.
Proof. intros H. by apply lookup_total_replicate_2. Qed.

(** A compressed array is the edge list, sliced by node. *)
Lemma build_csr_spec keys source :
  resolved keys source -> Zlen source < 2 ^ 32 ->
  exists c, build_csr keys source = Value c
    /\ List.length (csr_edges c) = List.length source
    /\ forall key s, node_slot keys key = Some s -> (s < List.length keys)%nat ->
         csr_slice c keys key = at_slot keys s source.
Proof.
  intros Hr Hlen. unfold build_csr. cbv zeta. set (n := List.length keys).
  destruct (count_slots_spec keys source (replicate (n + 1) 0)) as (counts & -> & Hcl & Hcs).
  { rewrite length_replicate. unfold n. lia. }
  { done. }
  { intros s Hs. rewrite lookup_total_replicate_0 by (unfold n; lia).
    assert (Zlen (at_slot keys s source) <= Zlen source)
      by (unfold Zlen, at_slot; apply inj_le, length_filter). unfold u32_max. lia. }
  cbn [mbind Outcome_bind].
  assert (forall s, (s < n)%nat -> counts !!! s = Z.of_nat (List.length (at_slot keys s source))) as Hc.
  { intros s Hs. rewrite Hcs by done. rewrite lookup_total_replicate_0 by lia. unfold Zlen. lia. }
  rewrite length_replicate in Hcl.
  assert (List.length (take n counts) = n) as Htn by (rewrite length_take; lia).
  assert (forall i, (i <= n)%nat ->
    offsets_from 0 (take n counts) !!! i = Z.of_nat (before_slot keys source i)) as Ho.
  { intros i Hi.
    rewrite (offsets_from_spec (fun j => List.length (at_slot keys j source)) (take n counts) 0 0 i).
    - done.
    - intros j Hj. rewrite Htn in Hj. rewrite lookup_total_take by done. by apply Hc.
    - by rewrite Htn.
    - intros j _. split; [lia|]. pose proof (before_slot_bound keys source j) as H.
      unfold before_slot in H. unfold Zlen in Hlen. lia. }
  destruct (scatter_spec keys source [] source (take n (offsets_from 0 (take n counts)))
    (replicate (List.length source) default_adjacency)) as (dest & -> & Hf & Hd); try done.
  { by rewrite length_replicate. }
  { rewrite length_take, offsets_from_length, Htn. unfold n. lia. }
  { intros s Hs. rewrite lookup_total_take by done. rewrite Ho by (unfold n; lia). simpl. lia. }
  eexists. split; [reflexivity|]. split; [done|]. intros key s Hk Hs. unfold csr_slice. rewrite Hk. cbn [csr_offsets csr_edges].
  rewrite bool_decide_false.
  2:{ intros E. apply (f_equal List.length) in E. rewrite offsets_from_length in E. done. }
  rewrite !Ho by (unfold n; lia). pose proof (before_slot_S keys source s) as HS.
  pose proof (before_slot_bound keys source (S s)) as HB.
  rewrite wrap_small by (unfold fits; unfold Zlen in Hlen; lia).
  rewrite Nat2Z.id. replace (Z.to_nat _) with (List.length (at_slot keys s source)) by lia.
  apply list_eq. intros k. destruct (decide (k < List.length (at_slot keys s source))%nat) as [L|L].
  - rewrite lookup_take_lt, lookup_drop by done.
    destruct (lookup_lt_is_Some_2 _ _ L) as [x Hx]. rewrite Hx. by apply Hf.
  - transitivity (@None Adjacency); [|symmetry]; apply lookup_ge_None; [rewrite length_take|]; lia.
Qed.

(** Edges of a node: what every slice of the index holds. *)
Definition edges_of (key : NodeKey) (l : list Adjacency) : list Adjacency :=
  filter (fun e => adj_self e = key) l.

Lemma csr_slice_edges keys source c :
  StronglySorted node_before keys -> (forall e, e ∈ source -> adj_self e ∈ keys) -> Zlen source < 2 ^ 32 ->
  build_csr keys source = Value c -> forall key, csr_slice c keys key = edges_of key source.
Proof.
  intros Hs Hk Hlen Hc key.
  assert (resolved keys source) as Hr by (intros e He; apply node_slot_elem; auto).
  destruct (build_csr_spec keys source Hr Hlen) as (c' & Hc' & _ & Hslice).
  rewrite Hc in Hc'. injection Hc' as <-.
  destruct (node_slot keys key) as [s|] eqn:E.
  - rewrite (Hslice key s E); [|by apply node_slot_Some in E; eapply lookup_lt_Some].
    unfold at_slot, edges_of. apply list_filter_iff. intros e. split.
    + intros E'. apply node_slot_Some in E, E'. congruence.
    + by intros ->.
  - unfold csr_slice. rewrite E. symmetry. unfold edges_of. apply elem_of_nil_inv.
    intros e [Heq He]%list_elem_of_filter. destruct (Hr e He) as (s & Hs' & _). rewrite Heq in Hs'. congruence.
Qed.

(** ** The edges of a fabric *)

Definition enabled_links (f : Fabric) : list LinkRecord := filter (fun l => link_admin l = LA_Enabled) (links f).

Definition speed_of (f : Fabric) (l : LinkRecord) : Z := default 0 (effective_link_speed f l).

(** Both directions of every enabled link in [ls] that satisfies [P]. *)
Definition directed (f : Fabric) (ls : list LinkRecord) : list Adjacency :=
  concat ((fun l => [forward_of l (speed_of f l); backward_of l (speed_of f l)]) <$> ls).

Lemma directed_app f l k : directed f (l ++ k) = directed f l ++ directed f k.
Proof. unfold directed. by rewrite fmap_app, concat_app. Qed.

Lemma collect_edges_spec f ls e1 e2 e3 :
  (forall l, l ∈ ls -> is_Some (effective_link_speed f l)) ->
  let en := filter (fun l => link_admin l = LA_Enabled) ls in
  collect_edges f ls e1 e2 e3
  = Value (e1 ++ directed f en,
           e2 ++ directed f (filter (fun l => link_cls l = LC_LeafSpine) en),
           e3 ++ directed f (filter (fun l => link_cls l <> LC_LeafSpine) en)).
Proof.
  revert e1 e2 e3. induction ls as [|l ls IH]; intros e1 e2 e3 Hs; cbv zeta.
  - simpl. change (directed f []) with (@nil Adjacency). by rewrite !app_nil_r.
  - assert (forall x, x ∈ ls -> is_Some (effective_link_speed f x)) as Hs' by (intros x Hx; apply Hs; by right).
    destruct (Hs l) as [sp Hsp]; [left|]. cbn [collect_edges]. rewrite filter_cons.
    destruct (decide (link_admin l = LA_Enabled)) as [Ha|Ha].
    + rewrite bool_decide_true by done. cbn [negb]. rewrite Hsp.
      assert (directed f [l] = [forward_of l sp; backward_of l sp]) as E1.
      { unfold directed, speed_of. simpl. by rewrite Hsp. }
      rewrite !filter_cons.
      destruct (decide (link_cls l = LC_LeafSpine)) as [Hc|Hc].
      * rewrite bool_decide_true by done. rewrite IH by done. rewrite (decide_False (P := link_cls l <> LC_LeafSpine)) by tauto.
        rewrite <- !E1. rewrite <- !(assoc_L (++)), <- !directed_app. done.
      * rewrite bool_decide_false by done. rewrite IH by done. rewrite (decide_True (P := link_cls l <> LC_LeafSpine)) by done.
        rewrite <- !E1. rewrite <- !(assoc_L (++)), <- !directed_app. done.
    + rewrite bool_decide_false by done. cbn [negb]. by apply IH.
Qed.

Lemma elem_of_directed f ls e :
  e ∈ directed f ls <-> exists l, l ∈ ls /\ (e = forward_of l (speed_of f l) \/ e = backward_of l (speed_of f l)).
Proof.
  unfold directed. rewrite elem_of_concat. split.
  - intros (k & (l & -> & Hl)%list_elem_of_fmap & He). exists l. split; [done|]. set_solver.
  - intros (l & Hl & He). exists [forward_of l (speed_of f l); backward_of l (speed_of f l)]. split; [|set_solver].
    apply list_elem_of_fmap. by exists l.
Qed.

Lemma directed_length f ls : Zlen (directed f ls) = 2 * Zlen ls.
Proof.
  unfold directed. induction ls as [|l ls IH]; [done|]. rewrite fmap_cons. cbn [concat].
  rewrite Zlen_app, IH, !Zlen_cons, Zlen_nil. lia.
Qed.

(** ** The index of a well-formed fabric *)

(** What the enumeration types guarantee of the links, on top of [fabric_wf]. *)
Record indexable (lim : BuilderLimits) (f : Fabric) : Prop := {
  ixa_wf : fabric_wf lim f;
  ixa_links : forall l, l ∈ links f -> tier_valid (tier (link_a l)) /\ tier_valid (tier (link_b l));
  ixa_frozen : digest_is_zero (topology_digest f) = false;
  ixa_nodes : Zlen (leaves f) + Zlen (spines f) <= u32_max;
  ixa_size : 2 * Zlen (links f) < 2 ^ 32
}.

Lemma node_known_key f key :
  tier_valid (tier key) -> node_known (f_lookup f) key -> key ∈ node_keys f.
Proof.
  unfold node_known, node_keys. destruct key as [t i]. simpl. intros Ht. rewrite elem_of_app.
  destruct Ht as [-> | ->]; simpl; intros [x Hx]; apply find_sorted_Some in Hx as [Hx <-];
    [left|right]; apply list_elem_of_fmap; by exists x.
Qed.

Section Index.
Context (lim : BuilderLimits) (f : Fabric).
Hypothesis idx : indexable lim f.

(** The edges the index is built from. *)
Definition fabric_edges : list Adjacency := sort_adjacencies (directed f (enabled_links f)).
Definition fabric_leaf_spine : list Adjacency :=
  sort_adjacencies (directed f (filter (fun l => link_cls l = LC_LeafSpine) (enabled_links f))).
Definition fabric_peer : list Adjacency :=
  sort_adjacencies (directed f (filter (fun l => link_cls l <> LC_LeafSpine) (enabled_links f))).

Lemma directed_keys ls e :
  (forall l, l ∈ ls -> l ∈ links f) -> e ∈ directed f ls ->
  adj_self e ∈ node_keys f /\ adj_peer e ∈ node_keys f.
Proof.
  intros Hls (l & Hl & He)%elem_of_directed. destruct idx as [[] Ht _ _ _].
  destruct (Ht l) as [Ta Tb]; [auto|]. destruct (fw_links l) as [? ? ? ? ? Ha Hb ? ? ? ? ?]; [auto|].
  pose proof (node_known_key f _ Ta Ha). pose proof (node_known_key f _ Tb Hb).
  by destruct He as [-> | ->].
Qed.

Lemma elem_of_sorted l e : e ∈ sort_adjacencies l <-> e ∈ l.
Proof. unfold sort_adjacencies. by rewrite merge_sort_Permutation. Qed.

Lemma csr_ok ls :
  (forall l, l ∈ ls -> l ∈ links f) -> (List.length ls <= List.length (links f))%nat ->
  exists c, build_csr (node_keys f) (sort_adjacencies (directed f ls)) = Value c
    /\ (forall key, csr_slice c (node_keys f) key = edges_of key (sort_adjacencies (directed f ls)))
    /\ List.length (csr_edges c) = List.length (directed f ls).
Proof.
  intros Hls Hlen. pose proof idx as [[] _ _ _ Hsz].
  assert (StronglySorted node_before (node_keys f)) as Hk by by apply node_keys_sorted.
  assert (forall e, e ∈ sort_adjacencies (directed f ls) -> adj_self e ∈ node_keys f) as He.
  { intros e He. rewrite elem_of_sorted in He. destruct (directed_keys ls e Hls He) as [? _]. done. }
  assert (Zlen (sort_adjacencies (directed f ls)) < 2 ^ 32) as Hl.
  { unfold sort_adjacencies, Zlen. rewrite merge_sort_Permutation. fold (Zlen (directed f ls)).
    rewrite directed_length. unfold Zlen in *. lia. }
  destruct (build_csr_spec (node_keys f) (sort_adjacencies (directed f ls))) as (c & Hc & Hlc & _).
  - intros e Hin. apply node_slot_elem; auto.
  - done.
  - exists c. split; [done|]. split; [exact (csr_slice_edges _ _ c Hk He Hl Hc)|]. rewrite Hlc.
    unfold sort_adjacencies. by rewrite merge_sort_Permutation.
Qed.

(** Building the index of a well-formed fabric succeeds, and each query slice is
    the corresponding edge list filtered by node. *)
Lemma build_index_ok :
  exists ix, build_index f = Value ix /\ ix_keys ix = node_keys f /\ ix_fabric ix = f
    /\ (forall key, adjacencies ix key = edges_of key fabric_edges)
    /\ (forall id, uplinks ix id = edges_of (node_of_leaf id) fabric_leaf_spine)
    /\ (forall id, downlinks ix id = edges_of (node_of_spine id) fabric_leaf_spine)
    /\ (forall key, peer_links ix key = edges_of key fabric_peer)
    /\ edge_count ix = 2 * Zlen (enabled_links f).
Proof.
  pose proof idx as [Hwf _ Hz Hn Hsz]. unfold build_index. rewrite Hz. cbv zeta.
  pose proof (Zlen_nonneg (leaves f)). pose proof (Zlen_nonneg (spines f)).
  assert (wrap 32 (Zlen (leaves f)) = Zlen (leaves f)) as -> by (apply wrap_small; unfold fits, u32_max in *; lia).
  assert (wrap 32 (Zlen (spines f)) = Zlen (spines f)) as -> by (apply wrap_small; unfold fits, u32_max in *; lia).
  assert (checked_add (Zlen (leaves f)) (Zlen (spines f)) = Some (Zlen (leaves f) + Zlen (spines f))) as ->
    by (apply checked_add_spec; [..|split; [done|]]; unfold fits, u32_max in *; lia).
  destruct (Z.gtb_spec (Zlen (leaves f) + Zlen (spines f)) u32_max); [lia|].
  rewrite collect_edges_spec.
  2:{ intros l Hl. destruct Hwf. destruct (fw_speed l Hl) as (s & Hs & _). by exists s. }
  cbn [mbind Outcome_bind]. cbv zeta. fold (enabled_links f). rewrite !app_nil_l.
  assert (forall l, l ∈ enabled_links f -> l ∈ links f) as Hsub
    by (intros l Hl; by apply list_elem_of_filter in Hl as [_ ?]).
  assert (List.length (enabled_links f) <= List.length (links f))%nat as Hel by apply length_filter.
  destruct (csr_ok (enabled_links f)) as (c1 & -> & S1 & L1); [done|done|].
  destruct (csr_ok (filter (fun l => link_cls l = LC_LeafSpine) (enabled_links f))) as (c2 & -> & S2 & _).
  { intros l [_ ?]%list_elem_of_filter. auto. }
  { etransitivity; [apply length_filter|done]. }
  destruct (csr_ok (filter (fun l => link_cls l <> LC_LeafSpine) (enabled_links f))) as (c3 & -> & S3 & _).
  { intros l [_ ?]%list_elem_of_filter. auto. }
  { etransitivity; [apply length_filter|done]. }
  eexists. split; [reflexivity|]. split; [done|]. split; [done|].
  split; [exact S1|]. split; [intros id; apply S2|]. split; [intros id; apply S2|]. split; [exact S3|].
  unfold edge_count. cbn [ix_all]. unfold Zlen at 1. rewrite L1. fold (Zlen (directed f (enabled_links f))).
  apply directed_length.
Qed.
End Index.

(** ** The links an index stands for *)

(** An enabled link of class [c] joins the two nodes. *)
Definition linked (f : Fabric) (a b : NodeKey) (c : LinkClass) : Prop :=
  exists l, l ∈ links f /\ link_admin l = LA_Enabled /\ link_cls l = c
    /\ ((link_a l = a /\ link_b l = b) \/ (link_a l = b /\ link_b l = a)).

Lemma linked_sym f a b c : linked f a b c -> linked f b a c.
Proof. intros (l & H1 & H2 & H3 & H4). exists l. tauto. Qed.

(** What an index promises to its clients: each query answers the enabled links of
    its fabric. *)
Class IndexOf (f : Fabric) (ix : TopologyIndex) : Prop := {
  io_fabric : ix_fabric ix = f;
  io_adjacencies : forall a b c,
    (exists e, e ∈ adjacencies ix a /\ adj_peer e = b /\ adj_cls e = c) <-> linked f a b c;
  io_self : forall a e, e ∈ adjacencies ix a -> adj_self e = a;
  io_uplinks : forall id b,
    (exists e, e ∈ uplinks ix id /\ adj_peer e = b) <-> linked f (node_of_leaf id) b LC_LeafSpine;
  io_downlinks : forall id b,
    (exists e, e ∈ downlinks ix id /\ adj_peer e = b) <-> linked f (node_of_spine id) b LC_LeafSpine;
  io_peer_links : forall a b,
    (exists e, e ∈ peer_links ix a /\ adj_peer e = b) <-> linked f a b LC_SameTierPeer;
  io_cross : forall a b, linked f a b LC_LeafSpine -> tier_valid (tier a) /\ tier_valid (tier b) /\ tier a <> tier b;
  io_same : forall a b, linked f a b LC_SameTierPeer -> tier_valid (tier a) /\ tier a = tier b /\ a <> b
}.

Lemma elem_of_edges_of f ls key e :
  e ∈ edges_of key (sort_adjacencies (directed f ls)) <->
  adj_self e = key /\ exists l, l ∈ ls /\ (e = forward_of l (speed_of f l) \/ e = backward_of l (speed_of f l)).
Proof. unfold edges_of. rewrite list_elem_of_filter, elem_of_sorted, elem_of_directed. done. Qed.

(** The peers found in a slice are the nodes joined by the selected links. *)
Lemma slice_linked f (P : LinkRecord -> Prop) `{!forall l, Decision (P l)} a b c :
  (forall l, link_cls l = c -> P l) ->
  (exists e, e ∈ edges_of a (sort_adjacencies (directed f (filter P (enabled_links f))))
     /\ adj_peer e = b /\ adj_cls e = c) <-> linked f a b c.
Proof.
  intros HP. split.
  - intros (e & He & Hb & Hc). apply elem_of_edges_of in He as (Ha & l & Hl & He).
    apply list_elem_of_filter in Hl as [_ Hl]. apply list_elem_of_filter in Hl as [Hen Hl].
    exists l. destruct He as [-> | ->]; simpl in *; subst; tauto.
  - intros (l & Hl & Hen & Hc & He).
    assert (l ∈ filter P (enabled_links f)) as Hin.
    { apply list_elem_of_filter. split; [by apply HP|]. by apply list_elem_of_filter. }
    destruct He as [[<- <-]|[<- <-]].
    + exists (forward_of l (speed_of f l)). split; [|done]. apply elem_of_edges_of. split; [done|]. eauto.
    + exists (backward_of l (speed_of f l)). split; [|done]. apply elem_of_edges_of. split; [done|]. eauto.
Qed.

Lemma slice_class f (P : LinkRecord -> Prop) `{!forall l, Decision (P l)} a e :
  e ∈ edges_of a (sort_adjacencies (directed f (filter P (enabled_links f)))) ->
  exists l, P l /\ adj_cls e = link_cls l.
Proof.
  intros He. apply elem_of_edges_of in He as (_ & l & Hl & He).
  apply list_elem_of_filter in Hl as [HP _]. exists l. split; [done|]. by destruct He as [-> | ->].
Qed.

Lemma filter_all {A} (l : list A) : filter (fun _ => True) l = l.
Proof. induction l as [|x l IH]; [done|]. rewrite filter_cons, decide_True by done. by rewrite IH. Qed.

Lemma build_index_IndexOf lim f ix : indexable lim f -> build_index f = Value ix -> IndexOf f ix.
Proof.
  intros Hidx Hb. destruct (build_index_ok lim f Hidx) as (ix' & Hb' & _ & Hf & Ha & Hu & Hd & Hp & _).
  rewrite Hb in Hb'. injection Hb' as <-. destruct Hidx as [[] Ht _ _ _].
  unfold fabric_edges, fabric_leaf_spine, fabric_peer in *.
  rewrite <- (filter_all (enabled_links f)) in Ha.
  split; [done|..].
  - intros a b c. rewrite Ha. by apply slice_linked.
  - intros a e. rewrite Ha, elem_of_edges_of. tauto.
  - intros id b. rewrite Hu, <- (slice_linked f (fun l => link_cls l = LC_LeafSpine)) by done.
    split; intros (e & He & Hpe); exists e; [|tauto]. split; [done|]. split; [done|].
    apply slice_class in He as (l & Hl & ->). done.
  - intros id b. rewrite Hd, <- (slice_linked f (fun l => link_cls l = LC_LeafSpine)) by done.
    split; intros (e & He & Hpe); exists e; [|tauto]. split; [done|]. split; [done|].
    apply slice_class in He as (l & Hl & ->). done.
  - intros a b. rewrite Hp, <- (slice_linked f (fun l => link_cls l <> LC_LeafSpine)) by (by intros l ->).
    split; intros (e & He & Hpe); exists e; [|tauto]. split; [done|]. split; [done|].
    apply slice_class in He as (l & Hl & ->). by destruct (link_cls l).
  - intros a b (l & Hl & _ & Hc & Hab). destruct (Ht l Hl) as [Ta Tb]. destruct (fw_links l Hl).
    assert (tier (link_a l) <> tier (link_b l)) as Hne.
    { intros E. destruct (lw_same E) as [_ ?]. congruence. }
    destruct Hab as [[<- <-]|[<- <-]]; auto.
  - intros a b (l & Hl & _ & Hc & Hab). destruct (Ht l Hl) as [Ta Tb]. destruct (fw_links l Hl).
    assert (tier (link_a l) = tier (link_b l)) as Hne.
    { destruct (decide (tier (link_a l) = tier (link_b l))) as [|N]; [done|].
      rewrite (lw_cross N) in Hc. done. }
    destruct Hab as [[<- <-]|[<- <-]]; auto.
Qed.

(** ** Queries over an index *)

(** [unique] of a sorted list drops the repetitions and nothing else. *)
Lemma unique_elem x l : x ∈ unique l <-> x ∈ l.
Proof.
  induction l as [|y r IH]; [done|]. simpl. destruct r as [|z r]; [done|].
  destruct (Z.eqb_spec y z) as [->|].
  - rewrite IH. rewrite (elem_of_cons (z :: r)). set_solver.
  - rewrite !elem_of_cons. rewrite IH. by rewrite elem_of_cons.
Qed.

Lemma unique_sorted l : StronglySorted Z.le l -> StronglySorted Z.lt (unique l).
Proof.
  induction 1 as [|y r Hs IH Hy]; [constructor|]. simpl. destruct r as [|z r]; [by repeat constructor|].
  destruct (Z.eqb_spec y z) as [->|Hne]; [done|]. constructor; [done|].
  apply Forall_forall. intros x Hx. rewrite unique_elem in Hx. rewrite Forall_forall in Hy.
  assert (y <= x) by by apply Hy. assert (y < z) by (assert (y <= z) by (apply Hy; left); lia).
  apply elem_of_cons in Hx as [->|Hx]; [done|].
  inversion Hs as [|? ? _ Hz]; subst. rewrite Forall_forall in Hz. specialize (Hz x Hx). lia.
Qed.

Section Queries.
Context {f : Fabric} {ix : TopologyIndex} `{!IndexOf f ix}.

Lemma adjacent_linked a b : adjacent ix a b = true <-> exists c, linked f a b c.
Proof.
  unfold adjacent, adjacency_between. destruct (List.find _ _) as [e|] eqn:E; split.
  - intros _. apply find_some in E as [Hin Hb]. apply list_elem_of_In in Hin. bool_to_prop.
    exists (adj_cls e). apply io_adjacencies. eauto.
  - done.
  - done.
  - intros [c Hc]. apply io_adjacencies in Hc as (e & He & Hb & _).
    apply list_elem_of_In in He. pose proof (find_none _ _ E e He) as H. simpl in H. bool_to_prop. done.
Qed.

Lemma adjacency_between_class a b e : adjacency_between ix a b = Some e -> linked f a b (adj_cls e).
Proof.
  intros E. unfold adjacency_between in E. apply find_some in E as [Hin Hb].
  apply list_elem_of_In in Hin. bool_to_prop. apply io_adjacencies. eauto.
Qed.

Lemma any_adjacent_true es b :
  any_adjacent ix es b = true <-> exists e, e ∈ es /\ exists c, linked f (adj_peer e) b c.
Proof.
  unfold any_adjacent. rewrite existsb_exists. split; intros (e & He & Hb); exists e;
    (split; [by apply list_elem_of_In|]); by apply adjacent_linked.
Qed.

Lemma common_spines_elem a b s :
  s ∈ common_spines ix a b <->
  a <> b /\ linked f (node_of_leaf a) (node_of_spine s) LC_LeafSpine
         /\ linked f (node_of_leaf b) (node_of_spine s) LC_LeafSpine.
Proof.
  unfold common_spines. destruct (Z.eqb_spec a b) as [|Hab]; [split; [by intros ?%elem_of_nil|tauto]|].
  rewrite <- !io_uplinks.
  assert (forall probe oth, s ∈ unique (merge_sort Z.le ((fun e => index (adj_peer e)) <$>
    filter (fun e => tier (adj_peer e) = T_Spine
      /\ existsb (fun c => bool_decide (adj_peer c = adj_peer e)) oth = true) probe)) <->
    (exists e, e ∈ probe /\ adj_peer e = node_of_spine s) /\ (exists e, e ∈ oth /\ adj_peer e = node_of_spine s)) as H.
  { intros probe oth. rewrite unique_elem, merge_sort_Permutation, list_elem_of_fmap. split.
    - intros (e & -> & [[Ht He] Hin]%list_elem_of_filter).
      assert (adj_peer e = node_of_spine (index (adj_peer e))) as Ep
        by (destruct (adj_peer e); simpl in *; by subst).
      split; [by exists e|]. apply existsb_exists in He as (c & Hc & Hcp). bool_to_prop.
      exists c. split; [by apply list_elem_of_In|congruence].
    - intros ((e & He & Ep) & (c & Hc & Cp)). exists e. rewrite Ep. split; [done|].
      apply list_elem_of_filter. split; [|done]. rewrite Ep. split; [done|].
      apply existsb_exists. exists c. split; [by apply list_elem_of_In|]. by apply bool_decide_true. }
  destruct (decide (uplinks ix a = [])) as [E1|E1];
    [rewrite (bool_decide_true _ E1)|rewrite (bool_decide_false _ E1)];
    [|destruct (decide (uplinks ix b = [])) as [E2|E2];
      [rewrite (bool_decide_true _ E2)|rewrite (bool_decide_false _ E2)]]; simpl.
  - rewrite E1. split; [by intros ?%elem_of_nil|]. by intros (_ & (e & ?%elem_of_nil & _) & _).
  - rewrite E2. split; [by intros ?%elem_of_nil|]. by intros (_ & _ & (e & ?%elem_of_nil & _)).
  - destruct (_ <=? _); rewrite H; tauto.
Qed.

Lemma common_spines_sorted a b : StronglySorted Z.lt (common_spines ix a b).
Proof.
  unfold common_spines. repeat (case_match; try constructor).
  all: apply unique_sorted, StronglySorted_merge_sort; apply _.
Qed.
(** Two nodes joined by a link, in either class. *)
Definition joined (a b : NodeKey) : Prop := exists c, linked f a b c.

Lemma joined_sym a b : joined a b -> joined b a.
Proof. intros [c H]. exists c. by apply linked_sym. Qed.

Lemma spine_key k : tier k = T_Spine -> k = node_of_spine (index k).
Proof. destruct k. simpl. by intros ->. Qed.
Lemma leaf_key k : tier k = T_Leaf -> k = node_of_leaf (index k).
Proof. destruct k. simpl. by intros ->. Qed.

(** A middle node between two leaves is a common spine or a peer leaf. *)
Lemma leaf_middle a b x :
  linked f (node_of_leaf a) x LC_LeafSpine -> joined x b -> tier b = T_Leaf ->
  exists s, x = node_of_spine s /\ linked f b (node_of_spine s) LC_LeafSpine.
Proof.
  intros Ha [c Hb] Tb. destruct (io_cross _ _ Ha) as (_ & [Tx|Tx] & Hne); [simpl in Hne; congruence|].
  exists (index x). rewrite <- (spine_key x Tx). split; [done|].
  destruct c; [by apply linked_sym|]. destruct (io_same _ _ Hb) as (_ & E & _). congruence.
Qed.

Lemma Zlen_zero {A} (l : list A) : Zlen l = 0 -> l = [].
Proof. destruct l; [done|]. rewrite Zlen_cons. pose proof (Zlen_nonneg l). lia. Qed.

Lemma structural_class_leaf_leaf a b :
  structural_class ix (node_of_leaf a) (node_of_leaf b) = RC_Unreachable <->
  a <> b /\ ~ joined (node_of_leaf a) (node_of_leaf b)
  /\ ~ exists x, joined (node_of_leaf a) x /\ joined x (node_of_leaf b).
Proof.
  unfold structural_class. destruct (decide (node_of_leaf a = node_of_leaf b)) as [E|E].
  { rewrite (bool_decide_true _ E). split; [done|]. intros [H _]. by injection E. }
  rewrite (bool_decide_false _ E). assert (a <> b) as Hab by (intros ->; done).
  destruct (adjacency_between ix (node_of_leaf a) (node_of_leaf b)) as [e|] eqn:Ead.
  { split; [by destruct (bool_decide _)|]. intros (_ & Hn & _). exfalso. apply Hn.
    exists (adj_cls e). by apply adjacency_between_class. }
  assert (~ joined (node_of_leaf a) (node_of_leaf b)) as Hnj.
  { intros H%adjacent_linked. unfold adjacent in H. by rewrite Ead in H. }
  cbn [tier node_of_leaf index]. rewrite !bool_decide_true by done. cbn [andb].
  pose proof (Zlen_nonneg (common_spines ix a b)) as Hz.
  destruct (Z.leb_spec 2 (Zlen (common_spines ix a b))) as [H2|H2];
    [|destruct (Z.eqb_spec (Zlen (common_spines ix a b)) 1) as [H1|H1]].
  1,2: split; [done|]; intros (_ & _ & Hno); exfalso; apply Hno;
    destruct (common_spines ix a b) as [|s l] eqn:Ec; [rewrite Zlen_nil in *; lia|];
    assert (s ∈ common_spines ix a b) as (_ & Ha & Hb)%common_spines_elem by (rewrite Ec; left);
    exists (node_of_spine s); split; [by exists LC_LeafSpine|]; apply joined_sym; by exists LC_LeafSpine.
  assert (common_spines ix a b = []) as Hnil by (apply Zlen_zero; lia).
  destruct (any_adjacent ix (peer_links ix (node_of_leaf a)) (node_of_leaf b)) eqn:P1.
  { split; [done|]. intros (_ & _ & Hno). exfalso. apply Hno. apply any_adjacent_true in P1 as (e & He & Hj).
    exists (adj_peer e). split; [|exact Hj]. exists LC_SameTierPeer. apply io_peer_links. eauto. }
  destruct (any_adjacent ix (peer_links ix (node_of_leaf b)) (node_of_leaf a)) eqn:P2.
  { split; [done|]. intros (_ & _ & Hno). exfalso. apply Hno. apply any_adjacent_true in P2 as (e & He & Hj).
    exists (adj_peer e). split; [apply joined_sym; exact Hj|]. apply joined_sym. exists LC_SameTierPeer.
    apply io_peer_links. eauto. }
  split; [|done]. intros _. split; [done|]. split; [done|]. intros (x & [c Hax] & Hxb). destruct c.
  - destruct (leaf_middle a (node_of_leaf b) x Hax Hxb eq_refl) as (s & -> & Hb).
    assert (s ∈ common_spines ix a b) as Hs by by apply common_spines_elem.
    rewrite Hnil in Hs. by apply elem_of_nil in Hs.
  - assert (any_adjacent ix (peer_links ix (node_of_leaf a)) (node_of_leaf b) = true) as P; [|congruence].
    apply any_adjacent_true. apply io_peer_links in Hax as (e & He & <-). exists e. by split.
Qed.

(** *** Paths *)

(** A walk along links. *)
Fixpoint is_walk (p : list NodeKey) : Prop :=
  match p with
  | x :: (y :: _) as r => joined x y /\ is_walk r
  | _ => True
  end.

Lemma is_walk_snoc p x y : is_walk (p ++ [x]) -> joined x y -> is_walk (p ++ [x; y]).
Proof.
  intros Hp Hj. induction p as [|z p IH]; [by split|]. destruct p as [|w p]; simpl in *; [tauto|].
  split; [tauto|]. apply IH. tauto.
Qed.

Lemma walk_neighbour p k : is_walk p -> (2 <= List.length p)%nat -> k ∈ p -> exists y, joined k y.
Proof.
  induction p as [|x p IH]; intros Hw Hl Hk; [by apply elem_of_nil in Hk|].
  destruct p as [|z p]; simpl in Hl; [lia|]. destruct Hw as [Hj Hw].
  apply elem_of_cons in Hk as [->|Hk]; [by exists z|].
  destruct p as [|w p]; [apply list_elem_of_singleton in Hk as ->; exists x; by apply joined_sym|].
  apply IH; [done|simpl; lia|done].
Qed.

(** What [walk] returns beyond the paths it was given. *)
Definition good_path (a b : NodeKey) (hops : nat) (p : list NodeKey) : Prop :=
  head p = Some a /\ last p = Some b /\ NoDup p /\ is_walk p /\ (2 <= List.length p <= S hops)%nat.

Lemma each_edge_inv (P : list (list NodeKey) -> Prop) max_paths visited visit es paths :
  P paths ->
  (forall e paths, e ∈ es -> encode_node (adj_peer e) ∉ visited -> P paths -> P (visit (adj_peer e) paths)) ->
  P (each_edge max_paths visited visit es paths).
Proof.
  revert paths. induction es as [|e es IH]; intros paths HP Hv; [done|]. cbn [each_edge].
  assert (forall e' q, e' ∈ es -> encode_node (adj_peer e') ∉ visited -> P q -> P (visit (adj_peer e') q)) as Hv'
    by (intros e' q ?; apply Hv; by right).
  case_bool_decide as Hvis; [by apply IH|]. cbv zeta.
  assert (P (visit (adj_peer e) paths)) by (apply Hv; [left|done|done]).
  destruct (_ <=? _); [done|]. by apply IH.
Qed.

Lemma walk_sound a b max_paths hops total node current visited paths :
  head (current ++ [node]) = Some a -> is_walk (current ++ [node]) -> NoDup (current ++ [node]) ->
  (forall k, k ∈ current -> encode_node k ∈ visited) ->
  (List.length current + hops <= total)%nat ->
  Zlen paths <= max_paths -> Forall (good_path a b total) paths ->
  Forall (good_path a b total) (walk ix b max_paths hops node current visited paths)
  /\ Zlen (walk ix b max_paths hops node current visited paths) <= max_paths.
Proof.
  revert node current visited paths. induction hops as [|hops IH];
    intros node current visited paths Hh Hw Hnd Hv Hlen Hp Hg; cbn [walk];
    (destruct (Z.leb_spec max_paths (Zlen paths)) as [|Hlt]; [done|]);
    destruct (bool_decide (node = b) && (1 <? Zlen (current ++ [node]))) eqn:Eb.
  1,3: bool_to_prop; subst; (split; [|rewrite Zlen_app; change (Zlen [_]) with 1; lia]);
    apply Forall_app; (split; [done|]); apply Forall_cons; (split; [|by apply Forall_nil]);
    (split; [done|]); (split; [by rewrite last_snoc|]); (split; [done|]); (split; [done|]);
    unfold Zlen in *; rewrite length_app in *; simpl in *; lia.
  - done.
  - clear Eb. set (visited' := {[encode_node node]} ∪ visited).
    assert (forall k, k ∈ current ++ [node] -> encode_node k ∈ visited') as Hv'.
    { intros k [Hk| ->%list_elem_of_singleton]%elem_of_app; unfold visited'; [|set_solver].
      apply Hv in Hk. set_solver. }
    apply (each_edge_inv (fun q => Forall (good_path a b total) q /\ Zlen q <= max_paths)); [done|].
    intros e q Hin Hvis [Hq Hq']. apply IH; try done.
    + rewrite <- (assoc_L (++)). simpl. by destruct current.
    + rewrite <- (assoc_L (++)). apply is_walk_snoc; [done|]. exists (adj_cls e).
      apply io_adjacencies. by exists e.
    + apply NoDup_app. split; [done|]. split; [|apply NoDup_singleton].
      intros k Hk ->%list_elem_of_singleton. by apply Hvis, Hv'.
    + rewrite length_app. simpl. lia.
Qed.

(** Paths already found stay, in order. *)
Lemma walk_mono b max_paths hops node current visited paths :
  paths `prefix_of` walk ix b max_paths hops node current visited paths.
Proof.
  revert node current visited paths. induction hops as [|hops IH]; intros node current visited paths;
    cbn [walk]; cbv zeta; (destruct (_ <=? _); [done|]); (destruct (_ && _); [by eexists|]); [done|].
  apply (each_edge_inv (fun q => paths `prefix_of` q)); [done|].
  intros e q _ _ Hq. etransitivity; [exact Hq|apply IH].
Qed.

Lemma prefix_Zlen {A} (l k : list A) : l `prefix_of` k -> Zlen l <= Zlen k.
Proof. intros H%prefix_length. unfold Zlen. lia. Qed.

(** While the bound is not reached, every unvisited peer is visited. *)
Lemma each_edge_reaches max_paths visited visit es paths e :
  (forall k q, q `prefix_of` visit k q) -> e ∈ es -> encode_node (adj_peer e) ∉ visited ->
  Zlen (each_edge max_paths visited visit es paths) < max_paths ->
  exists q, visit (adj_peer e) q `prefix_of` each_edge max_paths visited visit es paths.
Proof.
  intros Hm. revert paths. induction es as [|e' es IH]; intros paths Hin Hvis; [by apply elem_of_nil in Hin|].
  cbn [each_edge]. apply elem_of_cons in Hin as [<-|Hin].
  - rewrite bool_decide_false by done. cbv zeta. intros Hlt. exists paths.
    destruct (_ <=? _); [done|]. apply (each_edge_inv (fun q => visit (adj_peer e) paths `prefix_of` q)); [done|].
    intros e2 q _ _ Hq. by etransitivity.
  - case_bool_decide; [by apply IH|]. cbv zeta. destruct (Z.leb_spec max_paths (Zlen (visit (adj_peer e') paths))).
    + lia.
    + by apply IH.
Qed.

Definition node_ok (k : NodeKey) : Prop := tier_valid (tier k) /\ u32_ok (index k).

(** The visited set tells nodes apart. *)
Lemma encode_node_inj k k' : node_ok k -> node_ok k' -> encode_node k = encode_node k' -> k = k'.
Proof.
  destruct k as [t i], k' as [t' i']. unfold node_ok, encode_node, fits, tier_valid. cbn [tier index].
  intros [Ht Hi] [Ht' Hi'].
  assert (forall c i, 0 <= i < 2 ^ 32 -> Z.lor (Z.shiftl c 32) i = c * 2 ^ 32 + i) as E.
  { intros c j Hj. rewrite Z.shiftl_mul_pow2 by lia. symmetry. apply Z.add_nocarry_lor.
    apply Z.bits_inj'. intros n Hn. rewrite Z.land_spec, Z.bits_0.
    destruct (Z.ltb_spec n 32).
    - rewrite Z.mul_pow2_bits_low by lia. done.
    - rewrite <- (Z.mod_small j (2 ^ 32)) by lia. rewrite Z.mod_pow2_bits_high by lia. apply andb_false_r. }
  rewrite !E by lia.
  destruct Ht as [-> | ->], Ht' as [-> | ->]; repeat case_decide; intros; f_equal; try done; lia.
Qed.

Lemma walk_complete b max_paths hops node current visited paths p :
  (forall k, k ∈ current ++ node :: p -> node_ok k) ->
  (forall x, x ∈ visited -> exists k, k ∈ current /\ encode_node k = x) ->
  is_walk (node :: p) -> NoDup (current ++ node :: p) -> last (node :: p) = Some b ->
  (List.length p <= hops)%nat -> current ++ node :: p <> [b] ->
  Zlen (walk ix b max_paths hops node current visited paths) < max_paths ->
  current ++ node :: p ∈ walk ix b max_paths hops node current visited paths.
Proof.
  revert node current visited paths p.
  induction hops as [|hops IH]; intros node current visited paths p Hok Hv Hw Hnd Hlast Hlen Hne; cbn [walk]; cbv zeta;
    (destruct (Z.leb_spec max_paths (Zlen paths)); [lia|]);
    destruct (decide (node = b)) as [->|Hnb].
  1,3: assert (p = []) as -> by (destruct p as [|y p]; [done|]; exfalso; apply NoDup_app in Hnd as (_ & _ & Hnd);
      apply NoDup_cons in Hnd as [Hnd _]; apply Hnd; rewrite last_cons_cons in Hlast; by apply last_Some_elem_of in Hlast);
    assert (1 < Zlen (current ++ [b])) as H1 by (destruct current as [|x current];
      [done|rewrite Zlen_app, Zlen_cons; change (Zlen [b]) with 1; pose proof (Zlen_nonneg current); lia]);
    apply Z.ltb_lt in H1; rewrite bool_decide_true, H1 by done; intros _; apply elem_of_app; right; left.
  - destruct p; [|simpl in Hlen; lia]. simpl in Hlast. congruence.
  - destruct p as [|y p]; [simpl in Hlast; congruence|]. rewrite bool_decide_false by done. cbn [andb].
    destruct Hw as [[c Hj] Hw]. apply io_adjacencies in Hj as (e & He & Hy & _). intros Hlt.
    assert (encode_node (adj_peer e) ∉ ({[encode_node node]} ∪ visited : gset Z)) as Hnv.
    { rewrite Hy. assert (node_ok y) by (apply Hok; set_solver). apply NoDup_app in Hnd as (_ & Hd & Hnd).
      intros [E%elem_of_singleton|Hin]%elem_of_union.
      - apply encode_node_inj in E; [|done|apply Hok; set_solver]. subst. apply NoDup_cons in Hnd as [Hnd _]. apply Hnd. left.
      - apply Hv in Hin as (k & Hk & E). apply encode_node_inj in E; [|apply Hok; set_solver|done]. subst.
        apply (Hd _ Hk). set_solver. }
    match type of Hlt with Zlen (each_edge _ _ ?V _ _) < _ =>
      destruct (each_edge_reaches max_paths _ V _ paths e (fun k q => walk_mono b max_paths hops k _ _ q) He Hnv Hlt) as (q & Hq) end.
    cbv beta in Hq. rewrite Hy in Hq.
    assert (current ++ node :: y :: p = (current ++ [node]) ++ y :: p) as E by by rewrite <- (assoc_L (++)).
    rewrite E. eapply elem_of_prefix; [|exact Hq]. apply IH; rewrite <- ?E; try done.
    + intros x [->%elem_of_singleton|Hx]%elem_of_union; [exists node; set_solver|].
      apply Hv in Hx as (k & ? & ?). exists k. set_solver.
    + simpl in Hlen. lia.
    + apply prefix_Zlen in Hq. lia.
Qed.

Lemma enumerate_paths_sound a b max_hops max_paths :
  0 <= max_hops -> 0 <= max_paths ->
  Forall (good_path a b (Z.to_nat max_hops)) (enumerate_paths ix a b max_hops max_paths)
  /\ Zlen (enumerate_paths ix a b max_hops max_paths) <= max_paths.
Proof.
  intros Hh Hp. unfold enumerate_paths. destruct (_ || _)%bool.
  - split; [by apply Forall_nil|by rewrite Zlen_nil].
  - apply walk_sound; try done; [apply NoDup_singleton|by intros k ?%elem_of_nil].
Qed.

(** When fewer paths than the bound are returned, they are all the paths. *)
Lemma enumerate_paths_complete a b max_hops max_paths p :
  (forall x y, joined x y -> u32_ok (index y)) -> 0 <= max_hops ->
  Zlen (enumerate_paths ix a b max_hops max_paths) < max_paths ->
  good_path a b (Z.to_nat max_hops) p -> p ∈ enumerate_paths ix a b max_hops max_paths.
Proof.
  intros Hids Hh Hlt (Hhd & Hl & Hnd & Hw & Hlen). unfold enumerate_paths in *.
  destruct p as [|x p]; [done|]. injection Hhd as ->. pose proof (Zlen_nonneg (@nil NodeKey)).
  destruct (Z.eqb_spec max_hops 0) as [->|]; [simpl in Hlen; lia|].
  destruct (Z.eqb_spec max_paths 0) as [->|]; cbn [orb] in *; [change (Zlen []) with 0 in Hlt; lia|].
  apply (walk_complete b max_paths _ a [] ∅ [] p); try done.
  - intros k Hk. change ([] ++ a :: p) with (a :: p) in Hk. split.
    + destruct (walk_neighbour (a :: p) k Hw ltac:(simpl in *; lia) Hk) as (y & [[] Hj]).
      * by apply io_cross in Hj as (? & _).
      * by apply io_same in Hj as (? & _).
    + destruct (walk_neighbour (a :: p) k Hw ltac:(simpl in *; lia) Hk) as (y & Hj).
      eapply Hids, joined_sym, Hj.
  - simpl in Hlen. lia.
  - destruct p; simpl in Hlen; [lia|done].
Qed.
End Queries.

(** ** Properties *)

(** The sample fabric can be indexed. *)
Lemma sample_indexable : indexable default_limits Sample.observed.
Proof.
  split; [exact sample_wf| |vm_compute; reflexivity|vm_compute; discriminate|vm_compute; reflexivity].
  intros l Hl. by destruct (ff_links _ sample_fits l Hl) as (_ & ? & _ & _ & ? & _).
Qed.

Definition sample_index : TopologyIndex := Eval vm_compute in
  match build_index Sample.observed with
  | Value ix => ix
  | Failure _ => MkIndex Sample.observed [] (MkCsr [] []) (MkCsr [] []) (MkCsr [] []) 0 0 0
  end.

(** C33: Building the topology index of an indexable fabric always succeeds, and the
    three compressed arrays answer exactly the enabled links: the slice of a node is
    the sorted list of directed edges that start at it, uplinks and downlinks are the
    leaf-spine edges, peer links the others, and each enabled link contributes two
    edges. *)
Theorem build_index_correct lim f :
  indexable lim f ->
  exists ix, build_index f = Value ix /\ ix_keys ix = node_keys f /\ ix_fabric ix = f
    /\ (forall key, adjacencies ix key = edges_of key (fabric_edges f))
    /\ (forall id, uplinks ix id = edges_of (node_of_leaf id) (fabric_leaf_spine f))
    /\ (forall id, downlinks ix id = edges_of (node_of_spine id) (fabric_leaf_spine f))
    /\ (forall key, peer_links ix key = edges_of key (fabric_peer f))
    /\ edge_count ix = 2 * Zlen (enabled_links f).
Proof. apply build_index_ok. Qed.

Lemma build_index_correct_witness :
  exists ix, build_index Sample.observed = Value ix /\ edge_count ix = 8.
Proof.
  destruct (build_index_correct default_limits Sample.observed sample_indexable) as (ix & H & _ & _ & _ & _ & _ & _ & E).
  exists ix. split; [exact H|]. rewrite E. vm_compute. reflexivity.
Defined.

(** On the index of an indexable fabric, [common_spines] lists exactly the spines
    joined to both of two different leaves by enabled leaf-spine links, in strictly
    increasing order. *)
Theorem common_spines_exact lim f ix a b :
  indexable lim f -> build_index f = Value ix ->
  StronglySorted Z.lt (common_spines ix a b)
  /\ forall s, s ∈ common_spines ix a b <->
       a <> b /\ linked f (node_of_leaf a) (node_of_spine s) LC_LeafSpine
              /\ linked f (node_of_leaf b) (node_of_spine s) LC_LeafSpine.
Proof.
  intros Hi Hb. pose proof (build_index_IndexOf lim f ix Hi Hb).
  split; [apply common_spines_sorted|]. intros s. apply common_spines_elem.
Qed.

Lemma common_spines_exact_witness :
  2 ∈ common_spines sample_index 1 2 /\ StronglySorted Z.lt (common_spines sample_index 1 2).
Proof.
  split; [vm_compute; set_solver|].
  apply (common_spines_exact default_limits Sample.observed sample_index 1 2).
  - exact sample_indexable.
  - vm_compute. reflexivity.
Defined.

(** Between two leaves, [structural_class] answers [Unreachable] exactly when the
    leaves differ and are joined neither directly nor through one intermediate node. *)
Theorem unreachable_iff_no_short_path lim f ix a b :
  indexable lim f -> build_index f = Value ix ->
  structural_class ix (node_of_leaf a) (node_of_leaf b) = RC_Unreachable <->
  a <> b /\ ~ joined (f := f) (node_of_leaf a) (node_of_leaf b)
  /\ ~ exists x, joined (f := f) (node_of_leaf a) x /\ joined (f := f) x (node_of_leaf b).
Proof.
  intros Hi Hb. pose proof (build_index_IndexOf lim f ix Hi Hb). apply structural_class_leaf_leaf.
Qed.

Lemma unreachable_iff_no_short_path_witness :
  ~ (1 <> 2 /\ ~ joined (f := Sample.observed) (node_of_leaf 1) (node_of_leaf 2)
     /\ ~ exists x, joined (f := Sample.observed) (node_of_leaf 1) x /\ joined (f := Sample.observed) x (node_of_leaf 2)).
Proof.
  intros H. apply (unreachable_iff_no_short_path default_limits Sample.observed sample_index 1 2) in H.
  - vm_compute in H. discriminate.
  - exact sample_indexable.
  - vm_compute. reflexivity.
Defined.

(** C37: [enumerate_paths] returns only simple walks along enabled links from the one
    node to the other with at most [max_hops] hops, never more than [max_paths] of
    them; and when it returns fewer than [max_paths], it returns every such walk. *)
Theorem enumerate_paths_exact lim f ix a b max_hops max_paths :
  indexable lim f -> fabric_fits f -> build_index f = Value ix -> 0 <= max_hops -> 0 <= max_paths ->
  let found := enumerate_paths ix a b max_hops max_paths in
  Forall (good_path (f := f) a b (Z.to_nat max_hops)) found /\ Zlen found <= max_paths
  /\ (Zlen found < max_paths -> forall p, good_path (f := f) a b (Z.to_nat max_hops) p -> p ∈ found).
Proof.
  intros Hi Hf Hb Hh Hp. pose proof (build_index_IndexOf lim f ix Hi Hb). cbv zeta.
  destruct (enumerate_paths_sound a b max_hops max_paths Hh Hp) as [H1 H2]. split; [done|]. split; [done|].
  intros Hlt p. apply enumerate_paths_complete; [|done|done].
  intros x y (c & l & Hl & _ & _ & He). destruct (ff_links _ Hf l Hl) as (_ & _ & ? & _ & _ & ? & _).
  destruct He as [[_ <-]|[<- _]]; done.
Qed.

Lemma enumerate_paths_exact_witness :
  Zlen (enumerate_paths sample_index (node_of_leaf 1) (node_of_leaf 2) 3 8) = 2
  /\ Zlen (enumerate_paths sample_index (node_of_leaf 1) (node_of_leaf 2) 3 8) <= 8.
Proof.
  split; [vm_compute; reflexivity|].
  apply (enumerate_paths_exact default_limits Sample.observed sample_index (node_of_leaf 1) (node_of_leaf 2) 3 8);
    [exact sample_indexable|exact sample_fits|vm_compute; reflexivity|lia|lia].
Defined.
