(* ===== verification/Eligibility.v ===== *)
(** * Operational eligibility (include/slf/eligibility.hpp, src/eligibility.cpp, include/slf/cancellation.hpp)

    The engine answers, over an immutable topology index, whether an uplink, a
    pair of leaves or the whole fabric is usable. Long computations poll a
    cancellation token, which another thread may set or reset at any time. *)
From S2P Require Import Prelude Status Checked Identity Digest Capacity Model Topology.

(** ** Cancellation

    A token is what successive polls of the shared flag answer; [Poll] counts the
    polls of one run. *)
Definition CancellationToken : Type := nat -> bool.
Definition live_token : CancellationToken := fun _ => false.
Definition pre_cancelled : CancellationToken := fun _ => true.

Definition Poll (A : Type) : Type := CancellationToken -> nat -> A * nat.
#[export] Instance Poll_ret : MRet Poll := fun A x _ n => (x, n).
#[export] Instance Poll_bind : MBind Poll := fun A B f m t n => let '(x, n') := m t n in f x t n'.
Definition cancelled : Poll bool := fun t n => (t n, S n).

(** ** Data *)

Inductive EligibilityVerdict := EV_Eligible | EV_Ineligible | EV_Indeterminate.

#[export] Instance EligibilityVerdict_eq_dec : EqDecision EligibilityVerdict.
Proof. solve_decision. Defined.

Definition EligibilityVerdict_to_string (v : EligibilityVerdict) : string :=
  match v with
  | EV_Eligible => "eligible"
  | EV_Ineligible => "ineligible"
  | EV_Indeterminate => "indeterminate"
  end.

Record PathConstraints := MkConstraints {
  pc_domain_diversity : bool;
  pc_min_eligible_spines : Z;
  pc_min_total_capacity_mbps : Z;
  pc_max_oversubscription : option Rational;
  pc_allow_peer_paths : bool;
  pc_require_evidence : bool;
  pc_max_sets : Z;
  pc_max_explanations : Z
}.

Definition default_constraints : PathConstraints := MkConstraints false 1 0 None true false 16 32.

Definition defaults_for (o : FabricOptions) : PathConstraints :=
  MkConstraints (require_domain_diversity o) (min_eligible_spines o) 0 None true
    (bool_decide (evidence_policy o = EP_RequireFresh)) 16 32.

Record SpineEligibility := MkSE {
  se_spine : SpineId;
  se_verdict : EligibilityVerdict;
  se_code : StatusCode;
  se_structural_ok : bool;
  se_freshness : EvidenceFreshness;
  se_capacity : Z;
  se_domain : FailureDomainId;
  se_detail : string
}.

Record EligibleSpineSet := MkSet {
  set_spines : list SpineId;
  set_domains : list FailureDomainId;
  set_total : Z;
  set_distinct_domains : Z
}.

Record EligibleSpineSets := MkSets {
  sets : list EligibleSpineSet;
  sets_truncated : bool;
  candidate_combinations : Z
}.
Definition no_sets : EligibleSpineSets := MkSets [] false 0.

Record PathAssessment := MkAssessment {
  pa_from : NodeKey;
  pa_to : NodeKey;
  pa_cls : ReachabilityClass;
  pa_verdict : EligibilityVerdict;
  pa_code : StatusCode;
  pa_generation : TopologyGeneration;
  pa_epoch : Epoch;
  pa_controller : ControllerIncarnation;
  pa_topology_digest : Digest;
  pa_eligible_spines : list SpineId;
  pa_covered_domains : list FailureDomainId;
  pa_domain_loss_tolerance : Z;
  pa_spine_sets : EligibleSpineSets;
  pa_capacity : CapacitySummary;
  pa_explanation : list string;
  pa_links_examined : Z;
  pa_evidence_required : bool
}.

Record FabricHealthReport := MkHealth {
  hr_health : FabricHealth;
  hr_code : StatusCode;
  hr_summary : string;
  hr_reasons : list string;
  hr_leaves_total : Z;
  hr_leaves_serving : Z;
  hr_leaves_isolated : Z;
  hr_leaves_indeterminate : Z;
  hr_spines_total : Z;
  hr_spines_serving : Z;
  hr_spines_failed : Z;
  hr_spines_draining : Z;
  hr_disabled_links : Z;
  hr_generation : TopologyGeneration;
  hr_epoch : Epoch;
  hr_controller : ControllerIncarnation;
  hr_topology_digest : Digest
}.

(** ** The engine *)

Record EligibilityEngine := MkEngine { en_index : TopologyIndex; en_controller : ControllerIncarnation }.
Definition en_fabric (en : EligibilityEngine) : Fabric := ix_fabric (en_index en).

Definition requires_evidence (en : EligibilityEngine) (c : PathConstraints) : bool :=
  pc_require_evidence c || bool_decide (evidence_policy (fab_options (en_fabric en)) = EP_RequireFresh).

(** Lexicographic order of vectors of identifiers. *)
Fixpoint ids_lt (a b : list Z) : bool :=
  match a, b with
  | _, [] => false
  | [], _ :: _ => true
  | x :: a, y :: b => (x <? y) || ((x =? y) && ids_lt a b)
  end.

Definition set_is_better (candidate incumbent : EligibleSpineSet) : bool :=
  if negb (set_total candidate =? set_total incumbent)
  then set_total candidate >? set_total incumbent
  else ids_lt (set_spines candidate) (set_spines incumbent).

Definition describe_spine (e : SpineEligibility) : string :=
  SpineId_to_string (se_spine e) +:+ " domain=" +:+ std_to_string (se_domain e) +:+ " capacity_mbps="
  +:+ std_to_string (se_capacity e) +:+ " verdict=" +:+ EligibilityVerdict_to_string (se_verdict e)
  +:+ " code=" +:+ StatusCode_to_string (se_code e) +:+ " evidence="
  +:+ EvidenceFreshness_to_string (se_freshness e)
  +:+ (if bool_decide (se_detail e = "") then "" else " (" +:+ se_detail e +:+ ")").

(** *** One uplink

    [decided] fills the result the way every return of the function does. *)
Definition evaluate_uplink (en : EligibilityEngine) (leaf : LeafId) (uplink : Adjacency)
    (c : PathConstraints) : Outcome SpineEligibility :=
  let f := en_fabric en in
  let id := index (adj_peer uplink) in
  let decided structural domain fresh verdict code detail :=
    Value (MkSE id verdict code structural fresh (adj_speed uplink) domain detail) in
  match find_spine f id with
  | None => decided false 0 EF_Absent EV_Ineligible SC_DanglingEdge "spine does not exist in this generation"
  | Some spine =>
  match find_leaf f leaf with
  | None => decided false (spine_domain spine) EF_Absent EV_Ineligible SC_NotFound
              "leaf does not exist in this generation"
  | Some leaf_record =>
  let decided structural := decided structural (spine_domain spine) in
  if negb (state_is_serving (leaf_state leaf_record)) then
    decided true EF_Absent EV_Ineligible SC_Refused
      ("leaf is in state " +:+ NodeState_to_string (leaf_state leaf_record))
  else if bool_decide (spine_state spine = NS_Draining) then
    decided true EF_Absent EV_Ineligible SC_Refused "spine is draining"
  else if negb (state_is_serving (spine_state spine)) then
    decided true EF_Absent EV_Ineligible SC_Refused
      ("spine is in state " +:+ NodeState_to_string (spine_state spine))
  else
  match find_port f (adj_local_port uplink), find_port f (adj_peer_port uplink) with
  | Some local_port, Some peer_port =>
      if negb (bool_decide (port_admin local_port = PA_Enabled))
         || negb (bool_decide (port_admin peer_port = PA_Enabled)) then
        decided true EF_Absent EV_Ineligible SC_Refused "an endpoint port is administratively disabled"
      else
      let evidence_required := requires_evidence en c in
      match evidence_for f (adj_link uplink) with
      | Failure st =>
          if bool_decide (code st = SC_Conflicting) then
            decided true EF_Absent EV_Indeterminate SC_Conflicting (detail st)
          else if evidence_required then
            decided true EF_Absent EV_Indeterminate SC_Incomplete "no observed evidence for this link"
          else decided true EF_Absent EV_Eligible SC_Ok ""
      | Value record =>
          let freshness := evidence_freshness f record (en_controller en) (fab_epoch f) in
          if negb (bool_decide (freshness = EF_Fresh)) then
            if evidence_required then
              decided true freshness EV_Indeterminate SC_Stale
                "observed evidence was produced by an earlier incarnation, epoch, or generation"
            else decided true freshness EV_Eligible SC_Ok ""
          else match ev_observed record with
          | LO_Up => decided true freshness EV_Eligible SC_Ok ""
          | LO_Down => decided true freshness EV_Ineligible SC_Refused "link is observed down"
          | LO_Unknown => decided true freshness EV_Indeterminate SC_Indeterminate
                            "the observer could not determine the link state"
          end
      end
  | _, _ => decided false EF_Absent EV_Ineligible SC_DanglingEdge "link endpoint port does not exist"
  end
  end
  end.

(** *** The uplinks of a leaf

    The token is polled before every 64th uplink. *)
Definition poll_when (b : bool) : Poll bool := if b then cancelled else mret false.

Fixpoint evaluate_each (en : EligibilityEngine) (leaf : LeafId) (c : PathConstraints)
    (uplinks : list Adjacency) (processed : Z) (out : list SpineEligibility)
    : Poll (Outcome (list SpineEligibility)) :=
  match uplinks with
  | [] => mret (Value out)
  | uplink :: rest =>
      stop ← poll_when (Z.land processed 63 =? 0);
      if (stop : bool) then mret (fail SC_Cancelled "eligibility evaluation was cancelled")
      else
        let processed := wrap 32 (processed + 1) in
        if negb (bool_decide (tier (adj_peer uplink) = T_Spine))
        then evaluate_each en leaf c rest processed out
        else match evaluate_uplink en leaf uplink c with
        | Failure st => mret (Failure st)
        | Value entry => evaluate_each en leaf c rest processed (out ++ [entry])
        end
  end.

Definition evaluate_uplinks (en : EligibilityEngine) (leaf : LeafId) (c : PathConstraints)
    : Poll (Outcome (list SpineEligibility)) :=
  evaluate_each en leaf c (uplinks (en_index en) leaf) 0 [].

Definition eligible_spines_for_leaf (en : EligibilityEngine) (leaf : LeafId) (c : PathConstraints)
    : Poll (Outcome (list SpineEligibility)) :=
  match find_leaf (en_fabric en) leaf with
  | None => mret (fail SC_NotFound ("leaf " +:+ LeafId_to_string leaf +:+ " does not exist"))
  | Some _ => evaluate_uplinks en leaf c
  end.

(** *** Spine sets *)

Definition kMaxExaminedCombinations : Z := 4096.

(** The elements of a [std::set] of identifiers. *)
Definition id_set (l : list Z) : list Z := unique (merge_sort Z.le l).

Definition better_order (a b : EligibleSpineSet) : Prop := set_is_better b a = false.
#[export] Instance better_order_dec a b : Decision (better_order a b).
Proof. unfold better_order. apply _. Defined.

(** Unchecked 64-bit accumulation of the capacities. *)
Definition total_capacity (entries : list SpineEligibility) : Z :=
  fold_left (fun t e => wrap 64 (t + se_capacity e)) entries 0.

(** The set made of the chosen entries, one per domain. *)
Definition set_of (current : list SpineEligibility) : EligibleSpineSet :=
  MkSet (merge_sort Z.le (se_spine <$> current)) (merge_sort Z.le (se_domain <$> current))
    (total_capacity current) (wrap 32 (Zlen current)).

(** [domains.push_back] unless [std::find] sees the domain already. *)
Definition push_distinct (l : list Z) (d : Z) : list Z := if bool_decide (d ∈ l) then l else l ++ [d].

Definition whole_set (pool : list SpineEligibility) : EligibleSpineSet :=
  MkSet (merge_sort Z.le (se_spine <$> pool))
    (merge_sort Z.le (fold_left push_distinct (se_domain <$> pool) []))
    (total_capacity pool) (wrap 32 (Zlen (id_set (se_domain <$> pool)))).

Definition group_by_domain (pool : list SpineEligibility) : gmap Z (list SpineEligibility) :=
  fold_left (fun m e => <[se_domain e := default [] (m !! se_domain e) ++ [e]]> m) pool ∅.

Fixpoint count_combinations (groups : list (Z * list SpineEligibility)) (acc : Z) : bool * Z :=
  match groups with
  | [] => (false, acc)
  | (_, entries) :: rest =>
      match checked_mul acc (Zlen entries) with
      | None => (true, u64_max)
      | Some next => count_combinations rest next
      end
  end.

(** The recursive lambda: one entry of each domain in turn. *)
Fixpoint each_entry {C} (visit : SpineEligibility -> C -> Poll C) (es : list SpineEligibility) (cs : C) : Poll C :=
  match es with
  | [] => mret cs
  | e :: es => cs ← visit e cs; each_entry visit es cs
  end.

Fixpoint enumerate (groups : list (Z * list SpineEligibility)) (current : list SpineEligibility)
    (candidates : list EligibleSpineSet) : Poll (list EligibleSpineSet) :=
  stop ← cancelled;
  if (stop : bool) then mret candidates
  else match groups with
  | [] => mret (candidates ++ [set_of current])
  | (_, entries) :: rest =>
      each_entry (fun e cs => enumerate rest (current ++ [e]) cs) entries candidates
  end.

Definition greedy_step (best : option SpineEligibility) (e : SpineEligibility) : option SpineEligibility :=
  match best with
  | None => Some e
  | Some b =>
      if (se_capacity e >? se_capacity b) || ((se_capacity e =? se_capacity b) && (se_spine e <? se_spine b))
      then Some e else best
  end.

Definition greedy_pick (entries : list SpineEligibility) : option SpineEligibility :=
  fold_left greedy_step entries None.

(** The greedy set: the best entry of every group that has one. The pushed domain is
    the group's key. *)
Definition greedy_set (groups : list (Z * list SpineEligibility)) : EligibleSpineSet :=
  let picks := omap (fun g => (fun b => (g.1, b)) <$> greedy_pick g.2) groups in
  MkSet (merge_sort Z.le ((fun p => se_spine p.2) <$> picks)) (merge_sort Z.le picks.*1)
    (total_capacity picks.*2) (wrap 32 (Zlen picks)).

Definition select_spine_sets (eligible : list SpineEligibility) (c : PathConstraints)
    : Poll EligibleSpineSets :=
  let pool := filter (fun e => se_verdict e = EV_Eligible) eligible in
  if bool_decide (pool = []) then mret no_sets
  else if negb (pc_domain_diversity c) then mret (MkSets [whole_set pool] false 1)
  else
    let groups := ordered (group_by_domain pool) in
    let '(overflow, combinations) := count_combinations groups 1 in
    let exhaustive := negb overflow && (combinations <=? kMaxExaminedCombinations) in
    candidates ← (if exhaustive then enumerate groups [] [] else mret [greedy_set groups]);
    stop ← cancelled;
    if (stop : bool) then mret (MkSets [] true combinations)
    else
      let sorted := merge_sort better_order candidates in
      let limit := if pc_max_sets c =? 0 then 1 else pc_max_sets c in
      mret (MkSets (take (Z.to_nat limit) sorted) (negb exhaustive || (limit <? Zlen sorted)) combinations).

(** *** Assessments

    The record is filled as the code goes; [conclude] sets the verdict, the code
    and appends one line of explanation. *)
Definition conclude (v : EligibilityVerdict) (k : StatusCode) (line : list string) (a : PathAssessment)
    : PathAssessment :=
  MkAssessment (pa_from a) (pa_to a) (pa_cls a) v k (pa_generation a) (pa_epoch a) (pa_controller a)
    (pa_topology_digest a) (pa_eligible_spines a) (pa_covered_domains a) (pa_domain_loss_tolerance a)
    (pa_spine_sets a) (pa_capacity a) (pa_explanation a ++ line) (pa_links_examined a) (pa_evidence_required a).

Definition with_capacity (cap : CapacitySummary) (a : PathAssessment) : PathAssessment :=
  MkAssessment (pa_from a) (pa_to a) (pa_cls a) (pa_verdict a) (pa_code a) (pa_generation a) (pa_epoch a)
    (pa_controller a) (pa_topology_digest a) (pa_eligible_spines a) (pa_covered_domains a)
    (pa_domain_loss_tolerance a) (pa_spine_sets a) cap (pa_explanation a) (pa_links_examined a)
    (pa_evidence_required a).

Definition with_cls (k : ReachabilityClass) (a : PathAssessment) : PathAssessment :=
  MkAssessment (pa_from a) (pa_to a) k (pa_verdict a) (pa_code a) (pa_generation a) (pa_epoch a)
    (pa_controller a) (pa_topology_digest a) (pa_eligible_spines a) (pa_covered_domains a)
    (pa_domain_loss_tolerance a) (pa_spine_sets a) (pa_capacity a) (pa_explanation a) (pa_links_examined a)
    (pa_evidence_required a).

Definition with_result (spines : list SpineId) (doms : list FailureDomainId) (tolerance : Z)
    (ss : EligibleSpineSets) (examined : Z) (a : PathAssessment) : PathAssessment :=
  MkAssessment (pa_from a) (pa_to a) (pa_cls a) (pa_verdict a) (pa_code a) (pa_generation a) (pa_epoch a)
    (pa_controller a) (pa_topology_digest a) spines doms tolerance ss (pa_capacity a) (pa_explanation a)
    examined (pa_evidence_required a).

Definition begin_assessment (en : EligibilityEngine) (from to : NodeKey) (c : PathConstraints) : PathAssessment :=
  let f := en_fabric en in
  MkAssessment from to (structural_class (en_index en) from to) EV_Ineligible SC_Ok
    (fab_generation f) (fab_epoch f) (en_controller en) (topology_digest f) [] [] 0 no_sets empty_capacity [] 0
    (requires_evidence en c).

(** The branch for a direct peer link. The dereference of an absent adjacency cannot
    happen, because the class is [DirectPeer]; the model answers the port refusal. *)
Definition assess_direct_peer (en : EligibilityEngine) (c : PathConstraints) (a : PathAssessment)
    : PathAssessment :=
  let f := en_fabric en in
  if negb (pc_allow_peer_paths c)
  then conclude EV_Ineligible SC_Refused ["peer paths are excluded by the query constraints"] a
  else
  let disabled := conclude EV_Ineligible SC_Refused ["peer link endpoint port is administratively disabled"] a in
  match adjacency_between (en_index en) (pa_from a) (pa_to a) with
  | None => disabled
  | Some adjacency =>
  match find_port f (adj_local_port adjacency), find_port f (adj_peer_port adjacency) with
  | Some local, Some peer =>
      if negb (bool_decide (port_admin local = PA_Enabled)) || negb (bool_decide (port_admin peer = PA_Enabled))
      then disabled
      else
      let eligible :=
        let speed := adj_speed adjacency in
        let cap := with_cap_status SC_Ok (cap_detail (pa_capacity a)) (with_access 0 (pa_capacity a)) in
        let cap := (capacity_add_downlink cap speed).2 in
        let cap := (capacity_add_uplink cap speed).2 in
        conclude EV_Eligible SC_Ok
          ["direct peer link " +:+ LinkId_to_string (adj_link adjacency) +:+ " at " +:+ std_to_string speed
           +:+ " Mbps"] (with_capacity (capacity_finalize cap) a) in
      if negb (pa_evidence_required a) then eligible
      else match evidence_for f (adj_link adjacency) with
      | Failure st => conclude EV_Indeterminate (code st) ["peer link has no usable evidence: " +:+ detail st] a
      | Value record =>
          if negb (bool_decide (evidence_freshness f record (en_controller en) (fab_epoch f) = EF_Fresh))
          then conclude EV_Indeterminate SC_Stale ["peer link evidence is historical"] a
          else match ev_observed record with
          | LO_Up => eligible
          | LO_Down => conclude EV_Ineligible SC_Refused ["peer link is not observed up"] a
          | LO_Unknown => conclude EV_Ineligible SC_Indeterminate ["peer link is not observed up"] a
          end
      end
  | _, _ => disabled
  end
  end.

(** The loop that pairs the uplinks of both leaves by spine. *)
Record PairScan := MkScan {
  ps_eligible : list SpineEligibility;
  ps_indeterminate : Z;
  ps_ineligible : Z;
  ps_examined : Z;
  ps_lines : list string
}.

Definition spine_map (entries : list SpineEligibility) : gmap Z SpineEligibility :=
  fold_left (fun m e => <[se_spine e := e]> m) entries ∅.

Definition combine_entries (other entry : SpineEligibility) : SpineEligibility :=
  MkSE (se_spine other) (se_verdict other) (se_code other) (se_structural_ok other) (se_freshness other)
    (Z.min (se_capacity other) (se_capacity entry)) (se_domain other) "eligible on both sides".

Definition scan_entry (from_map : gmap Z SpineEligibility) (c : PathConstraints) (s : PairScan)
    (entry : SpineEligibility) : PairScan :=
  match from_map !! se_spine entry with
  | None => s
  | Some other =>
      let examined := wrap 64 (ps_examined s + 1) in
      if bool_decide (se_verdict other = EV_Eligible) && bool_decide (se_verdict entry = EV_Eligible)
      then MkScan (ps_eligible s ++ [combine_entries other entry]) (ps_indeterminate s) (ps_ineligible s)
             examined (ps_lines s)
      else
        let combined := if bool_decide (se_verdict other = EV_Eligible) then entry else other in
        let undecided := bool_decide (se_verdict combined = EV_Indeterminate) in
        MkScan (ps_eligible s)
          (if undecided then wrap 32 (ps_indeterminate s + 1) else ps_indeterminate s)
          (if undecided then ps_ineligible s else wrap 32 (ps_ineligible s + 1))
          examined
          (if Zlen (ps_lines s) <? pc_max_explanations c
           then ps_lines s ++ ["spine " +:+ describe_spine combined +:+ " excluded"] else ps_lines s)
  end.

Definition scan_pairs (from_entries to_entries : list SpineEligibility) (c : PathConstraints) : PairScan :=
  fold_left (scan_entry (spine_map from_entries) c) to_entries (MkScan [] 0 0 0 []).

(** Access capacity of both leaves, then every pair's uplink and spine capacity. *)
Definition add_pair_capacity (f : Fabric) (cap : CapacitySummary) (e : SpineEligibility) : CapacitySummary :=
  let cap := (capacity_add_uplink cap (se_capacity e)).2 in
  match find_spine f (se_spine e) with
  | None => cap
  | Some spine =>
      match checked_add (spine_capacity_mbps cap) (spine_fabric_capacity spine) with
      | Some next => with_spines next (cap_spine_count cap) cap
      | None => with_cap_status SC_Overflow (cap_detail cap) cap
      end
  end.

Definition pair_capacity (f : Fabric) (from to : LeafRecord) (pairs : list SpineEligibility) : CapacitySummary :=
  let cap := with_access 0 empty_capacity in
  let cap := match checked_add (leaf_access_capacity from) (leaf_access_capacity to) with
             | Some access => with_access access cap
             | None => with_cap_status SC_Overflow "access capacity aggregate overflowed" cap
             end in
  let cap := fold_left (add_pair_capacity f) pairs cap in
  capacity_finalize (with_spines (spine_capacity_mbps cap) (wrap 32 (Zlen pairs)) cap).

(** The constraints of the query on the spines found; [Failure] when the ratio cannot
    be compared. *)
Definition required_spines (c : PathConstraints) : Z :=
  if pc_min_eligible_spines c =? 0 then 1 else pc_min_eligible_spines c.

Definition constraints_met (c : PathConstraints) (eligible_count : Z) (covered : list FailureDomainId)
    (cap : CapacitySummary) : Outcome bool :=
  let met := (required_spines c <=? eligible_count)
             && negb (pc_domain_diversity c && (Zlen covered <? required_spines c))
             && negb (negb (pc_min_total_capacity_mbps c =? 0)
                      && (uplink_capacity_mbps cap <? pc_min_total_capacity_mbps c)) in
  match pc_max_oversubscription c with
  | Some bound =>
      if 0 <? uplink_count cap then
        ordering ← rational_compare (oversubscription cap) bound;
        Value (met && negb (0 <? ordering))
      else Value met
  | None => Value met
  end.

Definition refine_class (k : ReachabilityClass) (eligible_count : Z) : ReachabilityClass :=
  if bool_decide (k = RC_LeafLeafSingleSpine) || bool_decide (k = RC_LeafLeafMultiSpine) then
    if 2 <=? eligible_count then RC_LeafLeafMultiSpine
    else if eligible_count =? 1 then RC_LeafLeafSingleSpine else k
  else k.

(** The lines after the first of an eligible answer. *)
Fixpoint explain_entries (limit : Z) (entries : list SpineEligibility) (lines : list string) : list string :=
  match entries with
  | [] => lines
  | e :: rest => if limit <=? Zlen lines then lines
                 else explain_entries limit rest (lines ++ ["spine " +:+ describe_spine e])
  end.

Definition conclude_pair (en : EligibilityEngine) (c : PathConstraints) (s : PairScan) (a : PathAssessment)
    : PathAssessment :=
  let f := en_fabric en in
  let eligible_count := wrap 32 (Zlen (pa_eligible_spines a)) in
  match constraints_met c eligible_count (pa_covered_domains a) (pa_capacity a) with
  | Failure st => conclude EV_Indeterminate (code st) ["oversubscription comparison overflowed"] a
  | Value met =>
      let a := with_cls (refine_class (pa_cls a) eligible_count) a in
      if negb met && (eligible_count =? 0) then
        if (0 <? ps_indeterminate s) && (ps_ineligible s =? 0) then
          conclude EV_Indeterminate SC_Incomplete
            ["every shared spine is undecided: required evidence is missing or stale"] a
        else if 0 <? ps_indeterminate s then
          conclude EV_Indeterminate SC_Conflicting ["no shared spine is eligible, and some are undecided"] a
        else conclude EV_Ineligible SC_Refused ["no shared spine satisfies the constraints"] a
      else if negb met then
        conclude EV_Ineligible SC_Refused
          ["the eligible spine set does not satisfy the query constraints"] a
      else if 0 <? ps_indeterminate s then
        conclude EV_Indeterminate SC_Incomplete
          ["eligible spines satisfy the constraints, but some shared spines are undecided because evidence is missing or stale"] a
      else
        let first := "generation=" +:+ std_to_string (fab_generation f) +:+ " digest="
                     +:+ short_hex 8 (topology_digest f) +:+ " epoch=" +:+ std_to_string (fab_epoch f) in
        let lines := explain_entries (pc_max_explanations c) (ps_eligible s) (pa_explanation a ++ [first]) in
        conclude EV_Eligible SC_Ok (drop (List.length (pa_explanation a)) lines) a
  end.

(** Everything the pair computation fills in before the verdict. *)
Definition pair_assessment (en : EligibilityEngine) (from to : LeafRecord) (s : PairScan)
    (ss : EligibleSpineSets) (a : PathAssessment) : PathAssessment :=
  let pairs := ps_eligible s in
  let covered := id_set (se_domain <$> pairs) in
  let a := conclude (pa_verdict a) (pa_code a) (ps_lines s) a in
  with_capacity (pair_capacity (en_fabric en) from to pairs)
    (with_result (merge_sort Z.le (se_spine <$> pairs)) covered
       (if bool_decide (covered = []) then 0 else wrap 32 (Zlen covered - 1)) ss (ps_examined s) a).

Definition assess_leaf_pair (en : EligibilityEngine) (from to : LeafId) (c : PathConstraints)
    : Poll (Outcome PathAssessment) :=
  let f := en_fabric en in
  match find_leaf f from with
  | None => mret (fail SC_NotFound ("leaf " +:+ LeafId_to_string from +:+ " does not exist"))
  | Some from_record =>
  match find_leaf f to with
  | None => mret (fail SC_NotFound ("leaf " +:+ LeafId_to_string to +:+ " does not exist"))
  | Some to_record =>
  let a := begin_assessment en (node_of_leaf from) (node_of_leaf to) c in
  if from =? to then
    mret (Value (conclude EV_Ineligible SC_Invalid ["a node is not a path to itself"] a))
  else match pa_cls a with
  | RC_DirectLeafSpine | RC_LeafSpineViaPeer | RC_SpineSpineViaLeaf =>
      mret (Value (conclude EV_Indeterminate SC_Unsupported
        ["operational eligibility of a peer-assisted path is outside the modelled scope; use assess_leaf_to_spine for direct leaf-to-spine questions"] a))
  | RC_Unreachable =>
      mret (Value (conclude EV_Ineligible SC_NotFound
        ["no structural path between the endpoints in this generation"] a))
  | RC_DirectPeer => mret (Value (assess_direct_peer en c a))
  | _ =>
      from_entry ← evaluate_uplinks en from c;
      match from_entry with
      | Failure st => mret (Failure st)
      | Value from_entries =>
          to_entry ← evaluate_uplinks en to c;
          match to_entry with
          | Failure st => mret (Failure st)
          | Value to_entries =>
              let s := scan_pairs from_entries to_entries c in
              ss ← select_spine_sets (ps_eligible s) c;
              mret (Value (conclude_pair en c s (pair_assessment en from_record to_record s ss a)))
          end
      end
  end
  end
  end.

(** The first uplink of the leaf that ends at the spine decides. *)
Definition assess_first_uplink (en : EligibilityEngine) (spine : SpineRecord) (c : PathConstraints)
    (uplink : Adjacency) (from : LeafId) (a : PathAssessment) : Outcome PathAssessment :=
  result ← evaluate_uplink en from uplink c;
  let eligible := bool_decide (se_verdict result = EV_Eligible) in
  let cap := pa_capacity a in
  let cap :=
    if eligible then
      let cap := (capacity_add_uplink cap (se_capacity result)).2 in
      let cap := (capacity_add_downlink cap (se_capacity result)).2 in
      let total := match checked_add (spine_capacity_mbps cap) (spine_fabric_capacity spine) with
                   | Some next => next
                   | None => spine_capacity_mbps cap
                   end in
      with_spines total 1 cap
    else cap in
  let ss := if eligible then (select_spine_sets [result] c live_token 0%nat).1 else pa_spine_sets a in
  let a := with_capacity (capacity_finalize cap)
             (with_result (pa_eligible_spines a ++ [se_spine result]) (pa_covered_domains a ++ [se_domain result])
                (pa_domain_loss_tolerance a) ss (wrap 64 (pa_links_examined a + 1)) a) in
  Value (conclude (se_verdict result) (se_code result)
    (if Zlen (pa_explanation a) <? pc_max_explanations c then ["spine " +:+ describe_spine result] else []) a).

Definition assess_leaf_to_spine (en : EligibilityEngine) (from : LeafId) (to : SpineId) (c : PathConstraints)
    : Outcome PathAssessment :=
  let f := en_fabric en in
  match find_leaf f from with
  | None => fail SC_NotFound ("leaf " +:+ LeafId_to_string from +:+ " does not exist")
  | Some leaf =>
  match find_spine f to with
  | None => fail SC_NotFound ("spine " +:+ SpineId_to_string to +:+ " does not exist")
  | Some spine =>
  let a := begin_assessment en (node_of_leaf from) (node_of_spine to) c in
  let a := with_capacity (with_access (leaf_access_capacity leaf) (pa_capacity a)) a in
  match pa_cls a with
  | RC_DirectLeafSpine =>
      match List.find (fun u => bool_decide (adj_peer u = node_of_spine to)) (uplinks (en_index en) from) with
      | Some uplink => assess_first_uplink en spine c uplink from a
      | None => Value (conclude EV_Ineligible SC_NotFound
                  ["the structural index contains no adjacency for this pair"] a)
      end
  | RC_Unreachable =>
      Value (conclude EV_Ineligible SC_NotFound ["leaf and spine are not adjacent in this generation"] a)
  | _ => Value (conclude EV_Indeterminate SC_Unsupported
           ["only direct leaf-to-spine adjacency is evaluated for eligibility"] a)
  end
  end
  end.

(** *** Fabric health *)

(** The counters of the loop over the leaves. *)
Record HealthScan := MkHealthScan {
  hs_serving : Z;
  hs_isolated : Z;
  hs_indeterminate : Z;
  hs_reasons : list string
}.

Definition count_verdict (v : EligibilityVerdict) (entries : list SpineEligibility) : Z :=
  fold_left (fun n e => if bool_decide (se_verdict e = v) then wrap 32 (n + 1) else n) entries 0.

Definition push_reason (reasons : list string) (line : string) : list string :=
  if Zlen reasons <? 16 then reasons ++ [line] else reasons.

Definition classify_leaf (required : Z) (s : HealthScan) (leaf : LeafRecord) (entries : list SpineEligibility)
    : HealthScan :=
  let eligible := count_verdict EV_Eligible entries in
  let indeterminate := count_verdict EV_Indeterminate entries in
  let name := LeafId_to_string (leaf_id leaf) in
  if state_is_serving (leaf_state leaf) && (required <=? eligible) then
    MkHealthScan (wrap 32 (hs_serving s + 1)) (hs_isolated s) (hs_indeterminate s) (hs_reasons s)
  else if negb (state_is_serving (leaf_state leaf)) then
    MkHealthScan (hs_serving s) (wrap 32 (hs_isolated s + 1)) (hs_indeterminate s)
      (push_reason (hs_reasons s) (name +:+ " is in state " +:+ NodeState_to_string (leaf_state leaf)))
  else if (eligible =? 0) && (0 <? indeterminate) then
    MkHealthScan (hs_serving s) (hs_isolated s) (wrap 32 (hs_indeterminate s + 1))
      (push_reason (hs_reasons s) (name +:+ " has no decided uplink: required evidence is missing or stale"))
  else
    MkHealthScan (hs_serving s) (wrap 32 (hs_isolated s + 1)) (hs_indeterminate s)
      (push_reason (hs_reasons s) (name +:+ " has " +:+ std_to_string eligible
         +:+ " eligible spine(s), fewer than the required " +:+ std_to_string required)).

Fixpoint scan_leaves (en : EligibilityEngine) (c : PathConstraints) (required : Z) (ls : list LeafRecord)
    (s : HealthScan) : Poll (Outcome HealthScan) :=
  match ls with
  | [] => mret (Value s)
  | leaf :: rest =>
      stop ← poll_when (wrap 32 (wrap 32 (hs_serving s + hs_isolated s) + hs_indeterminate s) mod 16 =? 0);
      if (stop : bool) then mret (fail SC_Cancelled "health evaluation was cancelled")
      else
        entries ← evaluate_uplinks en (leaf_id leaf) c;
        match entries with
        | Failure st => mret (Failure st)
        | Value entries => scan_leaves en c required rest (classify_leaf required s leaf entries)
        end
  end.

Definition count32 {A} (P : A -> bool) (l : list A) : Z := wrap 32 (Zlen (filter (fun x => P x = true) l)).

Definition health (en : EligibilityEngine) (c : PathConstraints) (controller : ControllerIncarnation)
    (epoch : Epoch) : Poll (Outcome FabricHealthReport) :=
  let f := en_fabric en in
  let report h k summary reasons serving isolated indeterminate spines_serving failed draining :=
    MkHealth h k summary reasons (wrap 32 (Zlen (leaves f))) serving isolated indeterminate
      (wrap 32 (Zlen (spines f))) spines_serving failed draining
      (count32 (fun l => bool_decide (link_admin l = LA_Disabled)) (links f))
      (fab_generation f) epoch controller (topology_digest f) in
  let early h summary := mret (Value (report h SC_Ok summary [] 0 0 0 0 0 0)) in
  if bool_decide (fab_state f = FS_Unformed) || bool_decide (leaves f = []) then
    early FH_Unformed "no topology has been formed"
  else if bool_decide (fab_state f = FS_Retired) then early FH_Retired "fabric is retired"
  else if bool_decide (fab_state f = FS_Draining) then early FH_Draining "fabric is administratively draining"
  else
    let failed := count32 (fun s => bool_decide (spine_state s = NS_Failed)) (spines f) in
    let draining := count32 (fun s => bool_decide (spine_state s = NS_Draining)) (spines f) in
    let serving := count32 (fun s => state_is_serving (spine_state s)) (spines f) in
    let required := required_spines c in
    scanned ← scan_leaves en c required (leaves f) (MkHealthScan 0 0 0 []);
    match scanned with
    | Failure st => mret (Failure st)
    | Value s =>
        let done h k summary :=
          mret (Value (report h k summary (hs_reasons s) (hs_serving s) (hs_isolated s) (hs_indeterminate s)
                  serving failed draining)) in
        if (0 <? hs_isolated s) || (0 <? failed) || (0 <? draining) then
          done FH_Degraded SC_Ok
            ("fabric is degraded: " +:+ std_to_string (hs_isolated s) +:+ " isolated leaf/leaves, "
             +:+ std_to_string failed +:+ " failed spine(s), " +:+ std_to_string draining
             +:+ " draining spine(s)")
        else if 0 <? hs_indeterminate s then
          done FH_Indeterminate SC_Indeterminate
            ("fabric health cannot be decided: " +:+ std_to_string (hs_indeterminate s)
             +:+ " leaf/leaves depend on evidence that is missing or stale")
        else
          done FH_Operational SC_Ok
            ("fabric is operational: all " +:+ std_to_string (hs_serving s) +:+ " leaves have at least "
             +:+ std_to_string required +:+ " eligible spine(s)")
    end.

(** *** Rendering *)

Definition assessment_summary (a : PathAssessment) : string :=
  NodeKey_to_string (pa_from a) +:+ " -> " +:+ NodeKey_to_string (pa_to a) +:+ ": "
  +:+ EligibilityVerdict_to_string (pa_verdict a) +:+ " (" +:+ StatusCode_to_string (pa_code a) +:+ ") class="
  +:+ ReachabilityClass_to_string (pa_cls a) +:+ " spines=" +:+ std_to_string (Zlen (pa_eligible_spines a))
  +:+ " domains=" +:+ std_to_string (Zlen (pa_covered_domains a)) +:+ " diversity_tolerance="
  +:+ std_to_string (pa_domain_loss_tolerance a).
