(* ===== verification/EligibilitySpec.v ===== *)
(** * What the eligibility engine answers (src/eligibility.cpp)

    The verdict on one uplink, the choice of spine sets, the verdict on a pair of
    leaves and the health of the fabric, each characterised independently of the
    order of the tests in the code. *)
From S2P Require Import Prelude Status Checked Identity Digest Capacity Model Builder BuilderSpec Sample Freeze CodecSpec Topology TopologySpec Eligibility.

(** ** One uplink *)

(** Both ends exist and serve, and both ports are enabled. *)
Definition admissible (f : Fabric) (leaf : LeafId) (u : Adjacency) : Prop :=
  exists sp lf p q,
    find_spine f (index (adj_peer u)) = Some sp /\ find_leaf f leaf = Some lf
    /\ leaf_state lf = NS_Active /\ spine_state sp = NS_Active
    /\ find_port f (adj_local_port u) = Some p /\ find_port f (adj_peer_port u) = Some q
    /\ port_admin p = PA_Enabled /\ port_admin q = PA_Enabled.

(** The newest observation of the link was made by this controller, at this
    generation and epoch. *)
Definition fresh_observation (en : EligibilityEngine) (link : LinkId) (o : LinkObservation) : Prop :=
  exists r, evidence_for (en_fabric en) link = Value r /\ ev_observed r = o
    /\ evidence_freshness (en_fabric en) r (en_controller en) (fab_epoch (en_fabric en)) = EF_Fresh.

(** Evidence leaves the link undecided: it conflicts, says nothing, or is required
    and not fresh. *)
Definition undecided (en : EligibilityEngine) (c : PathConstraints) (link : LinkId) : Prop :=
  outcome_code (evidence_for (en_fabric en) link) = SC_Conflicting
  \/ fresh_observation en link LO_Unknown
  \/ (requires_evidence en c = true /\ forall o, ~ fresh_observation en link o).

Definition entry_of (en : EligibilityEngine) (leaf : LeafId) (c : PathConstraints) (u : Adjacency)
    : SpineEligibility :=
  match evaluate_uplink en leaf u c with
  | Value r => r
  | Failure st => MkSE 0 EV_Ineligible (code st) false EF_Absent 0 0 (detail st)
  end.

Lemma evaluate_uplink_total en leaf c u : evaluate_uplink en leaf u c = Value (entry_of en leaf c u).
Proof.
  unfold entry_of. destruct (evaluate_uplink en leaf u c) as [r|st] eqn:E; [done|].
  exfalso. unfold evaluate_uplink in E. by split_cases.
Qed.

Lemma evaluate_uplink_fields en leaf c u :
  se_spine (entry_of en leaf c u) = index (adj_peer u) /\ se_capacity (entry_of en leaf c u) = adj_speed u.
Proof.
  unfold entry_of. destruct (evaluate_uplink en leaf u c) as [r|st] eqn:E.
  - unfold evaluate_uplink in E. by split_cases.
  - by rewrite evaluate_uplink_total in E.
Qed.

(** Two answers of the evidence table cannot both hold. *)
Lemma fresh_observation_unique en link o o' : fresh_observation en link o -> fresh_observation en link o' -> o = o'.
Proof. intros (r & H & <- & _) (r' & H' & <- & _). rewrite H in H'. by injection H' as <-. Qed.

(** The part of [evaluate_uplink] behind the administrative tests. *)
Lemma evaluate_uplink_admissible en leaf c u :
  admissible (en_fabric en) leaf u ->
  se_verdict (entry_of en leaf c u) =
    match evidence_for (en_fabric en) (adj_link u) with
    | Failure st => if decide (code st = SC_Conflicting) then EV_Indeterminate
                    else if requires_evidence en c then EV_Indeterminate else EV_Eligible
    | Value r =>
        if decide (evidence_freshness (en_fabric en) r (en_controller en) (fab_epoch (en_fabric en)) = EF_Fresh)
        then match ev_observed r with LO_Up => EV_Eligible | LO_Down => EV_Ineligible | LO_Unknown => EV_Indeterminate end
        else if requires_evidence en c then EV_Indeterminate else EV_Eligible
    end.
Proof.
  intros (sp & lf & p & q & H1 & H2 & H3 & H4 & H5 & H6 & H7 & H8). unfold entry_of, evaluate_uplink.
  rewrite H1, H2, H5, H6, H3, H4, H7, H8. unfold state_is_serving. cbn.
  destruct (evidence_for _ _) as [r|st].
  - case_decide as D; [rewrite (bool_decide_true _ D)|rewrite (bool_decide_false _ D)]; cbn.
    + by destruct (ev_observed r).
    + by destruct (requires_evidence en c).
  - case_decide as D; [by rewrite (bool_decide_true _ D)|rewrite (bool_decide_false _ D)].
    by destruct (requires_evidence en c).
Qed.

Lemma evaluate_uplink_inadmissible en leaf c u :
  ~ admissible (en_fabric en) leaf u -> se_verdict (entry_of en leaf c u) = EV_Ineligible.
Proof.
  intros Hn. unfold entry_of, evaluate_uplink.
  destruct (find_spine _ _) as [sp|] eqn:H1; [|done]. destruct (find_leaf _ _) as [lf|] eqn:H2; [|done].
  unfold state_is_serving. repeat (case_bool_decide; cbn [negb orb]; try done).
  destruct (find_port _ (adj_local_port u)) as [p|] eqn:H5; [|done].
  destruct (find_port _ (adj_peer_port u)) as [q|] eqn:H6; [|done].
  repeat (case_bool_decide; cbn [negb orb]; try done).
  exfalso. apply Hn. by exists sp, lf, p, q.
Qed.

Lemma admissible_dec f leaf u : admissible f leaf u \/ ~ admissible f leaf u.
Proof.
  unfold admissible. destruct (find_spine _ _) as [sp|]; [|right; naive_solver].
  destruct (find_leaf _ _) as [lf|]; [|right; naive_solver].
  destruct (find_port _ (adj_local_port u)) as [p|]; [|right; naive_solver].
  destruct (find_port _ (adj_peer_port u)) as [q|]; [|right; naive_solver].
  destruct (decide (leaf_state lf = NS_Active /\ spine_state sp = NS_Active
    /\ port_admin p = PA_Enabled /\ port_admin q = PA_Enabled)); [left|right]; naive_solver.
Qed.

Lemma fresh_observation_iff en link o :
  fresh_observation en link o <->
  match evidence_for (en_fabric en) link with
  | Failure _ => False
  | Value r => ev_observed r = o
      /\ evidence_freshness (en_fabric en) r (en_controller en) (fab_epoch (en_fabric en)) = EF_Fresh
  end.
Proof. unfold fresh_observation. destruct (evidence_for _ _); naive_solver. Qed.

Lemma undecided_iff en c link :
  undecided en c link <->
  match evidence_for (en_fabric en) link with
  | Failure st => code st = SC_Conflicting \/ requires_evidence en c = true
  | Value r =>
      if decide (evidence_freshness (en_fabric en) r (en_controller en) (fab_epoch (en_fabric en)) = EF_Fresh)
      then ev_observed r = LO_Unknown else requires_evidence en c = true
  end.
Proof.
  unfold undecided, fresh_observation. destruct (evidence_for _ _) as [r|st]; [case_decide|]; naive_solver.
Qed.

Lemma verdict_eligible en leaf c u :
  se_verdict (entry_of en leaf c u) = EV_Eligible <->
  admissible (en_fabric en) leaf u /\ ~ undecided en c (adj_link u) /\ ~ fresh_observation en (adj_link u) LO_Down.
Proof.
  destruct (admissible_dec (en_fabric en) leaf u) as [Ha|Ha].
  - rewrite evaluate_uplink_admissible, undecided_iff, fresh_observation_iff by done.
    destruct (evidence_for _ _) as [r|st]; repeat case_decide; destruct (requires_evidence en c);
      try destruct (ev_observed r); intuition congruence.
  - rewrite evaluate_uplink_inadmissible by done. naive_solver.
Qed.

Lemma verdict_indeterminate en leaf c u :
  se_verdict (entry_of en leaf c u) = EV_Indeterminate <->
  admissible (en_fabric en) leaf u /\ undecided en c (adj_link u).
Proof.
  destruct (admissible_dec (en_fabric en) leaf u) as [Ha|Ha].
  - rewrite evaluate_uplink_admissible, undecided_iff by done.
    destruct (evidence_for _ _) as [r|st]; repeat case_decide; destruct (requires_evidence en c);
      try destruct (ev_observed r); intuition congruence.
  - rewrite evaluate_uplink_inadmissible by done. naive_solver.
Qed.

(** The verdict on an uplink. Evaluation always returns. The uplink is eligible
    exactly when both nodes and both ports are in service, evidence does not leave it
    undecided and no fresh observation says it is down; it is indeterminate exactly
    when nodes and ports are in service but evidence leaves it undecided. *)
Theorem evaluate_uplink_verdict en leaf c u :
  exists r, evaluate_uplink en leaf u c = Value r
    /\ se_spine r = index (adj_peer u) /\ se_capacity r = adj_speed u
    /\ (se_verdict r = EV_Eligible <->
          admissible (en_fabric en) leaf u /\ ~ undecided en c (adj_link u)
          /\ ~ fresh_observation en (adj_link u) LO_Down)
    /\ (se_verdict r = EV_Indeterminate <->
          admissible (en_fabric en) leaf u /\ undecided en c (adj_link u)).
Proof.
  exists (entry_of en leaf c u). split; [apply evaluate_uplink_total|].
  destruct (evaluate_uplink_fields en leaf c u). split; [done|]. split; [done|].
  split; [apply verdict_eligible|apply verdict_indeterminate].
Qed.

(** ** The uplinks of a leaf *)

Definition spine_uplinks (ix : TopologyIndex) (leaf : LeafId) : list Adjacency :=
  filter (fun u => tier (adj_peer u) = T_Spine) (uplinks ix leaf).

Definition entries_of (en : EligibilityEngine) (leaf : LeafId) (c : PathConstraints) : list SpineEligibility :=
  entry_of en leaf c <$> spine_uplinks (en_index en) leaf.

Lemma app_cons_snoc {A} (l k : list A) x : l ++ x :: k = (l ++ [x]) ++ k.
Proof. by rewrite <- (assoc_L (++)). Qed.

(** Cancellation is never a partial answer: the whole list or [Cancelled]. *)
Lemma evaluate_each_spec en leaf c us processed out t n :
  let r := (evaluate_each en leaf c us processed out t n).1 in
  r = Value (out ++ (entry_of en leaf c <$> filter (fun u => tier (adj_peer u) = T_Spine) us))
  \/ (exists k, t k = true) /\ r = fail SC_Cancelled "eligibility evaluation was cancelled".
Proof.
  cbv zeta. revert processed out n. induction us as [|u us IH]; intros processed out n; cbn [evaluate_each].
  - left. simpl. by rewrite app_nil_r.
  - unfold mbind, Poll_bind, poll_when. destruct (_ =? 0); cbn [cancelled mret Poll_ret].
    + unfold cancelled. destruct (t n) eqn:Et; [right; eauto|].
      rewrite filter_cons. case_bool_decide as D; cbn [negb].
      * rewrite decide_True, evaluate_uplink_total, fmap_cons, (app_cons_snoc out (_ <$> _)) by done. apply IH.
      * rewrite decide_False by done. apply IH.
    + unfold mret, Poll_ret. rewrite filter_cons. case_bool_decide as D; cbn [negb].
      * rewrite decide_True, evaluate_uplink_total, fmap_cons, (app_cons_snoc out (_ <$> _)) by done. apply IH.
      * rewrite decide_False by done. apply IH.
Qed.

Lemma evaluate_uplinks_spec en leaf c t n :
  (evaluate_uplinks en leaf c t n).1 = Value (entries_of en leaf c)
  \/ (exists k, t k = true) /\ (evaluate_uplinks en leaf c t n).1 = fail SC_Cancelled "eligibility evaluation was cancelled".
Proof. apply evaluate_each_spec. Qed.

Lemma evaluate_uplinks_live en leaf c t n :
  (forall k, t k = false) -> (evaluate_uplinks en leaf c t n).1 = Value (entries_of en leaf c).
Proof. intros Ht. destruct (evaluate_uplinks_spec en leaf c t n) as [?|[[k Hk] _]]; [done|]. by rewrite Ht in Hk. Qed.

(** ** Spine sets *)

(** One eligible entry for every failure domain of the pool, in domain order. *)
Definition diverse_choice (pool ch : list SpineEligibility) : Prop :=
  se_domain <$> ch = id_set (se_domain <$> pool) /\ forall e, e ∈ ch -> e ∈ pool.

Fixpoint choices (groups : list (Z * list SpineEligibility)) : list (list SpineEligibility) :=
  match groups with
  | [] => [[]]
  | g :: rest => concat ((fun e => cons e <$> choices rest) <$> g.2)
  end.

Lemma elem_of_choices groups ch : ch ∈ choices groups <-> Forall2 (fun g e => e ∈ g.2) groups ch.
Proof.
  revert ch. induction groups as [|g rest IH]; intros ch; cbn [choices].
  - rewrite list_elem_of_singleton. split; [intros ->; constructor|by inversion 1].
  - rewrite elem_of_concat. split.
    + intros (l & (e & -> & He)%list_elem_of_fmap & (r & -> & Hr)%list_elem_of_fmap).
      constructor; [done|]. by apply IH.
    + inversion 1 as [|? e ? r He Hr]; subst. exists (cons e <$> choices rest).
      split; [by apply (list_elem_of_fmap_2 (fun e => cons e <$> choices rest))|].
      by apply list_elem_of_fmap_2, IH.
Qed.

Lemma each_entry_live {C} (visit : SpineEligibility -> list C -> Poll (list C)) (g : SpineEligibility -> list C) es cs t n :
  (forall e cs n, (visit e cs t n).1 = cs ++ g e) ->
  (each_entry visit es cs t n).1 = cs ++ concat (g <$> es).
Proof.
  intros Hv. revert cs n. induction es as [|e es IH]; intros cs n; cbn [each_entry].
  - simpl. by rewrite app_nil_r.
  - unfold mbind, Poll_bind. specialize (Hv e cs n). destruct (visit e cs t n) as [cs' n'].
    simpl in Hv. subst. rewrite IH, fmap_cons. cbn [concat]. by rewrite (assoc_L (++)).
Qed.

Lemma fmap_concat {A B} (h : A -> B) (ls : list (list A)) :
  fmap (M := list) h (concat ls) = concat (fmap (M := list) (fmap (M := list) h) ls).
Proof. induction ls as [|l ls IH]; [done|]. cbn [concat]. by rewrite fmap_app, fmap_cons, IH. Qed.

Lemma enumerate_live groups current cands t n :
  (forall k, t k = false) ->
  (enumerate groups current cands t n).1 = cands ++ ((fun ch => set_of (current ++ ch)) <$> choices groups).
Proof.
  intros Ht. revert current cands n. induction groups as [|[d es] rest IH]; intros current cands n;
    cbn [enumerate]; unfold mbind, Poll_bind, cancelled; rewrite Ht.
  - simpl. by rewrite app_nil_r.
  - rewrite (each_entry_live _ (fun e => (fun ch => set_of (current ++ [e] ++ ch)) <$> choices rest)).
    + f_equal. cbn [choices snd]. rewrite fmap_concat, <- list_fmap_compose. f_equal.
      apply list_fmap_ext. intros i e _. cbn [compose]. rewrite <- list_fmap_compose. done.
    + intros e cs k. rewrite IH. f_equal. apply list_fmap_ext. intros i ch _. by rewrite <- (assoc_L (++)).
Qed.

(** *** Groups *)

Lemma group_snoc pool e :
  group_by_domain (pool ++ [e])
  = <[se_domain e := default [] (group_by_domain pool !! se_domain e) ++ [e]]> (group_by_domain pool).
Proof. unfold group_by_domain. by rewrite fold_left_app. Qed.

Lemma group_lookup pool d :
  group_by_domain pool !! d
  = let es := filter (fun e => se_domain e = d) pool in if decide (es = []) then None else Some es.
Proof.
  cbv zeta. induction pool as [|e pool IH] using rev_ind; [done|].
  rewrite group_snoc, filter_app, filter_cons, filter_nil. destruct (decide (se_domain e = d)) as [<-|Hne].
  - rewrite lookup_insert_eq, IH. rewrite (decide_False (P := _ ++ _ = [])) by by destruct (filter _ pool).
    case_decide as E; [by rewrite E|done].
  - rewrite lookup_insert_ne, app_nil_r by done. apply IH.
Qed.

Lemma elem_of_groups pool d es :
  (d, es) ∈ ordered (group_by_domain pool) <-> es = filter (fun e => se_domain e = d) pool /\ es <> [].
Proof. rewrite elem_of_ordered, group_lookup. cbv zeta. case_decide; naive_solver. Qed.

Lemma id_set_elem x l : x ∈ id_set l <-> x ∈ l.
Proof. unfold id_set. rewrite unique_elem. by rewrite merge_sort_Permutation. Qed.

Lemma id_set_sorted l : sorted_by id (id_set l).
Proof. apply unique_sorted, StronglySorted_merge_sort; apply _. Qed.

Lemma sorted_fst (l : list (Z * list SpineEligibility)) : sorted_by fst l -> sorted_by id l.*1.
Proof.
  induction l as [|p l IH]; intros Hs; [constructor|]. apply sorted_by_cons in Hs as [Hs Hp].
  cbn. apply sorted_by_cons. split; [by apply IH|]. intros d (q & -> & Hq)%list_elem_of_fmap. by apply Hp.
Qed.

Lemma group_keys pool : (ordered (group_by_domain pool)).*1 = id_set (se_domain <$> pool).
Proof.
  apply (sorted_by_unique id); [apply sorted_fst, ordered_strict|apply id_set_sorted|].
  intros d. rewrite id_set_elem, !list_elem_of_fmap. split.
  - intros ([d' es] & -> & [-> Hne]%elem_of_groups). destruct (filter _ pool) as [|e es] eqn:E; [done|].
    assert (e ∈ filter (fun e => se_domain e = d') pool) as [<- ?]%list_elem_of_filter by (rewrite E; left).
    by exists e.
  - intros (e & -> & He). exists (se_domain e, filter (fun e' => se_domain e' = se_domain e) pool).
    split; [done|]. apply elem_of_groups. split; [done|]. intros E. apply (not_elem_of_nil e).
    rewrite <- E. by apply list_elem_of_filter.
Qed.

Lemma choices_diverse pool ch : ch ∈ choices (ordered (group_by_domain pool)) <-> diverse_choice pool ch.
Proof.
  rewrite elem_of_choices. unfold diverse_choice. rewrite <- group_keys.
  assert (forall g, g ∈ ordered (group_by_domain pool) -> g.2 = filter (fun e => se_domain e = g.1) pool) as Hg
    by (intros [d es] [-> _]%elem_of_groups; done).
  revert Hg. generalize (ordered (group_by_domain pool)). intros groups Hg. revert ch.
  induction groups as [|g groups IH]; intros ch.
  { split; [inversion 1; subst; split; [done|]; by intros e ?%elem_of_nil|].
    intros [H _]. destruct ch; [constructor|done]. }
  assert (forall g, g ∈ groups -> g.2 = filter (fun e => se_domain e = g.1) pool) as Hg' by (intros; apply Hg; by right).
  specialize (Hg g ltac:(left)). split.
  - inversion 1 as [|? e ? r He Hr]; subst. apply (IH Hg') in Hr as [Hr1 Hr2]. rewrite Hg in He.
    apply list_elem_of_filter in He as [Hd He]. rewrite !fmap_cons, Hr1, Hd. split; [done|].
    intros x [->|?]%elem_of_cons; auto.
  - intros [H1 H2]. destruct ch as [|e ch]; [done|]. injection H1 as H1 H1'. constructor.
    + rewrite Hg. apply list_elem_of_filter. split; [done|]. apply H2. left.
    + apply (IH Hg'). split; [done|]. intros x Hx. apply H2. by right.
Qed.

(** *** The order of the sets *)

Definition ids_le (a b : list Z) : Prop := ids_lt b a = false.

Lemma ids_le_cons x a y b : ids_le (x :: a) (y :: b) <-> x < y \/ x = y /\ ids_le a b.
Proof.
  unfold ids_le. cbn [ids_lt]. rewrite orb_false_iff, andb_false_iff, Z.ltb_ge, Z.eqb_neq. split; intros H.
  - destruct (decide (x = y)); [subst; right; split; [done|]; tauto|left; lia].
  - destruct H as [H|[-> H]]; [split; [lia|left; lia]|split; [lia|by right]].
Qed.

Lemma ids_le_total a b : ids_le a b \/ ids_le b a.
Proof.
  revert b. induction a as [|x a IH]; intros [|y b]; [by left|by left|by right|].
  rewrite !ids_le_cons. destruct (Z.lt_trichotomy x y) as [?|[->|?]]; [by left; left| |by right; left].
  destruct (IH b); [left|right]; by right.
Qed.

Lemma ids_le_trans a b c : ids_le a b -> ids_le b c -> ids_le a c.
Proof.
  revert b c. induction a as [|x a IH]; intros [|y b] [|z c]; try done.
  rewrite !ids_le_cons. intros [?|[-> ?]] [?|[-> ?]]; [left; lia|left; lia|left; lia|right; eauto].
Qed.

Lemma better_order_spec a b :
  better_order a b <->
  set_total b < set_total a \/ set_total b = set_total a /\ ids_le (set_spines a) (set_spines b).
Proof.
  unfold better_order, set_is_better, ids_le.
  destruct (Z.eqb_spec (set_total b) (set_total a)) as [E|E]; cbn [negb].
  - split; [tauto|]. intros [?|[_ ?]]; [lia|done].
  - rewrite Z.gtb_ltb, Z.ltb_ge. lia.
Qed.

#[export] Instance better_order_total : Total better_order.
Proof.
  intros a b. rewrite !better_order_spec.
  destruct (Z.lt_trichotomy (set_total a) (set_total b)) as [?|[?|?]]; [by right; left| |by left; left].
  destruct (ids_le_total (set_spines a) (set_spines b)); [left|right]; right; by split.
Qed.

#[export] Instance better_order_trans : Transitive better_order.
Proof.
  intros a b c. rewrite !better_order_spec. intros [?|[? H]] [?|[? H']]; [left; lia..|].
  right. split; [lia|]. by eapply ids_le_trans.
Qed.

(** *** Capacities *)

Definition caps (l : list SpineEligibility) : list Z := se_capacity <$> l.

Lemma sum_cons x l : sum (x :: l) = x + sum l.
Proof. done. Qed.

Lemma total_capacity_sum l :
  Forall (fits 64) (caps l) -> sum (caps l) < 2 ^ 64 -> total_capacity l = sum (caps l).
Proof.
  unfold total_capacity. intros Hf Hs.
  assert (forall acc, 0 <= acc -> acc + sum (caps l) < 2 ^ 64 ->
    fold_left (fun t e => wrap 64 (t + se_capacity e)) l acc = acc + sum (caps l)) as H; [|by rewrite H].
  clear Hs. revert Hf. unfold caps. induction l as [|e l IH]; intros Hf acc Ha Hlt; [simpl; lia|].
  rewrite fmap_cons in *. apply Forall_cons in Hf as [He Hf]. rewrite sum_cons in *. cbn [fold_left].
  pose proof (sum_nonneg _ Hf). unfold fits in He.
  rewrite wrap_small by (unfold fits; lia). rewrite IH; [lia|done|lia|lia].
Qed.

Lemma sum_perm l k : l ≡ₚ k -> sum l = sum k.
Proof. unfold sum. induction 1; simpl in *; lia. Qed.

Lemma diverse_choice_caps pool ch :
  Forall (fits 64) (caps pool) -> sum (caps pool) < 2 ^ 64 -> diverse_choice pool ch ->
  total_capacity ch = sum (caps ch).
Proof.
  intros Hf Hs [Hd Hin]. unfold caps in *.
  assert (NoDup ch) as Hnd.
  { apply (NoDup_fmap_1 se_domain). rewrite Hd. pose proof (sorted_by_NoDup id _ (id_set_sorted (se_domain <$> pool))) as H.
    by rewrite list_fmap_id in H. }
  apply NoDup_submseteq in Hin; [|done]. apply submseteq_Permutation in Hin as [k Hk].
  assert (Forall (fits 64) (se_capacity <$> ch ++ k)) as Hf' by by rewrite <- Hk.
  rewrite (sum_perm _ _ (fmap_Permutation se_capacity _ _ Hk)) in Hs.
  rewrite fmap_app in Hs, Hf'. rewrite sum_app in Hs. apply Forall_app in Hf' as [Hc Hk'].
  apply sum_nonneg in Hk'. apply total_capacity_sum; [done|]. unfold caps. lia.
Qed.

(** *** Greedy selection *)

Lemma greedy_step_spec best e :
  exists b, greedy_step best e = Some b /\ (b = e \/ best = Some b)
    /\ se_capacity e <= se_capacity b /\ (forall b', best = Some b' -> se_capacity b' <= se_capacity b).
Proof.
  unfold greedy_step. destruct best as [b|].
  - destruct (_ || _) eqn:E.
    + exists e. split; [done|]. split; [by left|]. split; [lia|]. intros b' [= <-].
      apply orb_true_iff in E as [E|E]; bool_to_prop; lia.
    + exists b. split; [done|]. split; [by right|]. bool_to_prop. split; [lia|]. intros b' [= <-]. lia.
  - exists e. split; [done|]. split; [by left|]. split; [lia|]. done.
Qed.

Lemma greedy_pick_spec es : es <> [] ->
  exists b, greedy_pick es = Some b /\ b ∈ es /\ forall e, e ∈ es -> se_capacity e <= se_capacity b.
Proof.
  unfold greedy_pick. induction es as [|e es IH] using rev_ind; [done|]. intros _.
  rewrite fold_left_app. cbn [fold_left].
  destruct (greedy_step_spec (fold_left greedy_step es None) e) as (b & -> & Hb & He & Hm).
  exists b. split; [done|]. destruct (decide (es = [])) as [->|Hne].
  - destruct Hb as [->|?]; [|done]. split; [left|]. by intros e' ->%list_elem_of_singleton.
  - destruct (IH Hne) as (b' & E & Hin & Hmax). rewrite E in *. split.
    + rewrite elem_of_app. destruct Hb as [->|[= ->]]; [right; left|by left].
    + intros x [Hx| ->%list_elem_of_singleton]%elem_of_app; [|done].
      specialize (Hmax x Hx). specialize (Hm b' eq_refl). lia.
Qed.

(** The greedy set is one of the choices, and no choice carries more. *)
Lemma greedy_set_spec (groups : list (Z * list SpineEligibility)) :
  (forall g, g ∈ groups -> g.2 <> [] /\ forall e, e ∈ g.2 -> se_domain e = g.1) ->
  exists ch, ch ∈ choices groups /\ greedy_set groups = set_of ch
    /\ forall ch', ch' ∈ choices groups -> sum (caps ch') <= sum (caps ch).
Proof.
  intros Hg.
  assert (exists ch, ch ∈ choices groups
    /\ omap (fun g => (fun b => (g.1, b)) <$> greedy_pick g.2) groups = (fun e => (se_domain e, e)) <$> ch
    /\ forall ch', ch' ∈ choices groups -> sum (caps ch') <= sum (caps ch)) as (ch & Hch & E & Hmax).
  { induction groups as [|g groups IH].
    - exists []. split; [left|]. split; [done|]. by intros ch' ->%list_elem_of_singleton.
    - destruct IH as (ch & Hch & E & Hmax); [intros; apply Hg; by right|].
      destruct (Hg g ltac:(left)) as [Hne Hd]. destruct (greedy_pick_spec _ Hne) as (b & Hp & Hb & Hm).
      exists (b :: ch). split; [apply elem_of_choices; constructor; [done|by apply elem_of_choices]|]. split.
      + cbn [omap list_omap]. rewrite Hp. cbn [fmap option_fmap option_map]. rewrite fmap_cons, (Hd b Hb).
        f_equal. exact E.
      + intros ch' Hc. apply elem_of_choices in Hc. inversion Hc as [|? e ? r He Hr]; subst.
        apply elem_of_choices, Hmax in Hr. specialize (Hm e He). unfold caps in *. rewrite !fmap_cons, !sum_cons. lia. }
  exists ch. split; [done|]. split; [|done]. unfold greedy_set, set_of. rewrite E.
  rewrite <- !list_fmap_compose. unfold Zlen. rewrite length_fmap. f_equal.
  change (snd ∘ (fun e : SpineEligibility => (se_domain e, e))) with (@id SpineEligibility). by rewrite list_fmap_id.
Qed.

Definition eligible_pool (eligible : list SpineEligibility) : list SpineEligibility :=
  filter (fun e => se_verdict e = EV_Eligible) eligible.

Lemma sorted_head_best (l : list EligibleSpineSet) x rest :
  merge_sort better_order l = x :: rest -> x ∈ l /\ forall y, y ∈ l -> set_total y <= set_total x.
Proof.
  intros E. pose proof (StronglySorted_merge_sort better_order l) as Hs. rewrite E in Hs. split.
  - rewrite <- (merge_sort_Permutation better_order l), E. left.
  - intros y Hy. rewrite <- (merge_sort_Permutation better_order l), E in Hy.
    inversion Hs as [|? ? _ Hf]; subst. rewrite Forall_forall in Hf.
    apply elem_of_cons in Hy as [->|Hy]; [lia|]. apply Hf in Hy. rewrite better_order_spec in Hy. lia.
Qed.

Lemma take_limit_head {A} (c : PathConstraints) (x : A) l :
  0 <= pc_max_sets c ->
  exists rest, take (Z.to_nat (if pc_max_sets c =? 0 then 1 else pc_max_sets c)) (x :: l) = x :: rest.
Proof.
  intros H. destruct (Z.to_nat _) as [|k] eqn:E; [|by exists (take k l)].
  destruct (Z.eqb_spec (pc_max_sets c) 0); lia.
Qed.

Lemma pool_groups pool g :
  g ∈ ordered (group_by_domain pool) -> g.2 <> [] /\ forall e, e ∈ g.2 -> se_domain e = g.1.
Proof.
  destruct g as [d es]. intros [-> Hne]%elem_of_groups. split; [done|].
  by intros e [? _]%list_elem_of_filter.
Qed.

(** The candidates contain a best choice, whichever way they were found. *)
Lemma candidates_best groups pool (exhaustive : bool) t n :
  groups = ordered (group_by_domain pool) -> (forall k, t k = false) ->
  Forall (fits 64) (caps pool) -> sum (caps pool) < 2 ^ 64 ->
  let cands := ((if exhaustive then enumerate groups [] [] else mret [greedy_set groups]) t n).1 in
  (forall s, s ∈ cands -> exists ch, diverse_choice pool ch /\ s = set_of ch)
  /\ (forall ch, diverse_choice pool ch -> exists s, s ∈ cands /\ sum (caps ch) <= set_total s)
  /\ cands <> [].
Proof.
  intros -> Ht Hf Hs. cbv zeta.
  destruct (greedy_set_spec _ (pool_groups pool)) as (best & Hb & Eb & Hmax).
  assert (forall ch, diverse_choice pool ch -> set_total (set_of ch) = sum (caps ch)) as Htot
    by (intros ch Hd; by apply (diverse_choice_caps pool)).
  destruct exhaustive.
  - rewrite enumerate_live by done. cbn [app]. repeat split.
    + intros s (ch & -> & Hc)%list_elem_of_fmap. exists ch. by rewrite <- choices_diverse.
    + intros ch Hd. exists (set_of ch). split; [|by rewrite Htot].
      apply list_elem_of_fmap. exists ch. by rewrite choices_diverse.
    + destruct (choices _); [by apply elem_of_nil in Hb|done].
  - unfold mret, Poll_ret. cbn [fst]. rewrite Eb. apply choices_diverse in Hb as Hb'. repeat split.
    + intros s ->%list_elem_of_singleton. by exists best.
    + intros ch Hd. exists (set_of best). split; [left|]. rewrite Htot by done. by apply Hmax, choices_diverse.
    + done.
Qed.

(** C34: Spine-set selection under a diversity constraint, when no poll answers
    cancelled. The first reported set takes one eligible entry from every failure domain
    that has one, and its total capacity is the largest that any such choice reaches,
    both when all combinations are examined and when their number exceeds the bound and
    the greedy selection is used. *)
Theorem select_spine_sets_best eligible c t n :
  (forall k, t k = false) -> pc_domain_diversity c = true -> 0 <= pc_max_sets c ->
  eligible_pool eligible <> [] ->
  Forall (fits 64) (caps (eligible_pool eligible)) -> sum (caps (eligible_pool eligible)) < 2 ^ 64 ->
  exists best rest, sets (select_spine_sets eligible c t n).1 = best :: rest
    /\ (exists ch, diverse_choice (eligible_pool eligible) ch /\ best = set_of ch)
    /\ forall ch, diverse_choice (eligible_pool eligible) ch -> sum (caps ch) <= set_total best.
Proof.
  intros Ht Hdiv Hmax Hne Hf Hs. unfold select_spine_sets. fold (eligible_pool eligible).
  set (pool := eligible_pool eligible) in *. rewrite bool_decide_false, Hdiv by done. cbn [negb].
  destruct (count_combinations _ _) as [overflow combos].
  set (exhaustive := (negb overflow && (combos <=? kMaxExaminedCombinations))%bool).
  destruct (candidates_best _ pool exhaustive t n eq_refl Ht Hf Hs) as (H1 & H2 & H3).
  unfold mbind, Poll_bind. cbv zeta. destruct (_ t n) as [cands n'] eqn:Ec in |- *.
  rewrite Ec in H1, H2, H3. cbn [fst] in *. unfold cancelled. rewrite Ht. cbn [fst mret Poll_ret sets].
  unfold mret, Poll_ret. cbn [fst sets].
  destruct (merge_sort better_order cands) as [|best sorted] eqn:Es.
  { exfalso. apply H3. apply Permutation_nil. by rewrite <- Es, merge_sort_Permutation. }
  destruct (sorted_head_best _ _ _ Es) as [Hin Hbest]. destruct (take_limit_head c best sorted Hmax) as [rest ->].
  exists best, rest. split; [done|]. split; [by apply H1|].
  intros ch Hd. apply H2 in Hd as (s & Hs' & Hle). specialize (Hbest s Hs'). lia.
Qed.

Definition sample_entries : list SpineEligibility :=
  [MkSE 1 EV_Eligible SC_Ok true EF_Absent 100 7 ""; MkSE 2 EV_Eligible SC_Ok true EF_Absent 400 7 "";
   MkSE 3 EV_Ineligible SC_Refused true EF_Absent 900 8 ""; MkSE 4 EV_Eligible SC_Ok true EF_Absent 50 8 ""].

Lemma select_spine_sets_best_witness :
  exists best rest,
    sets (select_spine_sets sample_entries (MkConstraints true 1 0 None true false 1 32) live_token 0%nat).1 = best :: rest
    /\ set_total best = 450.
Proof.
  destruct (select_spine_sets_best sample_entries (MkConstraints true 1 0 None true false 1 32) live_token 0)
    as (best & rest & E & _ & _).
  - done.
  - done.
  - simpl. lia.
  - done.
  - repeat constructor; simpl; lia.
  - vm_compute. reflexivity.
  - exists best, rest. split; [exact E|]. vm_compute in E. injection E as <- _. reflexivity.
Defined.

(** ** Pairs of leaves *)

(** Two uplinks, one of each leaf, end at the spine and are both eligible. *)
Definition pair_through (en : EligibilityEngine) (c : PathConstraints) (from to : LeafId) (s : SpineId) : Prop :=
  exists u v, u ∈ uplinks (en_index en) from /\ v ∈ uplinks (en_index en) to
    /\ adj_peer u = node_of_spine s /\ adj_peer v = node_of_spine s
    /\ se_verdict (entry_of en from c u) = EV_Eligible /\ se_verdict (entry_of en to c v) = EV_Eligible.

Lemma spine_map_map_of l : spine_map l = map_of se_spine l.
Proof. done. Qed.

Lemma scan_pairs_eligible from_entries to_entries c e :
  e ∈ ps_eligible (scan_pairs from_entries to_entries c) ->
  exists other entry, other ∈ from_entries /\ entry ∈ to_entries /\ se_spine other = se_spine entry
    /\ se_verdict other = EV_Eligible /\ se_verdict entry = EV_Eligible /\ e = combine_entries other entry.
Proof.
  unfold scan_pairs. rewrite spine_map_map_of. set (m := map_of se_spine from_entries).
  induction to_entries as [|x l IH] using rev_ind; [by intros ?%elem_of_nil|].
  rewrite fold_left_app. cbn [fold_left]. set (s := fold_left _ l _) in *. unfold scan_entry at 1.
  assert (e ∈ ps_eligible s -> exists other entry, other ∈ from_entries /\ entry ∈ l ++ [x] /\ se_spine other = se_spine entry
    /\ se_verdict other = EV_Eligible /\ se_verdict entry = EV_Eligible /\ e = combine_entries other entry) as IH'.
  { intros H. destruct (IH H) as (o & y & ? & ? & ?). exists o, y. rewrite elem_of_app. tauto. }
  destruct (m !! se_spine x) as [o|] eqn:Em; [|exact IH'].
  destruct (bool_decide (se_verdict o = EV_Eligible) && bool_decide (se_verdict x = EV_Eligible)) eqn:Eb; [|exact IH'].
  cbn [ps_eligible]. intros [H| ->%list_elem_of_singleton]%elem_of_app; [by apply IH'|].
  bool_to_prop. exists o, x. split; [by eapply map_of_lookup|]. split; [set_solver|].
  split; [by apply (map_of_keyed se_spine from_entries)|]. done.
Qed.

Lemma entries_of_elem en leaf c e :
  e ∈ entries_of en leaf c ->
  exists u, u ∈ uplinks (en_index en) leaf /\ adj_peer u = node_of_spine (se_spine e) /\ e = entry_of en leaf c u.
Proof.
  intros (u & -> & [Ht Hu]%list_elem_of_filter)%list_elem_of_fmap. exists u.
  destruct (evaluate_uplink_fields en leaf c u) as [-> _]. split; [done|]. split; [by apply spine_key|done].
Qed.

Lemma scan_pair_through en c from to e :
  e ∈ ps_eligible (scan_pairs (entries_of en from c) (entries_of en to c) c) -> pair_through en c from to (se_spine e).
Proof.
  intros (o & x & Ho & Hx & Hs & Vo & Vx & ->)%scan_pairs_eligible. cbn [combine_entries se_spine].
  apply entries_of_elem in Ho as (u & Hu & Pu & ->). apply entries_of_elem in Hx as (v & Hv & Pv & ->).
  exists u, v. rewrite Pu, Pv, Hs. done.
Qed.

(** The constraints of an eligible answer, in terms of the assessment. *)
Definition satisfies (c : PathConstraints) (a : PathAssessment) : Prop :=
  required_spines c <= Zlen (pa_eligible_spines a)
  /\ (pc_domain_diversity c = true -> required_spines c <= Zlen (pa_covered_domains a))
  /\ (pc_min_total_capacity_mbps c <> 0 -> pc_min_total_capacity_mbps c <= uplink_capacity_mbps (pa_capacity a))
  /\ (forall bound, pc_max_oversubscription c = Some bound -> 0 < uplink_count (pa_capacity a) ->
        exists o, rational_compare (oversubscription (pa_capacity a)) bound = Value o /\ o <= 0).

Lemma constraints_met_true c n covered cap :
  constraints_met c n covered cap = Value true ->
  required_spines c <= n
  /\ (pc_domain_diversity c = true -> required_spines c <= Zlen covered)
  /\ (pc_min_total_capacity_mbps c <> 0 -> pc_min_total_capacity_mbps c <= uplink_capacity_mbps cap)
  /\ (forall bound, pc_max_oversubscription c = Some bound -> 0 < uplink_count cap ->
        exists o, rational_compare (oversubscription cap) bound = Value o /\ o <= 0).
Proof.
  unfold constraints_met. set (met := (_ && _ && _)%bool). intros H.
  assert (met = true /\ (forall bound, pc_max_oversubscription c = Some bound -> 0 < uplink_count cap ->
        exists o, rational_compare (oversubscription cap) bound = Value o /\ o <= 0)) as [Hm Ho].
  { destruct (pc_max_oversubscription c) as [bound|]; [|split; [by injection H|done]].
    destruct (Z.ltb_spec 0 (uplink_count cap)); [|split; [by injection H|intros; lia]].
    destruct (rational_compare _ _) as [o|] eqn:Ec; [|done]. injection H as H. bool_to_prop.
    split; [done|]. intros ? [= <-] _. by exists o. }
  unfold met in Hm. bool_to_prop. split; [lia|]. split; [|split; [|done]].
  - intros E. rewrite E in *. cbn [andb] in *. bool_to_prop. lia.
  - intros E. apply Z.eqb_neq in E. rewrite E in *. cbn [negb andb] in *. bool_to_prop. lia.
Qed.

(** What [conclude_pair] keeps. *)
Lemma conclude_pair_eligible en c s a :
  pa_verdict (conclude_pair en c s a) = EV_Eligible ->
  satisfies c a /\ ps_indeterminate s <= 0 /\ pa_code (conclude_pair en c s a) = SC_Ok
  /\ pa_eligible_spines (conclude_pair en c s a) = pa_eligible_spines a
  /\ pa_covered_domains (conclude_pair en c s a) = pa_covered_domains a
  /\ pa_capacity (conclude_pair en c s a) = pa_capacity a.
Proof.
  unfold conclude_pair. destruct (constraints_met _ _ _ _) as [met|] eqn:Em; [|done].
  destruct met; cbn [negb andb]; [|by repeat case_match].
  destruct (Z.ltb_spec 0 (ps_indeterminate s)) as [|Hi]; [done|]. intros _.
  apply constraints_met_true in Em as (H1 & H2 & H3 & H4). split; [|split_and!; done]. split; [|done].
  pose proof (Zlen_nonneg (pa_eligible_spines a)). unfold wrap in H1.
  pose proof (Z.mod_le (Zlen (pa_eligible_spines a)) (2 ^ 32)). lia.
Qed.

(** An assessment of the pair of leaves in terms of its parts. *)
Lemma assess_leaf_pair_Value en from to c t n a :
  (assess_leaf_pair en from to c t n).1 = Value a ->
  exists lf lt, find_leaf (en_fabric en) from = Some lf /\ find_leaf (en_fabric en) to = Some lt
  /\ let a0 := begin_assessment en (node_of_leaf from) (node_of_leaf to) c in
    ((exists v k line, v <> EV_Eligible /\ k <> SC_Ok /\ a = conclude v k line a0)
     \/ (from <> to /\ pa_cls a0 = RC_DirectPeer /\ a = assess_direct_peer en c a0)
     \/ (from <> to /\ exists ss, let s := scan_pairs (entries_of en from c) (entries_of en to c) c in
           a = conclude_pair en c s (pair_assessment en lf lt s ss a0))).
Proof.
  unfold assess_leaf_pair. destruct (find_leaf _ from) as [lf|]; [|done].
  destruct (find_leaf _ to) as [lt|]; [|done]. cbv zeta. intros H. exists lf, lt. split; [done|]. split; [done|].
  set (a0 := begin_assessment _ _ _ _) in *.
  destruct (Z.eqb_spec from to) as [->|Hne]; [injection H as <-; left; do 3 eexists; split_and!; [| |reflexivity]; done|].
  destruct (pa_cls a0) eqn:Ek.
  2,4,7,8: injection H as <-; left; do 3 eexists; split_and!; [| |reflexivity]; done.
  2: injection H as <-; right; left; done.
  all: right; right; split; [done|]; unfold mbind, Poll_bind in H;
    destruct (evaluate_uplinks en from c t n) as [r1 n1] eqn:E1;
    destruct (evaluate_uplinks_spec en from c t n) as [E|[_ E]]; rewrite E1 in E; cbn [fst] in E; subst r1; [|done];
    destruct (evaluate_uplinks en to c t n1) as [r2 n2] eqn:E2;
    destruct (evaluate_uplinks_spec en to c t n1) as [E|[_ E]]; rewrite E2 in E; cbn [fst] in E; subst r2; [|done];
    destruct (select_spine_sets _ c t n2) as [ss n3]; injection H as <-; by exists ss.
Qed.

Lemma assess_direct_peer_eligible en c a :
  pa_verdict (assess_direct_peer en c a) = EV_Eligible ->
  pc_allow_peer_paths c = true /\ pa_code (assess_direct_peer en c a) = SC_Ok
  /\ exists e p q, adjacency_between (en_index en) (pa_from a) (pa_to a) = Some e
    /\ find_port (en_fabric en) (adj_local_port e) = Some p /\ find_port (en_fabric en) (adj_peer_port e) = Some q
    /\ port_admin p = PA_Enabled /\ port_admin q = PA_Enabled
    /\ (pa_evidence_required a = true -> fresh_observation en (adj_link e) LO_Up).
Proof.
  unfold assess_direct_peer. destruct (pc_allow_peer_paths c); [|done]. cbn [negb].
  destruct (adjacency_between _ _ _) as [e|]; [|done].
  destruct (find_port _ (adj_local_port e)) as [p|] eqn:Hp; [|done].
  destruct (find_port _ (adj_peer_port e)) as [q|] eqn:Hq; [|done].
  destruct (_ || _)%bool eqn:Eo; [done|]. bool_to_prop.
  destruct (pa_evidence_required a) eqn:Er; cbn [negb].
  - destruct (evidence_for _ _) as [r|] eqn:Ev; [|done].
    destruct (bool_decide (evidence_freshness _ _ _ _ = EF_Fresh)) eqn:Ef; cbn [negb]; [|done]. bool_to_prop.
    destruct (ev_observed r) eqn:Eob; try done. intros _. split; [done|]. split; [done|].
    exists e, p, q. split_and!; try done. intros _. by exists r.
  - intros _. split; [done|]. split; [done|]. exists e, p, q. by split_and!.
Qed.

Lemma direct_peer_linked f ix a b :
  IndexOf f ix -> structural_class ix a b = RC_DirectPeer -> linked f a b LC_SameTierPeer.
Proof.
  intros Hix H. unfold structural_class in H. destruct (bool_decide (a = b)); [done|].
  destruct (adjacency_between ix a b) as [e|] eqn:Ea; [|by repeat case_match].
  apply adjacency_between_class in Ea. destruct (adj_cls e); [by rewrite bool_decide_true in H|done].
Qed.

(** What stands behind an eligible answer about two leaves: a peer link that the constraints
    allow, its ports enabled and observed up where evidence is required, or spines that satisfy
    the constraints, each joined to both leaves and reached by an eligible uplink of each. *)
Definition pair_backed (en : EligibilityEngine) (from to : LeafId) (c : PathConstraints) (a : PathAssessment) : Prop :=
  (pc_allow_peer_paths c = true
   /\ linked (en_fabric en) (node_of_leaf from) (node_of_leaf to) LC_SameTierPeer
   /\ exists e p q, adjacency_between (en_index en) (node_of_leaf from) (node_of_leaf to) = Some e
        /\ find_port (en_fabric en) (adj_local_port e) = Some p
        /\ find_port (en_fabric en) (adj_peer_port e) = Some q
        /\ port_admin p = PA_Enabled /\ port_admin q = PA_Enabled
        /\ (requires_evidence en c = true -> fresh_observation en (adj_link e) LO_Up))
  \/ (satisfies c a /\ forall s, s ∈ pa_eligible_spines a ->
        linked (en_fabric en) (node_of_leaf from) (node_of_spine s) LC_LeafSpine
        /\ linked (en_fabric en) (node_of_leaf to) (node_of_spine s) LC_LeafSpine
        /\ pair_through en c from to s).

Lemma eligible_pair_backed lim en from to c t n a :
  indexable lim (en_fabric en) -> build_index (en_fabric en) = Value (en_index en) ->
  (assess_leaf_pair en from to c t n).1 = Value a -> pa_verdict a = EV_Eligible ->
  from <> to /\ pa_code a = SC_Ok
  /\ pa_generation a = fab_generation (en_fabric en) /\ pa_epoch a = fab_epoch (en_fabric en)
  /\ pa_topology_digest a = topology_digest (en_fabric en) /\ pa_controller a = en_controller en
  /\ pair_backed en from to c a.
Proof.
  unfold pair_backed.
  intros Hi Hb Ha Hv. pose proof (build_index_IndexOf _ _ _ Hi Hb) as Hix.
  apply assess_leaf_pair_Value in Ha as (lf & lt & _ & _ & H). cbv zeta in H.
  destruct H as [(v & k & line & Hnv & _ & ->)|[(Hne & Hk & ->)|(Hne & ss & ->)]]; [done| |].
  - apply assess_direct_peer_eligible in Hv as (Hal & Hc & e & p & q & He & Hrest).
    split; [done|]. split; [done|]. assert (forall a0, pa_generation (assess_direct_peer en c a0) = pa_generation a0
      /\ pa_epoch (assess_direct_peer en c a0) = pa_epoch a0
      /\ pa_topology_digest (assess_direct_peer en c a0) = pa_topology_digest a0
      /\ pa_controller (assess_direct_peer en c a0) = pa_controller a0) as Hco
      by (intros a0; unfold assess_direct_peer; by repeat case_match).
    destruct (Hco (begin_assessment en (node_of_leaf from) (node_of_leaf to) c)) as (-> & -> & -> & ->).
    split_and!; try done. left. split; [done|]. split; [by eapply direct_peer_linked|]. by exists e, p, q.
  - apply conclude_pair_eligible in Hv as (Hs & _ & Hc & E1 & E2 & E3). split; [done|]. split; [done|].
    assert (forall s a0, pa_generation (conclude_pair en c s a0) = pa_generation a0
      /\ pa_epoch (conclude_pair en c s a0) = pa_epoch a0
      /\ pa_topology_digest (conclude_pair en c s a0) = pa_topology_digest a0
      /\ pa_controller (conclude_pair en c s a0) = pa_controller a0) as Hco
      by (intros s a0; unfold conclude_pair; by repeat case_match).
    match goal with |- context [conclude_pair en c ?s ?a0] => destruct (Hco s a0) as (-> & -> & -> & ->) end.
    split_and!; try done. right. unfold satisfies. rewrite E1, E2, E3. split; [exact Hs|].
    intros s Hin. cbn in Hin. rewrite merge_sort_Permutation in Hin.
    apply list_elem_of_fmap in Hin as (e & -> & He). apply scan_pair_through in He as Hp.
    split; [|split; [|done]]; destruct Hp as (u & w & Hu & Hw & Pu & Pw & _);
      apply (io_uplinks (f := en_fabric en) (ix := en_index en)); eauto.
Qed.


Definition sample_engine : EligibilityEngine := MkEngine sample_index (MkInc 5 6).


(** ** Codes *)

Lemma rational_compare_code a b st : rational_compare a b = Failure st -> code st <> SC_Ok.
Proof. unfold rational_compare, fail. intros H. split_cases; done. Qed.

Lemma evidence_for_code f link st : evidence_for f link = Failure st -> code st <> SC_Ok.
Proof. unfold evidence_for, fail. intros H. split_cases; done. Qed.

Definition coded (v : EligibilityVerdict) (k : StatusCode) : Prop := v = EV_Eligible <-> k = SC_Ok.

Lemma evaluate_uplink_coded en leaf u c r : evaluate_uplink en leaf u c = Value r -> coded (se_verdict r) (se_code r).
Proof.
  unfold evaluate_uplink, coded. intros H.
  repeat (case_match; try discriminate); injection H as <-; cbn [se_verdict se_code]; try done.
Qed.

Lemma conclude_pair_coded en c s a : coded (pa_verdict (conclude_pair en c s a)) (pa_code (conclude_pair en c s a)).
Proof.
  unfold conclude_pair, coded. destruct (constraints_met _ _ _ _) as [met|st] eqn:E.
  - by repeat case_match.
  - cbn [conclude pa_verdict pa_code]. split; [done|]. intros Hc. exfalso. revert Hc. unfold constraints_met in E.
    destruct (pc_max_oversubscription c); [|done]. destruct (_ <? _); [|done].
    destruct (rational_compare _ _) eqn:Ec; [done|]. injection E as <-. by eapply rational_compare_code.
Qed.

Lemma assess_direct_peer_coded en c a : coded (pa_verdict (assess_direct_peer en c a)) (pa_code (assess_direct_peer en c a)).
Proof.
  unfold assess_direct_peer, coded. repeat (case_match; try done). cbn [conclude pa_verdict pa_code].
  split; [done|]. intros Hc. exfalso. by eapply evidence_for_code.
Qed.

(** The code of every assessment decides its verdict: a leaf pair or a
    leaf-to-spine question is answered [Eligible] exactly when its code is [Ok]. *)
Theorem assessment_code_decides en from to spine c t n a :
  (assess_leaf_pair en from to c t n).1 = Value a \/ assess_leaf_to_spine en from spine c = Value a ->
  pa_verdict a = EV_Eligible <-> pa_code a = SC_Ok.
Proof.
  change (pa_verdict a = EV_Eligible <-> pa_code a = SC_Ok) with (coded (pa_verdict a) (pa_code a)).
  intros [H|H].
  - apply assess_leaf_pair_Value in H as (lf & lt & _ & _ & H). cbv zeta in H.
    destruct H as [(v & k & line & Hv & Hk & ->)|[(_ & _ & ->)|(_ & ss & ->)]].
    + cbn. unfold coded. tauto.
    + apply assess_direct_peer_coded.
    + apply conclude_pair_coded.
  - unfold assess_leaf_to_spine in H. destruct (find_leaf _ _); [|done]. destruct (find_spine _ _); [|done].
    cbv zeta in H. destruct (pa_cls _); try (injection H as <-; unfold coded; cbn; intuition congruence).
    destruct (List.find _ _) as [u|]; [|injection H as <-; unfold coded; cbn; intuition congruence]. unfold assess_first_uplink in H.
    destruct (evaluate_uplink en from u c) as [r|] eqn:E; [|done]. cbn [mbind Outcome_bind] in H. injection H as <-.
    by apply evaluate_uplink_coded in E.
Qed.

Lemma assessment_code_decides_witness :
  exists a, assess_leaf_to_spine sample_engine 1 2 default_constraints = Value a
    /\ (pa_verdict a = EV_Eligible <-> pa_code a = SC_Ok).
Proof.
  destruct (assess_leaf_to_spine sample_engine 1 2 default_constraints) as [a|] eqn:E.
  2:{ vm_compute in E. discriminate. }
  exists a. split; [reflexivity|].
  apply (assessment_code_decides sample_engine 1 2 2 default_constraints live_token 0 a). right. exact E.
Defined.

(** ** Fabric health *)

Definition eligible_uplinks (en : EligibilityEngine) (c : PathConstraints) (leaf : LeafId) : list SpineEligibility :=
  eligible_pool (entries_of en leaf c).

(** The leaf serves, with enough eligible uplinks. *)
Definition served (en : EligibilityEngine) (c : PathConstraints) (l : LeafRecord) : Prop :=
  leaf_state l = NS_Active /\ required_spines c <= Zlen (eligible_uplinks en c (leaf_id l)).

Lemma count_verdict_spec v es :
  Zlen es < 2 ^ 32 -> count_verdict v es = Zlen (filter (fun e => se_verdict e = v) es).
Proof.
  unfold count_verdict. intros H.
  assert (forall acc, 0 <= acc -> acc + Zlen es < 2 ^ 32 ->
    fold_left (fun n e => if bool_decide (se_verdict e = v) then wrap 32 (n + 1) else n) es acc
    = acc + Zlen (filter (fun e => se_verdict e = v) es)) as HH; [|by rewrite HH by lia].
  clear H. induction es as [|e es IH]; intros acc Ha Hl; [rewrite filter_nil, Zlen_nil; simpl; lia|].
  rewrite Zlen_cons in Hl. pose proof (Zlen_nonneg es). cbn [fold_left]. rewrite filter_cons.
  case_bool_decide as D; [rewrite decide_True by done|rewrite decide_False by done].
  - rewrite wrap_small by (unfold fits; lia). rewrite IH, Zlen_cons by lia. lia.
  - rewrite IH by lia. done.
Qed.

Lemma count32_zero {A} (P : A -> bool) l :
  Zlen l < 2 ^ 32 -> (count32 P l <= 0 <-> forall x, x ∈ l -> P x = false).
Proof.
  intros Hl. unfold count32. remember (filter (fun x => P x = true) l) as k eqn:Ek.
  assert (List.length k <= List.length l)%nat by (subst; apply length_filter).
  assert (forall x, x ∈ k <-> P x = true /\ x ∈ l) as Hk by (intros x; subst k; by rewrite list_elem_of_filter).
  rewrite wrap_small by (unfold fits, Zlen in *; lia). clear Ek. destruct k as [|y k]; split.
  - intros _ x Hx. destruct (P x) eqn:E; [|done]. exfalso. apply (not_elem_of_nil x), Hk. done.
  - intros _. rewrite Zlen_nil. lia.
  - rewrite Zlen_cons. pose proof (Zlen_nonneg k). lia.
  - intros H'. exfalso. destruct (proj1 (Hk y) ltac:(left)) as [Hy Hin]. by rewrite H' in Hy.
Qed.

Definition scan_all (en : EligibilityEngine) (c : PathConstraints) (ls : list LeafRecord) (s : HealthScan) : HealthScan :=
  fold_left (fun s l => classify_leaf (required_spines c) s l (entries_of en (leaf_id l) c)) ls s.

Lemma scan_leaves_live en c ls s t n :
  (forall k, t k = false) -> (scan_leaves en c (required_spines c) ls s t n).1 = Value (scan_all en c ls s).
Proof.
  intros Ht. revert s n. induction ls as [|l ls IH]; intros s n; [done|]. cbn [scan_leaves].
  unfold mbind, Poll_bind.
  assert (forall b m, exists m', poll_when b t m = (false, m')) as Hp
    by (intros [] m; unfold poll_when, cancelled, mret, Poll_ret; rewrite ?Ht; eauto).
  match goal with |- context [poll_when ?b t n] => destruct (Hp b n) as [m ->] end.
  pose proof (evaluate_uplinks_live en (leaf_id l) c t m Ht) as E.
  destruct (evaluate_uplinks en (leaf_id l) c t m) as [r m']. cbn [fst] in E. subst r. apply IH.
Qed.

(** One leaf is counted once, and as serving exactly when it is served. *)
Lemma classify_leaf_spec en c s l :
  0 <= hs_serving s -> 0 <= hs_isolated s -> 0 <= hs_indeterminate s ->
  hs_serving s + hs_isolated s + hs_indeterminate s + 1 < 2 ^ 32 -> Zlen (entries_of en (leaf_id l) c) < 2 ^ 32 ->
  let s' := classify_leaf (required_spines c) s l (entries_of en (leaf_id l) c) in
  (served en c l /\ hs_serving s' = hs_serving s + 1 /\ hs_isolated s' = hs_isolated s
     /\ hs_indeterminate s' = hs_indeterminate s)
  \/ (~ served en c l /\ hs_serving s' = hs_serving s
      /\ (hs_isolated s' = hs_isolated s + 1 /\ hs_indeterminate s' = hs_indeterminate s
          \/ hs_isolated s' = hs_isolated s /\ hs_indeterminate s' = hs_indeterminate s + 1)).
Proof.
  intros H1 H2 H3 H4 H5. unfold classify_leaf, served, state_is_serving. rewrite !count_verdict_spec by done.
  cbv zeta. fold (eligible_pool (entries_of en (leaf_id l) c)). fold (eligible_uplinks en c (leaf_id l)).
  case_bool_decide as D; cbn [andb negb].
  - destruct (Z.leb_spec (required_spines c) (Zlen (eligible_uplinks en c (leaf_id l)))) as [Hr|Hr].
    + left. cbn. rewrite wrap_small by (unfold fits; lia). done.
    + right. destruct (_ && _); cbn; rewrite wrap_small by (unfold fits; lia);
        (split; [lia|]); (split; [done|]); [by right|by left].
  - right. cbn. rewrite wrap_small by (unfold fits; lia). split; [tauto|]. split; [done|]. by left.
Qed.

Lemma scan_all_spec en c ls s :
  0 <= hs_serving s -> 0 <= hs_isolated s -> 0 <= hs_indeterminate s ->
  hs_serving s + hs_isolated s + hs_indeterminate s + Zlen ls < 2 ^ 32 ->
  (forall l, l ∈ ls -> Zlen (entries_of en (leaf_id l) c) < 2 ^ 32) ->
  let s' := scan_all en c ls s in
  0 <= hs_serving s' /\ 0 <= hs_isolated s' /\ 0 <= hs_indeterminate s'
  /\ hs_serving s' + hs_isolated s' + hs_indeterminate s'
     = hs_serving s + hs_isolated s + hs_indeterminate s + Zlen ls
  /\ (hs_isolated s' <= 0 /\ hs_indeterminate s' <= 0 <->
      hs_isolated s <= 0 /\ hs_indeterminate s <= 0 /\ forall l, l ∈ ls -> served en c l).
Proof.
  cbv zeta. revert s. induction ls as [|l ls IH]; intros s H1 H2 H3 H4 H5.
  { change (Zlen []) with 0. cbn. do 3 (split; [done|]). split; [lia|]. split; [|tauto]. intros []. split_and!; try done.
    by intros l ?%elem_of_nil. }
  rewrite Zlen_cons in *. pose proof (Zlen_nonneg ls). cbn [scan_all fold_left].
  assert (forall l', l' ∈ ls -> Zlen (entries_of en (leaf_id l') c) < 2 ^ 32) as H5' by (intros; apply H5; by right).
  destruct (classify_leaf_spec en c s l) as [(Hs & E1 & E2 & E3)|(Hs & E1 & E23)]; [lia..|apply H5; left| |].
  - destruct (IH (classify_leaf (required_spines c) s l (entries_of en (leaf_id l) c))) as (I1 & I2 & I3 & I4 & I5);
      [lia..|done|]. fold (scan_all en c ls (classify_leaf (required_spines c) s l (entries_of en (leaf_id l) c))).
    do 3 (split; [done|]). split; [lia|]. rewrite I5, E2, E3. split; intros (? & ? & Hall); split_and!; try done.
    + intros x Hx. apply elem_of_cons in Hx as [->|Hx]; auto.
    + intros x Hx. apply Hall. by right.
  - destruct (IH (classify_leaf (required_spines c) s l (entries_of en (leaf_id l) c))) as (I1 & I2 & I3 & I4 & I5);
      [lia..|done|]. fold (scan_all en c ls (classify_leaf (required_spines c) s l (entries_of en (leaf_id l) c))).
    do 3 (split; [done|]). split; [lia|]. rewrite I5. split; intros (? & ? & Hall); exfalso; [lia|]. apply Hs, Hall. left.
Qed.

(** The fabric is in a state in which health is computed from its parts. *)
Definition assessable (f : Fabric) : Prop :=
  fab_state f <> FS_Unformed /\ fab_state f <> FS_Retired /\ fab_state f <> FS_Draining /\ leaves f <> [].

Lemma health_live en c controller epoch t n :
  (forall k, t k = false) -> assessable (en_fabric en) ->
  exists r, (health en c controller epoch t n).1 = Value r
    /\ let s := scan_all en c (leaves (en_fabric en)) (MkHealthScan 0 0 0 []) in
       let failed := count32 (fun x => bool_decide (spine_state x = NS_Failed)) (spines (en_fabric en)) in
       let draining := count32 (fun x => bool_decide (spine_state x = NS_Draining)) (spines (en_fabric en)) in
       hr_leaves_serving r = hs_serving s /\ hr_leaves_isolated r = hs_isolated s
       /\ hr_leaves_indeterminate r = hs_indeterminate s
       /\ hr_leaves_total r = wrap 32 (Zlen (leaves (en_fabric en)))
       /\ (hr_health r = FH_Operational <-> hs_isolated s <= 0 /\ failed <= 0 /\ draining <= 0 /\ hs_indeterminate s <= 0).
Proof.
  intros Ht (H1 & H2 & H3 & H4). unfold health. rewrite !bool_decide_false by done. cbn [orb].
  unfold mbind, Poll_bind. cbv zeta.
  pose proof (scan_leaves_live en c (leaves (en_fabric en)) (MkHealthScan 0 0 0 []) t n Ht) as E.
  destruct (scan_leaves _ _ _ _ _ t n) as [r m]. cbn [fst] in E. subst r.
  destruct (_ || _)%bool eqn:Eo; [|bool_to_prop; destruct (0 <? hs_indeterminate _) eqn:Ei; bool_to_prop];
    eexists; (split; [reflexivity|]); cbn [hr_leaves_serving hr_leaves_isolated hr_leaves_indeterminate hr_leaves_total hr_health];
    (do 4 (split; [reflexivity|])); (split; [done|]); intros (Q1 & Q2 & Q3 & Q4); lia || done.
Qed.

(** Fabric health, when no poll answers cancelled and the tables have fewer than
    2^32 entries. Every leaf is counted exactly once, as serving, isolated or
    indeterminate; and the fabric is reported operational exactly when no spine has failed
    or drains and every leaf is active with at least the required number of eligible
    uplinks. *)
Theorem health_operational_exact en c controller epoch t n :
  (forall k, t k = false) -> assessable (en_fabric en) ->
  Zlen (leaves (en_fabric en)) < 2 ^ 32 -> Zlen (spines (en_fabric en)) < 2 ^ 32 ->
  (forall l, l ∈ leaves (en_fabric en) -> Zlen (entries_of en (leaf_id l) c) < 2 ^ 32) ->
  exists r, (health en c controller epoch t n).1 = Value r
    /\ hr_leaves_serving r + hr_leaves_isolated r + hr_leaves_indeterminate r = hr_leaves_total r
    /\ (hr_health r = FH_Operational <->
        (forall s, s ∈ spines (en_fabric en) -> spine_state s <> NS_Failed /\ spine_state s <> NS_Draining)
        /\ forall l, l ∈ leaves (en_fabric en) -> served en c l).
Proof.
  intros Ht Ha Hl Hs He. destruct (health_live en c controller epoch t n Ht Ha) as (r & Hr & E1 & E2 & E3 & E4 & E5).
  exists r. split; [done|]. rewrite E1, E2, E3, E4, E5. clear E1 E2 E3 E4 E5.
  destruct (scan_all_spec en c (leaves (en_fabric en)) (MkHealthScan 0 0 0 [])) as (_ & _ & _ & Hsum & Hiff);
    cbn [hs_serving hs_isolated hs_indeterminate]; [done..|lia|done|].
  cbn [hs_serving hs_isolated hs_indeterminate] in Hsum, Hiff. pose proof (Zlen_nonneg (leaves (en_fabric en))).
  split; [rewrite wrap_small by (unfold fits; lia); lia|]. rewrite !count32_zero by done. split.
  - intros (Q1 & Q2 & Q3 & Q4). split.
    + intros s Hin. specialize (Q2 s Hin). specialize (Q3 s Hin). bool_to_prop. done.
    + by apply (proj1 Hiff).
  - intros [Q1 Q2]. destruct (proj2 Hiff) as [Z1 Z2]; [done|]. split_and!; try done;
      intros s Hin; apply bool_decide_false; by apply Q1.
Qed.

Lemma health_operational_exact_witness :
  exists r, (health sample_engine default_constraints (MkInc 5 6) 3 live_token 0%nat).1 = Value r
    /\ hr_leaves_serving r + hr_leaves_isolated r + hr_leaves_indeterminate r = hr_leaves_total r.
Proof.
  destruct (health_operational_exact sample_engine default_constraints (MkInc 5 6) 3 live_token 0)
    as (r & Hr & Hs & _).
  - done.
  - split_and!; discriminate.
  - vm_compute. reflexivity.
  - vm_compute. reflexivity.
  - intros l Hl. change (leaves (en_fabric sample_engine)) with [Sample.leaf1; Sample.leaf2] in Hl.
    apply elem_of_cons in Hl as [->|Hl]; [vm_compute; reflexivity|].
    apply list_elem_of_singleton in Hl as ->. vm_compute. reflexivity.
  - exists r. split; [exact Hr|exact Hs].
Defined.
