(* ===== verification/Governance.v ===== *)
(** * Authority, commands and their encodings (include/slf/governance.hpp, src/governance.cpp)

    Tokens and path authorities are bound to a coordinate (controller incarnation,
    epoch, generation, topology digest, lease) and checked against the live one;
    commands, results and path authorities have canonical encodings. *)
From S2P Require Import Prelude Status Checked Identity Bytes Digest Capacity Model Codec Topology Eligibility.

(** ** Authority *)

Record AuthorityContext := MkContext {
  ctx_controller : ControllerIncarnation;
  ctx_epoch : Epoch;
  ctx_generation : TopologyGeneration;
  ctx_topology_digest : Digest;
  ctx_active_lease : option LeaseId;
  ctx_now : Z
}.

Record AuthorityToken := MkToken {
  tok_controller : ControllerIncarnation;
  tok_epoch : Epoch;
  tok_generation : TopologyGeneration;
  tok_lease : LeaseId;
  tok_topology_digest : Digest;
  tok_issued_at : Z;
  tok_expires_at : Z
}.

Definition default_token : AuthorityToken := MkToken zero_incarnation 0 0 0 zero_digest 0 0.

Definition expired_at (t : AuthorityToken) (now : Z) : bool := tok_expires_at t <=? now.

(** [AuthorityCheck] has the fields of a status. *)
Definition AuthorityCheck : Type := Status.

Definition lease_is (active : option LeaseId) (lease : LeaseId) : bool :=
  match active with Some l => l =? lease | None => false end.

Definition validate_token (t : AuthorityToken) (ctx : AuthorityContext) : AuthorityCheck :=
  if inc_is_zero (tok_controller t) || is_zero (tok_lease t) then
    MkStatus SC_Refused "authority token is not a minted grant"
  else if negb (bool_decide (tok_controller t = ctx_controller ctx)) then
    MkStatus SC_Fenced ("authority was minted by controller incarnation "
      +:+ incarnation_to_string (tok_controller t) +:+ " but the live incarnation is "
      +:+ incarnation_to_string (ctx_controller ctx))
  else if negb (tok_epoch t =? ctx_epoch ctx) then
    MkStatus SC_Stale ("authority epoch " +:+ std_to_string (tok_epoch t) +:+ " is not the live epoch "
      +:+ std_to_string (ctx_epoch ctx))
  else if negb (tok_generation t =? ctx_generation ctx) then
    MkStatus SC_Stale ("authority generation " +:+ std_to_string (tok_generation t)
      +:+ " is not the live generation " +:+ std_to_string (ctx_generation ctx))
  else if negb (bool_decide (tok_topology_digest t = ctx_topology_digest ctx)) then
    MkStatus SC_Conflicting ("authority was minted for topology digest "
      +:+ short_hex 8 (tok_topology_digest t) +:+ " but the live digest is "
      +:+ short_hex 8 (ctx_topology_digest ctx))
  else if negb (lease_is (ctx_active_lease ctx) (tok_lease t)) then
    MkStatus SC_Refused "the lease that minted this authority is no longer active"
  else if expired_at t (ctx_now ctx) then
    MkStatus SC_DeadlineExpired ("authority lease expired at " +:+ std_to_string (tok_expires_at t)
      +:+ " ms (now " +:+ std_to_string (ctx_now ctx) +:+ " ms)")
  else success.

Record AuthorityLease := MkLease { al_token : AuthorityToken; al_requester : string; al_lease : LeaseId }.

Definition ttl_ms (l : AuthorityLease) (now : Z) : Z :=
  if tok_expires_at (al_token l) >? now then tok_expires_at (al_token l) - now else 0.

Record PathAuthority := MkPathAuthority {
  auth_controller : ControllerIncarnation;
  auth_epoch : Epoch;
  auth_generation : TopologyGeneration;
  auth_topology_digest : Digest;
  auth_lease : LeaseId;
  auth_from : NodeKey;
  auth_to : NodeKey;
  auth_cls : ReachabilityClass;
  auth_verdict : EligibilityVerdict;
  auth_spines : list SpineId;
  auth_issued_at : Z;
  auth_expires_at : Z;
  auth_digest : Digest
}.

Definition ReachabilityClass_to_u8 (c : ReachabilityClass) : Z :=
  match c with
  | RC_SameNode => 0 | RC_DirectLeafSpine => 1 | RC_DirectPeer => 2 | RC_LeafSpineViaPeer => 3
  | RC_LeafLeafSingleSpine => 4 | RC_LeafLeafMultiSpine => 5 | RC_SpineSpineViaLeaf => 6
  | RC_Unreachable => 7 | RC_Indeterminate => 8
  end.

Definition ReachabilityClass_of_u8 (v : Z) : option ReachabilityClass :=
  List.find (fun c => ReachabilityClass_to_u8 c =? v)
    [RC_SameNode; RC_DirectLeafSpine; RC_DirectPeer; RC_LeafSpineViaPeer; RC_LeafLeafSingleSpine;
     RC_LeafLeafMultiSpine; RC_SpineSpineViaLeaf; RC_Unreachable; RC_Indeterminate].

Definition EligibilityVerdict_to_u8 (v : EligibilityVerdict) : Z :=
  match v with EV_Eligible => 0 | EV_Ineligible => 1 | EV_Indeterminate => 2 end.

Definition EligibilityVerdict_of_u8 (v : Z) : option EligibilityVerdict :=
  List.find (fun c => EligibilityVerdict_to_u8 c =? v) [EV_Eligible; EV_Ineligible; EV_Indeterminate].

Definition kPathAuthorityDomain : string := "slf.path_authority.v1".

(** The fields in the order they are digested; [digest_op] is how the topology digest
    is fed ([add_bytes] prefixes its length, [writer.bytes] does not). *)
Definition path_authority_ops (digest_op : list byte -> WriteOp) (a : PathAuthority) : list WriteOp :=
  [WString kPathAuthorityDomain; WU64 (hi (auth_controller a)); WU64 (lo (auth_controller a));
   WU64 (auth_epoch a); WU64 (auth_generation a); digest_op (digest_bytes (auth_topology_digest a));
   WU64 (auth_lease a); WU8 (Tier_to_u8 (tier (auth_from a))); WU32 (index (auth_from a));
   WU8 (Tier_to_u8 (tier (auth_to a))); WU32 (index (auth_to a));
   WU8 (ReachabilityClass_to_u8 (auth_cls a)); WU8 (EligibilityVerdict_to_u8 (auth_verdict a));
   WU32 (Zlen (auth_spines a))]
  ++ (WU32 <$> auth_spines a) ++ [WU64 (auth_issued_at a); WU64 (auth_expires_at a)].

Definition compute_path_authority_digest (a : PathAuthority) : Digest :=
  digest_build (path_authority_ops WBlock a).

Definition seal_authority (a : PathAuthority) : PathAuthority :=
  MkPathAuthority (auth_controller a) (auth_epoch a) (auth_generation a) (auth_topology_digest a)
    (auth_lease a) (auth_from a) (auth_to a) (auth_cls a) (auth_verdict a) (auth_spines a)
    (auth_issued_at a) (auth_expires_at a) (compute_path_authority_digest a).

Definition mint_path_authority (s : PathAssessment) (t : AuthorityToken) (now ttl : Z) : Outcome PathAuthority :=
  if negb (bool_decide (pa_verdict s = EV_Eligible)) then
    fail (if bool_decide (pa_verdict s = EV_Indeterminate) then SC_Indeterminate else SC_Refused)
      "refusing to mint path authority for a path that is not proven eligible"
  else if bool_decide (pa_eligible_spines s = []) then
    fail SC_Indeterminate "assessment carries no eligible spine set"
  else if negb (bool_decide (pa_controller s = tok_controller t)) || negb (pa_epoch s =? tok_epoch t)
          || negb (pa_generation s =? tok_generation t) then
    fail SC_Stale "assessment was computed at a different authority coordinate"
  else if negb (bool_decide (pa_topology_digest s = tok_topology_digest t)) then
    fail SC_Conflicting "assessment topology digest does not match the authority token"
  else
    Value (seal_authority
      (MkPathAuthority (tok_controller t) (tok_epoch t) (tok_generation t) (tok_topology_digest t)
         (tok_lease t) (pa_from s) (pa_to s) (pa_cls s) (pa_verdict s) (pa_eligible_spines s) now
         (if ttl =? 0 then tok_expires_at t else wrap 64 (now + ttl)) zero_digest)).

Definition validate_path_authority (a : PathAuthority) (ctx : AuthorityContext) : AuthorityCheck :=
  if negb (bool_decide (compute_path_authority_digest a = auth_digest a)) then
    MkStatus SC_IntegrityError "path authority body does not match its digest"
  else if negb (bool_decide (auth_controller a = ctx_controller ctx)) then
    MkStatus SC_Fenced "path authority was minted by a previous controller incarnation"
  else if negb (auth_epoch a =? ctx_epoch ctx) then
    MkStatus SC_Stale ("path authority belongs to epoch " +:+ std_to_string (auth_epoch a))
  else if negb (auth_generation a =? ctx_generation ctx) then
    MkStatus SC_Stale ("path authority belongs to generation " +:+ std_to_string (auth_generation a))
  else if negb (bool_decide (auth_topology_digest a = ctx_topology_digest ctx)) then
    MkStatus SC_Conflicting "path authority topology digest does not match the live topology"
  else if negb (lease_is (ctx_active_lease ctx) (auth_lease a)) then
    MkStatus SC_Refused "the lease that minted this path authority is no longer active"
  else if auth_expires_at a <=? ctx_now ctx then
    MkStatus SC_DeadlineExpired "path authority expired"
  else success.

(** ** Commands *)

Inductive CommandKind :=
| CK_SetFabricState | CK_SetLeafState | CK_SetSpineState | CK_SetPortAdmin | CK_SetLinkAdmin
| CK_AddLink | CK_RemoveLink | CK_SetOptions | CK_SubmitEvidence | CK_ClearEvidence.

#[export] Instance CommandKind_eq_dec : EqDecision CommandKind.
Proof. solve_decision. Defined.

Definition CommandKind_to_u8 (k : CommandKind) : Z :=
  match k with
  | CK_SetFabricState => 0 | CK_SetLeafState => 1 | CK_SetSpineState => 2 | CK_SetPortAdmin => 3
  | CK_SetLinkAdmin => 4 | CK_AddLink => 5 | CK_RemoveLink => 6 | CK_SetOptions => 7
  | CK_SubmitEvidence => 8 | CK_ClearEvidence => 9
  end.

Definition all_command_kinds : list CommandKind :=
  [CK_SetFabricState; CK_SetLeafState; CK_SetSpineState; CK_SetPortAdmin; CK_SetLinkAdmin; CK_AddLink;
   CK_RemoveLink; CK_SetOptions; CK_SubmitEvidence; CK_ClearEvidence].

Definition CommandKind_of_u8 (v : Z) : option CommandKind :=
  List.find (fun k => CommandKind_to_u8 k =? v) all_command_kinds.

Definition CommandKind_to_string (k : CommandKind) : string :=
  match k with
  | CK_SetFabricState => "set_fabric_state"
  | CK_SetLeafState => "set_leaf_state"
  | CK_SetSpineState => "set_spine_state"
  | CK_SetPortAdmin => "set_port_admin"
  | CK_SetLinkAdmin => "set_link_admin"
  | CK_AddLink => "add_link"
  | CK_RemoveLink => "remove_link"
  | CK_SetOptions => "set_options"
  | CK_SubmitEvidence => "submit_evidence"
  | CK_ClearEvidence => "clear_evidence"
  end.

Definition parse_command_kind (text : string) : option CommandKind :=
  if bool_decide (text = "set_fabric_state") then Some CK_SetFabricState
  else if bool_decide (text = "set_leaf_state") then Some CK_SetLeafState
  else if bool_decide (text = "set_spine_state") then Some CK_SetSpineState
  else if bool_decide (text = "set_port_admin") then Some CK_SetPortAdmin
  else if bool_decide (text = "set_link_admin") then Some CK_SetLinkAdmin
  else if bool_decide (text = "add_link") then Some CK_AddLink
  else if bool_decide (text = "remove_link") then Some CK_RemoveLink
  else if bool_decide (text = "set_options") then Some CK_SetOptions
  else if bool_decide (text = "submit_evidence") then Some CK_SubmitEvidence
  else if bool_decide (text = "clear_evidence") then Some CK_ClearEvidence
  else None.

Record Command := MkCommand {
  cmd_request : RequestId;
  cmd_token : AuthorityToken;
  cmd_expected_generation : TopologyGeneration;
  cmd_expected_epoch : Epoch;
  cmd_kind : CommandKind;
  cmd_fabric_state : FabricState;
  cmd_node : NodeKey;
  cmd_node_state : NodeState;
  cmd_port : PortId;
  cmd_port_admin : PortAdmin;
  cmd_link : LinkId;
  cmd_link_admin : LinkAdmin;
  cmd_new_link : LinkRecord;
  cmd_evidence : LinkEvidence;
  cmd_options : FabricOptions
}.

Record CommandResult := MkResult {
  res_code : StatusCode;
  res_detail : string;
  res_request : RequestId;
  res_generation : TopologyGeneration;
  res_epoch : Epoch;
  res_topology_digest : Digest;
  res_deduplicated : bool;
  res_mutated : bool;
  res_refreshed_token : AuthorityToken
}.

Definition quote : string := text_of [Byte.x22].

Definition CommandResult_to_string (r : CommandResult) : string :=
  "request=" +:+ std_to_string (res_request r) +:+ " code=" +:+ StatusCode_to_string (res_code r)
  +:+ " generation=" +:+ std_to_string (res_generation r) +:+ " epoch=" +:+ std_to_string (res_epoch r)
  +:+ " deduplicated=" +:+ (if res_deduplicated r then "true" else "false")
  +:+ " mutated=" +:+ (if res_mutated r then "true" else "false")
  +:+ (if bool_decide (res_detail r = EmptyString) then EmptyString
       else " detail=" +:+ quote +:+ res_detail r +:+ quote).

(** ** Encodings *)

Definition kCommandDomain : string := "slf.command.v1".
Definition kCommandResultDomain : string := "slf.command_result.v1".
Definition kCommandBytes : Z := 1 * 1024 * 1024.

Definition token_ops (t : AuthorityToken) : list WriteOp :=
  [WU64 (hi (tok_controller t)); WU64 (lo (tok_controller t)); WU64 (tok_epoch t); WU64 (tok_generation t);
   WU64 (tok_lease t); WBytes (digest_bytes (tok_topology_digest t)); WU64 (tok_issued_at t);
   WU64 (tok_expires_at t)].

(** The link of an [AddLink] command: its identity takes eight bytes here. *)
Definition new_link_ops (l : LinkRecord) : list WriteOp :=
  [WU64 (link_id l); WU8 (Tier_to_u8 (tier (link_a l))); WU32 (index (link_a l)); WU32 (link_port_a l);
   WU8 (Tier_to_u8 (tier (link_b l))); WU32 (index (link_b l)); WU32 (link_port_b l);
   WU8 (LinkClass_to_u8 (link_cls l)); WU8 (LinkAdmin_to_u8 (link_admin l)); WU64 (link_declared_speed l);
   WU64 (link_generation l)].

Definition options_ops (o : FabricOptions) : list WriteOp :=
  [WU8 (bool_u8 (allow_same_tier_adjacency o)); WU8 (bool_u8 (require_domain_diversity o));
   WU32 (min_eligible_spines o); WU8 (EvidencePolicy_to_u8 (evidence_policy o))].

Definition command_ops (c : Command) : list WriteOp :=
  [WString kCommandDomain; WU64 (cmd_request c)]
  ++ token_ops (cmd_token c)
  ++ [WU64 (cmd_expected_generation c); WU64 (cmd_expected_epoch c); WU8 (CommandKind_to_u8 (cmd_kind c));
      WU8 (FabricState_to_u8 (cmd_fabric_state c)); WU8 (Tier_to_u8 (tier (cmd_node c)));
      WU32 (index (cmd_node c)); WU8 (NodeState_to_u8 (cmd_node_state c)); WU32 (cmd_port c);
      WU8 (PortAdmin_to_u8 (cmd_port_admin c)); WU32 (cmd_link c); WU8 (LinkAdmin_to_u8 (cmd_link_admin c))]
  ++ new_link_ops (cmd_new_link c) ++ evidence_ops (cmd_evidence c) ++ options_ops (cmd_options c).

Definition serialize_command (c : Command) : list byte :=
  buffer (writes (new_writer kCommandBytes) (command_ops c)).

(** A decoder run over a whole span, ending with [expect_end]. *)
Definition run_to_end {A} (m : Reader A) (data : list byte) (max_string : Z) : Outcome A :=
  match m (new_reader data max_string) with
  | (Failure s, _) => Failure s
  | (Value a, r) => if status_ok (expect_end r) then Value a else Failure (expect_end r)
  end.

Definition read_token : Reader AuthorityToken :=
  chi ← read_u64; clo ← read_u64; epoch ← read_u64; generation ← read_u64; lease ← read_u64;
  digest ← read_bytes 32; issued ← read_u64; expires ← read_u64;
  mret (MkToken (MkInc chi clo) epoch generation lease (MkDigest digest) issued expires).

(** The target fields: kind, fabric state, node, node state, port, link, as read. *)
Definition read_targets : Reader (Z * Z * Z * Z * Z * Z * Z * Z * Z) :=
  kind ← read_u8; fstate ← read_u8; ntier ← read_u8; nindex ← read_u32; nstate ← read_u8; port ← read_u32;
  padmin ← read_u8; link ← read_u32; ladmin ← read_u8;
  mret (kind, fstate, ntier, nindex, nstate, port, padmin, link, ladmin).

Definition read_new_link : Reader (Z * Z * Z * Z * Z * Z * Z * Z * Z * Z * Z) :=
  id ← read_u64; at_ ← read_u8; ai ← read_u32; pa ← read_u32; bt ← read_u8; bi ← read_u32; pb ← read_u32;
  cls ← read_u8; adm ← read_u8; speed ← read_u64; gen ← read_u64;
  mret (id, at_, ai, pa, bt, bi, pb, cls, adm, speed, gen).

Definition read_evidence : Reader (Z * Z * Z * Z * Z * Z * Z * Z) :=
  link ← read_u32; obs ← read_u8; gen ← read_u64; ohi ← read_u64; olo ← read_u64; ep ← read_u64;
  seq ← read_u64; at_ms ← read_u64; mret (link, obs, gen, ohi, olo, ep, seq, at_ms).

Definition read_options : Reader (Z * Z * Z * Z) :=
  peer ← read_u8; diversity ← read_u8; min_spines ← read_u32; policy ← read_u8;
  mret (peer, diversity, min_spines, policy).

(** The tiers and the administrative state of the new link are cast without a check,
    and its identity is truncated to 32 bits. *)
Definition decode_command : Reader Command :=
  '(tag, request, token, exp_gen, exp_epoch, targets, new_link, evidence, options) ←
    fields SC_Truncated "command encoding is incomplete"
      (tag ← read_string; request ← read_u64; token ← read_token; exp_gen ← read_u64; exp_epoch ← read_u64;
       targets ← read_targets; new_link ← read_new_link; evidence ← read_evidence; options ← read_options;
       mret (tag, request, token, exp_gen, exp_epoch, targets, new_link, evidence, options));
  let '(kind, fstate, ntier, nindex, nstate, port, padmin, link, ladmin) := targets in
  let '(id, at_, ai, pa, bt, bi, pb, cls, adm, speed, gen) := new_link in
  let '(elink, obs, egen, ohi, olo, ep, seq, at_ms) := evidence in
  let '(peer, diversity, min_spines, policy) := options in
  _ ← ensure (bool_decide (tag = kCommandDomain)) SC_Invalid "command encoding has an unexpected domain tag";
  let unknown := "command encoding carries an unknown enumeration value" in
  kind ← lift (opt_or (CommandKind_of_u8 kind) SC_Invalid unknown);
  fstate ← lift (opt_or (FabricState_of_u8 fstate) SC_Invalid unknown);
  _ ← ensure (negb (ntier >? 1)) SC_Invalid unknown;
  nstate ← lift (opt_or (NodeState_of_u8 nstate) SC_Invalid unknown);
  padmin ← lift (opt_or (PortAdmin_of_u8 padmin) SC_Invalid unknown);
  _ ← ensure (negb (ladmin >? 1)) SC_Invalid unknown;
  cls ← lift (opt_or (LinkClass_of_u8 cls) SC_Invalid unknown);
  obs ← lift (opt_or (LinkObservation_of_u8 obs) SC_Invalid unknown);
  policy ← lift (opt_or (EvidencePolicy_of_u8 policy) SC_Invalid unknown);
  mret (MkCommand request token exp_gen exp_epoch kind fstate (MkNode (Tier_of_u8 ntier) nindex) nstate port
          padmin link (LinkAdmin_of_u8 ladmin)
          (MkLink (wrap 32 id) (MkNode (Tier_of_u8 at_) ai) pa (MkNode (Tier_of_u8 bt) bi) pb cls
             (LinkAdmin_of_u8 adm) speed gen)
          (MkEvidence elink obs egen (MkInc ohi olo) ep seq at_ms)
          (MkOptions (negb (peer =? 0)) (negb (diversity =? 0)) min_spines policy)).

Definition deserialize_command (data : list byte) : Outcome Command := run_to_end decode_command data 4096.

Definition result_ops (r : CommandResult) : list WriteOp :=
  [WString kCommandResultDomain; WU64 (res_request r); WU16 (StatusCode_to_u16 (res_code r));
   WString (res_detail r); WU64 (res_generation r); WU64 (res_epoch r);
   WBytes (digest_bytes (res_topology_digest r)); WU8 (bool_u8 (res_deduplicated r));
   WU8 (bool_u8 (res_mutated r))].

Definition serialize_command_result (r : CommandResult) : list byte :=
  buffer (writes (new_writer kCommandBytes) (result_ops r)).

Definition decode_command_result : Reader CommandResult :=
  '(tag, request, code, detail, generation, epoch, digest, deduplicated, mutated) ←
    fields SC_Truncated "command result encoding is incomplete"
      (tag ← read_string; request ← read_u64; code ← read_u16; detail ← read_string; generation ← read_u64;
       epoch ← read_u64; digest ← read_bytes 32; deduplicated ← read_u8; mutated ← read_u8;
       mret (tag, request, code, detail, generation, epoch, digest, deduplicated, mutated));
  _ ← ensure (bool_decide (tag = kCommandResultDomain)) SC_Invalid
        "command result encoding has an unexpected domain tag";
  mret (MkResult (StatusCode_of_u16 code) detail request generation epoch (MkDigest digest)
          (negb (deduplicated =? 0)) (negb (mutated =? 0)) default_token).

Definition deserialize_command_result (data : list byte) : Outcome CommandResult :=
  run_to_end decode_command_result data (64 * 1024).

Definition serialize_path_authority (a : PathAuthority) : list byte :=
  buffer (writes (new_writer kCommandBytes)
    (path_authority_ops WBytes a ++ [WBytes (digest_bytes (auth_digest a))])).

Definition kMaxAuthoritySpines : Z := 4096.

Definition decode_path_authority : Reader PathAuthority :=
  '(tag, chi, clo, epoch, generation, digest, lease, ft, fi, tt_, ti, cls, verdict, count) ←
    fields SC_Truncated "path authority encoding is incomplete"
      (tag ← read_string; chi ← read_u64; clo ← read_u64; epoch ← read_u64; generation ← read_u64;
       digest ← read_bytes 32; lease ← read_u64; ft ← read_u8; fi ← read_u32; tt_ ← read_u8; ti ← read_u32;
       cls ← read_u8; verdict ← read_u8; count ← read_u32;
       mret (tag, chi, clo, epoch, generation, digest, lease, ft, fi, tt_, ti, cls, verdict, count));
  _ ← ensure (bool_decide (tag = kPathAuthorityDomain)) SC_Invalid
        "path authority encoding has an unexpected domain tag";
  _ ← ensure (negb (count >? kMaxAuthoritySpines)) SC_Exhausted
        "path authority spine count exceeds the configured bound";
  let unknown := "path authority carries an unknown enumeration value" in
  _ ← ensure (negb ((ft >? 1) || (tt_ >? 1))) SC_Invalid unknown;
  cls ← lift (opt_or (ReachabilityClass_of_u8 cls) SC_Invalid unknown);
  verdict ← lift (opt_or (EligibilityVerdict_of_u8 verdict) SC_Invalid unknown);
  spines ← fields SC_Truncated "path authority spine list is incomplete" (read_n (Z.to_nat count) read_u32);
  '(issued, expires, seal) ← fields SC_Truncated "path authority trailer is incomplete"
    (issued ← read_u64; expires ← read_u64; seal ← read_bytes 32; mret (issued, expires, seal));
  mret (MkPathAuthority (MkInc chi clo) epoch generation (MkDigest digest) lease (MkNode (Tier_of_u8 ft) fi)
          (MkNode (Tier_of_u8 tt_) ti) cls verdict spines issued expires (MkDigest seal)).

Definition deserialize_path_authority (data : list byte) : Outcome PathAuthority :=
  run_to_end decode_path_authority data 4096.
