(* ===== verification/GovernanceSpec.v ===== *)
(** * Properties of authority and command encodings (src/governance.cpp)

    A token or a path authority passes exactly at the coordinate it was minted for;
    the encodings round trip; and two path authorities with one digest are the same
    authority or exhibit a SHA-256 collision. *)
From S2P Require Import Prelude Status Checked Identity Bytes Digest Capacity Model Builder BuilderSpec Sample Freeze Codec CodecSpec Topology TopologySpec Eligibility EligibilitySpec Governance.

(** ** Validation *)

Lemma lease_is_true o l : lease_is o l = true <-> o = Some l.
Proof. unfold lease_is. destruct o; [rewrite Z.eqb_eq|]; naive_solver. Qed.

(** The coordinate of a token is the live one. *)
Definition token_live (t : AuthorityToken) (ctx : AuthorityContext) : Prop :=
  tok_controller t = ctx_controller ctx /\ tok_epoch t = ctx_epoch ctx
  /\ tok_generation t = ctx_generation ctx /\ tok_topology_digest t = ctx_topology_digest ctx
  /\ ctx_active_lease ctx = Some (tok_lease t).

Ltac guard_cases :=
  repeat match goal with
  | |- context [if negb (bool_decide ?P) then _ else _] => destruct (decide P); [rewrite (bool_decide_true P) by done|rewrite (bool_decide_false P) by done]; cbn [negb]
  | |- context [if negb (?a =? ?b) then _ else _] => destruct (Z.eqb_spec a b); cbn [negb]
  end.

Lemma validate_token_iff t ctx :
  code (validate_token t ctx) = SC_Ok <->
  tok_controller t <> zero_incarnation /\ tok_lease t <> 0 /\ token_live t ctx /\ ctx_now ctx < tok_expires_at t.
Proof.
  unfold validate_token, token_live.
  assert (inc_is_zero (tok_controller t) = true <-> tok_controller t = zero_incarnation) as Hz.
  { unfold inc_is_zero, zero_incarnation. destruct (tok_controller t) as [h l]. simpl.
    rewrite andb_true_iff, !Z.eqb_eq. naive_solver. }
  destruct (inc_is_zero (tok_controller t)) eqn:E1; cbn [orb]; [naive_solver|].
  unfold is_zero. destruct (Z.eqb_spec (tok_lease t) 0) as [E2|E2]; [naive_solver|].
  assert (tok_controller t <> zero_incarnation) as Hnz by naive_solver. clear Hz E1.
  guard_cases; try naive_solver.
  destruct (lease_is (ctx_active_lease ctx) (tok_lease t)) eqn:El; cbn [negb].
  - apply lease_is_true in El. unfold expired_at.
    destruct (Z.leb_spec (tok_expires_at t) (ctx_now ctx)); [|naive_solver].
    split; [done|]. intros (_ & _ & _ & ?). lia.
  - split; [done|]. intros (_ & _ & (_ & _ & _ & _ & H) & _). apply lease_is_true in H. congruence.
Qed.

(** A token passes exactly when it was minted (non-zero controller and lease), its
    controller, epoch, generation and topology digest are the live ones, its lease is the
    active one and it has not expired. In particular a new incarnation, a new epoch or a
    new generation fences every earlier token. *)
Theorem validate_token_ok t ctx :
  code (validate_token t ctx) = SC_Ok <->
  tok_controller t <> zero_incarnation /\ tok_lease t <> 0 /\ token_live t ctx /\ ctx_now ctx < tok_expires_at t.
Proof. apply validate_token_iff. Qed.

(** The reason a minted token is rejected is the first coordinate that moved: a
    different incarnation is [Fenced] whatever else differs; with the same incarnation a
    different epoch or generation is [Stale]; with the same generation a different digest
    is [Conflicting]; with the same coordinate a different lease is [Refused] and a lease
    past its deadline is [DeadlineExpired]. *)
Theorem validate_token_reason t ctx :
  tok_controller t <> zero_incarnation -> tok_lease t <> 0 ->
  code (validate_token t ctx)
  = if decide (tok_controller t <> ctx_controller ctx) then SC_Fenced
    else if decide (tok_epoch t <> ctx_epoch ctx \/ tok_generation t <> ctx_generation ctx) then SC_Stale
    else if decide (tok_topology_digest t <> ctx_topology_digest ctx) then SC_Conflicting
    else if decide (ctx_active_lease ctx <> Some (tok_lease t)) then SC_Refused
    else if decide (tok_expires_at t <= ctx_now ctx) then SC_DeadlineExpired else SC_Ok.
Proof.
  intros Hc Hl. unfold validate_token, is_zero. rewrite (proj2 (Z.eqb_neq _ _) Hl), orb_false_r.
  assert (inc_is_zero (tok_controller t) = false) as ->.
  { unfold inc_is_zero. apply not_true_iff_false. rewrite andb_true_iff, !Z.eqb_eq. intros [H1 H2]. apply Hc.
    unfold zero_incarnation. destruct (tok_controller t); simpl in *. congruence. }
  guard_cases; repeat (case_decide; try done; try tauto); try (exfalso; tauto).
  - destruct (lease_is _ _) eqn:E; [|done]. apply lease_is_true in E. done.
  - assert (ctx_active_lease ctx = Some (tok_lease t)) as E by by destruct (decide (ctx_active_lease ctx = Some (tok_lease t))).
    rewrite (proj2 (lease_is_true _ _) E). cbn [negb]. unfold expired_at. rewrite (proj2 (Z.leb_le _ _)); done.
  - assert (ctx_active_lease ctx = Some (tok_lease t)) as E by by destruct (decide (ctx_active_lease ctx = Some (tok_lease t))).
    rewrite (proj2 (lease_is_true _ _) E). cbn [negb]. unfold expired_at. rewrite (proj2 (Z.leb_gt _ _)); [done|lia].
Qed.

(** The part of a path authority that its digest covers. *)
Definition authority_body (a : PathAuthority) : PathAuthority :=
  MkPathAuthority (auth_controller a) (auth_epoch a) (auth_generation a) (auth_topology_digest a) (auth_lease a)
    (auth_from a) (auth_to a) (auth_cls a) (auth_verdict a) (auth_spines a) (auth_issued_at a) (auth_expires_at a)
    zero_digest.

Definition authority_live (a : PathAuthority) (ctx : AuthorityContext) : Prop :=
  auth_controller a = ctx_controller ctx /\ auth_epoch a = ctx_epoch ctx
  /\ auth_generation a = ctx_generation ctx /\ auth_topology_digest a = ctx_topology_digest ctx
  /\ ctx_active_lease ctx = Some (auth_lease a).

Lemma validate_path_authority_ok a ctx :
  code (validate_path_authority a ctx) = SC_Ok <->
  compute_path_authority_digest a = auth_digest a /\ authority_live a ctx /\ ctx_now ctx < auth_expires_at a.
Proof.
  unfold validate_path_authority, authority_live. guard_cases; try naive_solver.
  destruct (lease_is (ctx_active_lease ctx) (auth_lease a)) eqn:El; cbn [negb].
  - apply lease_is_true in El. destruct (Z.leb_spec (auth_expires_at a) (ctx_now ctx)); [|naive_solver].
    split; [done|]. intros (_ & _ & ?). lia.
  - split; [done|]. intros (_ & (_ & _ & _ & _ & H) & _). apply lease_is_true in H. congruence.
Qed.

Lemma seal_digest a : compute_path_authority_digest (seal_authority a) = auth_digest (seal_authority a).
Proof. done. Qed.

(** C35: Minting and validating agree. An authority is minted only from an eligible
    assessment with at least one spine, computed at the coordinate of the token; it names
    exactly the spines of the assessment; and it validates in a context exactly while that
    context has the coordinate and the lease of the token and the authority has not
    expired. *)
Theorem mint_validate s t now ttl a ctx :
  mint_path_authority s t now ttl = Value a ->
  pa_verdict s = EV_Eligible /\ pa_eligible_spines s <> [] /\ auth_spines a = pa_eligible_spines s
  /\ auth_from a = pa_from s /\ auth_to a = pa_to s
  /\ pa_controller s = tok_controller t /\ pa_epoch s = tok_epoch t /\ pa_generation s = tok_generation t
  /\ pa_topology_digest s = tok_topology_digest t
  /\ (code (validate_path_authority a ctx) = SC_Ok <-> token_live t ctx /\ ctx_now ctx < auth_expires_at a).
Proof.
  unfold mint_path_authority. intros H.
  destruct (bool_decide (pa_verdict s = EV_Eligible)) eqn:E1; cbn [negb] in H; [|done].
  destruct (bool_decide (pa_eligible_spines s = [])) eqn:E2; [done|].
  destruct (_ || _ || _)%bool eqn:E3 in H; [done|].
  destruct (bool_decide (pa_topology_digest s = tok_topology_digest t)) eqn:E4; cbn [negb] in H; [|done].
  injection H as <-. bool_to_prop. rewrite validate_path_authority_ok, seal_digest.
  do 9 (split; [done|]). unfold authority_live, token_live. cbn. tauto.
Qed.

(** A path authority passes validation exactly when its digest is the digest of its
    body, its coordinate and lease are the live ones and it has not expired. *)
Theorem validate_path_authority_exact a ctx :
  code (validate_path_authority a ctx) = SC_Ok <->
  compute_path_authority_digest a = auth_digest a /\ authority_live a ctx /\ ctx_now ctx < auth_expires_at a.
Proof. apply validate_path_authority_ok. Qed.

(** ** Round trips *)

Definition tier_cast_ok (t : Tier) : Prop := u8_ok (Tier_to_u8 t) /\ Tier_of_u8 (Tier_to_u8 t) = t.
Definition admin_cast_ok (a : LinkAdmin) : Prop := u8_ok (LinkAdmin_to_u8 a) /\ LinkAdmin_of_u8 (LinkAdmin_to_u8 a) = a.

Definition digest_ok (d : Digest) : Prop := Zlen (digest_bytes d) = 32.

Record token_fits (t : AuthorityToken) : Prop := {
  tf_hi : u64_ok (hi (tok_controller t));
  tf_lo : u64_ok (lo (tok_controller t));
  tf_epoch : u64_ok (tok_epoch t);
  tf_generation : u64_ok (tok_generation t);
  tf_lease : u64_ok (tok_lease t);
  tf_digest : digest_ok (tok_topology_digest t);
  tf_issued : u64_ok (tok_issued_at t);
  tf_expires : u64_ok (tok_expires_at t)
}.

Record new_link_fits (l : LinkRecord) : Prop := {
  nl_id : u32_ok (link_id l);
  nl_a : tier_cast_ok (tier (link_a l)) /\ u32_ok (index (link_a l)) /\ u32_ok (link_port_a l);
  nl_b : tier_cast_ok (tier (link_b l)) /\ u32_ok (index (link_b l)) /\ u32_ok (link_port_b l);
  nl_admin : admin_cast_ok (link_admin l);
  nl_speed : u64_ok (link_declared_speed l);
  nl_generation : u64_ok (link_generation l)
}.

(** Every field is representable at the width the encoding gives it. *)
Record command_fits (c : Command) : Prop := {
  cf_request : u64_ok (cmd_request c);
  cf_token : token_fits (cmd_token c);
  cf_generation : u64_ok (cmd_expected_generation c);
  cf_epoch : u64_ok (cmd_expected_epoch c);
  cf_node : tier_valid (tier (cmd_node c)) /\ u32_ok (index (cmd_node c));
  cf_port : u32_ok (cmd_port c);
  cf_link : u32_ok (cmd_link c);
  cf_link_admin : cmd_link_admin c = LA_Enabled \/ cmd_link_admin c = LA_Disabled;
  cf_new_link : new_link_fits (cmd_new_link c);
  cf_evidence : evidence_fits (cmd_evidence c);
  cf_min : u32_ok (min_eligible_spines (cmd_options c))
}.

Lemma CommandKind_of_to_u8 k : CommandKind_of_u8 (CommandKind_to_u8 k) = Some k.
Proof. by destruct k. Qed.
Lemma CommandKind_u8_ok k : u8_ok (CommandKind_to_u8 k).
Proof. destruct k; unfold fits; simpl; lia. Qed.
Lemma ReachabilityClass_of_to_u8 k : ReachabilityClass_of_u8 (ReachabilityClass_to_u8 k) = Some k.
Proof. by destruct k. Qed.
Lemma ReachabilityClass_u8_ok k : u8_ok (ReachabilityClass_to_u8 k).
Proof. destruct k; unfold fits; simpl; lia. Qed.
Lemma EligibilityVerdict_of_to_u8 k : EligibilityVerdict_of_u8 (EligibilityVerdict_to_u8 k) = Some k.
Proof. by destruct k. Qed.
Lemma EligibilityVerdict_u8_ok k : u8_ok (EligibilityVerdict_to_u8 k).
Proof. destruct k; unfold fits; simpl; lia. Qed.

#[local] Hint Resolve CommandKind_u8_ok ReachabilityClass_u8_ok EligibilityVerdict_u8_ok LeafRole_u8_ok
  SpineRole_u8_ok NodeState_u8_ok PortAdmin_u8_ok LinkClass_u8_ok LinkObservation_u8_ok FabricState_u8_ok
  EvidencePolicy_u8_ok bool_u8_ok : slf.

(** Decodes a run of fields. *)
Ltac decode_run := repeat (rewrite encs_cons; eapply decodes_bind; [first [eassumption | auto with slf]|]); apply decodes_ret.

Lemma decodes_token mx t : token_fits t -> decodes mx read_token (encs (token_ops t)) t.
Proof. intros []. destruct t as [[h l] e g ls [d] i x]. unfold read_token, token_ops. simpl in *. decode_run. Qed.

Lemma decodes_new_link mx l :
  new_link_fits l ->
  decodes mx read_new_link (encs (new_link_ops l))
    (link_id l, Tier_to_u8 (tier (link_a l)), index (link_a l), link_port_a l, Tier_to_u8 (tier (link_b l)),
     index (link_b l), link_port_b l, LinkClass_to_u8 (link_cls l), LinkAdmin_to_u8 (link_admin l),
     link_declared_speed l, link_generation l).
Proof.
  intros [H1 (H2 & H3 & H4) (H5 & H6 & H7) H8 H9 H10]. unfold read_new_link, new_link_ops.
  destruct H2, H5, H8. assert (u64_ok (link_id l)) by (unfold fits in *; lia). decode_run.
Qed.

Lemma decodes_raw_evidence mx r :
  evidence_fits r ->
  decodes mx read_evidence (encs (evidence_ops r))
    (ev_link r, LinkObservation_to_u8 (ev_observed r), ev_generation r, hi (ev_observer r), lo (ev_observer r),
     ev_epoch r, ev_seq r, ev_at_ms r).
Proof. intros (H1 & H2 & H3 & H4 & H5 & H6 & H7). unfold read_evidence, evidence_ops. decode_run. Qed.

Lemma decodes_raw_options mx o :
  u32_ok (min_eligible_spines o) ->
  decodes mx read_options (encs (options_ops o))
    (bool_u8 (allow_same_tier_adjacency o), bool_u8 (require_domain_diversity o), min_eligible_spines o,
     EvidencePolicy_to_u8 (evidence_policy o)).
Proof. intros H. unfold read_options, options_ops. decode_run. Qed.

Definition target_ops (c : Command) : list WriteOp :=
  [WU8 (CommandKind_to_u8 (cmd_kind c)); WU8 (FabricState_to_u8 (cmd_fabric_state c));
   WU8 (Tier_to_u8 (tier (cmd_node c))); WU32 (index (cmd_node c)); WU8 (NodeState_to_u8 (cmd_node_state c));
   WU32 (cmd_port c); WU8 (PortAdmin_to_u8 (cmd_port_admin c)); WU32 (cmd_link c);
   WU8 (LinkAdmin_to_u8 (cmd_link_admin c))].

Lemma decodes_targets mx c :
  command_fits c ->
  decodes mx read_targets (encs (target_ops c))
    (CommandKind_to_u8 (cmd_kind c), FabricState_to_u8 (cmd_fabric_state c), Tier_to_u8 (tier (cmd_node c)),
     index (cmd_node c), NodeState_to_u8 (cmd_node_state c), cmd_port c, PortAdmin_to_u8 (cmd_port_admin c),
     cmd_link c, LinkAdmin_to_u8 (cmd_link_admin c)).
Proof.
  intros []. destruct cf_node0 as [Ht ?]. destruct (tier_u8 _ Ht) as (? & _ & _).
  assert (u8_ok (LinkAdmin_to_u8 (cmd_link_admin c))) by (destruct cf_link_admin0 as [-> | ->]; unfold fits; simpl; lia).
  unfold read_targets, target_ops. decode_run.
Qed.

Lemma command_ops_split c :
  encs (command_ops c)
  = enc (WString kCommandDomain) ++ enc (WU64 (cmd_request c)) ++ encs (token_ops (cmd_token c))
    ++ enc (WU64 (cmd_expected_generation c)) ++ enc (WU64 (cmd_expected_epoch c)) ++ encs (target_ops c)
    ++ encs (new_link_ops (cmd_new_link c)) ++ encs (evidence_ops (cmd_evidence c))
    ++ encs (options_ops (cmd_options c)) ++ [].
Proof.
  unfold command_ops. rewrite !encs_app, !encs_cons. change (encs []) with (@nil byte).
  unfold target_ops. rewrite !encs_cons. change (encs []) with (@nil byte). rewrite ?app_nil_r.
  repeat rewrite <- (app_assoc (enc _)). done.
Qed.

Lemma decodes_command c : command_fits c -> decodes 4096 decode_command (encs (command_ops c)) c.
Proof.
  intros Hf. pose proof Hf as []. rewrite command_ops_split. unfold decode_command.
  rewrite <- (app_nil_r (enc _ ++ _)). eapply decodes_bind.
  { apply decodes_fields.
    eapply decodes_bind; [by apply decodes_string|]. eapply decodes_bind; [by apply decodes_u64|].
    eapply decodes_bind; [by apply decodes_token|]. eapply decodes_bind; [by apply decodes_u64|].
    eapply decodes_bind; [by apply decodes_u64|]. eapply decodes_bind; [by apply decodes_targets|].
    eapply decodes_bind; [by apply decodes_new_link|]. eapply decodes_bind; [by apply decodes_raw_evidence|].
    eapply decodes_bind; [by apply decodes_raw_options|]. apply decodes_ret. }
  cbv beta iota zeta.
  rewrite CommandKind_of_to_u8, FabricState_of_to_u8, NodeState_of_to_u8, PortAdmin_of_to_u8, LinkClass_of_to_u8,
    LinkObservation_of_to_u8, EvidencePolicy_of_to_u8.
  destruct cf_node0 as [Ht _]. destruct (tier_u8 _ Ht) as (_ & Ht' & Ht'').
  destruct cf_new_link0 as [Hid [[_ Ha] _] [[_ Hb] _] [_ Had] _ _].
  rewrite Ht''. eapply decodes_bind_nil; [by apply decodes_ensure, bool_decide_true|].
  do 2 (eapply decodes_bind_nil; [apply decodes_lift|]). eapply decodes_bind_nil; [by apply decodes_ensure|].
  do 2 (eapply decodes_bind_nil; [apply decodes_lift|]).
  eapply decodes_bind_nil; [apply decodes_ensure; by destruct cf_link_admin0 as [-> | ->]|].
  do 3 (eapply decodes_bind_nil; [apply decodes_lift|]). cbv beta.
  rewrite Ht', Ha, Hb, Had, !bool_u8_back, wrap_small by done.
  assert (LinkAdmin_of_u8 (LinkAdmin_to_u8 (cmd_link_admin c)) = cmd_link_admin c) as ->
    by (destruct cf_link_admin0 as [-> | ->]; done).
  destruct c as [? ? ? ? ? ? [] ? ? ? ? ? [? [] ? [] ? ? ? ? ?] [? ? ? [] ? ? ?] []]. apply decodes_ret.
Qed.

(** A run over exactly the encoding. *)
Lemma run_to_end_decodes {A} (m : Reader A) bs a mx : decodes mx m bs a -> run_to_end m bs mx = Value a.
Proof. intros H. unfold run_to_end. by rewrite (decodes_run mx m bs a H). Qed.

Lemma writes_buffer ops : Forall op_ok ops -> Zlen (encs ops) <= kCommandBytes ->
  buffer (writes (new_writer kCommandBytes) ops) = encs ops.
Proof. intros. by apply writes_fit_new. Qed.

Lemma deserialize_serialize_command c : command_fits c -> deserialize_command (serialize_command c) = Value c.
Proof.
  intros Hf. unfold deserialize_command, serialize_command. rewrite writes_buffer.
  - by apply run_to_end_decodes, decodes_command.
  - unfold command_ops, token_ops, new_link_ops, evidence_ops, options_ops. repeat (apply Forall_cons; split; [done|]).
    apply Forall_nil. done.
  - pose proof (tf_digest _ (cf_token _ Hf)) as Hd. unfold digest_ok in Hd.
    rewrite command_ops_split. unfold token_ops, target_ops, new_link_ops, evidence_ops, options_ops.
    rewrite !Zlen_app, !encs_cons. cbn [enc]. rewrite !Zlen_app, !Zlen_le_store, Hd. vm_compute. discriminate.
Qed.

(** Every command round trips through its encoding: decoding the encoded bytes of a
    command whose fields fit their widths gives the command back, including a new link
    whose tier or administrative state is outside the enumeration. *)
Theorem command_roundtrip c : command_fits c -> deserialize_command (serialize_command c) = Value c.
Proof. apply deserialize_serialize_command. Qed.

Definition sample_token : AuthorityToken := MkToken (MkInc 5 6) 3 7 11 (topology_digest Sample.observed) 1000 61000.

Definition sample_command : Command :=
  MkCommand 42 sample_token 7 3 CK_AddLink FS_Operational (node_of_leaf 1) NS_Active 0 PA_Enabled 0 LA_Enabled
    (Sample.link 9 1 1 2 8) Sample.observation default_options.

Lemma sample_token_fits : token_fits sample_token.
Proof. split; try (unfold fits; simpl; lia). vm_compute. reflexivity. Qed.

Lemma sample_command_fits : command_fits sample_command.
Proof.
  split; try (unfold fits; simpl; lia); try exact sample_token_fits; try (by left).
  - split; [by left|unfold fits; simpl; lia].
  - split; unfold tier_cast_ok, admin_cast_ok, fits; simpl; split_and!; done || lia.
  - unfold evidence_fits, fits. simpl. lia.
Qed.

Lemma command_roundtrip_witness : deserialize_command (serialize_command sample_command) = Value sample_command.
Proof. apply (command_roundtrip sample_command). exact sample_command_fits. Defined.

(** *** Results *)

Record result_fits (r : CommandResult) : Prop := {
  rf_code : u16_ok (StatusCode_to_u16 (res_code r)) /\ StatusCode_of_u16 (StatusCode_to_u16 (res_code r)) = res_code r;
  rf_detail : strlen (res_detail r) <= 64 * 1024 /\ is_valid_utf8 (res_detail r) = true;
  rf_request : u64_ok (res_request r);
  rf_generation : u64_ok (res_generation r);
  rf_epoch : u64_ok (res_epoch r);
  rf_digest : digest_ok (res_topology_digest r)
}.

(** The refreshed token is not part of the encoding. *)
Definition without_token (r : CommandResult) : CommandResult :=
  MkResult (res_code r) (res_detail r) (res_request r) (res_generation r) (res_epoch r) (res_topology_digest r)
    (res_deduplicated r) (res_mutated r) default_token.

Lemma decodes_result r :
  result_fits r -> decodes (64 * 1024) decode_command_result (encs (result_ops r)) (without_token r).
Proof.
  intros [[Hc Hc'] [Hd Hd'] H1 H2 H3 H4]. unfold decode_command_result, result_ops, digest_ok in *.
  assert (decodes (64 * 1024) read_string (enc (WString kCommandResultDomain)) kCommandResultDomain)
    by by apply decodes_string.
  assert (decodes (64 * 1024) read_string (enc (WString (res_detail r))) (res_detail r))
    by (apply decodes_string; [unfold u32_max; lia|done|done]).
  eapply decodes_to_nil; [decode_fields|]. cbv beta iota.
  eapply decodes_bind_nil; [by apply decodes_ensure, bool_decide_true|].
  rewrite Hc', !bool_u8_back. unfold without_token. destruct (res_topology_digest r). apply decodes_ret.
Qed.

Lemma deserialize_serialize_result r :
  result_fits r -> deserialize_command_result (serialize_command_result r) = Value (without_token r).
Proof.
  intros Hf. unfold deserialize_command_result, serialize_command_result.
  pose proof Hf as [_ [Hd Hu] _ _ _ Hg]. unfold digest_ok in Hg. rewrite writes_buffer.
  - by apply run_to_end_decodes, decodes_result.
  - unfold result_ops. repeat (apply Forall_cons; split; [first [done | split; [unfold u32_max; lia|done]]|]). by apply Forall_nil.
  - unfold result_ops. rewrite !encs_cons. cbn [enc]. rewrite !Zlen_app, !Zlen_le_store, Hg.
    change (Zlen (bytes_of (res_detail r))) with (strlen (res_detail r)).
    change (Zlen (bytes_of kCommandResultDomain)) with 21. change (Zlen (encs [])) with 0. unfold kCommandBytes. lia.
Qed.

(** Every command result round trips through its encoding up to the refreshed token,
    which the encoding does not carry. *)
Theorem command_result_roundtrip r :
  result_fits r -> deserialize_command_result (serialize_command_result r) = Value (without_token r).
Proof. apply deserialize_serialize_result. Qed.

Definition sample_result : CommandResult := MkResult SC_Ok "applied" 42 8 3 (topology_digest Sample.observed) false true sample_token.

Lemma command_result_roundtrip_witness :
  deserialize_command_result (serialize_command_result sample_result) = Value (without_token sample_result).
Proof.
  apply (command_result_roundtrip sample_result).
  split; try (unfold fits; simpl; lia).
  - split; [unfold fits; simpl; lia|reflexivity].
  - split; [vm_compute; discriminate|vm_compute; reflexivity].
  - vm_compute. reflexivity.
Defined.

(** *** Path authorities *)

Record authority_fits (a : PathAuthority) : Prop := {
  af_hi : u64_ok (hi (auth_controller a));
  af_lo : u64_ok (lo (auth_controller a));
  af_epoch : u64_ok (auth_epoch a);
  af_generation : u64_ok (auth_generation a);
  af_digest : digest_ok (auth_topology_digest a);
  af_lease : u64_ok (auth_lease a);
  af_from : tier_valid (tier (auth_from a)) /\ u32_ok (index (auth_from a));
  af_to : tier_valid (tier (auth_to a)) /\ u32_ok (index (auth_to a));
  af_spines : Zlen (auth_spines a) <= kMaxAuthoritySpines /\ forall s, s ∈ auth_spines a -> u32_ok s;
  af_issued : u64_ok (auth_issued_at a);
  af_expires : u64_ok (auth_expires_at a);
  af_seal : digest_ok (auth_digest a)
}.

Lemma encs_u32s l : encs (WU32 <$> l) = concat ((fun v => enc (WU32 v)) <$> l).
Proof. unfold encs. by rewrite <- list_fmap_compose. Qed.

Lemma decodes_path_authority a :
  authority_fits a ->
  decodes 4096 decode_path_authority (encs (path_authority_ops WBytes a ++ [WBytes (digest_bytes (auth_digest a))])) a.
Proof.
  intros [H1 H2 H3 H4 H5 H6 [H7 H8] [H9 H10] [H11 H12] H13 H14 H15]. unfold digest_ok in *.
  destruct (tier_u8 _ H7) as (F1 & F2 & F3). destruct (tier_u8 _ H9) as (T1 & T2 & T3).
  assert (u32_ok (Zlen (auth_spines a))) as Hn
    by (pose proof (Zlen_nonneg (auth_spines a)); unfold kMaxAuthoritySpines, fits in *; lia).
  assert (decodes 4096 read_string (enc (WString kPathAuthorityDomain)) kPathAuthorityDomain) by by apply decodes_string.
  unfold path_authority_ops. rewrite <- !(assoc_L (++)), encs_app. unfold decode_path_authority.
  eapply decodes_bind; [decode_fields|]. cbv beta iota zeta.
  eapply decodes_bind_nil; [by apply decodes_ensure, bool_decide_true|].
  eapply decodes_bind_nil; [apply decodes_ensure; destruct (Z.gtb_spec (Zlen (auth_spines a)) kMaxAuthoritySpines); [lia|done]|].
  rewrite F3, T3. eapply decodes_bind_nil; [by apply decodes_ensure|].
  rewrite ReachabilityClass_of_to_u8, EligibilityVerdict_of_to_u8.
  do 2 (eapply decodes_bind_nil; [apply decodes_lift|]).
  rewrite encs_app, encs_u32s. eapply decodes_bind.
  { apply decodes_fields. unfold Zlen. rewrite Nat2Z.id.
    apply (decodes_read_n 4096 read_u32 (fun v => enc (WU32 v))). intros s Hs. by apply decodes_u32, H12. }
  cbn [app]. eapply decodes_to_nil; [decode_fields|]. cbv beta iota. rewrite F2, T2.
  destruct a as [[] ? ? [] ? [] [] ? ? ? ? ? []]. apply decodes_ret.
Qed.

Lemma Zlen_u32s l : Zlen (encs (WU32 <$> l)) = 4 * Zlen l.
Proof.
  induction l as [|x l IH]; [done|]. rewrite fmap_cons, encs_cons, Zlen_app, IH, Zlen_cons. cbn [enc].
  rewrite Zlen_le_store. lia.
Qed.

Lemma path_authority_bytes a :
  authority_fits a ->
  serialize_path_authority a = encs (path_authority_ops WBytes a ++ [WBytes (digest_bytes (auth_digest a))]).
Proof.
  intros Hf. unfold serialize_path_authority. pose proof Hf as [_ _ _ _ Hd _ _ _ [Hs _] _ _ He]. unfold digest_ok in *.
  apply writes_buffer.
  - unfold path_authority_ops. rewrite !Forall_app. repeat split; repeat (apply Forall_cons; split; [done|]); try by apply Forall_nil.
    apply Forall_fmap, Forall_forall. done.
  - unfold path_authority_ops. rewrite !encs_app, !Zlen_app, Zlen_u32s, !encs_cons. cbn [enc].
    rewrite !Zlen_app, !Zlen_le_store, Hd, He. change (Zlen (bytes_of kPathAuthorityDomain)) with 21.
    change (Zlen (encs [])) with 0. unfold kCommandBytes, kMaxAuthoritySpines in *. lia.
Qed.

Lemma path_authority_back a :
  authority_fits a -> deserialize_path_authority (serialize_path_authority a) = Value a.
Proof.
  intros Hf. rewrite path_authority_bytes by done. by apply run_to_end_decodes, decodes_path_authority.
Qed.

(** Every path authority with at most 4096 spines round trips through its encoding. *)
Theorem path_authority_roundtrip a :
  authority_fits a -> deserialize_path_authority (serialize_path_authority a) = Value a.
Proof. apply path_authority_back. Qed.

(** *** What the authority digest pins down *)

Lemma app_inj_Zlen {A} (a b c d : list A) : a ++ b = c ++ d -> Zlen a = Zlen c -> a = c /\ b = d.
Proof. intros H E. apply app_inj_1; [unfold Zlen in E; lia|done]. Qed.

(** The encoding before, at and after the topology digest. *)
Definition authority_head (a : PathAuthority) : list byte :=
  encs [WString kPathAuthorityDomain; WU64 (hi (auth_controller a)); WU64 (lo (auth_controller a));
        WU64 (auth_epoch a); WU64 (auth_generation a)].
Definition authority_tail (a : PathAuthority) : list byte :=
  encs ([WU64 (auth_lease a); WU8 (Tier_to_u8 (tier (auth_from a))); WU32 (index (auth_from a));
   WU8 (Tier_to_u8 (tier (auth_to a))); WU32 (index (auth_to a));
   WU8 (ReachabilityClass_to_u8 (auth_cls a)); WU8 (EligibilityVerdict_to_u8 (auth_verdict a));
   WU32 (Zlen (auth_spines a))]
  ++ (WU32 <$> auth_spines a) ++ [WU64 (auth_issued_at a); WU64 (auth_expires_at a)]).

Lemma authority_split op a :
  encs (path_authority_ops op a) = authority_head a ++ enc (op (digest_bytes (auth_topology_digest a))) ++ authority_tail a.
Proof.
  unfold path_authority_ops, authority_head, authority_tail. rewrite !encs_app, !encs_cons.
  change (encs []) with (@nil byte). rewrite ?app_nil_r. by rewrite <- !(assoc_L (++)).
Qed.

Lemma authority_head_length a : Zlen (authority_head a) = 57.
Proof. unfold authority_head. rewrite !encs_cons. cbn [enc]. by rewrite !Zlen_app, !Zlen_le_store. Qed.

Lemma Value_inj {A} (x y : A) : Value x = Value y -> x = y.
Proof. by injection 1. Qed.

Lemma authority_encoding_injective a b :
  authority_fits a -> authority_fits b -> encs (path_authority_ops WBlock a) = encs (path_authority_ops WBlock b) ->
  authority_body a = authority_body b.
Proof.
  intros Ha Hb. rewrite !authority_split. intros E.
  apply app_inj_Zlen in E as [E1 E]; [|by rewrite !authority_head_length]. cbn [enc] in E.
  pose proof (af_digest _ Ha) as Da. pose proof (af_digest _ Hb) as Db. unfold digest_ok in *.
  rewrite <- !(assoc_L (++)) in E. apply app_inj_Zlen in E as [_ E]; [|by rewrite !Zlen_le_store].
  apply app_inj_Zlen in E as [E2 E3]; [|congruence].
  assert (forall x, authority_fits x -> authority_fits (authority_body x)) as Hbody by (intros x []; by split).
  assert (Value (authority_body a) = Value (authority_body b)) as H; [|exact (Value_inj _ _ H)].
  rewrite <- (path_authority_back (authority_body a)), <- (path_authority_back (authority_body b)) by auto.
  f_equal. rewrite !path_authority_bytes, !encs_app, !authority_split by auto.
  change (authority_head (authority_body a)) with (authority_head a).
  change (authority_head (authority_body b)) with (authority_head b).
  change (authority_tail (authority_body a)) with (authority_tail a).
  change (authority_tail (authority_body b)) with (authority_tail b).
  cbn [enc authority_body auth_topology_digest]. by rewrite E1, E2, E3.
Qed.


(** ** Instances on the sample *)

Definition sample_assessment : PathAssessment := Eval vm_compute in
  match (assess_leaf_pair sample_engine 1 2 default_constraints live_token 0%nat).1 with
  | Value a => a
  | Failure _ => begin_assessment sample_engine (node_of_leaf 1) (node_of_leaf 2) default_constraints
  end.

Definition sample_authority : PathAuthority := Eval vm_compute in
  match mint_path_authority sample_assessment sample_token 2000 500 with
  | Value a => a
  | Failure _ => MkPathAuthority zero_incarnation 0 0 zero_digest 0 (node_of_leaf 1) (node_of_leaf 1) RC_SameNode
                   EV_Ineligible [] 0 0 zero_digest
  end.

Definition sample_context : AuthorityContext := MkContext (MkInc 5 6) 3 7 (topology_digest Sample.observed) (Some 11) 2100.

Ltac literal_fits := split; [vm_compute; discriminate|vm_compute; reflexivity].

Lemma sample_authority_fits : authority_fits sample_authority.
Proof.
  constructor;
    [literal_fits|literal_fits|literal_fits|literal_fits|vm_compute; reflexivity|literal_fits|
     split; [by left|literal_fits]|split; [by left|literal_fits]| |literal_fits|literal_fits|vm_compute; reflexivity].
  split; [vm_compute; discriminate|]. intros s Hs. change (auth_spines sample_authority) with [1; 2] in Hs.
  unfold fits. repeat (apply elem_of_cons in Hs as [->|Hs]; [lia|]). by apply elem_of_nil in Hs.
Qed.

Lemma validate_token_reason_witness :
  code (validate_token sample_token (MkContext (MkInc 5 7) 4 8 zero_digest None 0)) = SC_Fenced.
Proof. rewrite (validate_token_reason sample_token); [vm_compute; reflexivity|discriminate|discriminate]. Defined.

Lemma mint_validate_witness :
  pa_eligible_spines sample_assessment <> []
  /\ (code (validate_path_authority sample_authority sample_context) = SC_Ok <->
      token_live sample_token sample_context /\ 2100 < 2500).
Proof.
  destruct (mint_validate sample_assessment sample_token 2000 500 sample_authority sample_context)
    as (_ & H & _ & _ & _ & _ & _ & _ & _ & Hv).
  - vm_compute. reflexivity.
  - split; [exact H|exact Hv].
Defined.

Lemma path_authority_roundtrip_witness :
  deserialize_path_authority (serialize_path_authority sample_authority) = Value sample_authority.
Proof. apply (path_authority_roundtrip sample_authority). exact sample_authority_fits. Defined.

