(* ===== verification/Store.v ===== *)
(** * The journal and its recovery (include/slf/store.hpp, src/store.cpp)

    A journal segment is a byte file: a fixed header, then records chained by
    SHA-256, then a trailer when the writer closes cleanly. Recovery reads a file
    back and keeps the verified prefix. File contents are byte lists; what the
    operating system does with a write or a flush is an argument. *)
From S2P Require Import Prelude Status Checked Identity Bytes Digest Capacity Model Builder Codec Topology Eligibility Governance.

(** ** Data *)

Inductive RecordType :=
| RT_IncarnationStart | RT_CommandCommit | RT_FabricSnapshot | RT_EvidenceSubmit | RT_Fence | RT_Marker.

#[export] Instance RecordType_eq_dec : EqDecision RecordType.
Proof. solve_decision. Defined.

Definition RecordType_to_u32 (t : RecordType) : Z :=
  match t with
  | RT_IncarnationStart => 1 | RT_CommandCommit => 2 | RT_FabricSnapshot => 3
  | RT_EvidenceSubmit => 4 | RT_Fence => 5 | RT_Marker => 6
  end.

Definition RecordType_of_u32 (v : Z) : option RecordType :=
  List.find (fun t => RecordType_to_u32 t =? v)
    [RT_IncarnationStart; RT_CommandCommit; RT_FabricSnapshot; RT_EvidenceSubmit; RT_Fence; RT_Marker].

Definition RecordType_to_string (t : RecordType) : string :=
  match t with
  | RT_IncarnationStart => "incarnation_start"
  | RT_CommandCommit => "command_commit"
  | RT_FabricSnapshot => "fabric_snapshot"
  | RT_EvidenceSubmit => "evidence_submit"
  | RT_Fence => "fence"
  | RT_Marker => "marker"
  end.

Inductive RecoveryStatus :=
| RS_Missing | RS_Empty | RS_Clean | RS_CrashWithoutTrailer | RS_TruncatedTail | RS_ChainBroken
| RS_Corrupt | RS_IncompatibleVersion | RS_IoError.

#[export] Instance RecoveryStatus_eq_dec : EqDecision RecoveryStatus.
Proof. solve_decision. Defined.

Definition RecoveryStatus_to_string (s : RecoveryStatus) : string :=
  match s with
  | RS_Missing => "missing"
  | RS_Empty => "empty"
  | RS_Clean => "clean"
  | RS_CrashWithoutTrailer => "crash_without_trailer"
  | RS_TruncatedTail => "truncated_tail"
  | RS_ChainBroken => "chain_broken"
  | RS_Corrupt => "corrupt"
  | RS_IncompatibleVersion => "incompatible_version"
  | RS_IoError => "io_error"
  end.

Record RecoveredRecord := MkRecovered {
  rec_type : RecordType;
  rec_seq : SequenceNumber;
  rec_generation : TopologyGeneration;
  rec_epoch : Epoch;
  rec_incarnation : ControllerIncarnation;
  rec_payload : list byte;
  rec_from_snapshot : bool;
  rec_chain : Digest
}.

Record RecoveryReport := MkRecovery {
  rr_status : RecoveryStatus;
  rr_code : StatusCode;
  rr_detail : string;
  rr_journal_present : bool;
  rr_snapshot_present : bool;
  rr_snapshot_used : bool;
  rr_snapshot_corrupt : bool;
  rr_records_valid : Z;
  rr_records_rejected : Z;
  rr_bytes_read : Z;
  rr_bytes_dropped : Z;
  rr_dynamic_evidence : bool;
  rr_reobservation : bool;
  rr_last_epoch : Epoch;
  rr_last_generation : TopologyGeneration;
  rr_last_incarnation : ControllerIncarnation;
  rr_last_chain : Digest
}.

Definition empty_recovery : RecoveryReport :=
  MkRecovery RS_Missing SC_Ok "" false false false false 0 0 0 0 false false 0 0 zero_incarnation zero_digest.

Definition usable (r : RecoveryReport) : bool :=
  match rr_status r with
  | RS_Clean | RS_CrashWithoutTrailer | RS_TruncatedTail | RS_Empty => true
  | _ => false
  end.

Record StoreConfig := MkStoreConfig {
  max_record_bytes : Z;
  max_records_per_segment : Z;
  max_segments : Z;
  max_recovery_bytes : Z;
  max_snapshot_bytes : Z;
  sync_on_commit : bool
}.

Definition default_store_config : StoreConfig :=
  MkStoreConfig (1 * 1024 * 1024) 100000 4 (256 * 1024 * 1024) (64 * 1024 * 1024) true.

(** ** File formats *)

Definition kHeaderBytes : Z := 128.
Definition kRecordHeaderBytes : Z := 112.
Definition kTrailerBytes : Z := 96.
Definition kHeaderMagic : list byte := bytes_of "SLFJRN01".
Definition kTrailerMagic : list byte := bytes_of "SLFEND01".
Definition kSnapshotMagic : list byte := bytes_of "SLFSNP01".
Definition kRecordMagic : Z := 0x534C4652.

(** Bytes [from, from + count) of a buffer. *)
Definition span (from count : Z) (l : list byte) : list byte := take (Z.to_nat count) (drop (Z.to_nat from) l).

Definition load_u32 (l : list byte) (at_ : Z) : Z := le_load 0 (span at_ 4 l).
Definition load_u64 (l : list byte) (at_ : Z) : Z := le_load 0 (span at_ 8 l).

Definition encode_journal_header (incarnation : ControllerIncarnation) (segment_index created first_sequence : Z)
    : list byte :=
  let front := kHeaderMagic
    ++ buffer (writes (new_writer kDefaultMaxBytes)
         [WU32 kPersistenceFormatVersion; WU32 kHeaderBytes; WU64 created; WU64 (hi incarnation);
          WU64 (lo incarnation); WU32 segment_index; WU32 0; WU64 first_sequence; WU64 0]) in
  front ++ digest_bytes (digest_of front) ++ replicate 32 Byte.x00.

Record JournalHeader := MkJournalHeader {
  jh_version : Z;
  jh_created : Z;
  jh_incarnation : ControllerIncarnation;
  jh_segment : Z;
  jh_first_sequence : SequenceNumber;
  jh_digest : Digest
}.

Definition read_journal_header (stored : Digest) : Reader JournalHeader :=
  '(version, header_bytes, created, ihi, ilo, segment, first) ←
    fields SC_Corrupt "journal header fields are incomplete"
      (version ← read_u32; header_bytes ← read_u32; created ← read_u64; ihi ← read_u64; ilo ← read_u64;
       segment ← read_u32; reserved ← read_u32; first ← read_u64; reserved_two ← read_u64;
       mret (version, header_bytes, created, ihi, ilo, segment, first));
  _ ← ensure (negb (first =? 0)) SC_Corrupt "journal header declares sequence zero as its first record";
  _ ← ensure (header_bytes =? kHeaderBytes) SC_Corrupt "journal header declares an unexpected size";
  _ ← ensure (version =? kPersistenceFormatVersion) SC_IncompatibleVersion
        ("journal format version " +:+ std_to_string version +:+ " is not supported");
  mret (MkJournalHeader version created (MkInc ihi ilo) segment first stored).

Definition decode_journal_header (bytes : list byte) : Outcome JournalHeader :=
  if Zlen bytes <? kHeaderBytes then fail SC_Truncated "journal header is shorter than the fixed size"
  else if negb (bool_decide (span 0 8 bytes = kHeaderMagic)) then
    fail SC_Corrupt "journal header magic does not match"
  else if negb (load_u32 bytes 8 =? kPersistenceFormatVersion) then
    fail SC_IncompatibleVersion ("journal format version " +:+ std_to_string (load_u32 bytes 8)
      +:+ " is not supported")
  else
    let stored := MkDigest (span 64 32 bytes) in
    if negb (bool_decide (digest_of (span 0 64 bytes) = stored)) then
      fail SC_IntegrityError "journal header digest does not match its contents"
    else (read_journal_header stored (new_reader (span 8 56 bytes) kDefaultMaxString)).1.

(** The first 80 bytes of a record header, the part its digest covers with the payload. *)
Definition record_front (sequence : Z) (type : RecordType) (payload_len : Z) (generation epoch : Z)
    (chain : Digest) : list byte :=
  buffer (writes (new_writer kDefaultMaxBytes)
    [WU32 kRecordMagic; WU32 kPersistenceFormatVersion; WU64 sequence; WU32 (RecordType_to_u32 type); WU32 0;
     WU32 payload_len; WU32 0; WU64 generation; WU64 epoch; WBytes (digest_bytes chain)]).

(** Two [update] calls, then [finish]. *)
Definition digest_of_two (a b : list byte) : Digest := MkDigest (sha_finish (update_span (update_span sha_reset a) b)).

Definition trailer_front (records last_sequence first_sequence : Z) (chain : Digest) : list byte :=
  take 64 (kTrailerMagic
    ++ buffer (writes (new_writer kDefaultMaxBytes)
         [WU32 kPersistenceFormatVersion; WU32 0; WU64 records; WU64 last_sequence; WU64 first_sequence;
          WBytes (digest_bytes chain)])).

(** The 96 bytes of the trailer: the digest covers the first 64 and overwrites the
    last eight bytes of the chain value. *)
Definition encode_trailer (records last_sequence first_sequence : Z) (chain : Digest) : list byte :=
  let front := trailer_front records last_sequence first_sequence chain in
  front ++ digest_bytes (digest_of front).

(** ** The open segment *)

Record FabricStore := MkStore {
  fs_open : bool;
  fs_bytes : list byte;
  fs_config : StoreConfig;
  fs_incarnation : ControllerIncarnation;
  fs_segment : Z;
  fs_last_sequence : SequenceNumber;
  fs_first_sequence : SequenceNumber;
  fs_chain : Digest;
  fs_records : Z;
  fs_closed : bool;
  fs_sync_failures : bool;
  fs_poisoned : bool
}.

(** [fwrite] of [l]: with [Some k] only the first [k] bytes reach the file. *)
Definition write_all (short : option nat) (l : list byte) : Status * list byte :=
  match short with
  | Some k => if (k <? List.length l)%nat then (MkStatus SC_IoError "short write to the journal", take k l)
              else (success, l)
  | None => (success, l)
  end.

(** What [fflush] and [platform::sync_file] answer. *)
Record SyncIo := MkSyncIo { flush_ok : bool; sync_status : Status }.
Definition sync_fine : SyncIo := MkSyncIo true success.

Definition with_file (bytes : list byte) (s : FabricStore) : FabricStore :=
  MkStore (fs_open s) bytes (fs_config s) (fs_incarnation s) (fs_segment s) (fs_last_sequence s)
    (fs_first_sequence s) (fs_chain s) (fs_records s) (fs_closed s) (fs_sync_failures s) (fs_poisoned s).
Definition with_flags (closed sync_failures poisoned : bool) (s : FabricStore) : FabricStore :=
  MkStore (fs_open s) (fs_bytes s) (fs_config s) (fs_incarnation s) (fs_segment s) (fs_last_sequence s)
    (fs_first_sequence s) (fs_chain s) (fs_records s) closed sync_failures poisoned.

Definition poison (s : FabricStore) : FabricStore := with_flags (fs_closed s) (fs_sync_failures s) true s.
Definition note_sync_failure (s : FabricStore) : FabricStore := with_flags (fs_closed s) true (fs_poisoned s) s.

Definition sync_locked (io : SyncIo) (s : FabricStore) : Status * FabricStore :=
  if negb (fs_open s) then (MkStatus SC_Closed "journal segment is closed", s)
  else if negb (flush_ok io) then (MkStatus SC_IoError "fflush failed", note_sync_failure s)
  else if negb (sync_on_commit (fs_config s)) then (success, s)
  else (sync_status io, if status_ok (sync_status io) then s else note_sync_failure s).

(** [FabricStore::create]. [mkdir] is the error of making the directory when that was needed
    and failed, [exists_] says whether the file is already there, [open_ok] whether [fopen]
    succeeds. The second component is the file left on disk, when there is one. *)
Definition create_store (path : string) (mkdir : option string) (exists_ open_ok : bool) (short : option nat) (sync : Status)
    (now : Z) (config : StoreConfig) (incarnation : ControllerIncarnation) (segment_index first_sequence : Z)
    : Outcome FabricStore * option (list byte) :=
  if inc_is_zero incarnation then
    (fail SC_Invalid "a journal segment must name the controller incarnation that owns it", None)
  else match mkdir with
  | Some message => (fail SC_IoError ("cannot create state directory: " +:+ message), None)
  | None =>
  if exists_ then (fail SC_AlreadyExists ("journal segment already exists: " +:+ path), None)
  else if negb open_ok then (fail SC_IoError ("cannot create journal segment " +:+ path), None)
  else
    let header := encode_journal_header incarnation segment_index now first_sequence in
    let '(written, bytes) := write_all short header in
    if negb (status_ok written) then (Failure written, Some bytes)
    else if negb (status_ok sync) then (Failure sync, None)
    else
      (Value (MkStore true bytes config incarnation segment_index
                (if first_sequence =? 0 then 0 else first_sequence - 1) first_sequence (digest_of header) 0
                false false false), Some bytes)
  end.

(** The operating system's part in one append. *)
Record AppendIo := MkAppendIo { io_header : option nat; io_payload : option nat; io_sync : SyncIo }.
Definition io_fine : AppendIo := MkAppendIo None None sync_fine.

Definition append (io : AppendIo) (type : RecordType) (payload : list byte) (incarnation : ControllerIncarnation)
    (epoch generation : Z) (s : FabricStore) : Status * FabricStore :=
  if inc_is_zero incarnation then
    (MkStatus SC_Invalid "a journal record must name the controller incarnation that wrote it", s)
  else if fs_closed s then (MkStatus SC_Closed "journal segment is closed", s)
  else if Zlen payload >? max_record_bytes (fs_config s) then
    (MkStatus SC_Exhausted "record payload exceeds the configured bound", s)
  else if fs_poisoned s then
    (MkStatus SC_IntegrityError "journal segment is poisoned by an earlier short write", s)
  else if max_records_per_segment (fs_config s) <=? fs_records s then
    (MkStatus SC_Exhausted "journal segment is full and must be rotated", s)
  else match checked_add (fs_last_sequence s) 1 with
  | None => (MkStatus SC_Overflow "journal sequence overflow", s)
  | Some next_sequence =>
      let front := record_front next_sequence type (Zlen payload) generation epoch (fs_chain s) in
      let record_digest := digest_of_two front payload in
      let '(status, bytes) := write_all (io_header io) (front ++ digest_bytes record_digest) in
      let s := with_file (fs_bytes s ++ bytes) s in
      if negb (status_ok status) then (status, poison s)
      else
        let '(status, bytes) := write_all (io_payload io) payload in
        let s := with_file (fs_bytes s ++ bytes) s in
        if negb (status_ok status) then (status, poison s)
        else
          let '(status, s) := sync_locked (io_sync io) s in
          if negb (status_ok status) then (status, poison s)
          else
            (success,
             MkStore (fs_open s) (fs_bytes s) (fs_config s) (fs_incarnation s) (fs_segment s) next_sequence
               (fs_first_sequence s) record_digest (wrap 64 (fs_records s + 1)) (fs_closed s)
               (fs_sync_failures s) (fs_poisoned s))
  end.

Definition append_marker (io : AppendIo) (text : string) (incarnation : ControllerIncarnation) (epoch generation : Z)
    (s : FabricStore) : Status * FabricStore :=
  let '(status, w) := write_string (new_writer 4096) text in
  if negb (status_ok status) then (status, s)
  else append io RT_Marker (buffer w) incarnation epoch generation s.

Definition append_fabric (io : AppendIo) (f : Fabric) (incarnation : ControllerIncarnation) (epoch : Z)
    (s : FabricStore) : Status * FabricStore :=
  let payload := serialize_fabric f in
  if Zlen payload >? max_record_bytes (fs_config s) then
    (MkStatus SC_Exhausted "fabric snapshot exceeds the journal record bound", s)
  else append io RT_FabricSnapshot payload incarnation epoch (fab_generation f) s.

Definition append_command (io : AppendIo) (c : Command) (r : CommandResult) (incarnation : ControllerIncarnation)
    (epoch : Z) (s : FabricStore) : Status * FabricStore :=
  let bound := if max_record_bytes (fs_config s) <? 65536 then 65536 else max_record_bytes (fs_config s) in
  let '(status, w) := write_block (new_writer bound) (serialize_command c) in
  if negb (status_ok status) then (status, s)
  else
    let '(status, w) := write_block w (serialize_command_result r) in
    if negb (status_ok status) then (status, s)
    else append io RT_CommandCommit (buffer w) incarnation epoch (res_generation r) s.

(** The trailer is written and the file closed even when the segment is poisoned. *)
Definition close_clean (short : option nat) (sync : Status) (s : FabricStore) : Status * FabricStore :=
  if fs_closed s then (success, s)
  else if negb (fs_open s) then (success, with_flags true (fs_sync_failures s) (fs_poisoned s) s)
  else
    let front := trailer_front (fs_records s) (fs_last_sequence s) (fs_first_sequence s) (fs_chain s) in
    let trailer_digest := digest_of front in
    let '(written, bytes) := write_all short (front ++ digest_bytes trailer_digest) in
    let s := with_file (fs_bytes s ++ bytes) s in
    if negb (status_ok written) then (written, s)
    else (sync, MkStore false (fs_bytes s) (fs_config s) (fs_incarnation s) (fs_segment s) (fs_last_sequence s)
                  (fs_first_sequence s) trailer_digest (fs_records s) true (fs_sync_failures s) (fs_poisoned s)).

Definition sync_store (io : SyncIo) (s : FabricStore) : Status * FabricStore := sync_locked io s.

(** ** Recovery of one segment *)

(** A path as the file system answers it: absent, unreadable, or with contents. *)
Inductive FileState :=
| FileAbsent
| FileError (st : Status)
| FileBytes (l : list byte).

(** [read_file_bounded]: the bytes read, at most [max_bytes], and the file size. *)
Definition read_file_bounded (file : FileState) (path : string) (max_bytes : Z) : Outcome (list byte * Z) :=
  match file with
  | FileAbsent => fail SC_NotFound ("cannot stat " +:+ path +:+ ": No such file or directory")
  | FileError st => Failure st
  | FileBytes l => Value (take (Z.to_nat (if Zlen l <? max_bytes then Zlen l else max_bytes)) l, Zlen l)
  end.

Definition report_stop (status : RecoveryStatus) (k : StatusCode) (detail : string) (dropped : Z) (r : RecoveryReport)
    : RecoveryReport :=
  MkRecovery status k detail (rr_journal_present r) (rr_snapshot_present r) (rr_snapshot_used r)
    (rr_snapshot_corrupt r) (rr_records_valid r) (rr_records_rejected r) (rr_bytes_read r)
    (wrap 64 (rr_bytes_dropped r + dropped)) (rr_dynamic_evidence r) (rr_reobservation r) (rr_last_epoch r)
    (rr_last_generation r) (rr_last_incarnation r) (rr_last_chain r).

(** The report after a verified record. *)
Definition report_record (type : RecordType) (epoch generation : Z) (chain : Digest) (r : RecoveryReport)
    : RecoveryReport :=
  let evidence := bool_decide (type = RT_EvidenceSubmit) in
  MkRecovery (rr_status r) (rr_code r) (rr_detail r) (rr_journal_present r) (rr_snapshot_present r)
    (rr_snapshot_used r) (rr_snapshot_corrupt r) (wrap 64 (rr_records_valid r + 1)) (rr_records_rejected r)
    (rr_bytes_read r) (rr_bytes_dropped r) (evidence || rr_dynamic_evidence r) (evidence || rr_reobservation r)
    epoch generation (rr_last_incarnation r) chain.

(** The variables of the loop; [sc_rest] is the file from [sc_offset] on, [sc_out] the
    vector behind [records_out] when the caller gave one. *)
Record ScanState := MkScanState {
  sc_offset : Z;
  sc_rest : list byte;
  sc_chain : Digest;
  sc_expected : SequenceNumber;
  sc_out : option (list RecoveredRecord);
  sc_report : RecoveryReport
}.

Inductive ScanStep :=
| Stop (r : RecoveryReport)
| Continue (s : ScanState).

(** The trailer: nothing may follow it; its counters and chain are not compared. *)
Definition scan_trailer (s : ScanState) : RecoveryReport :=
  let rest := sc_rest s in
  let remaining := Zlen rest in
  let stop status k detail dropped := report_stop status k detail dropped (sc_report s) in
  if remaining <? kTrailerBytes then
    stop RS_TruncatedTail SC_Truncated "clean-shutdown trailer is incomplete" remaining
  else if negb (bool_decide (digest_of (span 0 (kTrailerBytes - 32) rest) = MkDigest (span (kTrailerBytes - 32) 32 rest))) then
    stop RS_Corrupt SC_IntegrityError "clean-shutdown trailer digest does not match" remaining
  else if negb (remaining =? kTrailerBytes) then
    stop RS_Corrupt SC_Invalid "bytes appear after the clean-shutdown trailer" (remaining - kTrailerBytes)
  else stop RS_Clean SC_Ok "journal verified: header, record chain, and clean-shutdown trailer" 0.

Definition kReplayBound : Z := 1000000.

Definition scan_record (config : StoreConfig) (incarnation : ControllerIncarnation) (s : ScanState) : ScanStep :=
  let rest := sc_rest s in
  let remaining := Zlen rest in
  let at_offset := std_to_string (sc_offset s) in
  let stop status k detail := Stop (report_stop status k detail remaining (sc_report s)) in
  if remaining <? kRecordHeaderBytes then
    stop RS_TruncatedTail SC_Truncated
      ("final record header is incomplete (" +:+ std_to_string remaining +:+ " bytes)")
  else
  let version := load_u32 rest 4 in
  let sequence := load_u64 rest 8 in
  let payload_len := load_u32 rest 24 in
  let generation := load_u64 rest 32 in
  let epoch := load_u64 rest 40 in
  if negb (load_u32 rest 0 =? kRecordMagic) then
    stop RS_Corrupt SC_Corrupt ("record magic does not match at offset " +:+ at_offset)
  else if negb (version =? kPersistenceFormatVersion) then
    stop RS_IncompatibleVersion SC_IncompatibleVersion
      ("record format version " +:+ std_to_string version +:+ " is not supported")
  else if payload_len >? max_record_bytes config then
    stop RS_Corrupt SC_Exhausted "record declares a payload larger than the configured bound"
  else
  let record_total := kRecordHeaderBytes + payload_len in
  if remaining <? record_total then
    stop RS_TruncatedTail SC_Truncated
      ("final record is incomplete: declared " +:+ std_to_string record_total +:+ " bytes, "
       +:+ std_to_string remaining +:+ " available")
  else if negb (bool_decide (MkDigest (span 48 32 rest) = sc_chain s)) then
    stop RS_ChainBroken SC_IntegrityError ("record chain does not continue at offset " +:+ at_offset)
  else
  let payload := span kRecordHeaderBytes payload_len rest in
  let computed := digest_of_two (span 0 80 rest) payload in
  if negb (bool_decide (computed = MkDigest (span 80 32 rest))) then
    stop RS_Corrupt SC_IntegrityError ("record digest does not match its contents at offset " +:+ at_offset)
  else if negb (sequence =? sc_expected s) then
    stop RS_ChainBroken SC_Conflicting
      ("record sequence " +:+ std_to_string sequence +:+ " does not continue from "
       +:+ std_to_string (sc_expected s) +:+ " (replay or reordering)")
  else match RecordType_of_u32 (load_u32 rest 16) with
  | None => stop RS_Corrupt SC_Invalid "record carries an unknown record type"
  | Some type =>
      let full := match sc_out s with Some out => kReplayBound <=? Zlen out | None => false end in
      if full then stop RS_Corrupt SC_Exhausted "record count exceeds the in-memory replay bound"
      else
        Continue (MkScanState (sc_offset s + record_total) (drop (Z.to_nat record_total) rest) computed
          (wrap 64 (sc_expected s + 1))
          ((fun out => out ++ [MkRecovered type sequence generation epoch incarnation payload false computed])
           <$> sc_out s)
          (report_record type epoch generation computed (sc_report s)))
  end.

Definition scan_step (config : StoreConfig) (incarnation : ControllerIncarnation) (s : ScanState) : ScanStep :=
  if bool_decide (span 0 8 (sc_rest s) = kTrailerMagic) then Stop (scan_trailer s)
  else scan_record config incarnation s.

(** Every step that continues consumes a whole record, so the length of the file is
    enough fuel. *)
Fixpoint scan_loop (fuel : nat) (config : StoreConfig) (incarnation : ControllerIncarnation) (s : ScanState)
    : RecoveryReport * option (list RecoveredRecord) :=
  match fuel with
  | O => (sc_report s, sc_out s)
  | S fuel' =>
      if bool_decide (sc_rest s = []) then (sc_report s, sc_out s)
      else match scan_step config incarnation s with
      | Stop r => (r, sc_out s)
      | Continue s' => scan_loop fuel' config incarnation s'
      end
  end.

Definition recover_journal (file : FileState) (path : string) (config : StoreConfig)
    (out : option (list RecoveredRecord)) : RecoveryReport * option (list RecoveredRecord) :=
  let absent := empty_recovery in
  let report status k detail bytes_read dropped :=
    MkRecovery status k detail true false false false 0 0 bytes_read dropped false false 0 0 zero_incarnation
      zero_digest in
  match file with
  | FileAbsent => (report_stop RS_Missing SC_NotFound ("no journal segment at " +:+ path) 0 absent, out)
  | _ =>
  match read_file_bounded file path (max_recovery_bytes config) with
  | Failure st => (report RS_IoError (code st) (detail st) 0 0, out)
  | Value (bytes, file_size) =>
      if file_size >? max_recovery_bytes config then
        (report RS_Corrupt SC_Exhausted
           "journal is larger than the recovery bound; refusing to interpret a prefix as complete state" 0 0, out)
      else if bool_decide (bytes = []) then
        (report RS_Empty SC_Ok "journal segment holds no bytes" 0 0, out)
      else match decode_journal_header (span 0 (Z.min (Zlen bytes) kHeaderBytes) bytes) with
      | Failure st =>
          (report (if bool_decide (code st = SC_IncompatibleVersion) then RS_IncompatibleVersion else RS_Corrupt)
             (code st) (detail st) (Zlen bytes) (Zlen bytes), out)
      | Value header =>
          let chain := digest_of (span 0 kHeaderBytes bytes) in
          let start := MkRecovery RS_CrashWithoutTrailer SC_Ok "records verified, no clean-shutdown trailer" true
                         false false false 0 0 (Zlen bytes) 0 false false 0 0 (jh_incarnation header) chain in
          let '(r, out) :=
            scan_loop (List.length bytes) config (jh_incarnation header)
              (MkScanState kHeaderBytes (drop (Z.to_nat kHeaderBytes) bytes) chain (jh_first_sequence header) out start) in
          let r := if bool_decide (rr_status r = RS_Clean) then
                     MkRecovery (rr_status r) (rr_code r) (rr_detail r) (rr_journal_present r)
                       (rr_snapshot_present r) (rr_snapshot_used r) (rr_snapshot_corrupt r) (rr_records_valid r)
                       (rr_records_rejected r) (rr_bytes_read r) (rr_bytes_dropped r) (rr_dynamic_evidence r)
                       (rr_dynamic_evidence r) (rr_last_epoch r) (rr_last_generation r) (rr_last_incarnation r)
                       (rr_last_chain r)
                   else r in
          (r, out)
      end
  end
  end.
