(* ===== verification/StoreDir.v ===== *)
(** * The state directory: segments, snapshot and store recovery (src/store.cpp)

    A state directory holds at most one snapshot and some journal segments. This file
    models segment names, the listing of a directory, the snapshot file, and the recovery
    of a whole directory through a replay sink. *)
From S2P Require Import Prelude Status Checked Identity Bytes Digest Capacity Model Builder Codec Topology Eligibility Governance Store.

(** ** File names *)

(** [digits.insert(begin, '0')] while the text is shorter than eight: at most eight turns. *)
Fixpoint pad_digits (fuel : nat) (digits : list byte) : list byte :=
  match fuel with
  | O => digits
  | S fuel' => if Zlen digits <? 8 then pad_digits fuel' (Byte.x30 :: digits) else digits
  end.

Definition four_digit_segment (index : Z) : string := text_of (pad_digits 8 (bytes_of (std_to_string index))).

Definition segment_prefix : string := "journal-".
Definition segment_suffix : string := ".slf".
Definition segment_name (index : Z) : string := segment_prefix +:+ four_digit_segment index +:+ segment_suffix.
Definition snapshot_name : string := "snapshot.slf".

Fixpoint parse_segment_digits (l : list byte) (value : Z) : option Z :=
  match l with
  | [] => Some value
  | c :: l' =>
      let v := Z_of_byte c in
      if (v <? 48) || (v >? 57) then None else parse_segment_digits l' (wrap 32 (value * 10 + (v - 48)))
  end.

Definition parse_segment_index (name : string) : option Z :=
  let l := bytes_of name in
  let prefix := bytes_of segment_prefix in
  let suffix := bytes_of segment_suffix in
  if negb (Zlen l =? Zlen prefix + 8 + Zlen suffix) then None
  else if negb (bool_decide (span 0 (Zlen prefix) l = prefix)) then None
  else if negb (bool_decide (span (Zlen l - Zlen suffix) (Zlen suffix) l = suffix)) then None
  else parse_segment_digits (span (Zlen prefix) 8 l) 0.

(** [directory / name]. *)
Definition path_join (directory name : string) : string :=
  if bool_decide (directory = "") || bool_decide (last (bytes_of directory) = Some Byte.x2f)
  then directory +:+ name else directory +:+ "/" +:+ name.

Definition default_journal_path (directory : string) (index : Z) : string :=
  path_join directory (segment_name index).
Definition default_snapshot_path (directory : string) : string := path_join directory snapshot_name.

(** ** Directories *)

(** What the iterator's [is_regular_file] answers for an entry. *)
Inductive EntryKind := RegularFile | OtherFile | Unstatable (message : string).

Record DirEntry := MkDirEntry { de_name : string; de_kind : EntryKind; de_file : FileState }.

(** The entries in the order the operating system lists them. *)
Definition Directory := list DirEntry.

Definition dir_file (d : Directory) (name : string) : FileState :=
  match List.find (fun e => bool_decide (de_name e = name)) d with
  | Some e => de_file e
  | None => FileAbsent
  end.

(** [entry.file_size(ec)]: the size and the error it leaves in [ec]. *)
Definition entry_size (f : FileState) : Z * option string :=
  match f with
  | FileBytes l => (Zlen l, None)
  | FileError st => (u64_max, Some (detail st))
  | FileAbsent => (u64_max, Some "No such file or directory")
  end.

Record SegmentInfo := MkSegment {
  seg_name : string;
  seg_index : Z;
  seg_bytes : Z;
  seg_first_sequence : SequenceNumber;
  seg_last_sequence : SequenceNumber;
  seg_records : Z;
  seg_status : RecoveryStatus;
  seg_usable : bool
}.

Definition new_segment (name : string) (index bytes : Z) : SegmentInfo :=
  MkSegment name index bytes 0 0 0 RS_Missing false.

(** The loop of [list_journal_segments]: [ec] is the error the previous entry left. *)
Fixpoint collect_segments (entries : list DirEntry) (ec : option string) (segments : list SegmentInfo)
    : Outcome (list SegmentInfo) :=
  match entries with
  | [] => Value segments
  | e :: entries' =>
      match ec with
      | Some message => fail SC_IoError ("directory iteration failed: " +:+ message)
      | None =>
          match de_kind e with
          | Unstatable message => collect_segments entries' (Some message) segments
          | OtherFile => collect_segments entries' None segments
          | RegularFile =>
              match parse_segment_index (de_name e) with
              | None => collect_segments entries' None segments
              | Some index =>
                  let '(bytes, ec) := entry_size (de_file e) in
                  collect_segments entries' ec (segments ++ [new_segment (de_name e) index bytes])
              end
          end
      end
  end.

Definition seg_le (a b : SegmentInfo) : Prop := seg_index a <= seg_index b.
#[export] Instance seg_le_dec : RelDecision seg_le.
Proof. intros a b. unfold seg_le. apply _. Defined.

Definition list_journal_segments (d : option Directory) (max_segments : Z) : Outcome (list SegmentInfo) :=
  match d with
  | None => fail SC_NotFound "state directory does not exist"
  | Some entries =>
      match collect_segments entries None [] with
      | Failure st => Failure st
      | Value found =>
          let segments := merge_sort seg_le found in
          if Zlen segments >? max_segments then
            fail SC_Exhausted ("state directory holds " +:+ std_to_string (Zlen segments)
              +:+ " journal segments, more than the configured maximum of " +:+ std_to_string max_segments)
          else Value segments
      end
  end.

(** ** The snapshot file *)

Definition kSnapshotHeaderBytes : Z := 128.

Definition encode_snapshot_header (f : Fabric) (covered : Z) (payload : list byte) : list byte :=
  let front := kSnapshotMagic
    ++ buffer (writes (new_writer kDefaultMaxBytes)
         [WU32 kPersistenceFormatVersion; WU32 kSnapshotHeaderBytes; WU64 (Zlen payload); WU64 (fab_generation f);
          WU64 (fab_epoch f); WU64 covered; WU64 0])
    ++ replicate 8 Byte.x00 in
  let front := front ++ digest_bytes (digest_of payload) in
  front ++ digest_bytes (digest_of front).

(** What the file system answers while a snapshot is written. *)
Record SnapshotIo := MkSnapshotIo {
  sio_open : bool;
  sio_header : option nat;
  sio_payload : option nat;
  sio_sync : Status;
  sio_replace : Status
}.
Definition snapshot_io_fine : SnapshotIo := MkSnapshotIo true None None success success.

(** The second component is the new contents of the destination, when the rename
    happened; otherwise the destination keeps what it had. *)
Definition snapshot_write (io : SnapshotIo) (f : Fabric) (covered : Z) (config : StoreConfig)
    : Status * option (list byte) :=
  let payload := serialize_fabric f in
  if Zlen payload >? max_snapshot_bytes config then
    (MkStatus SC_Exhausted "snapshot payload exceeds the configured bound", None)
  else
    let header := encode_snapshot_header f covered payload in
    if negb (sio_open io) then (MkStatus SC_IoError "cannot create snapshot temporary file", None)
    else
      let '(status, temporary) := write_all (sio_header io) header in
      let '(status, temporary) :=
        if status_ok status then
          let '(status, bytes) := write_all (sio_payload io) payload in (status, temporary ++ bytes)
        else (status, temporary) in
      let status := if status_ok status then sio_sync io else status in
      if negb (status_ok status) then (status, None)
      else if negb (status_ok (sio_replace io)) then (sio_replace io, None)
      else (success, Some temporary).

Definition read_snapshot_header : Reader (Z * Z * Z * Z * Z) :=
  fields SC_Corrupt "snapshot header fields are incomplete"
    (version ← read_u32; header_bytes ← read_u32; payload_len ← read_u64; generation ← read_u64;
     epoch ← read_u64; covered ← read_u64; reserved ← read_u64;
     mret (version, header_bytes, payload_len, generation, covered)).

(** The fabric with the covered sequence, and the text left in [detail_out]. *)
Definition snapshot_read (file : FileState) (path : string) (config : StoreConfig)
    : Outcome (Fabric * SequenceNumber) * string :=
  let refuse (k : StatusCode) (d : string) : Outcome (Fabric * SequenceNumber) * string := (fail k d, d) in
  match read_file_bounded file path (wrap 64 (max_snapshot_bytes config + kSnapshotHeaderBytes)) with
  | Failure st => (Failure st, detail st)
  | Value (bytes, _) =>
      if Zlen bytes <? kSnapshotHeaderBytes then refuse SC_Truncated "snapshot header is incomplete"
      else if negb (bool_decide (span 0 8 bytes = kSnapshotMagic)) then
        refuse SC_Corrupt "snapshot magic does not match"
      else if negb (bool_decide (digest_of (span 0 96 bytes) = MkDigest (span 96 32 bytes))) then
        refuse SC_IntegrityError "snapshot header digest does not match"
      else match (read_snapshot_header (new_reader (span 8 56 bytes) kDefaultMaxString)).1 with
      | Failure st => (Failure st, detail st)
      | Value (version, header_bytes, payload_len, generation, covered) =>
          if negb (version =? kPersistenceFormatVersion) then
            refuse SC_IncompatibleVersion "snapshot format version is not supported"
          else if negb (header_bytes =? kSnapshotHeaderBytes) then
            refuse SC_Corrupt "snapshot header declares an unexpected size"
          else if payload_len >? max_snapshot_bytes config then
            refuse SC_Exhausted "snapshot payload exceeds the configured bound"
          else if negb (Zlen bytes =? wrap 64 (kSnapshotHeaderBytes + payload_len)) then
            refuse SC_Truncated "snapshot length does not match its declared payload size"
          else
            let payload := span kSnapshotHeaderBytes payload_len bytes in
            if negb (bool_decide (digest_of payload = MkDigest (span 64 32 bytes))) then
              refuse SC_IntegrityError "snapshot payload digest does not match"
            else match deserialize_fabric payload default_limits with
            | Failure st => (Failure st, "snapshot payload could not be parsed: " +:+ detail st)
            | Value f =>
                if negb (fab_generation f =? generation) then
                  refuse SC_IntegrityError "snapshot generation does not match its header"
                else (Value (f, covered), "snapshot verified")
            end
      end
  end.

(** ** Recovery of a directory *)

Record RecoveryOutcome := MkRecoveryOutcome {
  ro_report : RecoveryReport;
  ro_segments : list SegmentInfo;
  ro_snapshot_accepted : bool;
  ro_watermark : SequenceNumber;
  ro_fabric : option Fabric;
  ro_prunable : list string
}.

Definition severity (s : RecoveryStatus) : Z :=
  match s with
  | RS_Clean => 0 | RS_Empty => 1 | RS_Missing => 2 | RS_CrashWithoutTrailer => 3 | RS_TruncatedTail => 4
  | RS_ChainBroken => 5 | RS_IncompatibleVersion => 6 | RS_Corrupt => 7 | RS_IoError => 8
  end.

Definition with_verdict (status : RecoveryStatus) (k : StatusCode) (d : string) (r : RecoveryReport) : RecoveryReport :=
  MkRecovery status k d (rr_journal_present r) (rr_snapshot_present r) (rr_snapshot_used r) (rr_snapshot_corrupt r)
    (rr_records_valid r) (rr_records_rejected r) (rr_bytes_read r) (rr_bytes_dropped r) (rr_dynamic_evidence r)
    (rr_reobservation r) (rr_last_epoch r) (rr_last_generation r) (rr_last_incarnation r) (rr_last_chain r).

Definition with_snapshot (present used corrupt : bool) (d : string) (r : RecoveryReport) : RecoveryReport :=
  MkRecovery (rr_status r) (rr_code r) d (rr_journal_present r) present used corrupt (rr_records_valid r)
    (rr_records_rejected r) (rr_bytes_read r) (rr_bytes_dropped r) (rr_dynamic_evidence r) (rr_reobservation r)
    (rr_last_epoch r) (rr_last_generation r) (rr_last_incarnation r) (rr_last_chain r).

(** The report of one segment folded into the report of the directory. *)
Definition merge_report (seg r : RecoveryReport) : RecoveryReport :=
  let worse := severity (rr_status seg) >? severity (rr_status r) in
  MkRecovery (if worse then rr_status seg else rr_status r) (if worse then rr_code seg else rr_code r) (rr_detail r)
    (rr_journal_present r) (rr_snapshot_present r) (rr_snapshot_used r) (rr_snapshot_corrupt r)
    (wrap 64 (rr_records_valid r + rr_records_valid seg)) (wrap 64 (rr_records_rejected r + rr_records_rejected seg))
    (wrap 64 (rr_bytes_read r + rr_bytes_read seg)) (wrap 64 (rr_bytes_dropped r + rr_bytes_dropped seg))
    (rr_dynamic_evidence seg || rr_dynamic_evidence r) (rr_dynamic_evidence seg || rr_reobservation r)
    (if rr_last_epoch seg >? rr_last_epoch r then rr_last_epoch seg else rr_last_epoch r)
    (if rr_last_generation seg >? rr_last_generation r then rr_last_generation seg else rr_last_generation r)
    (rr_last_incarnation seg) (rr_last_chain seg).

(** A replay sink: its state and [on_record]. *)
Section Recover.
Context {S : Type} (on_record : option (RecoveredRecord -> S -> Status * S)).

(** The records of one segment, less those the snapshot covers, in order. *)
Fixpoint feed_sink (watermark : option Z) (records : list RecoveredRecord) (sink : S) : Status * S :=
  match records with
  | [] => (success, sink)
  | r :: records' =>
      if match watermark with Some w => rec_seq r <=? w | None => false end then feed_sink watermark records' sink
      else match on_record with
      | None => feed_sink watermark records' sink
      | Some f =>
          let '(consumed, sink) := f r sink in
          if negb (status_ok consumed) then (consumed, sink) else feed_sink watermark records' sink
      end
  end.

(** The variables of the loop over segments. *)
Record Pass := MkPass {
  ps_report : RecoveryReport;
  ps_segments : list SegmentInfo;
  ps_expected : SequenceNumber;
  ps_saw_clean : bool;
  ps_any_records : bool;
  ps_prunable : list string
}.

Definition recover_segment (d : Directory) (directory : string) (config : StoreConfig) (watermark : option Z)
    (seg : SegmentInfo) (p : Pass) (sink : S) : Outcome Pass * S :=
  let '(sr, out) :=
    recover_journal (dir_file d (seg_name seg)) (path_join directory (seg_name seg)) config (Some []) in
  let records := default [] out in
  let first := match head records with Some r => rec_seq r | None => seg_first_sequence seg end in
  let last_ := match last records with Some r => rec_seq r | None => seg_last_sequence seg end in
  let seg := MkSegment (seg_name seg) (seg_index seg) (seg_bytes seg) first last_ (rr_records_valid sr)
               (rr_status sr) (usable sr) in
  let report := merge_report sr (ps_report p) in
  let expected := ps_expected p in
  if negb (expected =? 0) && negb (first =? 0) && negb (first =? expected) then
    (fail SC_Conflicting "journal segment numbering does not continue across segments", sink)
  else
    let expected := if last_ =? 0 then expected else wrap 64 (last_ + 1) in
    let covered := match watermark with Some w => negb (last_ =? 0) && (last_ <=? w) | None => false end in
    let '(consumed, sink) := feed_sink watermark records sink in
    if negb (status_ok consumed) then
      (fail (code consumed) ("replay sink refused a record: " +:+ detail consumed), sink)
    else
      (Value (MkPass report (ps_segments p ++ [seg]) expected
                (ps_saw_clean p && bool_decide (rr_status sr = RS_Clean))
                (ps_any_records p || negb (bool_decide (records = [])))
                (if covered then ps_prunable p ++ [seg_name seg] else ps_prunable p)), sink).

Fixpoint recover_segments (d : Directory) (directory : string) (config : StoreConfig) (watermark : option Z)
    (segs : list SegmentInfo) (p : Pass) (sink : S) : Outcome Pass * S :=
  match segs with
  | [] => (Value p, sink)
  | seg :: segs' =>
      match recover_segment d directory config watermark seg p sink with
      | (Failure st, sink) => (Failure st, sink)
      | (Value p, sink) => recover_segments d directory config watermark segs' p sink
      end
  end.

(** The adjustments after the loop. *)
Definition settle_report (p : Pass) : RecoveryReport :=
  let r := ps_report p in
  let r :=
    if bool_decide (rr_status r = RS_Corrupt) || bool_decide (rr_status r = RS_ChainBroken)
       || bool_decide (rr_status r = RS_IncompatibleVersion) then r
    else
      let status := if ps_saw_clean p then RS_Clean else rr_status r in
      with_verdict status (rr_code r)
        (if bool_decide (status = RS_Clean) && negb (ps_any_records p) && rr_snapshot_used r
         then "snapshot accepted and no newer journal records" else rr_detail r) r in
  if rr_reobservation r then
    with_verdict (rr_status r) (rr_code r)
      (rr_detail r +:+ "; recovered dynamic evidence is historical and must be re-observed") r
  else r.

(** The snapshot part: what it contributes to the report, and the fabric it holds. *)
Definition recover_snapshot (d : Directory) (directory : string) (config : StoreConfig)
    : RecoveryReport * option (Fabric * SequenceNumber) :=
  match dir_file d snapshot_name with
  | FileAbsent => (empty_recovery, None)
  | file =>
      match snapshot_read file (default_snapshot_path directory) config with
      | (Value (f, covered), _) =>
          (with_snapshot true true false
             ("snapshot accepted (covers records up to sequence " +:+ std_to_string covered +:+ ")") empty_recovery,
           Some (f, covered))
      | (Failure _, d) => (with_snapshot true false true ("snapshot rejected: " +:+ d) empty_recovery, None)
      end
  end.

Definition recover_store (dir : option Directory) (directory : string) (config : StoreConfig) (sink : S)
    : Outcome RecoveryOutcome * S :=
  match dir with
  | None =>
      (Value (MkRecoveryOutcome
         (with_verdict RS_Missing SC_NotFound ("state directory does not exist: " +:+ directory) empty_recovery)
         [] false 0 None []), sink)
  | Some d =>
      let '(report, snapshot) := recover_snapshot d directory config in
      let accepted := match snapshot with Some _ => true | None => false end in
      let watermark := match snapshot with Some (_, w) => w | None => 0 end in
      let finish report segments prunable :=
        Value (MkRecoveryOutcome report segments accepted watermark (fst <$> snapshot) prunable) in
      match list_journal_segments dir (max_segments config) with
      | Failure st =>
          (finish (with_verdict (if bool_decide (code st = SC_Exhausted) then RS_Corrupt else RS_Missing)
                     (code st) (detail st) report) [] [], sink)
      | Value [] =>
          (finish
             (if rr_snapshot_used report then with_verdict RS_Clean SC_Ok (rr_detail report) report
              else with_verdict RS_Missing SC_NotFound
                     (if bool_decide (rr_detail report = "")
                      then "no journal segment and no snapshot in " +:+ directory else rr_detail report) report)
             [] [], sink)
      | Value segs =>
          match recover_segments d directory config (snd <$> snapshot) segs (MkPass report [] 0 true false []) sink with
          | (Failure st, sink) => (Failure st, sink)
          | (Value p, sink) => (finish (settle_report p) (ps_segments p) (ps_prunable p), sink)
          end
      end
  end.
End Recover.

(** ** Reports as text, and the torn write of the tests *)

Definition bool_text (b : bool) : string := if b then "true" else "false".
Definition newline : string := text_of [Byte.x0a].

Definition RecoveryReport_to_string (r : RecoveryReport) : string :=
  RecoveryStatus_to_string (rr_status r) +:+ " (" +:+ StatusCode_to_string (rr_code r) +:+ "): " +:+ rr_detail r +:+ newline
  +:+ "  journal=" +:+ (if rr_journal_present r then "present" else "absent")
  +:+ " snapshot=" +:+ (if rr_snapshot_present r then if rr_snapshot_used r then "used" else "present" else "absent")
  +:+ " snapshot_corrupt=" +:+ bool_text (rr_snapshot_corrupt r) +:+ newline
  +:+ "  records_valid=" +:+ std_to_string (rr_records_valid r)
  +:+ " records_rejected=" +:+ std_to_string (rr_records_rejected r)
  +:+ " bytes_read=" +:+ std_to_string (rr_bytes_read r)
  +:+ " bytes_dropped=" +:+ std_to_string (rr_bytes_dropped r) +:+ newline
  +:+ "  dynamic_evidence_recovered=" +:+ bool_text (rr_dynamic_evidence r)
  +:+ " requires_reobservation=" +:+ bool_text (rr_reobservation r) +:+ newline
  +:+ "  last_epoch=" +:+ std_to_string (rr_last_epoch r)
  +:+ " last_generation=" +:+ std_to_string (rr_last_generation r)
  +:+ " last_incarnation=" +:+ incarnation_to_string (rr_last_incarnation r)
  +:+ " last_chain=" +:+ short_hex 16 (rr_last_chain r) +:+ newline.

(** [inject_truncation_for_test]: [flush] says whether [fflush] succeeds, [size] and
    [resize] carry the error text of the file-system calls when they fail. *)
Definition inject_truncation_for_test (flush : bool) (size resize : option string) (bytes : Z) (s : FabricStore)
    : Status * FabricStore :=
  if negb (fs_open s) then (MkStatus SC_Closed "journal segment is already closed", s)
  else if negb flush then (MkStatus SC_IoError "fflush failed before truncation", s)
  else
    let closed := MkStore false (fs_bytes s) (fs_config s) (fs_incarnation s) (fs_segment s) (fs_last_sequence s)
                    (fs_first_sequence s) (fs_chain s) (fs_records s) true (fs_sync_failures s) (fs_poisoned s) in
    match size with
    | Some message => (MkStatus SC_IoError ("cannot size the journal: " +:+ message), closed)
    | None =>
        if bytes >? Zlen (fs_bytes s) then (MkStatus SC_Invalid "truncation larger than the file", closed)
        else match resize with
        | Some message => (MkStatus SC_IoError ("cannot truncate the journal: " +:+ message), closed)
        | None => (success, with_file (take (Z.to_nat (Zlen (fs_bytes s) - bytes)) (fs_bytes s)) closed)
        end
    end.
