(* ===== verification/StoreSpec.v ===== *)
(** * What the journal promises (src/store.cpp)

    A journal holds a log of entries. Appending refines adding an entry to the log;
    recovering any prefix of the file yields the entries wholly written before the
    cut; recovering a cleanly closed file yields the whole log. *)
From S2P Require Import Prelude Status Checked Identity Bytes Digest Capacity Model Builder BuilderSpec Sample Freeze Codec CodecSpec Topology Eligibility Governance Store.

(** Conversion never needs to look inside the hash. *)
#[local] Strategy 10000 [sha_finish update_span sha256 le_store].

(** ** Spans of concatenations *)

Lemma span_skip (k n : Z) (a b : list byte) : 0 <= k -> span (Zlen a + k) n (a ++ b) = span k n b.
Proof.
  intros Hk. unfold span, Zlen. rewrite Z2Nat.inj_add, Nat2Z.id, <- drop_drop, drop_app_length by lia. done.
Qed.

Lemma span_take (a b : list byte) : span 0 (Zlen a) (a ++ b) = a.
Proof. unfold span, Zlen. by rewrite Nat2Z.id, drop_0, take_app_length. Qed.

Lemma span_at (a b c : list byte) (k n : Z) : Zlen a = k -> Zlen b = n -> span k n (a ++ b ++ c) = b.
Proof. intros <- <-. rewrite <- (Z.add_0_r (Zlen a)), span_skip by lia. apply span_take. Qed.

Lemma span_skip_le (k n : Z) (a b : list byte) : Zlen a <= k -> span k n (a ++ b) = span (k - Zlen a) n b.
Proof. intros H. rewrite <- (span_skip (k - Zlen a) n a b) by lia. f_equal. lia. Qed.

Lemma span_head (b c : list byte) (k n : Z) : k = 0 -> Zlen b = n -> span k n (b ++ c) = b.
Proof. intros -> <-. apply span_take. Qed.

Lemma load_u32_0 v c k : k = 0 -> u32_ok v -> load_u32 (le_store 4 0 v ++ c) k = v.
Proof. intros -> Hv. unfold load_u32. rewrite (span_head _ c) by done. by apply le_load_store_fits. Qed.

Lemma load_u64_0 v c k : k = 0 -> u64_ok v -> load_u64 (le_store 8 0 v ++ c) k = v.
Proof. intros -> Hv. unfold load_u64. rewrite (span_head _ c) by done. by apply le_load_store_fits. Qed.

Lemma load_u32_skip (a l : list byte) k : Zlen a <= k -> load_u32 (a ++ l) k = load_u32 l (k - Zlen a).
Proof. intros H. unfold load_u32. by rewrite span_skip_le. Qed.

Lemma load_u64_skip (a l : list byte) k : Zlen a <= k -> load_u64 (a ++ l) k = load_u64 l (k - Zlen a).
Proof. intros H. unfold load_u64. by rewrite span_skip_le. Qed.

(** Skips the encoded fields in front of the one that is read. *)
Ltac skip_fields := repeat (first [rewrite load_u32_skip | rewrite load_u64_skip | rewrite span_skip_le];
  [|rewrite ?Zlen_le_store; lia]; rewrite ?Zlen_le_store).

(** ** The abstract log *)

Record Entry := MkEntry { e_type : RecordType; e_payload : list byte; e_epoch : Z; e_generation : Z }.

Definition digest32 (d : Digest) : Prop := Zlen (digest_bytes d) = 32.

Lemma digest_of_32 l : digest32 (digest_of l).
Proof. unfold digest32, Zlen. pose proof (digest_of_wf l) as H. unfold digest_wf in H. lia. Qed.

Definition entry_front (chain : Digest) (seq : Z) (e : Entry) : list byte :=
  record_front seq (e_type e) (Zlen (e_payload e)) (e_generation e) (e_epoch e) chain.

Definition entry_digest (chain : Digest) (seq : Z) (e : Entry) : Digest :=
  digest_of_two (entry_front chain seq e) (e_payload e).

Definition entry_bytes (chain : Digest) (seq : Z) (e : Entry) : list byte :=
  entry_front chain seq e ++ digest_bytes (entry_digest chain seq e) ++ e_payload e.

(** The records of a log, one after the other, each chained to the one before. *)
Fixpoint journal_of (chain : Digest) (seq : Z) (es : list Entry) : list byte :=
  match es with
  | [] => []
  | e :: es => entry_bytes chain seq e ++ journal_of (entry_digest chain seq e) (seq + 1) es
  end.

Fixpoint chain_of (chain : Digest) (seq : Z) (es : list Entry) : Digest :=
  match es with
  | [] => chain
  | e :: es => chain_of (entry_digest chain seq e) (seq + 1) es
  end.

(** What recovery should report for it. *)
Fixpoint records_of (inc : ControllerIncarnation) (chain : Digest) (seq : Z) (es : list Entry) : list RecoveredRecord :=
  match es with
  | [] => []
  | e :: es =>
      MkRecovered (e_type e) seq (e_generation e) (e_epoch e) inc (e_payload e) false (entry_digest chain seq e)
      :: records_of inc (entry_digest chain seq e) (seq + 1) es
  end.

Record entry_ok (config : StoreConfig) (e : Entry) : Prop := {
  eo_payload : Zlen (e_payload e) <= max_record_bytes config /\ Zlen (e_payload e) <= u32_max;
  eo_epoch : u64_ok (e_epoch e);
  eo_generation : u64_ok (e_generation e)
}.

Lemma digest_of_two_app a b : digest_of_two a b = digest_of (a ++ b).
Proof. unfold digest_of_two, digest_of, sha256. rewrite update_span_app by auto with slf. done. Qed.

Lemma entry_digest_32 chain seq e : digest32 (entry_digest chain seq e).
Proof. unfold entry_digest. rewrite digest_of_two_app. apply digest_of_32. Qed.

(** The fixed part of a record header, field by field. *)
Lemma entry_front_fields chain seq e :
  digest32 chain ->
  entry_front chain seq e
  = le_store 4 0 kRecordMagic ++ le_store 4 0 kPersistenceFormatVersion ++ le_store 8 0 seq
    ++ le_store 4 0 (RecordType_to_u32 (e_type e)) ++ le_store 4 0 0 ++ le_store 4 0 (Zlen (e_payload e))
    ++ le_store 4 0 0 ++ le_store 8 0 (e_generation e) ++ le_store 8 0 (e_epoch e) ++ digest_bytes chain.
Proof.
  intros Hc. unfold entry_front, record_front. rewrite writes_fit_new.
  - rewrite !encs_cons. cbn [enc]. change (encs []) with (@nil byte). by rewrite app_nil_r.
  - by repeat (apply Forall_cons; split; [done|]).
  - rewrite !encs_cons. cbn [enc]. rewrite !Zlen_app, !Zlen_le_store, Hc. vm_compute. discriminate.
Qed.

Lemma entry_front_length chain seq e : digest32 chain -> Zlen (entry_front chain seq e) = 80.
Proof. intros Hc. rewrite entry_front_fields by done. by rewrite !Zlen_app, !Zlen_le_store, Hc. Qed.

Lemma entry_bytes_length chain seq e : digest32 chain -> Zlen (entry_bytes chain seq e) = 112 + Zlen (e_payload e).
Proof.
  intros Hc. pose proof (entry_digest_32 chain seq e) as H. unfold digest32 in H. unfold entry_bytes.
  rewrite !Zlen_app, entry_front_length, H by done. lia.
Qed.

Lemma RecordType_of_to_u32 t : RecordType_of_u32 (RecordType_to_u32 t) = Some t.
Proof. by destruct t. Qed.

Lemma RecordType_u32_ok t : u32_ok (RecordType_to_u32 t).
Proof. destruct t; unfold fits; simpl; lia. Qed.

(** Reading the fields back, whatever follows the header. *)
Lemma front_loads chain seq e x :
  digest32 chain -> u64_ok seq -> u64_ok (e_generation e) -> u64_ok (e_epoch e) -> Zlen (e_payload e) <= u32_max ->
  let rest := entry_front chain seq e ++ digest_bytes (entry_digest chain seq e) ++ x in
  load_u32 rest 0 = kRecordMagic /\ load_u32 rest 4 = kPersistenceFormatVersion /\ load_u64 rest 8 = seq
  /\ load_u32 rest 16 = RecordType_to_u32 (e_type e) /\ load_u32 rest 24 = Zlen (e_payload e)
  /\ load_u64 rest 32 = e_generation e /\ load_u64 rest 40 = e_epoch e
  /\ span 48 32 rest = digest_bytes chain /\ span 0 80 rest = entry_front chain seq e
  /\ span 80 32 rest = digest_bytes (entry_digest chain seq e) /\ span 112 (Zlen x) rest = x.
Proof.
  intros Hc Hs Hg He Hp. cbv zeta. pose proof (entry_front_length chain seq e Hc) as H80.
  pose proof (entry_digest_32 chain seq e) as H32. unfold digest32 in *.
  assert (u32_ok kRecordMagic) by (unfold fits, kRecordMagic; lia).
  assert (u32_ok kPersistenceFormatVersion) by (unfold fits, kPersistenceFormatVersion; lia).
  pose proof (RecordType_u32_ok (e_type e)). pose proof (Zlen_u32 _ Hp).
  split_and!.
  9: by rewrite <- H80, span_take.
  9: by rewrite (span_at _ _ x).
  9: { rewrite !span_skip_le by lia. rewrite H80, H32. rewrite <- (app_nil_r x) at 2. by apply span_head. }
  all: rewrite entry_front_fields by done; rewrite <- ?(assoc_L (++)); skip_fields.
  1,2,4,5: by apply load_u32_0.
  1-3: by apply load_u64_0.
  by apply span_head.
Qed.

Lemma MkDigest_eta d : MkDigest (digest_bytes d) = d.
Proof. by destruct d. Qed.

Lemma not_trailer b l : b <> Byte.x53 -> span 0 8 (b :: l) <> kTrailerMagic.
Proof. intros Hb H. apply Hb. change kTrailerMagic with (Byte.x53 :: drop 1 kTrailerMagic) in H. by injection H. Qed.

Lemma entry_front_head chain seq e : digest32 chain -> exists l, entry_front chain seq e = Byte.x52 :: l.
Proof. intros Hc. rewrite entry_front_fields by done. by eexists. Qed.

Section Scan.
Context (config : StoreConfig) (inc : ControllerIncarnation).

Definition entry_record (chain : Digest) (seq : Z) (e : Entry) : RecoveredRecord :=
  MkRecovered (e_type e) seq (e_generation e) (e_epoch e) inc (e_payload e) false (entry_digest chain seq e).

Lemma scan_step_record off chain seq out rep e tail :
  digest32 chain -> u64_ok seq -> entry_ok config e -> Zlen out < kReplayBound ->
  scan_step config inc (MkScanState off (entry_bytes chain seq e ++ tail) chain seq (Some out) rep)
  = Continue (MkScanState (off + (kRecordHeaderBytes + Zlen (e_payload e))) tail (entry_digest chain seq e)
      (wrap 64 (seq + 1)) (Some (out ++ [entry_record chain seq e]))
      (report_record (e_type e) (e_epoch e) (e_generation e) (entry_digest chain seq e) rep)).
Proof.
  intros Hc Hs [[Hp1 Hp2] He Hg] Hout. pose proof (entry_front_length chain seq e Hc) as H80.
  pose proof (entry_digest_32 chain seq e) as H32. unfold digest32 in H32.
  assert (Zlen (entry_bytes chain seq e ++ tail) = 112 + Zlen (e_payload e) + Zlen tail) as Hlen
    by (rewrite Zlen_app, entry_bytes_length by done; lia).
  unfold entry_bytes in *. rewrite <- !(assoc_L (++)) in *.
  destruct (front_loads chain seq e (e_payload e ++ tail) Hc Hs Hg He Hp2)
    as (L1 & L2 & L3 & L4 & L5 & L6 & L7 & L8 & L9 & L10 & _).
  assert (span 112 (Zlen (e_payload e)) (entry_front chain seq e ++ digest_bytes (entry_digest chain seq e) ++ e_payload e ++ tail)
          = e_payload e) as L11 by (rewrite !span_skip_le by lia; rewrite H80, H32; by apply span_head).
  assert (drop (Z.to_nat (112 + Zlen (e_payload e)))
            (entry_front chain seq e ++ digest_bytes (entry_digest chain seq e) ++ e_payload e ++ tail) = tail) as L12.
  { rewrite !(assoc_L (++)). apply drop_app_length'. rewrite !length_app. unfold Zlen in *. lia. }
  set (rest := entry_front chain seq e ++ _) in *. pose proof (Zlen_nonneg (e_payload e)). pose proof (Zlen_nonneg tail).
  unfold scan_step. cbn [sc_rest]. destruct (entry_front_head chain seq e Hc) as [l Hl].
  assert (span 0 8 rest <> kTrailerMagic) as Hnt by (unfold rest; rewrite Hl; by apply not_trailer).
  rewrite (bool_decide_false _ Hnt). unfold scan_record, kRecordHeaderBytes in *.
  cbn [sc_rest sc_offset sc_chain sc_expected sc_out sc_report].
  rewrite L1, L2, L3, L4, L5, L6, L7, L8, L9, L10, L11, Hlen, !MkDigest_eta.
  destruct (Z.ltb_spec (112 + Zlen (e_payload e) + Zlen tail) 112); [lia|]. rewrite !Z.eqb_refl. cbn [negb].
  destruct (Z.gtb_spec (Zlen (e_payload e)) (max_record_bytes config)); [lia|].
  destruct (Z.ltb_spec (112 + Zlen (e_payload e) + Zlen tail) (112 + Zlen (e_payload e))); [lia|].
  rewrite !bool_decide_true by done. cbn [negb]. rewrite RecordType_of_to_u32.
  destruct (Z.leb_spec kReplayBound (Zlen out)); [lia|]. by rewrite L12.
Qed.

(** A record cut anywhere is a truncated tail: it is dropped, and nothing else. *)
Lemma scan_step_cut off chain seq out rep e (m : nat) :
  digest32 chain -> u64_ok seq -> entry_ok config e ->
  (0 < m < List.length (entry_bytes chain seq e))%nat ->
  exists detail, scan_step config inc (MkScanState off (take m (entry_bytes chain seq e)) chain seq out rep)
  = Stop (report_stop RS_TruncatedTail SC_Truncated detail (Z.of_nat m) rep).
Proof.
  intros Hc Hs [[Hp1 Hp2] He Hg] Hm. pose proof (entry_front_length chain seq e Hc) as H80.
  pose proof (entry_digest_32 chain seq e) as H32. unfold digest32 in H32.
  pose proof (entry_bytes_length chain seq e Hc) as Hb.
  assert (Zlen (take m (entry_bytes chain seq e)) = Z.of_nat m) as Hlen by (unfold Zlen; rewrite length_take; lia).
  unfold scan_step. cbn [sc_rest]. destruct (entry_front_head chain seq e Hc) as [l Hl].
  assert (span 0 8 (take m (entry_bytes chain seq e)) <> kTrailerMagic) as Hnt.
  { unfold entry_bytes. rewrite Hl. destruct m; [lia|]. by apply not_trailer. }
  rewrite (bool_decide_false _ Hnt). unfold scan_record, kRecordHeaderBytes.
  cbn [sc_rest sc_offset sc_chain sc_expected sc_out sc_report]. rewrite Hlen.
  destruct (Z.ltb_spec (Z.of_nat m) 112) as [|Hge]; [by eexists|].
  assert (take m (entry_bytes chain seq e)
    = entry_front chain seq e ++ digest_bytes (entry_digest chain seq e) ++ take (m - 112) (e_payload e)) as Et.
  { unfold entry_bytes. rewrite (assoc_L (++)). assert (List.length (entry_front chain seq e ++ digest_bytes (entry_digest chain seq e)) = 112%nat) as E
      by (rewrite length_app; unfold Zlen in *; lia).
    rewrite take_app, E. rewrite (take_ge (entry_front chain seq e ++ _)) by lia. by rewrite (assoc_L (++)). }
  rewrite Et. destruct (front_loads chain seq e (take (m - 112) (e_payload e)) Hc Hs Hg He Hp2) as (L1 & L2 & L3 & L4 & L5 & _).
  rewrite L1, L2, L5, !Z.eqb_refl. cbn [negb].
  destruct (Z.gtb_spec (Zlen (e_payload e)) (max_record_bytes config)); [lia|].
  destruct (Z.ltb_spec (Z.of_nat m) (112 + Zlen (e_payload e))) as [|Hge2]; [by eexists|].
  unfold Zlen in *. lia.
Qed.

(** The report after a run of verified records. *)
Fixpoint report_after (chain : Digest) (seq : Z) (es : list Entry) (rep : RecoveryReport) : RecoveryReport :=
  match es with
  | [] => rep
  | e :: es =>
      report_after (entry_digest chain seq e) (seq + 1) es
        (report_record (e_type e) (e_epoch e) (e_generation e) (entry_digest chain seq e) rep)
  end.

Lemma report_after_status chain seq es rep :
  rr_status (report_after chain seq es rep) = rr_status rep
  /\ (0 <= rr_records_valid rep -> rr_records_valid rep + Zlen es < 2 ^ 64 ->
      rr_records_valid (report_after chain seq es rep) = rr_records_valid rep + Zlen es).
Proof.
  revert chain seq rep. induction es as [|e es IH]; intros chain seq rep; [split; [done|]; intros; change (Zlen []) with 0; cbn [report_after]; lia|].
  cbn [report_after]. destruct (IH (entry_digest chain seq e) (seq + 1)
    (report_record (e_type e) (e_epoch e) (e_generation e) (entry_digest chain seq e) rep)) as [H1 H2].
  split; [exact H1|]. rewrite Zlen_cons. pose proof (Zlen_nonneg es). intros H0 Hlt. cbn [report_record rr_records_valid] in H2.
  rewrite wrap_small in H2 by (unfold fits; lia). rewrite H2; lia.
Qed.

Lemma scan_records_app fuel off chain seq out rep es tail :
  digest32 chain -> 0 <= seq -> seq + Zlen es < 2 ^ 64 -> Forall (entry_ok config) es ->
  Zlen out + Zlen es <= kReplayBound ->
  exists off', scan_loop (List.length es + fuel) config inc
      (MkScanState off (journal_of chain seq es ++ tail) chain seq (Some out) rep)
    = scan_loop fuel config inc
        (MkScanState off' tail (chain_of chain seq es) (seq + Zlen es) (Some (out ++ records_of inc chain seq es))
           (report_after chain seq es rep)).
Proof.
  revert off chain seq out rep. induction es as [|e es IH]; intros off chain seq out rep Hc H0 Hs Hok Hout.
  { exists off. cbn [journal_of chain_of records_of report_after app length]. by rewrite app_nil_r, Zlen_nil, Z.add_0_r. }
  rewrite Zlen_cons in *. pose proof (Zlen_nonneg es). apply Forall_cons in Hok as [He Hok].
  destruct (IH (off + (kRecordHeaderBytes + Zlen (e_payload e))) (entry_digest chain seq e) (seq + 1)
    (out ++ [entry_record chain seq e])
    (report_record (e_type e) (e_epoch e) (e_generation e) (entry_digest chain seq e) rep)) as [off' IH'];
    [apply entry_digest_32|lia|lia|done|rewrite Zlen_app; change (Zlen [_]) with 1; lia|].
  exists off'. cbn [journal_of chain_of records_of report_after length Nat.add scan_loop sc_rest].
  rewrite <- (assoc_L (++)). rewrite bool_decide_false.
  2:{ intros E%(f_equal Zlen). rewrite Zlen_app, entry_bytes_length, Zlen_nil in E by done.
      pose proof (Zlen_nonneg (e_payload e)). pose proof (Zlen_nonneg (journal_of (entry_digest chain seq e) (seq + 1) es ++ tail)). lia. }
  rewrite scan_step_record; [|done|unfold fits; lia|done|lia].
  rewrite wrap_small by (unfold fits; lia). rewrite IH'. f_equal. f_equal; [lia|]. f_equal. by rewrite <- (assoc_L (++)).
Qed.
End Scan.

(** ** Headers *)

Record header_ok (inc : ControllerIncarnation) (segment created first : Z) : Prop := {
  ho_hi : u64_ok (hi inc);
  ho_lo : u64_ok (lo inc);
  ho_segment : u32_ok segment;
  ho_created : u64_ok created;
  ho_first : u64_ok first /\ first <> 0
}.

Definition journal_header_ops (inc : ControllerIncarnation) (segment created first : Z) : list WriteOp :=
  [WU32 kPersistenceFormatVersion; WU32 kHeaderBytes; WU64 created; WU64 (hi inc);
   WU64 (lo inc); WU32 segment; WU32 0; WU64 first; WU64 0].

Definition header_front (inc : ControllerIncarnation) (segment created first : Z) : list byte :=
  kHeaderMagic ++ encs (journal_header_ops inc segment created first).

Lemma header_front_length inc segment created first : Zlen (header_front inc segment created first) = 64.
Proof. unfold header_front, journal_header_ops. rewrite Zlen_app, !encs_cons. cbn [enc]. by rewrite !Zlen_app, !Zlen_le_store. Qed.

Lemma encode_header_split inc segment created first :
  encode_journal_header inc segment created first
  = header_front inc segment created first ++ digest_bytes (digest_of (header_front inc segment created first))
    ++ replicate 32 Byte.x00.
Proof.
  unfold encode_journal_header. rewrite writes_fit_new.
  - done.
  - by repeat (apply Forall_cons; split; [done|]).
  - rewrite !encs_cons. cbn [enc]. rewrite !Zlen_app, !Zlen_le_store. vm_compute. discriminate.
Qed.

Lemma encode_header_length inc segment created first : Zlen (encode_journal_header inc segment created first) = 128.
Proof.
  rewrite encode_header_split, !Zlen_app, header_front_length.
  pose proof (digest_of_32 (header_front inc segment created first)) as H. unfold digest32 in H. rewrite H. done.
Qed.

Lemma decodes_header stored inc segment created first :
  header_ok inc segment created first ->
  decodes kDefaultMaxString (read_journal_header stored) (encs (journal_header_ops inc segment created first))
    (MkJournalHeader kPersistenceFormatVersion created inc segment first stored).
Proof.
  intros [H1 H2 H3 H4 [H5 H6]]. unfold read_journal_header, journal_header_ops.
  assert (u32_ok kPersistenceFormatVersion) by (unfold fits, kPersistenceFormatVersion; lia).
  assert (u32_ok kHeaderBytes) by (unfold fits, kHeaderBytes; lia).
  assert (u32_ok 0) by (unfold fits; lia). assert (u64_ok 0) by (unfold fits; lia).
  eapply decodes_to_nil; [decode_fields|]. cbv beta iota.
  eapply decodes_bind_nil; [apply decodes_ensure; by rewrite (proj2 (Z.eqb_neq _ _) H6)|].
  eapply decodes_bind_nil; [by apply decodes_ensure|]. eapply decodes_bind_nil; [by apply decodes_ensure|].
  destruct inc. apply decodes_ret.
Qed.

Lemma decode_header_encode inc segment created first :
  header_ok inc segment created first ->
  exists d, decode_journal_header (encode_journal_header inc segment created first)
    = Value (MkJournalHeader kPersistenceFormatVersion created inc segment first d).
Proof.
  intros Hok. pose proof (header_front_length inc segment created first) as H64.
  pose proof (digest_of_32 (header_front inc segment created first)) as H32. unfold digest32 in H32.
  unfold decode_journal_header. rewrite encode_header_length. unfold kHeaderBytes at 1. cbn [Z.ltb Z.compare].
  rewrite encode_header_split. set (front := header_front inc segment created first) in *. eexists.
  assert (span 0 8 (front ++ digest_bytes (digest_of front) ++ replicate 32 Byte.x00) = kHeaderMagic) as ->
    by (unfold front, header_front; rewrite <- (assoc_L (++)); by apply span_head).
  rewrite bool_decide_true by done. cbn [negb].
  assert (load_u32 (front ++ digest_bytes (digest_of front) ++ replicate 32 Byte.x00) 8 = kPersistenceFormatVersion) as ->.
  { unfold front, header_front, journal_header_ops. rewrite encs_cons, <- !(assoc_L (++)). cbn [enc].
    rewrite load_u32_skip by done. apply load_u32_0; [done|unfold fits, kPersistenceFormatVersion; lia]. }
  rewrite Z.eqb_refl. cbn [negb].
  assert (span 0 64 (front ++ digest_bytes (digest_of front) ++ replicate 32 Byte.x00) = front) as -> by by apply span_head.
  assert (span 64 32 (front ++ digest_bytes (digest_of front) ++ replicate 32 Byte.x00) = digest_bytes (digest_of front)) as ->
    by by apply span_at.
  rewrite MkDigest_eta, bool_decide_true by done. cbn [negb].
  assert (span 8 56 (front ++ digest_bytes (digest_of front) ++ replicate 32 Byte.x00)
          = encs (journal_header_ops inc segment created first)) as ->.
  { unfold front at 1, header_front. rewrite <- (assoc_L (++)). apply span_at; [done|].
    unfold front, header_front in H64. rewrite Zlen_app in H64. change (Zlen kHeaderMagic) with 8 in H64. lia. }
  rewrite (decodes_run _ _ _ _ (decodes_header (digest_of front) _ _ _ _ Hok)). reflexivity.
Qed.

(** ** Cutting a journal *)

Lemma chain_of_32 chain seq es : digest32 chain -> digest32 (chain_of chain seq es).
Proof. revert chain seq. induction es as [|e es IH]; intros chain seq H; [done|]. apply IH, entry_digest_32. Qed.

Lemma records_of_take inc chain seq es j : records_of inc chain seq (take j es) = take j (records_of inc chain seq es).
Proof.
  revert chain seq j. induction es as [|e es IH]; intros chain seq [|j]; [done..|]. cbn [take records_of]. by rewrite IH.
Qed.

(** A prefix of the records is whole records and perhaps a cut one. *)
Lemma journal_cut chain seq es (m : nat) :
  digest32 chain -> (m <= List.length (journal_of chain seq es))%nat ->
  exists j tail, take m (journal_of chain seq es) = journal_of chain seq (take j es) ++ tail
    /\ (j <= List.length es)%nat
    /\ (tail = [] \/ exists e k, es !! j = Some e
          /\ tail = take k (entry_bytes (chain_of chain seq (take j es)) (seq + Z.of_nat j) e)
          /\ (0 < k < List.length (entry_bytes (chain_of chain seq (take j es)) (seq + Z.of_nat j) e))%nat)
    /\ (forall e, es !! j = Some e ->
          (m < List.length (journal_of chain seq (take j es))
               + List.length (entry_bytes (chain_of chain seq (take j es)) (seq + Z.of_nat j) e))%nat).
Proof.
  revert chain seq m. induction es as [|e es IH]; intros chain seq m Hc Hm.
  { exists 0%nat, []. cbn in *. assert (m = 0%nat) as -> by lia. by split_and!; try (by left). }
  cbn [journal_of] in *. rewrite length_app in Hm.
  destruct (decide (m < List.length (entry_bytes chain seq e))%nat) as [Hlt|Hge].
  - exists 0%nat, (take m (entry_bytes chain seq e)). rewrite take_app_le by lia.
    cbn [take journal_of chain_of app Z.of_nat lookup list_lookup]. rewrite Z.add_0_r. split; [done|]. split; [lia|]. split.
    + destruct m as [|m]; [left; done|]. right. exists e, (S m). split; [done|]. split; [done|lia].
    + intros e' [= <-]. cbn. lia.
  - destruct (IH (entry_digest chain seq e) (seq + 1) (m - List.length (entry_bytes chain seq e))%nat)
      as (j & tail & E & Hj & Ht & Hb); [apply entry_digest_32|lia|].
    assert (seq + Z.of_nat (S j) = seq + 1 + Z.of_nat j) as Es by lia.
    exists (S j), tail. cbn [take journal_of chain_of lookup list_lookup]. rewrite Es. split; [|split; [|split]].
    + rewrite take_app, take_ge by lia. rewrite E. by rewrite (assoc_L (++)).
    + cbn. lia.
    + exact Ht.
    + intros e' He'. specialize (Hb e' He'). rewrite length_app. lia.
Qed.

Lemma journal_length_ge chain seq es : digest32 chain -> (List.length es <= List.length (journal_of chain seq es))%nat.
Proof.
  revert chain seq. induction es as [|e es IH]; intros chain seq Hc; [done|]. cbn [journal_of length]. rewrite length_app.
  specialize (IH (entry_digest chain seq e) (seq + 1) (entry_digest_32 _ _ _)).
  pose proof (entry_bytes_length chain seq e Hc) as H. pose proof (Zlen_nonneg (e_payload e)). unfold Zlen in *. lia.
Qed.

(** ** Recovery *)

(** The conditions under which a log can be read back. *)
Record log_ok (config : StoreConfig) (inc : ControllerIncarnation) (segment created first : Z) (es : list Entry) : Prop := {
  lo_header : header_ok inc segment created first;
  lo_entries : Forall (entry_ok config) es;
  lo_count : Zlen es <= kReplayBound;
  lo_sequence : first + Zlen es < 2 ^ 64
}.

Definition journal_file (inc : ControllerIncarnation) (segment created first : Z) (es : list Entry) : list byte :=
  let header := encode_journal_header inc segment created first in
  header ++ journal_of (digest_of header) first es.

Definition log_records (inc : ControllerIncarnation) (segment created first : Z) (es : list Entry) : list RecoveredRecord :=
  records_of inc (digest_of (encode_journal_header inc segment created first)) first es.

(** Recovery of a file that starts with a header is a scan of what follows. *)
Lemma recover_journal_scan config path inc segment created first rest out :
  header_ok inc segment created first ->
  Zlen (encode_journal_header inc segment created first ++ rest) <= max_recovery_bytes config ->
  let header := encode_journal_header inc segment created first in
  let start := MkRecovery RS_CrashWithoutTrailer SC_Ok "records verified, no clean-shutdown trailer" true
                 false false false 0 0 (Zlen (header ++ rest)) 0 false false 0 0 inc (digest_of header) in
  let scanned := scan_loop (List.length (header ++ rest)) config inc
                   (MkScanState kHeaderBytes rest (digest_of header) first out start) in
  let recovered := recover_journal (FileBytes (header ++ rest)) path config out in
  recovered.2 = scanned.2
  /\ rr_status recovered.1 = rr_status scanned.1 /\ rr_records_valid recovered.1 = rr_records_valid scanned.1
  /\ rr_bytes_dropped recovered.1 = rr_bytes_dropped scanned.1
  /\ (rr_status scanned.1 <> RS_Clean -> recovered.1 = scanned.1)
  /\ rr_last_epoch recovered.1 = rr_last_epoch scanned.1.
Proof.
  intros Hok Hmax. cbv zeta. pose proof (encode_header_length inc segment created first) as H128.
  destruct (decode_header_encode inc segment created first Hok) as [d Hd]. pose proof (Zlen_nonneg rest) as Hr.
  revert H128 Hd Hmax. generalize (encode_journal_header inc segment created first). intros header H128 Hd Hmax.
  unfold recover_journal, read_file_bounded. assert (Zlen (header ++ rest) = 128 + Zlen rest) as Hlen by (rewrite Zlen_app; lia).
  assert (take (Z.to_nat (if Zlen (header ++ rest) <? max_recovery_bytes config then Zlen (header ++ rest)
            else max_recovery_bytes config)) (header ++ rest) = header ++ rest) as ->.
  { apply take_ge. unfold Zlen in Hmax at 1. destruct (Z.ltb_spec (Zlen (header ++ rest)) (max_recovery_bytes config));
      [unfold Zlen|]; lia. }
  destruct (Z.gtb_spec (Zlen (header ++ rest)) (max_recovery_bytes config)) as [Hgt|_]; [lia|].
  rewrite bool_decide_false by (intros E%(f_equal Zlen); rewrite Hlen, Zlen_nil in E; lia).
  assert (span 0 kHeaderBytes (header ++ rest) = header) as Hsp by by apply span_head.
  assert (Z.min (Zlen (header ++ rest)) kHeaderBytes = kHeaderBytes) as -> by (unfold kHeaderBytes; lia).
  rewrite Hsp, Hd. cbn [jh_incarnation jh_first_sequence].
  assert (drop (Z.to_nat kHeaderBytes) (header ++ rest) = rest) as ->
    by (apply drop_app_length'; unfold Zlen in H128; unfold kHeaderBytes; lia).
  destruct (scan_loop _ _ _ _) as [r out']. cbn [fst snd]. case_bool_decide as E; by split_and!.
Qed.

Lemma journal_of_app chain seq a b :
  journal_of chain seq (a ++ b) = journal_of chain seq a ++ journal_of (chain_of chain seq a) (seq + Zlen a) b.
Proof.
  revert chain seq. induction a as [|e a IH]; intros chain seq; cbn [app journal_of chain_of].
  - by rewrite Zlen_nil, Z.add_0_r.
  - rewrite IH, Zlen_cons, <- (assoc_L (++)). do 3 f_equal. lia.
Qed.

Lemma chain_of_app chain seq a b :
  chain_of chain seq (a ++ b) = chain_of (chain_of chain seq a) (seq + Zlen a) b.
Proof.
  revert chain seq. induction a as [|e a IH]; intros chain seq; cbn [app chain_of].
  - by rewrite Zlen_nil, Z.add_0_r.
  - rewrite IH, Zlen_cons. f_equal. lia.
Qed.

Lemma Zlen_take_nat {A} (l : list A) (j : nat) : (j <= List.length l)%nat -> Zlen (take j l) = Z.of_nat j.
Proof. intros H. unfold Zlen. rewrite length_take. lia. Qed.

(** The scan of a cut log. *)
Lemma scan_cut_log config inc off chain seq es start (m fuel : nat) :
  digest32 chain -> 0 <= seq -> seq + Zlen es < 2 ^ 64 -> Forall (entry_ok config) es -> Zlen es <= kReplayBound ->
  (m <= List.length (journal_of chain seq es))%nat -> (m < fuel)%nat ->
  rr_records_valid start = 0 -> rr_bytes_dropped start = 0 -> Z.of_nat m < 2 ^ 64 ->
  exists j, let r := scan_loop fuel config inc (MkScanState off (take m (journal_of chain seq es)) chain seq (Some []) start) in
    r.2 = Some (take j (records_of inc chain seq es)) /\ (j <= List.length es)%nat
    /\ rr_records_valid r.1 = Z.of_nat j
    /\ (List.length (journal_of chain seq (take j es)) <= m)%nat
    /\ (j < List.length es -> m < List.length (journal_of chain seq (take (S j) es)))%nat
    /\ rr_bytes_dropped r.1 = Z.of_nat m - Zlen (journal_of chain seq (take j es))
    /\ rr_status r.1 = if decide (m = List.length (journal_of chain seq (take j es))) then rr_status start else RS_TruncatedTail.
Proof.
  intros Hc H0 Hs Hok Hcount Hm Hfuel Hv Hd H64. destruct (journal_cut chain seq es m Hc Hm) as (j & tail & E & Hj & Ht & Hb).
  exists j. cbv zeta. rewrite E. pose proof (Zlen_take_nat es j Hj) as Hzj.
  assert (m = List.length (journal_of chain seq (take j es)) + List.length tail)%nat as Hml
    by (apply (f_equal List.length) in E; rewrite length_app, length_take in E; lia).
  pose proof (journal_length_ge chain seq (take j es) Hc) as Hge.
  assert (List.length (take j es) = j) as Hlj by (rewrite length_take; lia). rewrite Hlj in Hge.
  replace fuel with (List.length (take j es) + (fuel - j))%nat by lia.
  assert (Zlen es = Z.of_nat (List.length es)) as Hze by done.
  destruct (scan_records_app config inc (fuel - j) off chain seq [] start (take j es) tail) as [off' ->];
    [done|done|lia|by apply Forall_take|rewrite Zlen_nil; lia|]. cbn [app].
  destruct (report_after_status chain seq (take j es) start) as [Rs Rv]. rewrite Hv, Hzj in Rv. specialize (Rv ltac:(lia) ltac:(lia)).
  assert (rr_bytes_dropped (report_after chain seq (take j es) start) = 0) as Rd.
  { clear -Hd. revert chain seq start Hd. induction (take j es) as [|e l IH]; intros chain seq start Hd; [done|]. by apply IH. }
  rewrite records_of_take.
  assert (j < List.length es -> m < List.length (journal_of chain seq (take (S j) es)))%nat as Hnext.
  { intros Hlt. destruct (lookup_lt_is_Some_2 es j Hlt) as [e He]. specialize (Hb e He). rewrite (take_S_r _ _ _ He), journal_of_app, Hzj.
    cbn [journal_of]. rewrite app_nil_r, length_app. lia. }
  destruct (fuel - j)%nat as [|fuel'] eqn:Ef; [lia|]. cbn [scan_loop sc_rest sc_report sc_out].
  destruct Ht as [->|(e & k & He & -> & Hk)].
  - rewrite bool_decide_true by done. cbn [fst snd length] in *. rewrite Rv, Rs, Rd.
    rewrite decide_True by lia. unfold Zlen. split_and!; done || lia.
  - assert (List.length (take k (entry_bytes (chain_of chain seq (take j es)) (seq + Z.of_nat j) e)) = k) as Hkl
      by (rewrite length_take; lia).
    rewrite bool_decide_false by (intros Q; rewrite Q in Hkl; cbn in Hkl; lia).
    destruct (scan_step_cut config inc off' (chain_of chain seq (take j es)) (seq + Z.of_nat j)
      (Some (take j (records_of inc chain seq es))) (report_after chain seq (take j es) start) e k) as [detail Hst];
      [by apply chain_of_32|unfold fits; lia|by eapply Forall_lookup_1|done|].
    rewrite Hzj, Hst. cbn [fst snd report_stop rr_records_valid rr_status rr_bytes_dropped]. rewrite Rv, Rd.
    rewrite decide_False by lia. rewrite wrap_small by (unfold fits; lia).
    unfold Zlen. split_and!; done || lia.
Qed.

(** Recovery of a cut log; [j] records survive. *)
Lemma recover_prefix config path inc segment created first es (k : nat) :
  log_ok config inc segment created first es ->
  (128 <= k <= List.length (journal_file inc segment created first es))%nat ->
  Z.of_nat k <= max_recovery_bytes config < 2 ^ 64 ->
  exists j : nat,
    let r := recover_journal (FileBytes (take k (journal_file inc segment created first es))) path config (Some []) in
    let kept := journal_file inc segment created first (take j es) in
    r.2 = Some (take j (log_records inc segment created first es))
    /\ usable r.1 = true /\ rr_records_valid r.1 = Z.of_nat j
    /\ (List.length kept <= k)%nat
    /\ ((j < List.length es)%nat -> (k < List.length (journal_file inc segment created first (take (S j) es)))%nat)
    /\ rr_bytes_dropped r.1 = Z.of_nat k - Zlen kept
    /\ rr_status r.1 = if decide (k = List.length kept) then RS_CrashWithoutTrailer else RS_TruncatedTail.
Proof.
  intros [Hh He Hn Hs] Hk [Hmax H64]. pose proof (encode_header_length inc segment created first) as H128.
  destruct Hh as [? ? ? ? [Hf Hf0]] eqn:Eh. unfold fits in Hf.
  pose proof (fun rest => recover_journal_scan config path inc segment created first rest (Some []) Hh) as Hscan.
  unfold journal_file, log_records in *. cbv zeta in *. clear Eh Hh.
  revert H128 Hk Hscan. generalize (encode_journal_header inc segment created first). intros header H128 Hk Hscan.
  pose proof (digest_of_32 header) as Hd. unfold Zlen in H128.
  rewrite length_app in Hk. rewrite take_app, take_ge by lia. replace (List.length header) with 128%nat by lia.
  assert (List.length (take (k - 128) (journal_of (digest_of header) first es)) = k - 128)%nat as Hr
    by (rewrite length_take; lia).
  destruct (Hscan (take (k - 128) (journal_of (digest_of header) first es))) as (-> & R2 & R3 & R4 & _);
    [rewrite Zlen_app; unfold Zlen; lia|].
  match goal with |- context [scan_loop ?fu _ _ (MkScanState ?o _ _ _ _ ?st)] =>
    destruct (scan_cut_log config inc o (digest_of header) first es st (k - 128) fu)
      as (j & J1 & J2 & J3 & J4 & J5 & J6 & J7); try done; try lia end.
  { rewrite length_app. lia. }
  exists j. unfold usable. rewrite R2, R3, R4, J1, J3, J6, J7. unfold Zlen. rewrite !length_app.
  split_and!; try done; try lia.
  - by case_decide.
  - repeat case_decide; done || lia.
Qed.

(** Crash consistency. Cut the file of a log anywhere after its header: recovery is
    usable and returns exactly the records that were wholly written before the cut, in
    order and with their payloads; a record cut in two is dropped and counted as dropped
    bytes, and the status says whether there was one. *)
Theorem recover_any_prefix config path inc segment created first es (k : nat) :
  log_ok config inc segment created first es ->
  (128 <= k <= List.length (journal_file inc segment created first es))%nat ->
  Z.of_nat k <= max_recovery_bytes config < 2 ^ 64 ->
  exists j : nat,
    let r := recover_journal (FileBytes (take k (journal_file inc segment created first es))) path config (Some []) in
    let kept := journal_file inc segment created first (take j es) in
    r.2 = Some (take j (log_records inc segment created first es))
    /\ usable r.1 = true /\ rr_records_valid r.1 = Z.of_nat j
    /\ (List.length kept <= k)%nat
    /\ ((j < List.length es)%nat -> (k < List.length (journal_file inc segment created first (take (S j) es)))%nat)
    /\ rr_bytes_dropped r.1 = Z.of_nat k - Zlen kept
    /\ rr_status r.1 = if decide (k = List.length kept) then RS_CrashWithoutTrailer else RS_TruncatedTail.
Proof. apply recover_prefix. Qed.
