(* ===== verification/StoreDirSpec.v ===== *)
(** * What the state directory promises (src/store.cpp)

    Segment names and indices are in bijection below 10^8; a directory lists its segments
    in order whatever order the file system yields; a snapshot reads back as it was written. *)
From S2P Require Import Prelude Status Checked Identity Bytes Digest Capacity Model Builder BuilderSpec Sample Freeze Codec CodecSpec Topology Eligibility Governance Store StoreDir StoreSpec.

#[local] Strategy 10000 [sha_finish update_span sha256 le_store].

(** ** Segment names *)

(** The [n] decimal digits of [z], most significant first. *)
Fixpoint fixed_digits (n : nat) (z : Z) : list byte :=
  match n with
  | O => []
  | S n' => fixed_digits n' (z / 10) ++ [byte_of_Z (48 + z mod 10)]
  end.

Lemma fixed_digits_length n z : List.length (fixed_digits n z) = n.
Proof. revert z. induction n as [|n IH]; intros z; [done|]. cbn [fixed_digits]. rewrite length_app, IH. simpl. lia. Qed.

Lemma fixed_digits_zero n : fixed_digits n 0 = replicate n Byte.x30.
Proof.
  induction n as [|n IH]; [done|]. cbn [fixed_digits]. change (0 / 10) with 0. rewrite IH. change (0 mod 10) with 0.
  change (byte_of_Z (48 + 0)) with Byte.x30. by rewrite <- replicate_S_end.
Qed.

(** Decimal text padded with zeros is the fixed-width text. *)
Lemma dec_digits_fixed fuel k z acc :
  (1 <= k)%nat -> (k <= S fuel)%nat -> 0 <= z < 10 ^ Z.of_nat k ->
  replicate (k + List.length acc - List.length (dec_digits fuel z acc)) Byte.x30 ++ dec_digits fuel z acc = fixed_digits k z ++ acc.
Proof.
  revert k z acc. induction fuel as [|fuel IH]; intros k z acc Hk Hf Hz.
  - assert (k = 1%nat) as -> by lia. cbn [dec_digits fixed_digits app length]. replace (1 + length acc - S (length acc))%nat with 0%nat by lia. done.
  - cbn [dec_digits]. destruct k as [|k]; [lia|]. cbn [fixed_digits].
    rewrite Nat2Z.inj_succ, Z.pow_succ_r in Hz by lia. destruct (Z.eqb_spec (z / 10) 0) as [E|E].
    + rewrite E, fixed_digits_zero. cbn [length]. replace (S k + length acc - S (length acc))%nat with k by lia. by rewrite <- (assoc_L (++)).
    + assert (1 <= k)%nat.
      { destruct k; [|lia]. exfalso. apply E. apply Z.div_small. change (Z.of_nat 0) with 0 in Hz. lia. }
      specialize (IH k (z / 10) (byte_of_Z (48 + z mod 10) :: acc)). cbn [length] in IH.
      replace (S k + length acc)%nat with (k + S (length acc))%nat by lia. rewrite IH; [by rewrite <- (assoc_L (++))|lia|lia|].
      split; [apply Z.div_pos; lia|apply Z.div_lt_upper_bound; lia].
Qed.

Lemma pad_digits_replicate fuel l :
  (List.length l <= 8)%nat -> (8 - List.length l <= fuel)%nat -> pad_digits fuel l = replicate (8 - List.length l) Byte.x30 ++ l.
Proof.
  revert l. induction fuel as [|fuel IH]; intros l Hl Hf; cbn [pad_digits].
  - by replace (8 - length l)%nat with 0%nat by lia.
  - destruct (Z.ltb_spec (Zlen l) 8) as [Hlt|Hge]; unfold Zlen in *.
    + rewrite IH by (cbn [length]; lia). cbn [length]. replace (8 - length l)%nat with (S (8 - S (length l))) by lia.
      rewrite replicate_S_end, <- (assoc_L (++)). done.
    + by replace (8 - length l)%nat with 0%nat by lia.
Qed.

Lemma four_digit_segment_fixed i : 0 <= i < 10 ^ 8 -> bytes_of (four_digit_segment i) = fixed_digits 8 i.
Proof.
  intros Hi. unfold four_digit_segment, std_to_string. rewrite !bytes_of_text_of.
  pose proof (dec_digits_fixed 19 8 i [] ltac:(lia) ltac:(lia) Hi) as H. rewrite app_nil_r in H. cbn [length] in H.
  assert (List.length (dec_digits 19 i []) <= 8)%nat as Hl.
  { apply (f_equal List.length) in H. rewrite length_app, length_replicate, fixed_digits_length in H. lia. }
  rewrite pad_digits_replicate by lia. exact H.
Qed.

Lemma digit_byte c : 48 <= Z_of_byte c <= 57 -> c = byte_of_Z (48 + (Z_of_byte c - 48)).
Proof. intros H. replace (48 + (Z_of_byte c - 48)) with (Z_of_byte c) by lia. by rewrite byte_of_Z_of_byte. Qed.

(** Parsing digits from the right. *)
Lemma parse_segment_snoc l c v :
  parse_segment_digits (l ++ [c]) v
  = match parse_segment_digits l v with
    | Some w => if (Z_of_byte c <? 48) || (Z_of_byte c >? 57) then None else Some (wrap 32 (w * 10 + (Z_of_byte c - 48)))
    | None => None
    end.
Proof.
  revert v. induction l as [|b l IH]; intros v; cbn [app parse_segment_digits]; [done|]. cbv zeta.
  destruct ((Z_of_byte b <? 48) || (Z_of_byte b >? 57)); [done|]. apply IH.
Qed.

Lemma parse_fixed_digits n z :
  (n <= 9)%nat -> 0 <= z < 10 ^ Z.of_nat n -> parse_segment_digits (fixed_digits n z) 0 = Some z.
Proof.
  revert z. induction n as [|n IH]; intros z Hn Hz; [cbn; f_equal; change (10 ^ Z.of_nat 0) with 1 in Hz; lia|].
  cbn [fixed_digits]. rewrite parse_segment_snoc. pose proof Hz as Hz'. rewrite Nat2Z.inj_succ, Z.pow_succ_r in Hz by lia.
  rewrite IH; [|lia|split; [apply Z.div_pos; lia|apply Z.div_lt_upper_bound; lia]].
  pose proof (Z.mod_pos_bound z 10 ltac:(lia)) as Hm. rewrite byte_of_Z_digit by done.
  destruct (Z.ltb_spec (48 + z mod 10) 48); [lia|]. destruct (Z.gtb_spec (48 + z mod 10) 57); [lia|]. cbn [orb].
  pose proof (Z.div_mod z 10 ltac:(lia)). rewrite wrap_small; [f_equal; lia|].
  assert (10 ^ Z.of_nat (S n) <= 10 ^ 9) by (apply Z.pow_le_mono_r; lia). unfold fits. lia.
Qed.

Lemma parse_digits_fixed l z :
  (List.length l <= 9)%nat -> parse_segment_digits l 0 = Some z -> l = fixed_digits (List.length l) z /\ 0 <= z < 10 ^ Z.of_nat (List.length l).
Proof.
  revert z. induction l as [|c l IH] using rev_ind; intros z Hl H; [injection H as <-; cbn; split; [done|lia]|].
  rewrite length_app in *. cbn [length] in *. rewrite parse_segment_snoc in H.
  destruct (parse_segment_digits l 0) as [w|] eqn:E; [|done]. destruct (IH w ltac:(lia) eq_refl) as [El Hw].
  destruct (Z.ltb_spec (Z_of_byte c) 48); [done|]. destruct (Z.gtb_spec (Z_of_byte c) 57); [done|]. cbn [orb] in H.
  assert (10 ^ Z.of_nat (length l) * 10 <= 10 ^ 9).
  { rewrite Z.mul_comm, <- Z.pow_succ_r by lia. apply Z.pow_le_mono_r; lia. }
  rewrite wrap_small in H by (unfold fits; lia). injection H as <-. rewrite Nat.add_1_r, Nat2Z.inj_succ, Z.pow_succ_r by lia.
  split; [|lia]. cbn [fixed_digits]. replace ((w * 10 + (Z_of_byte c - 48)) / 10) with w by divlia.
  replace ((w * 10 + (Z_of_byte c - 48)) mod 10) with (Z_of_byte c - 48) by divlia. rewrite <- digit_byte by lia. by rewrite <- El.
Qed.

Lemma segment_name_bytes i : 0 <= i < 10 ^ 8 ->
  bytes_of (segment_name i) = bytes_of segment_prefix ++ fixed_digits 8 i ++ bytes_of segment_suffix.
Proof. intros H. unfold segment_name. by rewrite !bytes_of_app, four_digit_segment_fixed. Qed.

Lemma parse_segment_name i : 0 <= i < 10 ^ 8 -> parse_segment_index (segment_name i) = Some i.
Proof.
  intros Hi. unfold parse_segment_index. rewrite segment_name_bytes by done. pose proof (fixed_digits_length 8 i) as Hl.
  set (p := bytes_of segment_prefix). set (x := bytes_of segment_suffix). cbv zeta.
  assert (Zlen (fixed_digits 8 i) = 8) as Hd by (unfold Zlen; lia).
  assert (Zlen p = 8) as Hp by done. assert (Zlen x = 4) as Hx by done. rewrite !Zlen_app, Hd, Hp, Hx. cbn [Z.eqb Z.add Pos.add negb Pos.eqb].
  rewrite (span_head p) by done. rewrite bool_decide_true by done. cbn [negb].
  assert (span (8 + (8 + 4) - 4) 4 (p ++ fixed_digits 8 i ++ x) = x) as ->.
  { rewrite !span_skip_le by lia. rewrite Hp, Hd. rewrite <- (app_nil_r x) at 1. by apply span_head. }
  rewrite bool_decide_true by done. cbn [negb]. rewrite (span_at p) by done. apply parse_fixed_digits; [lia|exact Hi].
Qed.

(** A name that parses is the name of its index. *)
Lemma parse_segment_index_name name i :
  parse_segment_index name = Some i -> name = segment_name i /\ 0 <= i < 10 ^ 8.
Proof.
  unfold parse_segment_index. cbv zeta. set (l := bytes_of name). set (p := bytes_of segment_prefix). set (x := bytes_of segment_suffix).
  assert (Zlen p = 8) as Hp by done. assert (Zlen x = 4) as Hx by done. rewrite Hp, Hx.
  destruct (Z.eqb_spec (Zlen l) (8 + 8 + 4)) as [Hl|]; [|done]. cbn [negb].
  destruct (bool_decide_reflect (span 0 8 l = p)) as [E1|]; [|done]. cbn [negb].
  destruct (bool_decide_reflect (span (Zlen l - 4) 4 l = x)) as [E2|]; [|done]. cbn [negb]. intros H.
  rewrite Hl in E2. unfold span in *. cbn [Z.to_nat drop] in E1.
  change (Z.to_nat 8) with 8%nat in *. change (Z.to_nat (8 + 8 + 4 - 4)) with 16%nat in E2. change (Z.to_nat 4) with 4%nat in E2.
  assert (List.length l = 20%nat) as Hn by (unfold Zlen in Hl; lia).
  apply parse_digits_fixed in H as [Ed Hi]; [|rewrite length_take, length_drop; lia].
  rewrite length_take, length_drop, Hn in Ed, Hi. change (8 `min` (20 - 8))%nat with 8%nat in *.
  split; [|exact Hi]. apply bytes_of_inj. rewrite segment_name_bytes by exact Hi. fold l p x. rewrite <- Ed, <- E1, <- E2.
  rewrite (take_ge (drop 16 l)) by (rewrite length_drop; lia).
  rewrite <- (take_drop 8 l) at 1. f_equal. rewrite <- (take_drop 8 (drop 8 l)) at 1. by rewrite drop_drop.
Qed.

(** Segment names and indices are in bijection below 10^8: the name of an index parses to
    that index, and any name that parses is the name of the index it parses to. *)
Theorem segment_names_bijective name i :
  parse_segment_index name = Some i <-> name = segment_name i /\ 0 <= i < 10 ^ 8.
Proof. split; [apply parse_segment_index_name|]. intros [-> Hi]. by apply parse_segment_name. Qed.

(** ** Listing a directory *)

(** The segment an entry stands for. *)
Definition entry_segment (e : DirEntry) : option SegmentInfo :=
  match de_kind e with
  | RegularFile => (fun i => new_segment (de_name e) i (entry_size (de_file e)).1) <$> parse_segment_index (de_name e)
  | _ => None
  end.

(** Neither the kind nor the size of the entry is refused by the file system. *)
Definition statable (e : DirEntry) : Prop :=
  match de_kind e with
  | Unstatable _ => False
  | OtherFile => True
  | RegularFile => (entry_size (de_file e)).2 = None
  end.

Lemma collect_statable entries acc :
  Forall statable entries -> collect_segments entries None acc = Value (acc ++ omap entry_segment entries).
Proof.
  revert acc. induction entries as [|e es IH]; intros acc H; cbn [collect_segments omap list_omap]; [by rewrite app_nil_r|].
  apply Forall_cons in H as [He H]. unfold statable, entry_segment in *. destruct (de_kind e); [|by apply IH|done].
  destruct (parse_segment_index (de_name e)) as [i|]; cbn [fmap option_fmap option_map]; [|by apply IH].
  destruct (entry_size (de_file e)) as [n ec]. cbn [fst snd] in *. subst ec. rewrite IH by done. by rewrite <- (assoc_L (++)).
Qed.

#[export] Instance seg_le_trans : Transitive seg_le.
Proof. intros a b c. unfold seg_le. lia. Qed.
#[export] Instance seg_le_total : Total seg_le.
Proof. intros a b. unfold seg_le. lia. Qed.

Lemma entry_segment_spec e s : entry_segment e = Some s -> seg_name s = de_name e /\ de_name e = segment_name (seg_index s).
Proof.
  unfold entry_segment. destruct (de_kind e); [|done..]. destruct (parse_segment_index (de_name e)) as [i|] eqn:E; [|done].
  intros [= <-]. cbn. by apply parse_segment_index_name in E as [? _].
Qed.

(** Entries with distinct names stand for segments with distinct indices. *)
Lemma segments_by_index entries s1 s2 :
  NoDup (de_name <$> entries) -> s1 ∈ omap entry_segment entries -> s2 ∈ omap entry_segment entries ->
  seg_index s1 = seg_index s2 -> s1 = s2.
Proof.
  intros Hnd (e1 & He1 & H1)%list_elem_of_omap (e2 & He2 & H2)%list_elem_of_omap Hi.
  apply list_elem_of_lookup in He1 as [i1 L1]. apply list_elem_of_lookup in He2 as [i2 L2].
  pose proof (entry_segment_spec _ _ H1) as [_ N1]. pose proof (entry_segment_spec _ _ H2) as [_ N2].
  assert (i1 = i2) as -> by (eapply (NoDup_lookup (de_name <$> entries)); rewrite ?list_lookup_fmap, ?L1, ?L2; cbn; [done|done|congruence]).
  congruence.
Qed.

Lemma omap_segments_NoDup entries : NoDup (de_name <$> entries) -> NoDup (omap entry_segment entries).
Proof.
  induction entries as [|e es IH]; cbn [fmap list_fmap omap list_omap]; [constructor|]. intros [Hn Hnd]%NoDup_cons.
  destruct (entry_segment e) as [s|] eqn:E; [|by apply IH]. apply NoDup_cons. split; [|by apply IH].
  intros (e' & He' & E')%list_elem_of_omap. apply Hn. apply entry_segment_spec in E as [_ E]. apply entry_segment_spec in E' as [_ E'].
  rewrite E, <- E'. by apply list_elem_of_fmap_2.
Qed.

(** Any two orders of the same segments sort to the same list. *)
Lemma merge_sort_segments entries l :
  NoDup (de_name <$> entries) -> l ≡ₚ omap entry_segment entries ->
  merge_sort seg_le l = merge_sort seg_le (omap entry_segment entries).
Proof.
  intros Hnd Hp. apply (StronglySorted_unique_strong seg_le).
  - intros a b. rewrite !merge_sort_Permutation, Hp. unfold seg_le. intros Ha Hb ? ?. eapply segments_by_index; [done..|lia].
  - apply StronglySorted_merge_sort; apply _.
  - apply StronglySorted_merge_sort; apply _.
  - by rewrite !merge_sort_Permutation.
Qed.

Lemma strictly_by_index l :
  StronglySorted seg_le l -> NoDup l -> (forall a b, a ∈ l -> b ∈ l -> seg_index a = seg_index b -> a = b) ->
  StronglySorted (fun a b => seg_index a < seg_index b) l.
Proof.
  induction 1 as [|a l Hs IH Ha]; intros Hnd Hinj; [constructor|]. apply NoDup_cons in Hnd as [Hn Hnd]. constructor.
  - apply IH; [done|]. intros x y Hx Hy. apply Hinj; by constructor.
  - apply Forall_forall. intros b Hb. rewrite Forall_forall in Ha. specialize (Ha b Hb). unfold seg_le in Ha.
    assert (seg_index a <> seg_index b); [|lia]. intros E. apply Hn. by rewrite (Hinj a b ltac:(constructor) ltac:(by constructor) E).
Qed.



(** ** Snapshots *)

#[local] Opaque digest_of.

Definition snapshot_ops (f : Fabric) (covered : Z) (payload : list byte) : list WriteOp :=
  [WU32 kPersistenceFormatVersion; WU32 kSnapshotHeaderBytes; WU64 (Zlen payload); WU64 (fab_generation f);
   WU64 (fab_epoch f); WU64 covered; WU64 0].

(** The first 96 bytes of the header. *)
Definition snapshot_front (f : Fabric) (covered : Z) (payload : list byte) : list byte :=
  kSnapshotMagic ++ encs (snapshot_ops f covered payload) ++ replicate 8 Byte.x00 ++ digest_bytes (digest_of payload).

Lemma snapshot_header_split f covered payload :
  encode_snapshot_header f covered payload
  = snapshot_front f covered payload ++ digest_bytes (digest_of (snapshot_front f covered payload)).
Proof.
  unfold encode_snapshot_header. rewrite writes_fit_new.
  - cbv zeta. unfold snapshot_front. by rewrite <- !(assoc_L (++)).
  - by repeat (apply Forall_cons; split; [done|]).
  - rewrite !encs_cons. cbn [enc]. rewrite !Zlen_app, !Zlen_le_store. vm_compute. discriminate.
Qed.

Lemma snapshot_ops_length f covered payload : Zlen (encs (snapshot_ops f covered payload)) = 48.
Proof. unfold snapshot_ops. rewrite !encs_cons. cbn [enc]. by rewrite !Zlen_app, !Zlen_le_store. Qed.

Lemma snapshot_front_length f covered payload : Zlen (snapshot_front f covered payload) = 96.
Proof.
  unfold snapshot_front. rewrite !Zlen_app, snapshot_ops_length. pose proof (digest_of_32 payload) as H. unfold digest32 in H. by rewrite H.
Qed.

Lemma decodes_snapshot_header f covered payload :
  u64_ok (Zlen payload) -> u64_ok (fab_generation f) -> u64_ok (fab_epoch f) -> u64_ok covered ->
  decodes kDefaultMaxString read_snapshot_header (encs (snapshot_ops f covered payload))
    (kPersistenceFormatVersion, kSnapshotHeaderBytes, Zlen payload, fab_generation f, covered).
Proof.
  intros H1 H2 H3 H4. unfold read_snapshot_header, snapshot_ops.
  assert (u32_ok kPersistenceFormatVersion) by (unfold fits, kPersistenceFormatVersion; lia).
  assert (u32_ok kSnapshotHeaderBytes) by (unfold fits, kSnapshotHeaderBytes; lia). assert (u64_ok 0) by (unfold fits; lia).
  decode_fields.
Qed.

Lemma snapshot_read_written f covered config path :
  deserialize_fabric (serialize_fabric f) default_limits = Value f ->
  u64_ok (fab_generation f) -> u64_ok (fab_epoch f) -> u64_ok covered ->
  Zlen (serialize_fabric f) <= max_snapshot_bytes config -> max_snapshot_bytes config + kSnapshotHeaderBytes < 2 ^ 64 ->
  snapshot_read (FileBytes (encode_snapshot_header f covered (serialize_fabric f) ++ serialize_fabric f)) path config
  = (Value (f, covered), "snapshot verified").
Proof.
  intros Hf Hg He Hc Hlen Hcfg. set (payload := serialize_fabric f) in *. pose proof (Zlen_nonneg payload) as Hp0.
  assert (u64_ok (Zlen payload)) as Hp by (unfold fits, kSnapshotHeaderBytes in *; lia).
  pose proof (snapshot_front_length f covered payload) as H96. rewrite snapshot_header_split.
  pose proof (digest_of_32 (snapshot_front f covered payload)) as D1. unfold digest32 in D1.
  pose proof (digest_of_32 payload) as D2. unfold digest32 in D2.
  set (bytes := (snapshot_front f covered payload ++ digest_bytes (digest_of (snapshot_front f covered payload))) ++ payload).
  assert (Zlen bytes = 128 + Zlen payload) as Hb by (unfold bytes; rewrite !Zlen_app; lia).
  assert (span 0 8 bytes = kSnapshotMagic) as B1
    by (unfold bytes, snapshot_front; rewrite <- !(assoc_L (++)); by apply span_head).
  assert (span 8 56 bytes = encs (snapshot_ops f covered payload) ++ replicate 8 Byte.x00) as B2.
  { unfold bytes. generalize (digest_of (snapshot_front f covered payload)). intros dg. unfold snapshot_front.
    pose proof (snapshot_ops_length f covered payload) as H48. revert H48. generalize (encs (snapshot_ops f covered payload)). intros a H48.
    assert (((kSnapshotMagic ++ a ++ replicate 8 Byte.x00 ++ digest_bytes (digest_of payload)) ++ digest_bytes dg) ++ payload
      = kSnapshotMagic ++ (a ++ replicate 8 Byte.x00) ++ digest_bytes (digest_of payload) ++ digest_bytes dg ++ payload) as ->
      by by rewrite <- !(assoc_L (++)).
    apply span_at; [done|]. rewrite Zlen_app, H48. done. }
  assert (span 64 32 bytes = digest_bytes (digest_of payload)) as B3.
  { unfold bytes. unfold snapshot_front at 1. rewrite <- !(assoc_L (++)). rewrite 3!span_skip_le; rewrite ?snapshot_ops_length;
      [|done..]. by apply span_head. }
  assert (span 0 96 bytes = snapshot_front f covered payload) as B4 by (unfold bytes; rewrite <- (assoc_L (++)); by apply span_head).
  assert (span 96 32 bytes = digest_bytes (digest_of (snapshot_front f covered payload))) as B5
    by (unfold bytes; rewrite <- (assoc_L (++)); by apply span_at).
  assert (span 128 (Zlen payload) bytes = payload) as B6.
  { unfold bytes. pose proof (span_at (snapshot_front f covered payload ++ digest_bytes (digest_of (snapshot_front f covered payload)))
      payload [] 128 (Zlen payload)) as H. rewrite app_nil_r in H. apply H; [rewrite Zlen_app; lia|done]. }
  clearbody bytes. unfold snapshot_read, read_file_bounded. cbv zeta. unfold kSnapshotHeaderBytes in *.
  rewrite wrap_small by (unfold fits; lia). rewrite take_ge by (unfold Zlen in *; destruct (Z.ltb_spec (Z.of_nat (length bytes)) (max_snapshot_bytes config + 128)); lia).
  rewrite Hb. destruct (Z.ltb_spec (128 + Zlen payload) 128); [lia|]. rewrite B1, B2, B3, B4, B5, !MkDigest_eta.
  rewrite !bool_decide_true by done. cbn [negb].
  unfold new_reader. rewrite (decodes_snapshot_header f covered payload Hp Hg He Hc). cbn [fst].
  rewrite !Z.eqb_refl. cbn [negb]. destruct (Z.gtb_spec (Zlen payload) (max_snapshot_bytes config)); [lia|].
  rewrite wrap_small by (unfold fits; lia). rewrite Z.eqb_refl. cbn [negb]. rewrite B6, bool_decide_true, Hf by done. cbn [negb].
  by rewrite Z.eqb_refl.
Qed.

Lemma write_all_ok short l st b : write_all short l = (st, b) -> status_ok st = true -> b = l.
Proof. unfold write_all. destruct short as [k|]; [destruct (k <? _)%nat|]; intros; by simplify_eq. Qed.


