(* ===== verification/Durability.v ===== *)
(** * Durability of the journal (src/store.cpp)

    The open segment refines an abstract log. Every append that reports success adds
    its entry to the log; an append that fails leaves the log as it was, perhaps with a
    torn record at the end of the file and the segment poisoned. Whatever prefix of the
    file survives a crash, recovery returns the acknowledged entries. *)
From S2P Require Import Prelude Status Checked Identity Bytes Digest Capacity Model Builder BuilderSpec Sample Freeze Codec CodecSpec Topology Eligibility Governance Store StoreDir StoreSpec.

#[local] Strategy 10000 [sha_finish update_span sha256 le_store].
#[local] Opaque encode_journal_header digest_of digest_of_two record_front.

(** ** The refinement relation *)

Section Segment.
Context (config : StoreConfig) (inc : ControllerIncarnation) (segment created first : Z).

Definition log_start : Digest := digest_of (encode_journal_header inc segment created first).
Definition log_chain (es : list Entry) : Digest := chain_of log_start first es.

(** The bytes of the entry that would follow the log. *)
Definition next_bytes (es : list Entry) (e : Entry) : list byte := entry_bytes (log_chain es) (first + Zlen es) e.

(** What may follow the last whole record of the file: a prefix of one more record. *)
Definition torn (es : list Entry) (tail : list byte) : Prop :=
  tail = []
  \/ exists e k, entry_ok config e /\ Zlen es < max_records_per_segment config /\ tail = take k (next_bytes es e).

Record represents (s : FabricStore) (es : list Entry) (tail : list byte) : Prop := {
  rp_open : fs_open s = true;
  rp_closed : fs_closed s = false;
  rp_config : fs_config s = config;
  rp_bytes : fs_bytes s = journal_file inc segment created first es ++ tail;
  rp_chain : fs_chain s = log_chain es;
  rp_last : fs_last_sequence s = first - 1 + Zlen es;
  rp_first : fs_first_sequence s = first;
  rp_records : fs_records s = Zlen es;
  rp_entries : Forall (entry_ok config) es;
  rp_bound : Zlen es <= max_records_per_segment config;
  rp_torn : torn es tail;
  rp_poisoned : tail <> [] -> fs_poisoned s = true;
  rp_segment : fs_segment s = segment
}.

(** A configuration under which the counters of a segment cannot wrap and every record
    the writer accepts is one the reader accepts. *)
Record segment_ok : Prop := {
  so_header : header_ok inc segment created first;
  so_record : max_record_bytes config <= u32_max;
  so_count : 0 <= max_records_per_segment config <= kReplayBound;
  so_sequence : first + max_records_per_segment config < 2 ^ 64
}.

(** The fields of a state that was built in place. *)
Ltac store_fields :=
  split; cbn [fs_open fs_bytes fs_config fs_incarnation fs_segment fs_last_sequence fs_first_sequence fs_chain fs_records
    fs_closed fs_sync_failures fs_poisoned with_flags with_file];
  lazymatch goal with |- context [journal_file] => idtac | |- context [log_chain] => idtac
  | |- context [wrap] => idtac | |- context [torn] => idtac | _ => try first [assumption | reflexivity | tauto] end.

Lemma torn_nil es : torn es [].
Proof. by left. Qed.

Lemma create_represents path mkdir present opens short sync s left :
  max_records_per_segment config >= 0 -> first <> 0 ->
  create_store path mkdir present opens short sync created config inc segment first = (Value s, left) ->
  represents s [] [] /\ fs_segment s = segment /\ fs_poisoned s = false.
Proof.
  intros Hmax Hf. unfold create_store. destruct (inc_is_zero inc); [done|]. destruct mkdir; [done|].
  destruct present; [done|]. destruct opens; [|done]. cbn [negb].
  destruct (write_all short (encode_journal_header inc segment created first)) as [st b] eqn:E.
  assert (status_ok st = true -> b = encode_journal_header inc segment created first) as Hb.
  { unfold write_all in E. destruct short as [k|]; [destruct (k <? _)%nat|]; intros; by simplify_eq. }
  destruct (status_ok st); [|done]. cbn [negb]. destruct (status_ok sync); [|done]. cbn [negb]. intros [= <- <-].
  rewrite (proj2 (Z.eqb_neq _ _) Hf), (Hb eq_refl). split; [|done]. store_fields.
  - unfold journal_file. cbn [journal_of]. by rewrite !app_nil_r.
  - done.
  - rewrite Zlen_nil. lia.
  - constructor.
  - rewrite Zlen_nil. lia.
  - by left.
Qed.

(** What a partial write leaves is a prefix of what was to be written. *)
Lemma write_all_spec short l :
  let r := write_all short l in
  (status_ok r.1 = true /\ r.2 = l) \/ (status_ok r.1 = false /\ exists k, (k <= List.length l)%nat /\ r.2 = take k l).
Proof.
  unfold write_all. destruct short as [k|]; [|by left]. destruct (k <? List.length l)%nat eqn:E; [|by left].
  right. split; [done|]. exists k. apply Nat.ltb_lt in E. split; [lia|done].
Qed.

Lemma represents_file s es tail bytes p :
  represents s es [] -> torn es bytes -> tail = bytes ->
  represents (with_flags (fs_closed s) p true (with_file (fs_bytes s ++ bytes) s)) es tail.
Proof.
  intros [H1 H2 H3 H4 H5 H6 H7 H8 H9 H10 H11 H12 H13] Ht ->. store_fields.
  - by rewrite H4, app_nil_r.
  - exact H5.
  - exact Ht.
Qed.

Definition entry_of (type : RecordType) (payload : list byte) (epoch generation : Z) : Entry :=
  MkEntry type payload epoch generation.

Lemma append_represents io type payload w epoch generation s es tail :
  segment_ok -> u64_ok epoch -> u64_ok generation -> represents s es tail ->
  let r := append io type payload w epoch generation s in
  if status_ok r.1 then represents r.2 (es ++ [MkEntry type payload epoch generation]) []
  else exists tail', represents r.2 es tail' /\ (tail' = tail \/ tail = []).
Proof.
  intros [Hh Hr [Hn0 Hn] Hq] He Hg Hrep. cbv zeta. pose proof Hrep as [H1 H2 H3 H4 H5 H6 H7 H8 H9 H10 H11 H12 H13].
  assert (exists tail', represents s es tail' /\ (tail' = tail \/ tail = [])) as Hsame
    by (eexists; split; [exact Hrep|by left]). unfold append.
  destruct (inc_is_zero w); [done|]. rewrite H2, H3. destruct (Z.gtb_spec (Zlen payload) (max_record_bytes config)) as [|Hp]; [done|].
  destruct (fs_poisoned s) eqn:Epois; [done|]. rewrite H8.
  destruct (Z.leb_spec (max_records_per_segment config) (Zlen es)) as [|Hroom]; [done|].
  assert (tail = []) as -> by (destruct tail; [done|]; by specialize (H12 ltac:(done))).
  destruct Hh as [_ _ _ _ [[Hf _] Hf0]]. pose proof (Zlen_nonneg es) as Hes.
  assert (checked_add (fs_last_sequence s) 1 = Some (first + Zlen es)) as ->
    by (rewrite H6; apply checked_add_spec; unfold fits; lia).
  set (e := MkEntry type payload epoch generation).
  assert (entry_ok config e) as Hok by (split; [split; simpl; lia|done|done]).
  rewrite H5. change (record_front (first + Zlen es) type (Zlen payload) generation epoch (log_chain es))
    with (entry_front (log_chain es) (first + Zlen es) e).
  change (digest_of_two (entry_front (log_chain es) (first + Zlen es) e) payload) with (entry_digest (log_chain es) (first + Zlen es) e).
  set (front := entry_front (log_chain es) (first + Zlen es) e ++ digest_bytes (entry_digest (log_chain es) (first + Zlen es) e)).
  assert (next_bytes es e = front ++ payload) as Hnb by (unfold next_bytes, entry_bytes, front; by rewrite <- (assoc_L (++))).
  destruct (write_all_spec (io_header io) front) as [[W1 W2]|(W1 & k & Hk & W2)];
    destruct (write_all (io_header io) front) as [st b]; cbn [fst snd] in *; subst b; cbv beta iota zeta; rewrite W1; cbn [negb fst snd].
  2:{ rewrite W1. eexists. split; [|by right]. apply (represents_file s es _ (take k front) (fs_sync_failures s)); [done| |done].
      right. exists e, k. split_and!; [done..|]. rewrite Hnb, take_app_le by lia. done. }
  destruct (write_all_spec (io_payload io) payload) as [[P1 P2]|(P1 & k & Hk & P2)];
    destruct (write_all (io_payload io) payload) as [st' b']; cbn [fst snd] in *; subst b'; cbv beta iota zeta; rewrite P1; cbn [negb fst snd].
  2:{ rewrite P1. eexists. split; [|by right]. cbn [with_file fs_bytes]. rewrite <- (assoc_L (++)).
      apply (represents_file s es _ (front ++ take k payload) (fs_sync_failures s)); [done| |done].
      right. exists e, (List.length front + k)%nat. split_and!; [done..|]. by rewrite Hnb, take_app_add. }
  cbn [with_file fs_bytes]. rewrite <- (assoc_L (++)), <- Hnb.
  assert (torn es (next_bytes es e)) as Htorn by (right; exists e, (List.length (next_bytes es e)); split_and!; [done..|]; by rewrite take_ge).
  unfold sync_locked. cbn [with_file fs_open fs_config]. rewrite H1, H3. cbn [negb].
  destruct (flush_ok (io_sync io)); cbn [negb];
    [|eexists; split; [|by right]; by apply (represents_file s es _ (next_bytes es e) true)].
  assert (represents (MkStore (fs_open s) (fs_bytes s ++ next_bytes es e) (fs_config s) (fs_incarnation s) (fs_segment s)
     (first + Zlen es) (fs_first_sequence s) (entry_digest (log_chain es) (first + Zlen es) e)
     (wrap 64 (fs_records s + 1)) (fs_closed s) (fs_sync_failures s) (fs_poisoned s)) (es ++ [e]) []) as Hdone.
  { assert (Zlen (es ++ [e]) = Zlen es + 1) as Hl by (rewrite Zlen_app; done).
    store_fields; rewrite ?Hl.
    - rewrite H4, !app_nil_r. unfold journal_file. rewrite journal_of_app. cbn [journal_of]. by rewrite app_nil_r, <- (assoc_L (++)).
    - unfold log_chain. rewrite chain_of_app. done.
    - lia.
    - rewrite H8. apply wrap_small. unfold fits. lia.
    - apply Forall_app. by split; [|constructor].
    - lia.
    - by left. }
  destruct (sync_on_commit config); cbn [negb]; [|exact Hdone].
  destruct (status_ok (sync_status (io_sync io))) eqn:Es; cbv beta iota; rewrite ?Es; cbn [negb fst snd]; [exact Hdone|].
  rewrite ?Es. eexists. split; [|by right]. by apply (represents_file s es _ (next_bytes es e) true).
Qed.

(** ** Runs of operations *)

(** One call on an open segment, with the operating system's answers. *)
Inductive StoreOp :=
| OpAppend (io : AppendIo) (type : RecordType) (payload : list byte) (w : ControllerIncarnation) (epoch generation : Z)
| OpMarker (io : AppendIo) (text : string) (w : ControllerIncarnation) (epoch generation : Z)
| OpFabric (io : AppendIo) (f : Fabric) (w : ControllerIncarnation) (epoch : Z)
| OpCommand (io : AppendIo) (c : Command) (r : CommandResult) (w : ControllerIncarnation) (epoch : Z)
| OpSync (io : SyncIo).

Definition store_op (op : StoreOp) (s : FabricStore) : Status * FabricStore :=
  match op with
  | OpAppend io type payload w epoch generation => append io type payload w epoch generation s
  | OpMarker io text w epoch generation => append_marker io text w epoch generation s
  | OpFabric io f w epoch => append_fabric io f w epoch s
  | OpCommand io c r w epoch => append_command io c r w epoch s
  | OpSync io => sync_store io s
  end.

(** The entry an operation adds to the log when it succeeds. *)
Definition op_entry (op : StoreOp) : list Entry :=
  match op with
  | OpAppend _ type payload _ epoch generation => [MkEntry type payload epoch generation]
  | OpMarker _ text _ epoch generation =>
      [MkEntry RT_Marker (buffer (write_string (new_writer 4096) text).2) epoch generation]
  | OpFabric _ f _ epoch => [MkEntry RT_FabricSnapshot (serialize_fabric f) epoch (fab_generation f)]
  | OpCommand _ c r _ epoch =>
      let bound := if max_record_bytes config <? 65536 then 65536 else max_record_bytes config in
      [MkEntry RT_CommandCommit
         (buffer (write_block (write_block (new_writer bound) (serialize_command c)).2 (serialize_command_result r)).2)
         epoch (res_generation r)]
  | OpSync _ => []
  end.

Definition op_numbers_ok (op : StoreOp) : Prop := Forall (fun e => u64_ok (e_epoch e) /\ u64_ok (e_generation e)) (op_entry op).

(** The entries acknowledged by a run, and the state it ends in. *)
Fixpoint run_store (ops : list StoreOp) (s : FabricStore) : list Entry * FabricStore :=
  match ops with
  | [] => ([], s)
  | op :: ops' =>
      let '(st, s) := store_op op s in
      let '(acked, s) := run_store ops' s in
      ((if status_ok st then op_entry op else []) ++ acked, s)
  end.

Lemma sync_represents io s es tail : represents s es tail -> represents (sync_store io s).2 es tail.
Proof.
  intros Hrep. pose proof Hrep as [H1 H2 H3 H4 H5 H6 H7 H8 H9 H10 H11 H12 H13].
  assert (represents (note_sync_failure s) es tail) as Hn by (store_fields; done).
  unfold sync_store, sync_locked. rewrite H1. cbn [negb]. destruct (flush_ok io); [|exact Hn]. cbn [negb].
  destruct (sync_on_commit _); [|exact Hrep]. cbn [negb snd]. by destruct (status_ok _).
Qed.

Lemma op_represents op s es tail :
  segment_ok -> op_numbers_ok op -> represents s es tail ->
  let r := store_op op s in
  if status_ok r.1 then exists tail', represents r.2 (es ++ op_entry op) tail' else exists tail', represents r.2 es tail'.
Proof.
  intros Hok Hnum Hrep. cbv zeta. unfold op_numbers_ok in Hnum.
  assert (exists tail', represents s es tail') as Hsame by eauto.
  assert (forall io type payload w epoch generation,
    Forall (fun e => u64_ok (e_epoch e) /\ u64_ok (e_generation e)) [MkEntry type payload epoch generation] ->
    let r := append io type payload w epoch generation s in
    if status_ok r.1 then exists tail', represents r.2 (es ++ [MkEntry type payload epoch generation]) tail'
    else exists tail', represents r.2 es tail') as Happ.
  { intros io type payload w epoch generation [[He Hg] _]%Forall_cons. cbv zeta.
    pose proof (append_represents io type payload w epoch generation s es tail Hok He Hg Hrep) as H. cbv zeta in H.
    destruct (status_ok _); [by eexists|]. destruct H as (t & H & _). by eexists. }
  destruct op as [io type payload w epoch generation|io text w epoch generation|io f w epoch|io c r w epoch|io];
    cbn [store_op op_entry] in *.
  - by apply Happ.
  - unfold append_marker. destruct (write_string (new_writer 4096) text) as [st wr]. cbn [snd] in *.
    destruct (status_ok st) eqn:E; cbn [negb fst snd]; [by apply Happ|by rewrite E].
  - unfold append_fabric. destruct (Z.gtb_spec (Zlen (serialize_fabric f)) (max_record_bytes (fs_config s))); [done|]. by apply Happ.
  - unfold append_command. destruct Hrep as [_ _ -> _ _ _ _ _ _ _ _ _].
    set (bound := if max_record_bytes config <? 65536 then 65536 else max_record_bytes config) in *.
    destruct (write_block (new_writer bound) (serialize_command c)) as [st wr]. cbn [snd] in *.
    destruct (status_ok st) eqn:E; cbn [negb fst snd]; [|by rewrite E].
    destruct (write_block wr (serialize_command_result r)) as [st' wr']. cbn [snd] in *.
    destruct (status_ok st') eqn:E'; cbn [negb fst snd]; [by apply Happ|by rewrite E'].
  - rewrite app_nil_r. destruct (status_ok _); eexists; by apply sync_represents.
Qed.

(** Simulation over a whole run. *)
Lemma run_represents ops s es tail :
  segment_ok -> Forall op_numbers_ok ops -> represents s es tail ->
  exists tail', represents (run_store ops s).2 (es ++ (run_store ops s).1) tail'.
Proof.
  intros Hok. revert s es tail. induction ops as [|op ops IH]; intros s es tail Hn Hrep; cbn [run_store].
  { exists tail. by rewrite app_nil_r. }
  apply Forall_cons in Hn as [Hop Hn]. pose proof (op_represents op s es tail Hok Hop Hrep) as H. cbv zeta in H.
  destruct (store_op op s) as [st s1]. cbn [fst snd] in H.
  assert (exists tail', represents s1 (es ++ (if status_ok st then op_entry op else [])) tail') as [t1 H1]
    by (destruct (status_ok st); rewrite ?app_nil_r; done).
  destruct (IH s1 _ t1 Hn H1) as [t2 H2]. exists t2. destruct (run_store ops s1) as [acked s2]. cbn [fst snd] in *.
  by rewrite (assoc_L (++)).
Qed.

(** ** Recovering what a run left behind *)

Lemma journal_file_app es es' :
  journal_file inc segment created first (es ++ es')
  = journal_file inc segment created first es ++ journal_of (log_chain es) (first + Zlen es) es'.
Proof. unfold journal_file. by rewrite journal_of_app, (assoc_L (++)). Qed.

Lemma journal_file_ge es : (128 <= List.length (journal_file inc segment created first es))%nat.
Proof.
  unfold journal_file. rewrite length_app. pose proof (encode_header_length inc segment created first) as H.
  unfold Zlen in H. lia.
Qed.

Lemma journal_file_mono es (i : nat) :
  (List.length (journal_file inc segment created first (take i es)) <= List.length (journal_file inc segment created first es))%nat.
Proof. rewrite <- (take_drop i es) at 2. rewrite journal_file_app, length_app. lia. Qed.

(** A represented state is a prefix of a readable log with at most one more entry. *)
Lemma represents_prefix s es tail :
  segment_ok -> represents s es tail ->
  exists more, (List.length more <= 1)%nat /\ log_ok config inc segment created first (es ++ more)
    /\ fs_bytes s = take (List.length (fs_bytes s)) (journal_file inc segment created first (es ++ more))
    /\ (List.length (fs_bytes s) <= List.length (journal_file inc segment created first (es ++ more)))%nat.
Proof.
  intros [Hh Hr [Hn0 Hn] Hq] [H1 H2 H3 H4 H5 H6 H7 H8 H9 H10 H11 H12 H13].
  destruct H11 as [->|(e & k & He & Hroom & ->)].
  - exists []. rewrite app_nil_r in *. rewrite H4. split_and!; [cbn; lia| |by rewrite take_ge|done].
    split; [done|done|lia|lia].
  - exists [e]. rewrite H4, journal_file_app. cbn [journal_of]. rewrite app_nil_r. fold (next_bytes es e).
    split_and!.
    + done.
    + split; [done|by apply Forall_app; split; [|constructor]|rewrite Zlen_app; change (Zlen [e]) with 1; lia..].
    + rewrite length_app, take_app_add, length_take. f_equal.
      rewrite <- (firstn_all (next_bytes es e)) at 1. by rewrite take_take.
    + rewrite !length_app, length_take. lia.
Qed.

Lemma recover_run path s es tail (k : nat) :
  segment_ok -> represents s es tail ->
  (List.length (journal_file inc segment created first es) <= k <= List.length (fs_bytes s))%nat ->
  Z.of_nat k <= max_recovery_bytes config < 2 ^ 64 ->
  exists more, (List.length more <= 1)%nat /\
    let r := recover_journal (FileBytes (take k (fs_bytes s))) path config (Some []) in
    usable r.1 = true /\ r.2 = Some (log_records inc segment created first (es ++ more)).
Proof.
  intros Hok Hrep Hk Hmax. destruct (represents_prefix s es tail Hok Hrep) as (m & Hm & Hlog & Hb & Hle).
  rewrite Hb, take_take, Nat.min_l by lia. pose proof (journal_file_ge es) as Hge.
  destruct (recover_prefix config path inc segment created first (es ++ m) k Hlog ltac:(lia) Hmax)
    as (j & E & Hu & _ & _ & Hnext & _). cbv zeta in *.
  assert (List.length es <= j)%nat as Hj.
  { destruct (decide (List.length es <= j)%nat) as [|Hlt]; [done|]. rewrite length_app in Hnext. specialize (Hnext ltac:(lia)).
    rewrite take_app_le in Hnext by lia. pose proof (journal_file_mono es (S j)). lia. }
  exists (take (j - List.length es) m). split; [rewrite length_take; lia|]. split; [exact Hu|].
  rewrite E. unfold log_records. rewrite <- records_of_take, take_app, take_ge by lia. done.
Qed.
End Segment.


(** ** Clean shutdown *)

Lemma trailer_front_length records last_sequence first_sequence chain :
  digest32 chain -> Zlen (trailer_front records last_sequence first_sequence chain) = 64.
Proof.
  intros Hc. unfold trailer_front. rewrite writes_fit_new.
  - unfold Zlen in *. rewrite length_take, length_app, !encs_cons. cbn [enc]. rewrite !length_app, !le_store_length.
    change (List.length kTrailerMagic) with 8%nat. unfold digest32, Zlen in Hc. lia.
  - by repeat (apply Forall_cons; split; [done|]).
  - rewrite !encs_cons. cbn [enc]. rewrite !Zlen_app, !Zlen_le_store, Hc. vm_compute. discriminate.
Qed.

Lemma trailer_front_magic records last_sequence first_sequence chain :
  exists l, trailer_front records last_sequence first_sequence chain = kTrailerMagic ++ l.
Proof. unfold trailer_front. rewrite take_app, (take_ge kTrailerMagic) by (vm_compute; lia). by eexists. Qed.

Lemma scan_step_trailer config inc off records last_sequence first_sequence chain expected out rep :
  digest32 chain ->
  scan_step config inc (MkScanState off (encode_trailer records last_sequence first_sequence chain) chain expected out rep)
  = Stop (report_stop RS_Clean SC_Ok "journal verified: header, record chain, and clean-shutdown trailer" 0 rep).
Proof.
  intros Hc. pose proof (trailer_front_length records last_sequence first_sequence chain Hc) as H64.
  destruct (trailer_front_magic records last_sequence first_sequence chain) as [l Hl].
  unfold encode_trailer. set (front := trailer_front _ _ _ _) in *. pose proof (digest_of_32 front) as H32. unfold digest32 in H32.
  assert (Zlen (front ++ digest_bytes (digest_of front)) = 96) as Hlen by (rewrite Zlen_app; lia).
  unfold scan_step, scan_trailer. cbn [sc_rest sc_report]. unfold kTrailerBytes. rewrite Hlen. cbn [Z.ltb Z.compare Z.eqb].
  assert (forall x, span 0 8 (front ++ x) = kTrailerMagic) as Hm
    by (intros x; rewrite Hl, <- (assoc_L (++)); by apply span_head).
  rewrite (bool_decide_true _ (Hm _)).
  assert (forall x, Zlen x = 32 -> span 64 32 (front ++ x) = x) as Hx
    by (intros x Hx; rewrite <- (app_nil_r x) at 1; by apply span_at).
  change (96 - 32) with 64. rewrite (span_head front), Hx by done. rewrite MkDigest_eta, bool_decide_true by done. done.
Qed.

Lemma report_after_last chain seq es rep E :
  es <> [] -> Forall (fun e => e_epoch e = E) es -> rr_last_epoch (report_after chain seq es rep) = E.
Proof.
  revert chain seq rep. induction es as [|e es IH]; intros chain seq rep Hne Hall; [done|]. apply Forall_cons in Hall as [He Hall].
  cbn [report_after]. destruct es as [|e' es]; [exact He|]. by apply IH.
Qed.

Lemma recover_closed config path inc segment created first es records last_sequence :
  log_ok config inc segment created first es ->
  let file := journal_file inc segment created first es
              ++ encode_trailer records last_sequence first (log_chain inc segment created first es) in
  Zlen file <= max_recovery_bytes config ->
  let r := recover_journal (FileBytes file) path config (Some []) in
  (rr_status r.1 = RS_Clean /\ rr_records_valid r.1 = Zlen es /\ rr_bytes_dropped r.1 = 0
   /\ r.2 = Some (log_records inc segment created first es))
  /\ forall E, es <> [] -> Forall (fun e => e_epoch e = E) es -> rr_last_epoch r.1 = E.
Proof.
  intros [Hh He Hn Hs] file Hmax. subst file. unfold log_chain, log_start, journal_file, log_records in *. cbv zeta in *.
  pose proof (encode_header_length inc segment created first) as H128.
  pose proof (fun rest => recover_journal_scan config path inc segment created first rest (Some []) Hh) as Hscan.
  destruct Hh as [? ? ? ? [Hf Hf0]]. unfold fits in Hf. rewrite <- (assoc_L (++)) in *. cbv zeta in Hscan.
  revert H128 Hmax Hscan. generalize (encode_journal_header inc segment created first). intros header H128 Hmax Hscan.
  pose proof (digest_of_32 header) as Hd. pose proof (chain_of_32 _ first es Hd) as Hc32. pose proof (Zlen_nonneg es).
  destruct (Hscan _ Hmax) as (-> & R2 & R3 & R4 & _ & R6). rewrite R2, R3, R4, R6. clear R2 R3 R4 R6 Hscan.
  match goal with |- context [scan_loop ?fu _ _ (MkScanState ?o _ _ _ _ ?st)] => set (fuel := fu); set (start := st) end.
  assert (List.length es < fuel)%nat as Hfuel.
  { subst fuel. rewrite !length_app. pose proof (journal_length_ge (digest_of header) first es Hd). unfold Zlen in H128. lia. }
  replace fuel with (List.length es + S (fuel - List.length es - 1))%nat by lia.
  destruct (scan_records_app config inc (S (fuel - List.length es - 1)) kHeaderBytes (digest_of header) first [] start es
    (encode_trailer records last_sequence first (chain_of (digest_of header) first es))) as [off' ->];
    [done|lia|lia|done|rewrite Zlen_nil; lia|].
  cbn [scan_loop sc_rest app]. destruct (bool_decide_reflect (encode_trailer records last_sequence first (chain_of (digest_of header) first es) = [])) as [E|_].
  { apply (f_equal Zlen) in E. unfold encode_trailer in E. rewrite Zlen_app, trailer_front_length, Zlen_nil in E by done.
    pose proof (Zlen_nonneg (digest_bytes (digest_of (trailer_front records last_sequence first (chain_of (digest_of header) first es))))). lia. }
  rewrite scan_step_trailer by done. cbn [fst snd report_stop rr_status rr_records_valid rr_bytes_dropped rr_last_epoch sc_out].
  split; [|intros E Hne Hall; by apply report_after_last].
  destruct (report_after_status (digest_of header) first es start) as [_ Rv].
  rewrite Rv; [|done|subst start; cbn [rr_records_valid]; lia].
  assert (forall l chain seq rep, rr_bytes_dropped (report_after chain seq l rep) = rr_bytes_dropped rep) as Rd
    by (induction l as [|e l IH]; intros chain seq rep; [done|exact (IH _ _ (report_record _ _ _ _ rep))]).
  rewrite Rd. subst start. cbn [rr_records_valid rr_bytes_dropped]. split_and!; [done|lia|done|done].
Qed.

(** A journal that was not closed: every record, and no trailer. *)
Definition start_report (inc : ControllerIncarnation) (file : list byte) (chain : Digest) : RecoveryReport :=
  MkRecovery RS_CrashWithoutTrailer SC_Ok "records verified, no clean-shutdown trailer" true false false false 0 0 (Zlen file) 0
    false false 0 0 inc chain.

Lemma recover_whole config path inc segment created first es :
  log_ok config inc segment created first es ->
  Zlen (journal_file inc segment created first es) <= max_recovery_bytes config ->
  recover_journal (FileBytes (journal_file inc segment created first es)) path config (Some [])
  = (report_after (log_start inc segment created first) first es
       (start_report inc (journal_file inc segment created first es) (log_start inc segment created first)),
     Some (log_records inc segment created first es)).
Proof.
  intros [Hh He Hn Hs] Hmax. unfold log_start, journal_file, log_records, start_report in *. cbv zeta in *.
  pose proof (encode_header_length inc segment created first) as H128.
  pose proof (fun rest => recover_journal_scan config path inc segment created first rest (Some []) Hh) as Hscan.
  destruct Hh as [? ? ? ? [Hf Hf0]]. unfold fits in Hf. cbv zeta in Hscan.
  revert H128 Hmax Hscan. generalize (encode_journal_header inc segment created first). intros header H128 Hmax Hscan.
  pose proof (digest_of_32 header) as Hd. pose proof (Zlen_nonneg es).
  destruct (Hscan _ Hmax) as (R1 & R2 & _ & _ & R5 & _). clear Hscan.
  match type of R1 with _ = (scan_loop ?fu _ _ (MkScanState ?o _ _ _ _ ?st)).2 => set (fuel := fu) in *; set (start := st) in * end.
  assert (List.length es < fuel)%nat as Hfuel.
  { subst fuel. rewrite !length_app. pose proof (journal_length_ge (digest_of header) first es Hd). unfold Zlen in H128. lia. }
  assert (scan_loop fuel config inc (MkScanState kHeaderBytes (journal_of (digest_of header) first es) (digest_of header) first (Some []) start)
    = (report_after (digest_of header) first es start, Some (records_of inc (digest_of header) first es))) as Eloop.
  { replace fuel with (List.length es + S (fuel - List.length es - 1))%nat by lia.
    destruct (scan_records_app config inc (S (fuel - List.length es - 1)) kHeaderBytes (digest_of header) first [] start es []) as [off' Eo];
      [done|lia|lia|done|rewrite Zlen_nil; lia|]. rewrite app_nil_r in Eo. rewrite Eo. done. }
  rewrite Eloop in *. cbn [fst snd] in *.
  rewrite (surjective_pairing (recover_journal _ _ _ _)), R1, R5; [done|].
  destruct (report_after_status (digest_of header) first es start) as [-> _]. done.
Qed.


(** ** A segment, end to end *)

Module SampleLog.
Definition inc : ControllerIncarnation := MkInc 5 9.
Definition opened : Outcome FabricStore * option (list byte) :=
  create_store "j" None false true None success 1000 default_store_config inc 1 1.
Definition store : FabricStore :=
  match opened.1 with Value s => s | Failure _ => MkStore false [] default_store_config inc 0 0 0 zero_digest 0 true false false end.
(** Two markers, a sync, then an append whose header is cut after twenty bytes. *)
Definition ops : list StoreOp :=
  [OpMarker io_fine "first" inc 7 3; OpSync sync_fine; OpMarker io_fine "second" inc 7 3].
Definition torn_op : StoreOp := OpMarker (MkAppendIo (Some 20%nat) None sync_fine) "third" inc 7 3.
Definition entries : list Entry :=
  [MkEntry RT_Marker (buffer (write_string (new_writer 4096) "first").2) 7 3;
   MkEntry RT_Marker (buffer (write_string (new_writer 4096) "second").2) 7 3].
End SampleLog.

Lemma sample_segment_ok : segment_ok default_store_config SampleLog.inc 1 1000 1.
Proof. split; [split; unfold fits; simpl; lia|vm_compute; discriminate|vm_compute; split; discriminate|vm_compute; reflexivity]. Qed.

Lemma sample_log_ok : log_ok default_store_config SampleLog.inc 1 1000 1 SampleLog.entries.
Proof.
  split; [apply sample_segment_ok| |vm_compute; discriminate|vm_compute; reflexivity].
  repeat constructor; vm_compute; discriminate || reflexivity.
Qed.

Lemma recover_any_prefix_witness :
  exists j : nat,
    (recover_journal (FileBytes (take 300 (journal_file SampleLog.inc 1 1000 1 SampleLog.entries))) "j"
       default_store_config (Some [])).2
    = Some (take j (log_records SampleLog.inc 1 1000 1 SampleLog.entries)).
Proof.
  destruct (recover_any_prefix default_store_config "j" SampleLog.inc 1 1000 1 SampleLog.entries 300) as (j & H & _).
  - exact sample_log_ok.
  - vm_compute. lia.
  - vm_compute. split; [discriminate|reflexivity].
  - exists j. exact H.
Defined.



(** Closing a poisoned segment writes the trailer after the torn record, and the journal
    that was recoverable before the close is corrupt after it. *)
Lemma poisoned_close_corrupts :
  let s := (run_store default_store_config (SampleLog.ops ++ [SampleLog.torn_op]) SampleLog.store).2 in
  let closed := (close_clean None success s).2 in
  let before := (recover_journal (FileBytes (fs_bytes s)) "j" default_store_config (Some [])).1 in
  let after := (recover_journal (FileBytes (fs_bytes closed)) "j" default_store_config (Some [])).1 in
  fs_poisoned s = true /\ usable before = true /\ rr_status before = RS_TruncatedTail
  /\ usable after = false /\ rr_status after = RS_Corrupt.
Proof. vm_compute. done. Qed.
