(* ===== verification/ScanSpec.v ===== *)
(** * What recovery accepts (src/store.cpp, recover_journal)

    The scan of a journal ends on any file, and whatever the file holds, every record it
    accepts is in range, belongs to the segment's incarnation, and continues the sequence
    and the hash chain of the record before it. *)
From S2P Require Import Prelude Status Checked Identity Bytes Digest Capacity Model Builder BuilderSpec Sample Freeze Codec CodecSpec Topology Eligibility Governance Store StoreDir StoreSpec Durability.

#[local] Strategy 10000 [sha_finish update_span sha256 le_store].

(** ** Loads *)

Lemma le_load_nonneg sh bs : 0 <= sh -> 0 <= le_load sh bs.
Proof.
  revert sh. induction bs as [|b bs IH]; intros sh Hsh; cbn [le_load]; [done|]. apply Z.lor_nonneg. split; [|apply IH; lia].
  apply Z.shiftl_nonneg. apply Z_of_byte_range.
Qed.

Lemma le_load_high sh bs k : 0 <= sh -> sh + 8 * Zlen bs <= k -> Z.testbit (le_load sh bs) k = false.
Proof.
  revert sh. induction bs as [|b bs IH]; intros sh Hsh Hk; cbn [le_load]; [apply Z.bits_0|].
  rewrite Zlen_cons in Hk. pose proof (Zlen_nonneg bs). rewrite Z.lor_spec, Z.shiftl_spec, IH by lia.
  rewrite byte_testbit by lia. done.
Qed.

Lemma le_load_bound bs : 0 <= le_load 0 bs < 2 ^ (8 * Zlen bs).
Proof.
  pose proof (le_load_nonneg 0 bs ltac:(lia)) as H0. split; [exact H0|]. pose proof (Zlen_nonneg bs).
  assert (le_load 0 bs = le_load 0 bs mod 2 ^ (8 * Zlen bs)) as ->; [|apply Z.mod_pos_bound; lia].
  apply Z.bits_inj'. intros k Hk. destruct (Z.ltb_spec k (8 * Zlen bs)).
  - by rewrite Z.mod_pow2_bits_low by lia.
  - rewrite Z.mod_pow2_bits_high by lia. apply le_load_high; lia.
Qed.

Lemma Zlen_span from count l : 0 <= count -> Zlen (span from count l) <= count.
Proof. intros H. unfold span, Zlen. rewrite length_take. lia. Qed.

Lemma load_u32_ok l k : u32_ok (load_u32 l k).
Proof.
  unfold load_u32. pose proof (le_load_bound (span k 4 l)) as H. pose proof (Zlen_span k 4 l ltac:(lia)) as Hl.
  pose proof (Z.pow_le_mono_r 2 (8 * Zlen (span k 4 l)) 32). unfold fits. lia.
Qed.

Lemma load_u64_ok l k : u64_ok (load_u64 l k).
Proof.
  unfold load_u64. pose proof (le_load_bound (span k 8 l)) as H. pose proof (Zlen_span k 8 l ltac:(lia)) as Hl.
  pose proof (Z.pow_le_mono_r 2 (8 * Zlen (span k 8 l)) 64). unfold fits. lia.
Qed.

(** ** The step of the scan *)

(** A record the scan may accept at this point of the chain. *)
Record accepts (config : StoreConfig) (inc : ControllerIncarnation) (chain : Digest) (seq : Z) (r : RecoveredRecord) : Prop := {
  ac_sequence : rec_seq r = seq /\ u64_ok seq;
  ac_incarnation : rec_incarnation r = inc;
  ac_coordinate : u64_ok (rec_generation r) /\ u64_ok (rec_epoch r);
  ac_payload : Zlen (rec_payload r) <= max_record_bytes config /\ Zlen (rec_payload r) <= u32_max;
  ac_digest : digest32 (rec_chain r);
  ac_chain : exists front, Zlen front = 80 /\ span 48 32 front = digest_bytes chain /\ rec_chain r = digest_of_two front (rec_payload r)
}.

Lemma scan_step_continue config inc s s' :
  scan_step config inc s = Continue s' ->
  112 <= Zlen (sc_rest s) /\ Zlen (sc_rest s') + 112 <= Zlen (sc_rest s)
  /\ sc_offset s' + Zlen (sc_rest s') = sc_offset s + Zlen (sc_rest s)
  /\ sc_expected s' = wrap 64 (sc_expected s + 1)
  /\ exists r, accepts config inc (sc_chain s) (sc_expected s) r /\ sc_chain s' = rec_chain r
     /\ sc_out s' = (fun out => out ++ [r]) <$> sc_out s
     /\ rr_records_valid (sc_report s') = wrap 64 (rr_records_valid (sc_report s) + 1)
     /\ rr_bytes_dropped (sc_report s') = rr_bytes_dropped (sc_report s).
Proof.
  unfold scan_step. destruct (bool_decide _); [done|]. unfold scan_record. cbv zeta.
  set (rest := sc_rest s). pose proof (load_u32_ok rest 24) as H24. set (len := load_u32 rest 24) in *. unfold kRecordHeaderBytes.
  destruct (Z.ltb_spec (Zlen rest) 112); [done|]. destruct (negb _); [done|]. destruct (negb _); [done|].
  destruct (Z.gtb_spec len (max_record_bytes config)); [done|]. destruct (Z.ltb_spec (Zlen rest) (112 + len)) as [|Hlen]; [done|].
  destruct (bool_decide_reflect (MkDigest (span 48 32 rest) = sc_chain s)) as [Hch|]; [|done]. cbn [negb].
  set (payload := span 112 len rest). unfold fits in H24.
  assert (Zlen payload = len) as Hp by (unfold payload, span, Zlen in *; rewrite length_take, length_drop; lia).
  destruct (bool_decide_reflect (digest_of_two (span 0 80 rest) payload = MkDigest (span 80 32 rest))) as [Hd|]; [|done]. cbn [negb].
  destruct (Z.eqb_spec (load_u64 rest 8) (sc_expected s)) as [Hs|]; [|done]. cbn [negb].
  destruct (RecordType_of_u32 _) as [t|]; [|done]. destruct (match sc_out s with Some _ => _ | None => _ end); [done|].
  intros [= <-]. cbn [sc_rest sc_offset sc_expected sc_chain sc_out sc_report report_record rr_records_valid rr_bytes_dropped].
  assert (Zlen (drop (Z.to_nat (112 + len)) rest) = Zlen rest - (112 + len)) as Hdrop by (unfold Zlen in *; rewrite length_drop; lia).
  rewrite Hdrop. split_and!; [lia|lia|lia|done|].
  exists (MkRecovered t (load_u64 rest 8) (load_u64 rest 32) (load_u64 rest 40) inc payload false (digest_of_two (span 0 80 rest) payload)).
  split_and!; try done. assert (digest32 (digest_of_two (span 0 80 rest) payload)) by (rewrite digest_of_two_app; apply digest_of_32).
  pose proof (load_u64_ok rest 8) as H8. pose proof (load_u64_ok rest 32). pose proof (load_u64_ok rest 40).
  split; cbn [rec_seq rec_incarnation rec_generation rec_epoch rec_payload rec_chain]; try done.
  - by rewrite <- Hs.
  - rewrite Hp. unfold u32_max. lia.
  - exists (span 0 80 rest). split_and!; [unfold span, Zlen in *; rewrite length_take, length_drop; lia| |done].
    rewrite <- Hch. cbn [digest_bytes]. unfold span. change (Z.to_nat 0) with 0%nat. rewrite drop_0.
    change (Z.to_nat 80) with 80%nat. change (Z.to_nat 48) with 48%nat. change (Z.to_nat 32) with 32%nat.
    rewrite skipn_firstn_comm, take_take. done.
Qed.

(** ** The scan as a relation *)

Inductive scans (config : StoreConfig) (inc : ControllerIncarnation) : ScanState -> RecoveryReport * option (list RecoveredRecord) -> Prop :=
| scans_end s : sc_rest s = [] -> scans config inc s (sc_report s, sc_out s)
| scans_stop s rep : sc_rest s <> [] -> scan_step config inc s = Stop rep -> scans config inc s (rep, sc_out s)
| scans_next s s' r : sc_rest s <> [] -> scan_step config inc s = Continue s' -> scans config inc s' r -> scans config inc s r.

Lemma scan_loop_scans config inc fuel s :
  (List.length (sc_rest s) <= fuel)%nat -> scans config inc s (scan_loop fuel config inc s).
Proof.
  revert s. induction fuel as [|fuel IH]; intros s Hf; cbn [scan_loop].
  - apply scans_end. destruct (sc_rest s); [done|cbn in Hf; lia].
  - destruct (bool_decide_reflect (sc_rest s = [])) as [E|E]; [by apply scans_end|].
    destruct (scan_step config inc s) as [rep|s'] eqn:Es; [by apply scans_stop|].
    apply (scans_next _ _ _ s'); [done|done|]. apply IH. apply scan_step_continue in Es as (_ & H & _). unfold Zlen in H. lia.
Qed.

Lemma scans_deterministic config inc s r1 r2 : scans config inc s r1 -> scans config inc s r2 -> r1 = r2.
Proof.
  intros H. revert r2. induction H as [s E|s rep E Es|s s' r E Es _ IH]; intros r2 H2; inversion H2; subst; try congruence.
  apply IH. congruence.
Qed.

(** C17: The scan of a journal terminates on any bytes: the loop has exactly one outcome, it is
    reached by stopping at the end of the file or at a record it refuses and never by running
    out of fuel, and the length of the file is fuel enough, since every step that goes on
    consumes at least a record header of 112 bytes. *)
Theorem scan_terminates config inc s :
  (exists! r, scans config inc s r)
  /\ (forall fuel, (List.length (sc_rest s) <= fuel)%nat -> scans config inc s (scan_loop fuel config inc s))
  /\ (forall s', scan_step config inc s = Continue s' -> Zlen (sc_rest s') + 112 <= Zlen (sc_rest s)).
Proof.
  split_and!.
  - exists (scan_loop (List.length (sc_rest s)) config inc s). split; [by apply scan_loop_scans|].
    intros r. apply scans_deterministic. by apply scan_loop_scans.
  - intros fuel. apply scan_loop_scans.
  - intros s' H. apply scan_step_continue in H. tauto.
Qed.

Lemma scan_terminates_witness :
  let s := MkScanState kHeaderBytes [Byte.x53; Byte.x4c; Byte.x46] zero_digest 1 (Some []) empty_recovery in
  scans default_store_config (MkInc 5 9) s (scan_loop 3 default_store_config (MkInc 5 9) s)
  /\ rr_status (scan_loop 3 default_store_config (MkInc 5 9) s).1 = RS_TruncatedTail.
Proof.
  intros s. destruct (scan_terminates default_store_config (MkInc 5 9) s) as (_ & H & _).
  split; [apply H; simpl; lia|vm_compute; reflexivity].
Defined.

(** ** What is accepted *)

(** Records that continue a chain, one after the other. *)
Inductive accepted (config : StoreConfig) (inc : ControllerIncarnation) : Digest -> Z -> list RecoveredRecord -> Prop :=
| accepted_nil chain seq : accepted config inc chain seq []
| accepted_cons chain seq r rs :
    accepts config inc chain seq r -> accepted config inc (rec_chain r) (wrap 64 (seq + 1)) rs -> accepted config inc chain seq (r :: rs).

Lemma scans_accepted config inc s rep out0 out :
  scans config inc s (rep, Some out) -> sc_out s = Some out0 ->
  exists rs, out = out0 ++ rs /\ accepted config inc (sc_chain s) (sc_expected s) rs.
Proof.
  intros H. remember (rep, Some out) as r eqn:Er. revert out0 Er. induction H as [s E|s rep' E Es|s s' r E Es _ IH]; intros out0 Er Eo.
  - exists []. rewrite Eo in Er. rewrite app_nil_r. split; [by simplify_eq|constructor].
  - exists []. rewrite Eo in Er. rewrite app_nil_r. split; [by simplify_eq|constructor].
  - apply scan_step_continue in Es as (_ & _ & _ & Ex & r1 & Ha & Ec & Eo' & _). rewrite Eo in Eo'. cbn in Eo'.
    destruct (IH _ Er Eo') as (rs & -> & Hrs). exists (r1 :: rs). rewrite <- (assoc_L (++)). split; [done|].
    constructor; [exact Ha|]. by rewrite <- Ec, <- Ex.
Qed.

(** C18: Every recovered record is well typed, whatever the bytes of the file are. The records a
    recovery returns belong to one incarnation, carry consecutive sequence numbers from the
    one the header declares, have 64-bit coordinates and payloads within the configured
    bound, and each one's digest is the SHA-256 of a front that embeds the digest of the
    record before it and of its payload. *)
Theorem recovered_records_typed file path config rep out :
  recover_journal file path config (Some []) = (rep, Some out) ->
  out = []
  \/ exists bytes h, file = FileBytes bytes /\ decode_journal_header (span 0 kHeaderBytes bytes) = Value h
     /\ accepted config (jh_incarnation h) (digest_of (span 0 kHeaderBytes bytes)) (jh_first_sequence h) out.
Proof.
  unfold recover_journal. cbv zeta. destruct file as [|st|bytes]; [intros [= _ <-]; by left|intros [= _ <-]; by left|].
  unfold read_file_bounded. destruct (Z.gtb_spec (Zlen bytes) (max_recovery_bytes config)) as [|Hsize]; [intros [= _ <-]; by left|].
  assert (take (Z.to_nat (if Zlen bytes <? max_recovery_bytes config then Zlen bytes else max_recovery_bytes config)) bytes = bytes) as ->.
  { apply take_ge. destruct (Z.ltb_spec (Zlen bytes) (max_recovery_bytes config)); unfold Zlen in *; lia. }
  destruct (bool_decide _); [intros [= _ <-]; by left|].
  assert (span 0 (Z.min (Zlen bytes) kHeaderBytes) bytes = span 0 kHeaderBytes bytes) as ->.
  { unfold span. rewrite !drop_0. destruct (Z.min_spec (Zlen bytes) kHeaderBytes) as [[H ->]|[_ ->]]; [|done].
    rewrite !take_ge by (unfold Zlen in *; lia). done. }
  destruct (decode_journal_header (span 0 kHeaderBytes bytes)) as [h|st] eqn:Eh; [|intros [= _ <-]; by left].
  match goal with |- context [scan_loop ?fu config ?i ?s] => pose proof (scan_loop_scans config i fu s) as Hs; destruct (scan_loop fu config i s) as [r o] eqn:El end.
  cbn [sc_rest] in Hs. specialize (Hs ltac:(rewrite length_drop; lia)). intros [= _ ->]. right. exists bytes, h.
  eapply scans_accepted in Hs as (rs & -> & Ha); [|done]. by cbn [sc_chain sc_expected app] in *.
Qed.

Lemma recovered_records_typed_witness :
  log_records SampleLog.inc 1 1000 1 SampleLog.entries = []
  \/ exists bytes h, FileBytes (journal_file SampleLog.inc 1 1000 1 SampleLog.entries) = FileBytes bytes
     /\ decode_journal_header (span 0 kHeaderBytes bytes) = Value h
     /\ accepted default_store_config (jh_incarnation h) (digest_of (span 0 kHeaderBytes bytes)) (jh_first_sequence h)
          (log_records SampleLog.inc 1 1000 1 SampleLog.entries).
Proof.
  eapply (recovered_records_typed _ "state/journal-00000001.slf").
  apply (recover_whole default_store_config "state/journal-00000001.slf" SampleLog.inc 1 1000 1 SampleLog.entries sample_log_ok).
  vm_compute. discriminate.
Defined.
