(* ===== verification/Effect.v ===== *)
(** * The effect of a command on a fabric (src/runtime.cpp)

    [apply_command_to] changes a copy of the fabric and rebuilds it from scratch with a
    fresh builder. The live path and the replay of the journal both call it. *)
From S2P Require Import Prelude Status Checked Identity Bytes Digest Capacity Model Builder Codec Topology Eligibility Governance.

Definition is_topology_command (k : CommandKind) : bool :=
  negb (bool_decide (k = CK_SubmitEvidence)) && negb (bool_decide (k = CK_ClearEvidence)).

Definition next_generation (current : TopologyGeneration) : TopologyGeneration := wrap 64 (current + 1).

(** A fabric with some of its parts replaced; the digests stay until it is rebuilt. *)
Definition with_contents (st : FabricState) (opts : FabricOptions) (ls : list LeafRecord) (ss : list SpineRecord)
    (ps : list PortRecord) (ks hs : list LinkRecord) (ev : list LinkEvidence) (f : Fabric) : Fabric :=
  MkFabric (fab_id f) (fab_name f) (fab_site f) (fab_generation f) (fab_epoch f) st opts (domains f) ls ss ps ks hs ev
    (topology_digest f) (evidence_digest f).

Definition set_leaf_state (id : LeafId) (st : NodeState) (r : LeafRecord) : LeafRecord :=
  if leaf_id r =? id then
    MkLeaf (leaf_id r) (leaf_name r) (leaf_role r) (leaf_incarnation r) (leaf_domain r) st (leaf_access_capacity r)
      (leaf_access_links r) (leaf_generation r)
  else r.

Definition set_spine_state (id : SpineId) (st : NodeState) (r : SpineRecord) : SpineRecord :=
  if spine_id r =? id then
    MkSpine (spine_id r) (spine_name r) (spine_role r) (spine_incarnation r) (spine_domain r) st
      (spine_fabric_capacity r) (spine_generation r)
  else r.

Definition set_port_admin (id : PortId) (a : PortAdmin) (r : PortRecord) : PortRecord :=
  if port_id r =? id then MkPort (port_id r) (port_owner r) (port_speed r) a (port_generation r) else r.

Definition set_link_admin (id : LinkId) (a : LinkAdmin) (r : LinkRecord) : LinkRecord :=
  if link_id r =? id then
    MkLink (link_id r) (link_a r) (link_port_a r) (link_b r) (link_port_b r) (link_cls r) a (link_declared_speed r)
      (link_generation r)
  else r.

Definition with_link_generation (g : TopologyGeneration) (r : LinkRecord) : LinkRecord :=
  MkLink (link_id r) (link_a r) (link_port_a r) (link_b r) (link_port_b r) (link_cls r) (link_admin r)
    (link_declared_speed r) g.

(** [erase] of the first link with the identity. *)
Fixpoint erase_link (id : LinkId) (ks : list LinkRecord) : list LinkRecord :=
  match ks with
  | [] => []
  | k :: ks' => if link_id k =? id then ks' else k :: erase_link id ks'
  end.

(** The switch over the command kind. *)
Definition command_effect (c : Command) (target_generation : TopologyGeneration) (epoch : Epoch)
    (observer : ControllerIncarnation) (current candidate : Fabric) : Fabric :=
  let f := candidate in
  match cmd_kind c with
  | CK_SetFabricState =>
      with_contents (cmd_fabric_state c) (fab_options f) (leaves f) (spines f) (ports f) (links f) (history_links f)
        (evidence f) f
  | CK_SetOptions =>
      with_contents (fab_state f) (cmd_options c) (leaves f) (spines f) (ports f) (links f) (history_links f)
        (evidence f) f
  | CK_SetLeafState =>
      with_contents (fab_state f) (fab_options f)
        (set_leaf_state (index (cmd_node c)) (cmd_node_state c) <$> leaves f)
        (spines f) (ports f) (links f) (history_links f) (evidence f) f
  | CK_SetSpineState =>
      with_contents (fab_state f) (fab_options f) (leaves f)
        (set_spine_state (index (cmd_node c)) (cmd_node_state c) <$> spines f)
        (ports f) (links f) (history_links f) (evidence f) f
  | CK_SetPortAdmin =>
      with_contents (fab_state f) (fab_options f) (leaves f) (spines f)
        (set_port_admin (cmd_port c) (cmd_port_admin c) <$> ports f)
        (links f) (history_links f) (evidence f) f
  | CK_SetLinkAdmin =>
      with_contents (fab_state f) (fab_options f) (leaves f) (spines f) (ports f)
        (set_link_admin (cmd_link c) (cmd_link_admin c) <$> links f) (history_links f) (evidence f) f
  | CK_RemoveLink =>
      match List.find (fun l => link_id l =? cmd_link c) (links f) with
      | Some l =>
          with_contents (fab_state f) (fab_options f) (leaves f) (spines f) (ports f) (erase_link (cmd_link c) (links f))
            (history_links f ++ [with_link_generation (fab_generation current) l]) (evidence f) f
      | None => f
      end
  | CK_AddLink =>
      with_contents (fab_state f) (fab_options f) (leaves f) (spines f) (ports f) (links f ++ [cmd_new_link c])
        (history_links f) (evidence f) f
  | CK_SubmitEvidence =>
      let e := cmd_evidence c in
      with_contents (fab_state f) (fab_options f) (leaves f) (spines f) (ports f) (links f) (history_links f)
        (evidence f ++ [MkEvidence (ev_link e) (ev_observed e) target_generation observer epoch (ev_seq e) (ev_at_ms e)]) f
  | CK_ClearEvidence =>
      with_contents (fab_state f) (fab_options f) (leaves f) (spines f) (ports f) (links f) (history_links f)
        (List.filter (fun e => negb (ev_link e =? cmd_link c)) (evidence f)) f
  end.

Definition with_coordinate (g : TopologyGeneration) (epoch : Epoch) (f : Fabric) : Fabric :=
  MkFabric (fab_id f) (fab_name f) (fab_site f) g epoch (fab_state f) (fab_options f) (domains f) (leaves f) (spines f)
    (ports f) (links f) (history_links f) (evidence f) (topology_digest f) (evidence_digest f).

(** The loops that stamp every record of the current topology. *)
Definition stamp_generation (g : TopologyGeneration) (f : Fabric) : Fabric :=
  MkFabric (fab_id f) (fab_name f) (fab_site f) (fab_generation f) (fab_epoch f) (fab_state f) (fab_options f)
    ((fun r => MkDomain (dom_id r) (dom_name r) g) <$> domains f)
    ((fun r => MkLeaf (leaf_id r) (leaf_name r) (leaf_role r) (leaf_incarnation r) (leaf_domain r) (leaf_state r)
                 (leaf_access_capacity r) (leaf_access_links r) g) <$> leaves f)
    ((fun r => MkSpine (spine_id r) (spine_name r) (spine_role r) (spine_incarnation r) (spine_domain r)
                 (spine_state r) (spine_fabric_capacity r) g) <$> spines f)
    ((fun r => MkPort (port_id r) (port_owner r) (port_speed r) (port_admin r) g) <$> ports f)
    (with_link_generation g <$> links f) (history_links f) (evidence f) (topology_digest f) (evidence_digest f).

(** Additions in the order of the code, stopping at the first refusal. *)
Definition builder_from_modified (lim : BuilderLimits) (base : Fabric) : Outcome Fabric :=
  let b := new_builder (fab_id base) (fab_name base) (fab_generation base) (fab_epoch base) (fab_options base) lim in
  let b := (set_site b (fab_site base)).2 in
  let b := (set_state b (fab_state base)).2 in
  let '(s, b) := add_all add_failure_domain b (domains base) in
  if negb (status_ok s) then Failure s else
  let '(s, b) := add_all add_leaf b (leaves base) in
  if negb (status_ok s) then Failure s else
  let '(s, b) := add_all add_spine b (spines base) in
  if negb (status_ok s) then Failure s else
  let '(s, b) := add_all add_port b (ports base) in
  if negb (status_ok s) then Failure s else
  let '(s, b) := add_all add_history_link b (history_links base) in
  if negb (status_ok s) then Failure s else
  let '(s, b) := add_all add_link b (links base) in
  if negb (status_ok s) then Failure s else
  let '(s, b) := add_all add_evidence b (evidence base) in
  if negb (status_ok s) then Failure s else
  (freeze b).1.

Definition apply_command_to (lim : BuilderLimits) (current : Fabric) (c : Command)
    (target_generation : TopologyGeneration) (epoch : Epoch) (observer : ControllerIncarnation) : Outcome Fabric :=
  let candidate := with_coordinate target_generation epoch current in
  let candidate := command_effect c target_generation epoch observer current candidate in
  builder_from_modified lim (stamp_generation target_generation candidate).
