(* ===== verification/EffectSpec.v ===== *)
(** * What a command does to a fabric (src/runtime.cpp)

    A successful [apply_command_to] yields the candidate it described: the same records,
    re-sorted by the builder, at the target coordinate. *)
From S2P Require Import Prelude Status Checked Identity Bytes Digest Capacity Model Builder BuilderSpec Sample Freeze BuilderOrder Codec CodecSpec Topology Eligibility Governance Effect.

(** ** Loops of successful additions *)

(** The builder after records were put in one of its maps. *)
Definition put_all {R} (key : R -> Z) (m : gmap Z R) (l : list R) : gmap Z R := fold_left (fun m r => <[key r := r]> m) l m.

Lemma put_all_map_of {R} (key : R -> Z) l : put_all key ∅ l = map_of key l.
Proof. done. Qed.

Section Adding.
Context {R : Type} (op : FabricBuilder -> R -> Status * FabricBuilder) (key : R -> Z).
Context (get : FabricBuilder -> gmap Z R) (put : gmap Z R -> FabricBuilder -> FabricBuilder).
Hypothesis get_put : forall m b, get (put m b) = m.
Hypothesis put_put : forall m m' b, put m (put m' b) = put m b.
Hypothesis put_get : forall b, put (get b) b = b.
Hypothesis put_report : forall m r b, put m (with_report r b) = with_report r (put m b).
Hypothesis op_puts : forall b r s b', op b r = (s, b') -> status_ok s = true ->
  get b !! key r = None /\ core_eq (put (<[key r := r]> (get b)) b) b'.

Lemma put_core m b b' : core_eq b b' -> core_eq (put m b) (put m b').
Proof.
  intros (r & -> & Hr). exists r. rewrite put_report. split; [done|]. rewrite Hr.
  rewrite <- (with_report_same b) at 2. rewrite put_report. done.
Qed.

Lemma get_core b b' : core_eq b b' -> get b' = get b.
Proof. intros (r & -> & _). rewrite <- (put_get b) at 1. by rewrite <- put_report, get_put. Qed.

Lemma add_all_puts l b s b' :
  add_all op b l = (s, b') -> status_ok s = true ->
  core_eq (put (put_all key (get b) l) b) b' /\ NoDup (key <$> l) /\ (forall r, r ∈ l -> get b !! key r = None).
Proof.
  revert b. induction l as [|x l IH]; intros b H Hs; cbn [add_all] in H.
  { injection H as <- <-. cbn [put_all fold_left]. rewrite put_get. split_and!; [done|constructor|]. intros r []%elem_of_nil. }
  destruct (op b x) as [s1 b1] eqn:E. destruct (status_ok s1) eqn:E1; [|injection H as <- <-; congruence].
  destruct (op_puts b x s1 b1 E E1) as [Hnew Hc]. pose proof (get_core _ _ Hc) as Hg. rewrite get_put in Hg.
  destruct (IH b1 H Hs) as (Hc' & Hnd & Hfresh). rewrite Hg in Hc', Hfresh. split_and!.
  - cbn [put_all fold_left]. transitivity (put (put_all key (<[key x:=x]> (get b)) l) b1); [|exact Hc'].
    rewrite <- (put_put _ (<[key x := x]> (get b)) b). by apply put_core.
  - cbn [fmap list_fmap]. constructor; [|exact Hnd]. intros (r & Hr & Hin)%list_elem_of_fmap.
    specialize (Hfresh r Hin). rewrite <- Hr in Hfresh. by rewrite lookup_insert in Hfresh; destruct (decide (key x = key x)).
  - intros r [->|Hin]%elem_of_cons; [done|]. specialize (Hfresh r Hin). by apply lookup_insert_None in Hfresh as [? _].
Qed.
End Adding.

Lemma sorted_by_perm_values {R} (key : R -> Z) (l : list R) : NoDup (key <$> l) -> values (map_of key l) ≡ₚ l.
Proof.
  intros Hnd. apply NoDup_Permutation.
  - eapply NoDup_fmap_1. apply sorted_by_NoDup, values_sorted, map_of_keyed.
  - by eapply NoDup_fmap_1.
  - intros x. rewrite elem_of_values. split.
    + intros [k Hk]. by apply map_of_lookup in Hk.
    + intros Hx. exists (key x). by apply map_of_elem.
Qed.

(** ** The additions put what they are given *)

(** The guard that refuses an identity already present, among guards that passed. *)
Ltac fresh_from Hg :=
  repeat (apply Forall_cons in Hg as [? Hg]); cbn [g_cond] in *; apply eq_None_not_Some;
  repeat match goal with H : (_ || _) = false |- _ => apply orb_false_iff in H as [? ?] end;
  match goal with H : bool_decide (is_Some (?m !! ?k)) = false |- ~ is_Some (?m !! ?k) => exact (proj1 (bool_decide_eq_false _) H) end.

Lemma guarded_puts b gs a s b' :
  guards_sound gs -> guarded b gs a = (s, b') -> status_ok s = true ->
  core_eq a b' /\ Forall (fun g => g_cond g = false) gs.
Proof.
  intros Hg H Hs. destruct (proj1 (guarded_ok b gs a s b' Hg) (conj H Hs)) as (_ & -> & _ & Hall). by split.
Qed.

Lemma add_failure_domain_puts b r s b' :
  add_failure_domain b r = (s, b') -> status_ok s = true ->
  b_domains b !! dom_id r = None /\ core_eq (with_domains (<[dom_id r := r]> (b_domains b)) b) b'.
Proof.
  intros H Hs. unfold add_failure_domain in H. apply guarded_puts in H as [Hc Hg]; [|solve_guards_sound|done].
  split; [|exact Hc]. fresh_from Hg.
Qed.

Lemma add_leaf_puts b r s b' :
  add_leaf b r = (s, b') -> status_ok s = true ->
  b_leaves b !! leaf_id r = None /\ core_eq (with_leaves (<[leaf_id r := r]> (b_leaves b)) b) b'.
Proof. intros H Hs. destruct (add_leaf_ok b r s b' H Hs) as [[] Hc]. by split. Qed.

Lemma add_spine_puts b r s b' :
  add_spine b r = (s, b') -> status_ok s = true ->
  b_spines b !! spine_id r = None /\ core_eq (with_spines (<[spine_id r := r]> (b_spines b)) b) b'.
Proof. intros H Hs. destruct (add_spine_ok b r s b' H Hs) as [[] Hc]. by split. Qed.

Lemma add_port_puts b r s b' :
  add_port b r = (s, b') -> status_ok s = true ->
  b_ports b !! port_id r = None /\ core_eq (with_ports (<[port_id r := r]> (b_ports b)) b) b'.
Proof.
  intros H Hs. unfold add_port in H. apply guarded_puts in H as [Hc Hg]; [|apply port_guards_sound|done].
  split; [|exact Hc]. unfold port_guards in Hg. fresh_from Hg.
Qed.

Lemma add_link_puts b r s b' :
  add_link b r = (s, b') -> status_ok s = true ->
  b_links b !! link_id r = None /\ core_eq (with_links (<[link_id r := r]> (b_links b)) b) b'.
Proof.
  intros H Hs. unfold add_link in H. apply guarded_puts in H as [Hc Hg]; [|apply link_guards_sound|done].
  split; [|exact Hc]. unfold link_guards in Hg. fresh_from Hg.
Qed.

Lemma add_history_link_puts b r s b' :
  add_history_link b r = (s, b') -> status_ok s = true ->
  b_history b !! link_id r = None /\ core_eq (with_history (<[link_id r := r]> (b_history b)) b) b'.
Proof.
  intros H Hs. unfold add_history_link in H. apply guarded_puts in H as [Hc Hg]; [|solve_guards_sound|done].
  split; [|exact Hc]. fresh_from Hg.
Qed.

Lemma add_all_evidence_puts l b s b' :
  add_all add_evidence b l = (s, b') -> status_ok s = true -> core_eq (with_evidence (b_evidence b ++ l) b) b'.
Proof.
  revert b. induction l as [|x l IH]; intros b H Hs; cbn [add_all] in H.
  { injection H as <- <-. rewrite app_nil_r. exists (b_report b). by destruct b. }
  destruct (add_evidence b x) as [s1 b1] eqn:E. destruct (status_ok s1) eqn:E1; [|injection H as <- <-; congruence].
  unfold add_evidence in E. apply guarded_puts in E as [(r & -> & Hr) _]; [|solve_guards_sound|done].
  destruct (IH _ H Hs) as (r' & -> & Hr'). exists r'. cbn [with_evidence with_report b_evidence] in *.
  rewrite <- (assoc_L (++)). split; [done|]. cbn in *. congruence.
Qed.

(** ** Rebuilding a fabric *)

(** The fabric a builder assembles from records, before its digests are computed. *)
Definition sorted_contents (site : string) (base : Fabric) : Fabric :=
  MkFabric (fab_id base) (fab_name base) site (fab_generation base) (fab_epoch base) (fab_state base) (fab_options base)
    (values (map_of dom_id (domains base))) (values (map_of leaf_id (leaves base)))
    (values (map_of spine_id (spines base))) (values (map_of port_id (ports base)))
    (values (map_of link_id (links base))) (values (map_of link_id (history_links base)))
    (sort_evidence (evidence base)) zero_digest zero_digest.

Record distinct_identities (f : Fabric) : Prop := {
  di_domains : NoDup (dom_id <$> domains f);
  di_leaves : NoDup (leaf_id <$> leaves f);
  di_spines : NoDup (spine_id <$> spines f);
  di_ports : NoDup (port_id <$> ports f);
  di_links : NoDup (link_id <$> links f);
  di_history : NoDup (link_id <$> history_links f)
}.

Lemma noted_report b sev c w d : exists r, noted b sev c w d = with_report r b.
Proof. unfold noted, note. case_decide; by eexists. Qed.

Lemma new_builder_shape id name gen epoch opts lim :
  exists r, new_builder id name gen epoch opts lim
    = MkBuilder id name "" FS_Operational gen epoch opts lim ∅ ∅ ∅ ∅ ∅ ∅ [] r false.
Proof.
  unfold new_builder. cbv zeta. set (b := MkBuilder id name "" FS_Operational gen epoch opts lim ∅ ∅ ∅ ∅ ∅ ∅ [] empty_report false).
  assert (forall b' c w d sev, (exists r, b' = with_report r b) -> exists r, noted b' sev c w d = with_report r b) as Hn.
  { intros b' c w d sev [r ->]. destruct (noted_report (with_report r b) sev c w d) as [r' ->]. by exists r'. }
  assert (exists r, b = with_report r b) as H0 by (by eexists).
  assert (forall b', (exists r, b' = with_report r b) -> exists r, b' =
    MkBuilder id name "" FS_Operational gen epoch opts lim ∅ ∅ ∅ ∅ ∅ ∅ [] r false) as Hd by (intros b' [r ->]; by eexists).
  apply Hd. clear Hd. destruct (check_name _ _), (is_zero gen), (min_eligible_spines opts =? 0); auto 6.
Qed.

(** The builder before the first record. *)
Lemma header_builder lim base :
  exists site r, (set_state (set_site (new_builder (fab_id base) (fab_name base) (fab_generation base) (fab_epoch base)
      (fab_options base) lim) (fab_site base)).2 (fab_state base)).2
  = MkBuilder (fab_id base) (fab_name base) site (fab_state base) (fab_generation base) (fab_epoch base) (fab_options base)
      lim ∅ ∅ ∅ ∅ ∅ ∅ [] r false.
Proof.
  destruct (new_builder_shape (fab_id base) (fab_name base) (fab_generation base) (fab_epoch base) (fab_options base) lim) as [r ->].
  unfold set_site, guarded. cbn [b_frozen]. destruct (first_guard _) as [g|].
  - match goal with |- context [note ?b IS_Error ?c ?w ?d] => destruct (noted_report b IS_Error c w d) as [r' E] end.
    unfold noted in E. rewrite E. by eexists _, _.
  - by eexists _, _.
Qed.

Lemma header_builder_report lim base :
  report_wf (set_state (set_site (new_builder (fab_id base) (fab_name base) (fab_generation base) (fab_epoch base)
      (fab_options base) lim) (fab_site base)).2 (fab_state base)).2.
Proof.
  eapply report_wf_grows; [exact (grows_apply_op _ (OpState _))|].
  eapply report_wf_grows; [exact (grows_apply_op _ (OpSite _))|]. apply new_builder_report_wf.
Qed.

Lemma add_all_report {R} (op : FabricBuilder -> R -> Status * FabricBuilder) (mk : R -> BuilderOp) b l s b' :
  (forall b x, op b x = apply_op b (mk x)) -> add_all op b l = (s, b') -> report_wf b -> report_wf b'.
Proof.
  intros Hop H Hr. apply (report_wf_grows b); [|done]. change b' with (s, b').2. rewrite <- H. apply add_all_grows.
  intros b0 x. rewrite Hop. apply grows_apply_op.
Qed.

(** One loop of the rebuild that succeeded. *)
Ltac rebuild_stage H op mk puts :=
  match type of H with context [add_all op ?b0 ?l] =>
    let E := fresh "E" in let Es := fresh "Es" in let r := fresh "r" in
    let st := fresh "st" in let bb := fresh "bb" in destruct (add_all op b0 l) as [st bb] eqn:E; destruct (status_ok st) eqn:Es; cbn [negb] in H; [|discriminate H];
    match goal with Hr : report_wf b0 |- _ => apply (add_all_report op mk _ _ _ _ (fun _ _ => eq_refl) E) in Hr end;
    eapply puts in E; [|exact Es]; destruct E as [(r & -> & _) ?]; cbn [b_domains b_leaves b_spines b_ports b_links b_history b_evidence
      with_domains with_leaves with_spines with_ports with_links with_history with_evidence with_report] in *
  end.

Lemma builder_from_modified_Value lim base f :
  builder_from_modified lim base = Value f ->
  distinct_identities base
  /\ exists site, f = with_digests (sorted_contents site base) (compute_digests (sorted_contents site base)).
Proof.
  unfold builder_from_modified. intros H. pose proof (header_builder_report lim base) as Hr.
  destruct (header_builder lim base) as (site & r0 & Eb). rewrite Eb in H, Hr. clear Eb.
  pose proof (add_all_puts add_failure_domain dom_id b_domains with_domains ltac:(done) ltac:(done) ltac:(by intros []) ltac:(done)
    add_failure_domain_puts) as P1.
  pose proof (add_all_puts add_leaf leaf_id b_leaves with_leaves ltac:(done) ltac:(done) ltac:(by intros []) ltac:(done) add_leaf_puts) as P2.
  pose proof (add_all_puts add_spine spine_id b_spines with_spines ltac:(done) ltac:(done) ltac:(by intros []) ltac:(done) add_spine_puts) as P3.
  pose proof (add_all_puts add_port port_id b_ports with_ports ltac:(done) ltac:(done) ltac:(by intros []) ltac:(done) add_port_puts) as P4.
  pose proof (add_all_puts add_history_link link_id b_history with_history ltac:(done) ltac:(done) ltac:(by intros []) ltac:(done) add_history_link_puts) as P5.
  pose proof (add_all_puts add_link link_id b_links with_links ltac:(done) ltac:(done) ltac:(by intros []) ltac:(done) add_link_puts) as P6.
  rebuild_stage H add_failure_domain OpDomain P1. rebuild_stage H add_leaf OpLeaf P2. rebuild_stage H add_spine OpSpine P3.
  rebuild_stage H add_port OpPort P4. rebuild_stage H add_history_link OpHistory P5. rebuild_stage H add_link OpLink P6.
  destruct (add_all add_evidence _ _) as [s7 b7] eqn:E7. destruct (status_ok s7) eqn:Es7; cbn [negb] in H; [|done].
  apply (add_all_report add_evidence OpEvidence _ _ _ _ (fun _ _ => eq_refl) E7) in Hr.
  apply add_all_evidence_puts in E7 as (r7 & -> & _); [|done].
  match type of H with (freeze ?b).1 = _ => destruct (freeze b) as [o b'] eqn:Ef end. cbn [fst] in H. subst o.
  apply freeze_Value in Ef as (_ & -> & _); [|done]. split; [split; tauto|]. exists site. reflexivity.
Qed.

(** ** Reading a command's effect back *)

Lemma map_of_fmap {A} (key : A -> Z) (g : A -> A) l k :
  (forall x, key (g x) = key x) -> map_of key (g <$> l) !! k = g <$> (map_of key l !! k).
Proof.
  intros Hg. induction l as [|x l IH] using rev_ind; [done|]. rewrite fmap_app. cbn [fmap list_fmap].
  rewrite !map_of_snoc, Hg, !lookup_insert. by case_decide.
Qed.

Lemma erase_link_lookup id l k :
  NoDup (link_id <$> l) -> map_of link_id (erase_link id l) !! k = if decide (k = id) then None else map_of link_id l !! k.
Proof.
  intros Hnd. assert (erase_link id l = List.filter (fun r => negb (link_id r =? id)) l) as ->.
  { induction l as [|x l IH]; [done|]. cbn [erase_link List.filter]. cbn [fmap list_fmap] in Hnd. apply NoDup_cons in Hnd as [Hx Hnd].
    destruct (Z.eqb_spec (link_id x) id) as [E|]; cbn [negb]; [|by rewrite IH].
    symmetry. apply forallb_filter_id, forallb_forall. intros y Hy. apply list_elem_of_In in Hy.
    apply negb_true_iff, Z.eqb_neq. intros E'. apply Hx. rewrite E, <- E'. by apply list_elem_of_fmap_2. }
  clear Hnd. induction l as [|x l IH] using rev_ind; [by case_decide|]. rewrite List.filter_app. cbn [List.filter].
  destruct (Z.eqb_spec (link_id x) id) as [E|E]; cbn [negb].
  - rewrite app_nil_r, IH, map_of_snoc. case_decide; [done|]. rewrite lookup_insert_ne by congruence. done.
  - rewrite !map_of_snoc, !lookup_insert, IH. repeat case_decide; congruence.
Qed.

Lemma find_link_map f k : sorted_by link_id (links f) -> find_link f k = map_of link_id (links f) !! k.
Proof. apply find_map_of. Qed.

(** The candidate of a command and the fabric the builder makes of it. *)
Definition command_candidate (c : Command) (g : TopologyGeneration) (e : Epoch) (o : ControllerIncarnation) (cur : Fabric) : Fabric :=
  stamp_generation g (command_effect c g e o cur (with_coordinate g e cur)).

Lemma apply_command_Value lim cur c g e o f :
  apply_command_to lim cur c g e o = Value f ->
  distinct_identities (command_candidate c g e o cur)
  /\ exists site, f = with_digests (sorted_contents site (command_candidate c g e o cur))
       (compute_digests (sorted_contents site (command_candidate c g e o cur))).
Proof. apply builder_from_modified_Value. Qed.

(** Whatever the command, the coordinate is the target. *)
Lemma apply_command_coordinate lim cur c g e o f :
  apply_command_to lim cur c g e o = Value f ->
  fab_generation f = g /\ fab_epoch f = e /\ fab_id f = fab_id cur /\ fab_name f = fab_name cur
  /\ (topology_digest f, evidence_digest f) = compute_digests f.
Proof.
  intros (_ & site & ->)%apply_command_Value. unfold command_candidate, command_effect.
  destruct (cmd_kind c); try done. by destruct (List.find _ _).
Qed.

(** The records of the result, looked up by identity. *)
Lemma find_after lim cur c g e o f k :
  apply_command_to lim cur c g e o = Value f ->
  let t := command_candidate c g e o cur in
  find_leaf f k = map_of leaf_id (leaves t) !! k /\ find_spine f k = map_of spine_id (spines t) !! k
  /\ find_port f k = map_of port_id (ports t) !! k /\ find_link f k = map_of link_id (links t) !! k.
Proof.
  intros (_ & site & ->)%apply_command_Value. cbv zeta.
  split_and!; apply find_values, map_of_keyed.
Qed.

Definition stamp_leaf (g : TopologyGeneration) (r : LeafRecord) : LeafRecord :=
  MkLeaf (leaf_id r) (leaf_name r) (leaf_role r) (leaf_incarnation r) (leaf_domain r) (leaf_state r)
    (leaf_access_capacity r) (leaf_access_links r) g.
Definition stamp_spine (g : TopologyGeneration) (r : SpineRecord) : SpineRecord :=
  MkSpine (spine_id r) (spine_name r) (spine_role r) (spine_incarnation r) (spine_domain r) (spine_state r)
    (spine_fabric_capacity r) g.
Definition stamp_port (g : TopologyGeneration) (r : PortRecord) : PortRecord :=
  MkPort (port_id r) (port_owner r) (port_speed r) (port_admin r) g.

Lemma set_leaf_state_id id st r : leaf_id (set_leaf_state id st r) = leaf_id r.
Proof. unfold set_leaf_state. by case_match. Qed.
Lemma set_spine_state_id id st r : spine_id (set_spine_state id st r) = spine_id r.
Proof. unfold set_spine_state. by case_match. Qed.
Lemma set_port_admin_id id a r : port_id (set_port_admin id a r) = port_id r.
Proof. unfold set_port_admin. by case_match. Qed.
Lemma set_link_admin_id id a r : link_id (set_link_admin id a r) = link_id r.
Proof. unfold set_link_admin. by case_match. Qed.

(** What a command changes, by its kind. *)
Definition command_readback (cur : Fabric) (c : Command) (g : TopologyGeneration) (e : Epoch) (o : ControllerIncarnation) (f : Fabric) : Prop :=
  match cmd_kind c with
  | CK_SetFabricState => fab_state f = cmd_fabric_state c
  | CK_SetOptions => fab_options f = cmd_options c
  | CK_SetLeafState =>
      forall k, find_leaf f k = (fun r => stamp_leaf g (set_leaf_state (index (cmd_node c)) (cmd_node_state c) r)) <$> find_leaf cur k
  | CK_SetSpineState =>
      forall k, find_spine f k = (fun r => stamp_spine g (set_spine_state (index (cmd_node c)) (cmd_node_state c) r)) <$> find_spine cur k
  | CK_SetPortAdmin =>
      forall k, find_port f k = (fun r => stamp_port g (set_port_admin (cmd_port c) (cmd_port_admin c) r)) <$> find_port cur k
  | CK_SetLinkAdmin =>
      forall k, find_link f k = (fun r => with_link_generation g (set_link_admin (cmd_link c) (cmd_link_admin c) r)) <$> find_link cur k
  | CK_RemoveLink =>
      forall k, find_link f k = if decide (k = cmd_link c) then None else with_link_generation g <$> find_link cur k
  | CK_AddLink =>
      find_link cur (link_id (cmd_new_link c)) = None
      /\ forall k, find_link f k = if decide (k = link_id (cmd_new_link c)) then Some (with_link_generation g (cmd_new_link c))
                                   else with_link_generation g <$> find_link cur k
  | CK_SubmitEvidence =>
      let r := cmd_evidence c in
      evidence f ≡ₚ MkEvidence (ev_link r) (ev_observed r) g o e (ev_seq r) (ev_at_ms r) :: evidence cur
  | CK_ClearEvidence => forall r, r ∈ evidence f <-> r ∈ evidence cur /\ ev_link r <> cmd_link c
  end.

Lemma find_link_first id l : List.find (fun x => link_id x =? id) l = None -> id ∉ (link_id <$> l).
Proof.
  intros H (x & -> & Hx)%list_elem_of_fmap. apply list_elem_of_In in Hx. pose proof (find_none _ _ H x Hx) as E. cbn in E.
  apply Z.eqb_neq in E. done.
Qed.

Lemma map_of_None {A} (key : A -> Z) l k : k ∉ (key <$> l) -> map_of key l !! k = None.
Proof.
  intros H. destruct (map_of key l !! k) as [x|] eqn:E; [|done]. exfalso. apply H.
  pose proof (map_of_keyed key l k x E) as <-. apply list_elem_of_fmap_2. by eapply map_of_lookup.
Qed.

Lemma apply_command_readback lim lim' cur c g e o f :
  fabric_wf lim' cur -> apply_command_to lim cur c g e o = Value f -> command_readback cur c g e o f.
Proof.
  intros Hwf Hf. pose proof (fun k => find_after lim cur c g e o f k Hf) as Hfind. pose proof Hf as (Hdi & site & Ef)%apply_command_Value.
  assert (sorted_by leaf_id (leaves cur)) as Sl by apply Hwf. assert (sorted_by spine_id (spines cur)) as Ss by apply Hwf.
  assert (sorted_by port_id (ports cur)) as Sp by apply Hwf. assert (sorted_by link_id (links cur)) as Sk by apply Hwf.
  assert (forall k, map_of link_id (with_link_generation g <$> links cur) !! k = with_link_generation g <$> find_link cur k) as Hgen.
  { intros k. unfold find_link. rewrite find_map_of by done. by apply map_of_fmap. }
  unfold command_readback. cbv zeta in *. revert Hfind Hdi Ef. unfold command_candidate, command_effect. destruct (cmd_kind c) eqn:K; intros Hfind Hdi Ef.
  - by rewrite Ef.
  - intros k. destruct (Hfind k) as (-> & _). cbn [stamp_generation with_contents leaves with_coordinate].
    rewrite <- list_fmap_compose, map_of_fmap by (intros x; apply set_leaf_state_id). unfold find_leaf. by rewrite find_map_of.
  - intros k. destruct (Hfind k) as (_ & -> & _). cbn [stamp_generation with_contents spines with_coordinate].
    rewrite <- list_fmap_compose, map_of_fmap by (intros x; apply set_spine_state_id). unfold find_spine. by rewrite find_map_of.
  - intros k. destruct (Hfind k) as (_ & _ & -> & _). cbn [stamp_generation with_contents ports with_coordinate].
    rewrite <- list_fmap_compose, map_of_fmap by (intros x; apply set_port_admin_id). unfold find_port. by rewrite find_map_of.
  - intros k. destruct (Hfind k) as (_ & _ & _ & ->). cbn [stamp_generation with_contents links with_coordinate].
    rewrite <- list_fmap_compose, map_of_fmap by (intros x; apply set_link_admin_id). unfold find_link. by rewrite find_map_of.
  - destruct Hdi as [_ _ _ _ Hnd _]. cbn [stamp_generation with_contents links with_coordinate] in Hnd, Hfind.
    rewrite fmap_app in Hnd. cbn [fmap list_fmap] in Hnd. split.
    + unfold find_link. rewrite find_map_of by done. apply map_of_None. intros Hin. rewrite fmap_app, NoDup_app in Hnd.
      destruct Hnd as (_ & Hdis & _). apply (Hdis (link_id (cmd_new_link c))); [|by left].
      rewrite <- list_fmap_compose. exact Hin.
    + intros k. destruct (Hfind k) as (_ & _ & _ & ->). rewrite fmap_app. cbn [fmap list_fmap]. rewrite map_of_snoc, lookup_insert, Hgen.
      change (link_id (with_link_generation g (cmd_new_link c))) with (link_id (cmd_new_link c)). repeat case_decide; congruence.
  - intros k. destruct (Hfind k) as (_ & _ & _ & ->). cbn [links with_coordinate].
    destruct (List.find _ _) as [l|] eqn:El; cbn [stamp_generation with_contents links with_coordinate].
    + rewrite map_of_fmap by done. rewrite erase_link_lookup by by apply sorted_by_NoDup.
      case_decide; [done|]. unfold find_link. by rewrite find_map_of.
    + rewrite Hgen. case_decide as Ek; [|done]. subst k. unfold find_link. rewrite find_map_of by done.
      by rewrite map_of_None by by apply find_link_first.
  - by rewrite Ef.
  - rewrite Ef. cbn [with_digests evidence sorted_contents stamp_generation with_contents with_coordinate].
    rewrite sort_evidence_perm. by rewrite Permutation_app_comm.
  - intros r. rewrite Ef. cbn [with_digests evidence sorted_contents stamp_generation with_contents with_coordinate].
    rewrite (sort_evidence_perm _), !list_elem_of_In, filter_In, negb_true_iff, Z.eqb_neq. done.
Qed.


(** A drain of the first leaf of the sample. *)
Definition drain_command (f : Fabric) (t : AuthorityToken) (request : RequestId) (epoch : Epoch) : Command :=
  MkCommand request t (fab_generation f) epoch CK_SetLeafState FS_Operational (node_of_leaf 1) NS_Draining 0 PA_Enabled 0
    LA_Enabled (MkLink 0 (node_of_leaf 0) 0 (node_of_leaf 0) 0 LC_LeafSpine LA_Enabled 0 0)
    (MkEvidence 0 LO_Unknown 0 zero_incarnation 0 0 0) default_options.

