(* ===== verification/Runtime.v ===== *)
(** * The controller runtime (include/slf/runtime.hpp, src/runtime.cpp)

    The runtime owns the live fabric and its index, the authority coordinate, the lease,
    the journal and the exactly-once window. Every mutation runs under one mutex, so each
    public operation is one step on the state. The clock, fresh incarnations and the file
    system's answers are arguments. *)
From S2P Require Import Prelude Status Checked Identity Bytes Digest Capacity Model Builder Codec Topology Eligibility Governance Store StoreDir Effect.

(** ** Data *)

Inductive FaultPoint := FP_None | FP_BeforeCommit | FP_AfterCommitBeforeAck | FP_AfterAckBeforeSnapshot.

#[export] Instance FaultPoint_eq_dec : EqDecision FaultPoint.
Proof. solve_decision. Defined.

Definition FaultPoint_to_u8 (p : FaultPoint) : Z :=
  match p with FP_None => 0 | FP_BeforeCommit => 1 | FP_AfterCommitBeforeAck => 2 | FP_AfterAckBeforeSnapshot => 3 end.

Definition FaultPoint_to_string (p : FaultPoint) : string :=
  match p with
  | FP_None => "none"
  | FP_BeforeCommit => "before_commit"
  | FP_AfterCommitBeforeAck => "after_commit_before_ack"
  | FP_AfterAckBeforeSnapshot => "after_ack_before_snapshot"
  end.

Definition parse_fault_point (text : string) : option FaultPoint :=
  if bool_decide (text = "none") then Some FP_None
  else if bool_decide (text = "before_commit") then Some FP_BeforeCommit
  else if bool_decide (text = "after_commit_before_ack") then Some FP_AfterCommitBeforeAck
  else if bool_decide (text = "after_ack_before_snapshot") then Some FP_AfterAckBeforeSnapshot
  else None.

Record RuntimeConfig := MkRuntimeConfig {
  rc_fabric_id : FabricId;
  rc_name : string;
  rc_site : string;
  rc_options : FabricOptions;
  rc_limits : BuilderLimits;
  rc_state_dir : string;
  rc_persistence : bool;
  rc_worker_threads : Z;
  rc_authority_ttl : Z;
  rc_max_dedup : Z;
  rc_max_history : Z;
  rc_compaction_threshold : Z;
  rc_sweep_interval : Z;
  rc_store : StoreConfig;
  rc_evidence_historical : bool
}.

Definition default_runtime_config (id : FabricId) (dir : string) : RuntimeConfig :=
  MkRuntimeConfig id "fabric" "" default_options default_limits dir true 2 30000 4096 4096 512 25 default_store_config true.

Definition persistent (c : RuntimeConfig) : bool := rc_persistence c && negb (bool_decide (rc_state_dir c = "")).

Record Counters := MkCounters {
  n_applied : Z; n_refused : Z; n_fenced : Z; n_duplicated : Z; n_queries : Z
}.

(** The members of [ControllerRuntime]. [rt_disk] is the state directory without the
    segment that is open. *)
Record ControllerRuntime := MkRuntime {
  rt_config : RuntimeConfig;
  rt_fabric : option Fabric;
  rt_index : option TopologyIndex;
  rt_health : option FabricHealthReport;
  rt_incarnation : ControllerIncarnation;
  rt_epoch : Epoch;
  rt_generation : TopologyGeneration;
  rt_lease : option AuthorityLease;
  rt_lease_counter : Z;
  rt_store : option FabricStore;
  rt_recovery : RecoveryReport;
  rt_workers : Z;
  rt_started : bool;
  rt_stop_requested : bool;
  rt_fault_point : FaultPoint;
  rt_started_at : Z;
  rt_records_since_snapshot : Z;
  rt_counters : Counters;
  rt_dedup : list (RequestId * CommandResult);
  rt_history : list string;
  rt_disk : option Directory
}.

Definition new_runtime (c : RuntimeConfig) (disk : option Directory) : ControllerRuntime :=
  MkRuntime c None None None zero_incarnation 0 0 None 0 None empty_recovery 0 false false FP_None 0 0
    (MkCounters 0 0 0 0 0) [] [] disk.

(** *** Field updates *)

Definition with_topology (f : Fabric) (ix : TopologyIndex) (rt : ControllerRuntime) : ControllerRuntime :=
  MkRuntime (rt_config rt) (Some f) (Some ix) (rt_health rt) (rt_incarnation rt) (rt_epoch rt) (fab_generation f)
    (rt_lease rt) (rt_lease_counter rt) (rt_store rt) (rt_recovery rt) (rt_workers rt) (rt_started rt)
    (rt_stop_requested rt) (rt_fault_point rt) (rt_started_at rt) (rt_records_since_snapshot rt) (rt_counters rt)
    (rt_dedup rt) (rt_history rt) (rt_disk rt).

Definition with_lease (l : option AuthorityLease) (counter : Z) (rt : ControllerRuntime) : ControllerRuntime :=
  MkRuntime (rt_config rt) (rt_fabric rt) (rt_index rt) (rt_health rt) (rt_incarnation rt) (rt_epoch rt)
    (rt_generation rt) l counter (rt_store rt) (rt_recovery rt) (rt_workers rt) (rt_started rt)
    (rt_stop_requested rt) (rt_fault_point rt) (rt_started_at rt) (rt_records_since_snapshot rt) (rt_counters rt)
    (rt_dedup rt) (rt_history rt) (rt_disk rt).

Definition with_store (s : option FabricStore) (since : Z) (disk : option Directory) (rt : ControllerRuntime)
    : ControllerRuntime :=
  MkRuntime (rt_config rt) (rt_fabric rt) (rt_index rt) (rt_health rt) (rt_incarnation rt) (rt_epoch rt)
    (rt_generation rt) (rt_lease rt) (rt_lease_counter rt) s (rt_recovery rt) (rt_workers rt) (rt_started rt)
    (rt_stop_requested rt) (rt_fault_point rt) (rt_started_at rt) since (rt_counters rt) (rt_dedup rt)
    (rt_history rt) disk.

Definition with_counters (c : Counters) (rt : ControllerRuntime) : ControllerRuntime :=
  MkRuntime (rt_config rt) (rt_fabric rt) (rt_index rt) (rt_health rt) (rt_incarnation rt) (rt_epoch rt)
    (rt_generation rt) (rt_lease rt) (rt_lease_counter rt) (rt_store rt) (rt_recovery rt) (rt_workers rt)
    (rt_started rt) (rt_stop_requested rt) (rt_fault_point rt) (rt_started_at rt) (rt_records_since_snapshot rt) c
    (rt_dedup rt) (rt_history rt) (rt_disk rt).

Definition with_log (dedup : list (RequestId * CommandResult)) (history : list string) (rt : ControllerRuntime)
    : ControllerRuntime :=
  MkRuntime (rt_config rt) (rt_fabric rt) (rt_index rt) (rt_health rt) (rt_incarnation rt) (rt_epoch rt)
    (rt_generation rt) (rt_lease rt) (rt_lease_counter rt) (rt_store rt) (rt_recovery rt) (rt_workers rt)
    (rt_started rt) (rt_stop_requested rt) (rt_fault_point rt) (rt_started_at rt) (rt_records_since_snapshot rt)
    (rt_counters rt) dedup history (rt_disk rt).

Definition with_recovery (r : RecoveryReport) (rt : ControllerRuntime) : ControllerRuntime :=
  MkRuntime (rt_config rt) (rt_fabric rt) (rt_index rt) (rt_health rt) (rt_incarnation rt) (rt_epoch rt)
    (rt_generation rt) (rt_lease rt) (rt_lease_counter rt) (rt_store rt) r (rt_workers rt) (rt_started rt)
    (rt_stop_requested rt) (rt_fault_point rt) (rt_started_at rt) (rt_records_since_snapshot rt) (rt_counters rt)
    (rt_dedup rt) (rt_history rt) (rt_disk rt).

(** Lifecycle members: epoch, workers, flags and the start time. *)
Definition with_lifecycle (inc : ControllerIncarnation) (epoch : Epoch) (workers : Z) (started stopping : bool)
    (at_ : Z) (rt : ControllerRuntime) : ControllerRuntime :=
  MkRuntime (rt_config rt) (rt_fabric rt) (rt_index rt) (rt_health rt) inc epoch (rt_generation rt) (rt_lease rt)
    (rt_lease_counter rt) (rt_store rt) (rt_recovery rt) workers started stopping (rt_fault_point rt) at_
    (rt_records_since_snapshot rt) (rt_counters rt) (rt_dedup rt) (rt_history rt) (rt_disk rt).

Definition with_health (h : FabricHealthReport) (rt : ControllerRuntime) : ControllerRuntime :=
  MkRuntime (rt_config rt) (rt_fabric rt) (rt_index rt) (Some h) (rt_incarnation rt) (rt_epoch rt) (rt_generation rt)
    (rt_lease rt) (rt_lease_counter rt) (rt_store rt) (rt_recovery rt) (rt_workers rt) (rt_started rt)
    (rt_stop_requested rt) (rt_fault_point rt) (rt_started_at rt) (rt_records_since_snapshot rt) (rt_counters rt)
    (rt_dedup rt) (rt_history rt) (rt_disk rt).

Definition set_fault_point (p : FaultPoint) (rt : ControllerRuntime) : ControllerRuntime :=
  MkRuntime (rt_config rt) (rt_fabric rt) (rt_index rt) (rt_health rt) (rt_incarnation rt) (rt_epoch rt)
    (rt_generation rt) (rt_lease rt) (rt_lease_counter rt) (rt_store rt) (rt_recovery rt) (rt_workers rt)
    (rt_started rt) (rt_stop_requested rt) p (rt_started_at rt) (rt_records_since_snapshot rt) (rt_counters rt)
    (rt_dedup rt) (rt_history rt) (rt_disk rt).

Definition count_refused (rt : ControllerRuntime) : ControllerRuntime :=
  let c := rt_counters rt in
  with_counters (MkCounters (n_applied c) (wrap 64 (n_refused c + 1)) (n_fenced c) (n_duplicated c) (n_queries c)) rt.
Definition count_fenced (rt : ControllerRuntime) : ControllerRuntime :=
  let c := rt_counters rt in
  with_counters (MkCounters (n_applied c) (n_refused c) (wrap 64 (n_fenced c + 1)) (n_duplicated c) (n_queries c)) rt.
Definition count_duplicated (rt : ControllerRuntime) : ControllerRuntime :=
  let c := rt_counters rt in
  with_counters (MkCounters (n_applied c) (n_refused c) (n_fenced c) (wrap 64 (n_duplicated c + 1)) (n_queries c)) rt.
Definition count_applied (rt : ControllerRuntime) : ControllerRuntime :=
  let c := rt_counters rt in
  with_counters (MkCounters (wrap 64 (n_applied c + 1)) (n_refused c) (n_fenced c) (n_duplicated c) (n_queries c)) rt.
Definition count_query (rt : ControllerRuntime) : ControllerRuntime :=
  let c := rt_counters rt in
  with_counters (MkCounters (n_applied c) (n_refused c) (n_fenced c) (n_duplicated c) (wrap 64 (n_queries c + 1))) rt.

(** ** Authority *)

Definition live_digest (rt : ControllerRuntime) : Digest :=
  match rt_fabric rt with Some f => topology_digest f | None => zero_digest end.

Definition authority_context (now : Z) (rt : ControllerRuntime) : AuthorityContext :=
  MkContext (rt_incarnation rt) (rt_epoch rt) (rt_generation rt) (live_digest rt) (al_lease <$> rt_lease rt) now.

Definition lease_record (l : AuthorityLease) : list byte :=
  buffer (writes (new_writer 4096)
    [WU64 (al_lease l); WU64 (tok_issued_at (al_token l)); WU64 (tok_expires_at (al_token l)); WString (al_requester l)]).

Definition acquire_authority (io : AppendIo) (now : Z) (requester : string) (ttl_arg : Z) (rt : ControllerRuntime)
    : Outcome AuthorityLease * ControllerRuntime :=
  if negb (rt_started rt) then (fail SC_NotStarted "runtime has not been started", rt)
  else if bool_decide (requester = "") || (strlen requester >? 256) || negb (is_valid_utf8 requester) then
    (fail SC_Invalid "requester name is missing, too long, or not valid UTF-8", rt)
  else
    let ttl := if ttl_arg =? 0 then rc_authority_ttl (rt_config rt) else ttl_arg in
    if ttl =? 0 then (fail SC_Invalid "authority lease time to live must be non-zero", rt)
    else match checked_add now ttl with
    | None => (fail SC_Overflow "lease expiry overflowed", rt)
    | Some expires =>
        let counter := wrap 64 (rt_lease_counter rt + 1) in
        let lease :=
          MkLease (MkToken (rt_incarnation rt) (rt_epoch rt) (rt_generation rt) counter (live_digest rt) now expires)
            requester counter in
        let rt := with_lease (Some lease) counter rt in
        match rt_store rt with
        | None => (Value lease, rt)
        | Some s =>
            let '(appended, s) :=
              append io RT_Fence (lease_record lease) (rt_incarnation rt) (rt_epoch rt) (rt_generation rt) s in
            if negb (status_ok appended) then
              (Failure appended, with_lease None counter (with_store (Some s) (rt_records_since_snapshot rt) (rt_disk rt) rt))
            else (Value lease, with_store (Some s) (wrap 64 (rt_records_since_snapshot rt + 1)) (rt_disk rt) rt)
        end
    end.

Definition revoke_authority (io : AppendIo) (rt : ControllerRuntime) : Status * ControllerRuntime :=
  match rt_lease rt with
  | None => (MkStatus SC_NotFound "no lease is active", rt)
  | Some _ =>
      let rt := with_lease None (rt_lease_counter rt) rt in
      match rt_store rt with
      | None => (success, rt)
      | Some s =>
          let '(appended, s) := append io RT_Fence [] (rt_incarnation rt) (rt_epoch rt) (rt_generation rt) s in
          if negb (status_ok appended) then (appended, with_store (Some s) (rt_records_since_snapshot rt) (rt_disk rt) rt)
          else (success, with_store (Some s) (wrap 64 (rt_records_since_snapshot rt + 1)) (rt_disk rt) rt)
      end
  end.

Definition validate_authority (now : Z) (t : AuthorityToken) (rt : ControllerRuntime) : AuthorityCheck :=
  validate_token t (authority_context now rt).

Definition validate_path_authority_ref (now : Z) (a : PathAuthority) (rt : ControllerRuntime) : AuthorityCheck :=
  validate_path_authority a (authority_context now rt).

(** ** Commands *)

Definition hit_fault (p : FaultPoint) (rt : ControllerRuntime) : bool :=
  negb (bool_decide (rt_fault_point rt = FP_None)) && bool_decide (rt_fault_point rt = p).

(** The process may exit at a fault point instead of returning. *)
Inductive Applied :=
| Returned (r : CommandResult) (rt : ControllerRuntime)
| Exited (rt : ControllerRuntime).

Definition with_verdict_of (k : StatusCode) (d : string) (r : CommandResult) : CommandResult :=
  MkResult k d (res_request r) (res_generation r) (res_epoch r) (res_topology_digest r) (res_deduplicated r)
    (res_mutated r) (res_refreshed_token r).

Definition with_dedup_mark (b : bool) (r : CommandResult) : CommandResult :=
  MkResult (res_code r) (res_detail r) (res_request r) (res_generation r) (res_epoch r) (res_topology_digest r) b
    (res_mutated r) (res_refreshed_token r).

(** The checks that depend on the kind and the current topology only. *)
Definition command_precondition (f : Fabric) (c : Command) : Status :=
  match cmd_kind c with
  | CK_SetFabricState | CK_SetOptions | CK_SubmitEvidence | CK_ClearEvidence => success
  | CK_SetLeafState =>
      if negb (bool_decide (tier (cmd_node c) = T_Leaf)) then
        MkStatus SC_Invalid "SetLeafState requires a leaf node reference"
      else match find_leaf f (index (cmd_node c)) with
      | None => MkStatus SC_NotFound ("leaf " +:+ NodeKey_to_string (cmd_node c) +:+ " does not exist")
      | Some _ => success
      end
  | CK_SetSpineState =>
      if negb (bool_decide (tier (cmd_node c) = T_Spine)) then
        MkStatus SC_Invalid "SetSpineState requires a spine node reference"
      else match find_spine f (index (cmd_node c)) with
      | None => MkStatus SC_NotFound ("spine " +:+ NodeKey_to_string (cmd_node c) +:+ " does not exist")
      | Some _ => success
      end
  | CK_SetPortAdmin =>
      match find_port f (cmd_port c) with
      | None => MkStatus SC_NotFound ("port " +:+ PortId_to_string (cmd_port c) +:+ " does not exist")
      | Some _ => success
      end
  | CK_SetLinkAdmin | CK_RemoveLink =>
      match find_link f (cmd_link c) with
      | None => MkStatus SC_NotFound ("link " +:+ LinkId_to_string (cmd_link c) +:+ " does not exist")
      | Some _ => success
      end
  | CK_AddLink =>
      if is_zero (link_id (cmd_new_link c)) then MkStatus SC_Invalid "AddLink requires a non-zero link identity"
      else success
  end.

Definition find_recorded (id : RequestId) (dedup : list (RequestId * CommandResult)) : option CommandResult :=
  snd <$> List.find (fun p => p.1 =? id) dedup.

Definition target_generation (c : Command) (rt : ControllerRuntime) : TopologyGeneration :=
  if is_topology_command (cmd_kind c) then next_generation (rt_generation rt) else rt_generation rt.

(** The part after the durable commit: publish, refresh the lease, record, count. *)
Definition publish (c : Command) (result : CommandResult) (f : Fabric) (ix : TopologyIndex) (rt : ControllerRuntime)
    : CommandResult * ControllerRuntime :=
  let rt := with_topology f ix rt in
  let '(result, rt) :=
    match rt_lease rt with
    | None => (result, rt)
    | Some l =>
        let t := al_token l in
        let t := MkToken (tok_controller t) (tok_epoch t) (rt_generation rt) (tok_lease t) (topology_digest f)
                   (tok_issued_at t) (tok_expires_at t) in
        (MkResult (res_code result) (res_detail result) (res_request result) (res_generation result)
           (res_epoch result) (res_topology_digest result) (res_deduplicated result) (res_mutated result) t,
         with_lease (Some (MkLease t (al_requester l) (al_lease l))) (rt_lease_counter rt) rt)
    end in
  let history := if rc_max_history (rt_config rt) <=? Zlen (rt_history rt) then drop 1 (rt_history rt) else rt_history rt in
  (result,
   count_applied (with_log (rt_dedup rt ++ [(cmd_request c, result)]) (history ++ [CommandResult_to_string result]) rt)).

(** From the effect on; [f] is the current fabric, [result] the result so far. *)
Definition commit_command (io : AppendIo) (c : Command) (result : CommandResult) (f : Fabric) (rt : ControllerRuntime)
    : Applied :=
  match apply_command_to (rc_limits (rt_config rt)) f c (target_generation c rt) (rt_epoch rt) (rt_incarnation rt) with
  | Failure st => Returned (with_verdict_of (code st) (detail st) result) (count_refused rt)
  | Value mutated =>
  match build_index mutated with
  | Failure st => Returned (with_verdict_of (code st) (detail st) result) (count_refused rt)
  | Value ix =>
  if hit_fault FP_BeforeCommit rt then Exited rt
  else
    let result :=
      MkResult SC_Ok ("applied " +:+ CommandKind_to_string (cmd_kind c)) (res_request result) (fab_generation mutated)
        (rt_epoch rt) (topology_digest mutated) (res_deduplicated result) true (res_refreshed_token result) in
    let '(appended, rt) :=
      match rt_store rt with
      | None => (success, rt)
      | Some s =>
          let '(appended, s) := append_command io c result (rt_incarnation rt) (rt_epoch rt) s in
          (appended, with_store (Some s)
             (if status_ok appended then wrap 64 (rt_records_since_snapshot rt + 1) else rt_records_since_snapshot rt)
             (rt_disk rt) rt)
      end in
    if negb (status_ok appended) then
      let r := with_verdict_of (code appended) ("durable commit failed: " +:+ detail appended) result in
      Returned (MkResult (res_code r) (res_detail r) (res_request r) (res_generation r) (res_epoch r)
                  (res_topology_digest r) (res_deduplicated r) false (res_refreshed_token r)) (count_refused rt)
    else if hit_fault FP_AfterCommitBeforeAck rt then Exited rt
    else
      let '(result, rt) := publish c result mutated ix rt in
      if hit_fault FP_AfterAckBeforeSnapshot rt then Exited rt else Returned result rt
  end
  end.

(** A started runtime always holds a fabric, so the case without one does not arise. *)
Definition apply_locked (io : AppendIo) (now : Z) (c : Command) (rt : ControllerRuntime) : Applied :=
  let result :=
    MkResult SC_Ok "" (cmd_request c) (rt_generation rt) (rt_epoch rt) (live_digest rt) false false default_token in
  if negb (rt_started rt) then
    Returned (with_verdict_of SC_NotStarted "runtime has not been started" result) (count_refused rt)
  else if is_zero (cmd_request c) then
    Returned (with_verdict_of SC_Invalid "a governed command must carry a non-zero request id" result) (count_refused rt)
  else match find_recorded (cmd_request c) (rt_dedup rt) with
  | Some recorded => Returned (with_dedup_mark true recorded) (count_duplicated rt)
  | None =>
  if rc_max_dedup (rt_config rt) <=? Zlen (rt_dedup rt) then
    Returned (with_verdict_of SC_Exhausted
                "the exactly-once window is full; compact or extend max_dedup_entries" result) (count_refused rt)
  else
    let check := validate_token (cmd_token c) (authority_context now rt) in
    if negb (status_ok check) then
      Returned (with_verdict_of (code check) (detail check) result)
        (if is_stale_family (code check) then count_fenced rt else count_refused rt)
    else if negb (cmd_expected_generation c =? rt_generation rt) || negb (cmd_expected_epoch c =? rt_epoch rt) then
      Returned (with_verdict_of SC_Stale
                  ("command expected generation " +:+ std_to_string (cmd_expected_generation c) +:+ " epoch "
                   +:+ std_to_string (cmd_expected_epoch c) +:+ " but the live coordinate is "
                   +:+ std_to_string (rt_generation rt) +:+ "/" +:+ std_to_string (rt_epoch rt)) result)
        (count_fenced rt)
    else match rt_fabric rt with
    | None => Returned result rt
    | Some f =>
        let pre := command_precondition f c in
        if negb (status_ok pre) then Returned (with_verdict_of (code pre) (detail pre) result) (count_refused rt)
        else commit_command io c result f rt
    end
  end.

Definition apply (io : AppendIo) (now : Z) (c : Command) (rt : ControllerRuntime) : Applied := apply_locked io now c rt.

(** ** Queries *)

Definition with_index {A} (rt : ControllerRuntime) (k : EligibilityEngine -> Outcome A) : Outcome A * ControllerRuntime :=
  match rt_index rt with
  | None => (fail SC_NotStarted "runtime has no topology loaded", rt)
  | Some ix => (k (MkEngine ix (rt_incarnation rt)), count_query rt)
  end.

Definition unsupported_assessment (en : EligibilityEngine) (from to : NodeKey) : PathAssessment :=
  let f := en_fabric en in
  MkAssessment from to (structural_class (en_index en) from to) EV_Indeterminate SC_Unsupported (fab_generation f)
    (fab_epoch f) (en_controller en) (topology_digest f) [] [] 0 no_sets empty_capacity
    ["spine-to-spine path eligibility is outside the modelled scope"] 0 false.

Definition assess_paths (from to : NodeKey) (c : PathConstraints) (token : CancellationToken) (rt : ControllerRuntime)
    : Outcome PathAssessment * ControllerRuntime :=
  with_index rt (fun en =>
    if bool_decide (tier from = T_Leaf) && bool_decide (tier to = T_Leaf) then
      (assess_leaf_pair en (index from) (index to) c token 0%nat).1
    else if bool_decide (tier from = T_Leaf) && bool_decide (tier to = T_Spine) then
      assess_leaf_to_spine en (index from) (index to) c
    else if bool_decide (tier from = T_Spine) && bool_decide (tier to = T_Leaf) then
      assess_leaf_to_spine en (index to) (index from) c
    else Value (unsupported_assessment en from to)).

Definition eligible_spines (leaf : NodeKey) (c : PathConstraints) (token : CancellationToken) (rt : ControllerRuntime)
    : Outcome (list SpineEligibility) * ControllerRuntime :=
  if negb (bool_decide (tier leaf = T_Leaf)) then
    (fail SC_Invalid "eligible spine queries require a leaf node reference", rt)
  else with_index rt (fun en => (eligible_spines_for_leaf en (index leaf) c token 0%nat).1).

Definition query_health (c : PathConstraints) (rt : ControllerRuntime) : Outcome FabricHealthReport * ControllerRuntime :=
  with_index rt (fun en => (health en c (rt_incarnation rt) (rt_epoch rt) live_token 0%nat).1).

Definition authorize_path (now : Z) (from to : NodeKey) (c : PathConstraints) (ttl : Z) (rt : ControllerRuntime)
    : Outcome PathAuthority * ControllerRuntime :=
  let '(assessment, rt) := assess_paths from to c live_token rt in
  match assessment with
  | Failure st => (Failure st, rt)
  | Value a =>
      match rt_lease rt with
      | None => (fail SC_Refused "no active authority lease; acquire authority first", rt)
      | Some l => (mint_path_authority a (al_token l) now ttl, rt)
      end
  end.

(** ** Installing a fabric and compacting *)

Definition install_fabric_locked (io : AppendIo) (f : Fabric) (rt : ControllerRuntime) : Status * ControllerRuntime :=
  match build_index f with
  | Failure st => (st, rt)
  | Value ix =>
      match rt_store rt with
      | None => (success, with_topology f ix rt)
      | Some s =>
          let '(appended, s) := append_fabric io f (rt_incarnation rt) (rt_epoch rt) s in
          if negb (status_ok appended) then (appended, with_store (Some s) (rt_records_since_snapshot rt) (rt_disk rt) rt)
          else (success, with_topology f ix (with_store (Some s) 0 (rt_disk rt) rt))
      end
  end.

Definition install_fabric (io : AppendIo) (f : Fabric) (replace : bool) (rt : ControllerRuntime)
    : Status * ControllerRuntime :=
  if negb (rt_started rt) then (MkStatus SC_NotStarted "runtime has not been started", rt)
  else if negb replace && match rt_fabric rt with Some g => negb (bool_decide (leaves g = [])) | None => false end then
    (MkStatus SC_AlreadyExists "the runtime already holds a topology", rt)
  else install_fabric_locked io f rt.

(** Replaces or adds a file of the directory. *)
Definition dir_put (name : string) (bytes : list byte) (d : option Directory) : option Directory :=
  let e := MkDirEntry name RegularFile (FileBytes bytes) in
  let d := default [] d in
  Some (if existsb (fun x => bool_decide (de_name x = name)) d
        then (fun x => if bool_decide (de_name x = name) then e else x) <$> d else d ++ [e]).

Definition dir_remove (name : string) (d : option Directory) : option Directory :=
  List.filter (fun x => negb (bool_decide (de_name x = name))) <$> d.

(** [*fabric_] is never null on a started runtime. *)
Definition compact (io : SnapshotIo) (rt : ControllerRuntime) : Status * ControllerRuntime :=
  if negb (rt_started rt) then (MkStatus SC_NotStarted "runtime has not been started", rt)
  else match rt_store rt, rt_fabric rt with
  | None, _ => (MkStatus SC_Unsupported "persistence is disabled for this runtime", rt)
  | Some _, None => (success, rt)
  | Some s, Some f =>
      let '(written, bytes) := snapshot_write io f (fs_last_sequence s) (rc_store (rt_config rt)) in
      let disk := match bytes with Some b => dir_put snapshot_name b (rt_disk rt) | None => rt_disk rt end in
      if negb (status_ok written) then (written, with_store (Some s) (rt_records_since_snapshot rt) disk rt)
      else (success, with_store (Some s) 0 disk rt)
  end.

Definition journal_record_count (rt : ControllerRuntime) : Z :=
  match rt_store rt with Some s => fs_records s | None => 0 end.

(** The directory with the open segment in it. *)
Definition disk_of (rt : ControllerRuntime) : option Directory :=
  match rt_store rt with
  | Some s => dir_put (segment_name (fs_segment s)) (fs_bytes s) (rt_disk rt)
  | None => rt_disk rt
  end.

(** One turn of each background worker. *)
Definition sweep (now : Z) (rt : ControllerRuntime) : ControllerRuntime :=
  match rt_fabric rt with
  | None => rt
  | Some f =>
      if negb (rt_started rt) || rt_stop_requested rt then rt
      else
        let blank := MkHealth FH_Unformed SC_Ok "" [] 0 0 0 0 0 0 0 0 0 0 0 zero_incarnation zero_digest in
        let report :=
          match rt_index rt with
          | None => blank
          | Some ix =>
              match (health (MkEngine ix (rt_incarnation rt)) (defaults_for (fab_options f)) (rt_incarnation rt)
                       (rt_epoch rt) live_token 0%nat).1 with
              | Value h => h
              | Failure st =>
                  MkHealth FH_Indeterminate (code st) (detail st) [] 0 0 0 0 0 0 0 0 0 0 0 zero_incarnation zero_digest
              end
          end in
        let rt :=
          match rt_lease rt with
          | Some l => if expired_at (al_token l) now then with_lease None (rt_lease_counter rt) rt else rt
          | None => rt
          end in
        with_health report rt
  end.

Definition compactor_turn (io : SnapshotIo) (rt : ControllerRuntime) : ControllerRuntime :=
  if rt_stop_requested rt then rt
  else if rc_compaction_threshold (rt_config rt) <=? rt_records_since_snapshot rt then (compact io rt).2 else rt.

(** ** Start, stop and restart *)

(** [ReplayCollector::on_record]. *)
Definition collect_record (r : RecoveredRecord) (records : list RecoveredRecord) : Status * list RecoveredRecord :=
  if 1000000 <=? Zlen records then (MkStatus SC_Exhausted "replay bound reached", records)
  else (success, records ++ [r]).

Record ReplayState := MkReplay {
  rp_fabric : option Fabric;
  rp_epoch : Epoch;
  rp_commands : Z;
  rp_dedup : list (RequestId * CommandResult)
}.

(** A refused replay: the status [start] returns, and the code and text it leaves in the
    recovery report. *)
Inductive Replayed :=
| Refuse (st : Status) (k : StatusCode) (d : string) (s : ReplayState)
| Next (s : ReplayState).

Definition read_commit (max : Z) : Reader (list byte * list byte) :=
  fields SC_Corrupt "persisted command commit record is malformed"
    (command ← read_block max; result ← read_block max; mret (command, result)).

Definition replay_record (cfg : RuntimeConfig) (r : RecoveredRecord) (s : ReplayState) : Replayed :=
  let s := MkReplay (rp_fabric s) (if rec_epoch r >? rp_epoch s then rec_epoch r else rp_epoch s) (rp_commands s)
             (rp_dedup s) in
  match rec_type r with
  | RT_FabricSnapshot =>
      match deserialize_fabric (rec_payload r) (rc_limits cfg) with
      | Failure st => Refuse st (code st) ("persisted fabric snapshot could not be parsed: " +:+ detail st) s
      | Value f => Next (MkReplay (Some f) (rp_epoch s) (rp_commands s) (rp_dedup s))
      end
  | RT_CommandCommit =>
      let max := max_record_bytes (rc_store cfg) in
      match (read_commit max (new_reader (rec_payload r) max)).1 with
      | Failure st => Refuse st SC_Corrupt (detail st) s
      | Value (command_bytes, result_bytes) =>
          match deserialize_command command_bytes, deserialize_command_result result_bytes with
          | Value c, Value res =>
              let stored := with_dedup_mark false res in
              let dedup := if Zlen (rp_dedup s) <? rc_max_dedup cfg then rp_dedup s ++ [(cmd_request c, stored)]
                           else rp_dedup s in
              match rp_fabric s with
              | None => Next (MkReplay None (rp_epoch s) (wrap 64 (rp_commands s + 1)) dedup)
              | Some f =>
                  match apply_command_to (rc_limits cfg) f c (res_generation stored) (rec_epoch r) (rec_incarnation r) with
                  | Failure st =>
                      let d := "committed command could not be replayed: " +:+ detail st in
                      Refuse (MkStatus (code st) d) (code st) d (MkReplay (rp_fabric s) (rp_epoch s) (rp_commands s) dedup)
                  | Value g => Next (MkReplay (Some g) (rp_epoch s) (wrap 64 (rp_commands s + 1)) dedup)
                  end
              end
          | _, _ =>
              let d := "persisted command or result could not be decoded" in Refuse (MkStatus SC_Corrupt d) SC_Corrupt d s
          end
      end
  | RT_EvidenceSubmit | RT_Fence | RT_IncarnationStart | RT_Marker => Next s
  end.

Fixpoint replay_all (cfg : RuntimeConfig) (rs : list RecoveredRecord) (s : ReplayState) : Replayed :=
  match rs with
  | [] => Next s
  | r :: rs' => match replay_record cfg r s with Next s => replay_all cfg rs' s | refused => refused end
  end.

(** What the outside world answers during one start. *)
Record StartIo := MkStartIo {
  si_incarnation : ControllerIncarnation;
  si_now : Z;
  si_monotonic : Z;
  si_snapshot : SnapshotIo;
  si_removed : string -> bool;
  si_mkdir : option string;
  si_open : bool;
  si_header : option nat;
  si_sync : Status;
  si_first : AppendIo;
  si_second : AppendIo
}.

Definition start_io_fine (inc : ControllerIncarnation) (now : Z) : StartIo :=
  MkStartIo inc now now snapshot_io_fine (fun _ => true) None true None success io_fine io_fine.

Definition recovery_fatal (s : RecoveryStatus) : bool :=
  match s with RS_Corrupt | RS_ChainBroken | RS_IncompatibleVersion | RS_IoError => true | _ => false end.

Definition append_detail (d : string) (r : RecoveryReport) : RecoveryReport :=
  with_verdict (rr_status r) (rr_code r) (rr_detail r +:+ d) r.

Definition note_evidence (r : RecoveryReport) : RecoveryReport :=
  MkRecovery (rr_status r) (rr_code r) (rr_detail r) (rr_journal_present r) (rr_snapshot_present r) (rr_snapshot_used r)
    (rr_snapshot_corrupt r) (rr_records_valid r) (rr_records_rejected r) (rr_bytes_read r) (rr_bytes_dropped r)
    true true (rr_last_epoch r) (rr_last_generation r) (rr_last_incarnation r) (rr_last_chain r).

(** The first free sequence number and segment index after the segments that were read. *)
Definition next_slots (watermark : option Z) (segs : list SegmentInfo) : Z * Z :=
  fold_left (fun acc seg => (Z.max acc.1 (wrap 64 (seg_last_sequence seg + 1)), Z.max acc.2 (wrap 32 (seg_index seg + 1))))
    segs (match watermark with Some w => wrap 64 (w + 1) | None => 1 end, 1).

(** The compaction a start does when one more segment would exceed the bound. *)
Definition prune_segments (io : StartIo) (f : option Fabric) (segs : list SegmentInfo) (rt : ControllerRuntime)
    : Status * ControllerRuntime :=
  match f, last segs with
  | Some f, Some final =>
      let store := rc_store (rt_config rt) in
      if Zlen segs + 1 >? max_segments store then
        let '(written, bytes) := snapshot_write (si_snapshot io) f (seg_last_sequence final) store in
        let disk := match bytes with Some b => dir_put snapshot_name b (rt_disk rt) | None => rt_disk rt end in
        if negb (status_ok written) then
          (MkStatus (code written)
             ("state directory is at its segment bound and compaction failed: " +:+ detail written),
           with_store (rt_store rt) (rt_records_since_snapshot rt) disk rt)
        else
          let disk := fold_left (fun d seg => if si_removed io (seg_name seg) then dir_remove (seg_name seg) d else d) segs disk in
          (success,
           with_recovery (append_detail ("; pruned " +:+ std_to_string (Zlen segs) +:+ " segment(s) covered by a new snapshot")
                            (rt_recovery rt)) (with_store (rt_store rt) (rt_records_since_snapshot rt) disk rt))
      else (success, rt)
  | _, _ => (success, rt)
  end.

(** The notes a successful replay adds to the report. *)
Definition replay_notes (f : option Fabric) (commands : Z) (r : RecoveryReport) : RecoveryReport :=
  let r := match f with Some f => if bool_decide (evidence f = []) then r else note_evidence r | None => r end in
  let r := append_detail ("; replayed " +:+ std_to_string commands +:+ " committed command(s)") r in
  if rr_dynamic_evidence r then
    append_detail "; dynamic evidence recovered from a previous incarnation is historical" (note_evidence r)
  else r.

(** The persisted part of [start]: the recovered fabric and epoch, the next sequence
    number and the next segment. *)
Definition recover_runtime (io : StartIo) (rt : ControllerRuntime)
    : Outcome (option Fabric * Epoch * Z * Z) * ControllerRuntime :=
  let cfg := rt_config rt in
  match recover_store (Some collect_record) (rt_disk rt) (rc_state_dir cfg) (rc_store cfg) [] with
  | (Failure st, _) => (Failure st, rt)
  | (Value o, records) =>
      let report := ro_report o in
      let rt := with_recovery report rt in
      if recovery_fatal (rr_status report) then
        (fail (if bool_decide (rr_code report = SC_Ok) then SC_Corrupt else rr_code report)
           ("persisted state cannot be used: " +:+ rr_detail report), rt)
      else
        let snapshot := if ro_snapshot_accepted o then ro_fabric o else None in
        let '(next_sequence, next_segment) :=
          next_slots (match snapshot with Some _ => Some (ro_watermark o) | None => None end) (ro_segments o) in
        match replay_all cfg records (MkReplay snapshot (rr_last_epoch report) 0 (rt_dedup rt)) with
        | Refuse st k d s =>
            (Failure st, with_recovery (with_verdict RS_Corrupt k d report) (with_log (rp_dedup s) (rt_history rt) rt))
        | Next s =>
            let rt := with_log (rp_dedup s) (rt_history rt) rt in
            let '(pruned, rt) := prune_segments io (rp_fabric s) (ro_segments o) rt in
            if negb (status_ok pruned) then (Failure pruned, rt)
            else
              (Value (rp_fabric s, rp_epoch s, next_sequence, next_segment),
               with_recovery (replay_notes (rp_fabric s) (rp_commands s) (rt_recovery rt)) rt)
        end
  end.

(** The fabric of a first start. *)
Definition initial_fabric (cfg : RuntimeConfig) (epoch : Epoch) : Outcome Fabric :=
  let b := new_builder (rc_fabric_id cfg) (rc_name cfg) 1 epoch (rc_options cfg) (rc_limits cfg) in
  (freeze (set_site b (rc_site cfg)).2).1.

(** Opens a new segment and writes its first two records. *)
Definition open_segment (io : StartIo) (f : Fabric) (next_segment next_sequence : Z) (rt : ControllerRuntime)
    : Status * ControllerRuntime :=
  let cfg := rt_config rt in
  let name := segment_name next_segment in
  let exists_ := match rt_disk rt with
                 | Some d => match dir_file d name with FileAbsent => false | _ => true end
                 | None => false
                 end in
  match create_store (path_join (rc_state_dir cfg) name) (si_mkdir io) exists_ (si_open io) (si_header io) (si_sync io)
          (si_now io) (rc_store cfg) (rt_incarnation rt) next_segment next_sequence with
  | (Failure st, leftover) =>
      (st, with_store (rt_store rt) (rt_records_since_snapshot rt)
             (match leftover with Some b => dir_put name b (rt_disk rt) | None => rt_disk rt end) rt)
  | (Value s, _) =>
      let rt := with_store (Some s) (rt_records_since_snapshot rt) (rt_disk rt) rt in
      let '(first, s) := append (si_first io) RT_IncarnationStart [] (rt_incarnation rt) (rt_epoch rt) (rt_generation rt) s in
      if negb (status_ok first) then (first, with_store (Some s) (rt_records_since_snapshot rt) (rt_disk rt) rt)
      else
        let '(second, s) := append_fabric (si_second io) f (rt_incarnation rt) (rt_epoch rt) s in
        if negb (status_ok second) then (second, with_store (Some s) (rt_records_since_snapshot rt) (rt_disk rt) rt)
        else (success, with_store (Some s) 0 (rt_disk rt) rt)
  end.

Definition workers_of (cfg : RuntimeConfig) : Z :=
  if rc_worker_threads cfg =? 0 then 0 else if rc_worker_threads cfg =? 1 then 1 else 2.

(** The part of [start] after recovery. *)
Definition finish_start (io : StartIo) (recovered : option Fabric) (recovered_epoch : Epoch)
    (next_sequence next_segment : Z) (rt : ControllerRuntime) : Status * ControllerRuntime :=
  let cfg := rt_config rt in
  match match recovered with Some f => Value f | None => initial_fabric cfg (rt_epoch rt) end with
  | Failure st => (st, rt)
  | Value f =>
      let set_fabric ix :=
        MkRuntime cfg (Some f) ix (rt_health rt) (rt_incarnation rt) (rt_epoch rt) (fab_generation f) (rt_lease rt)
          (rt_lease_counter rt) (rt_store rt) (rt_recovery rt) (rt_workers rt) (rt_started rt) (rt_stop_requested rt)
          (rt_fault_point rt) (rt_started_at rt) (rt_records_since_snapshot rt) (rt_counters rt) (rt_dedup rt)
          (rt_history rt) (rt_disk rt) in
      match build_index f with
      | Failure st => (st, set_fabric (rt_index rt))
      | Value ix =>
          let rt := set_fabric (Some ix) in
          let rt := with_lifecycle (rt_incarnation rt) (wrap 64 (recovered_epoch + 1)) (rt_workers rt) (rt_started rt)
                      (rt_stop_requested rt) (rt_started_at rt) rt in
          let '(opened, rt) := if persistent cfg then open_segment io f next_segment next_sequence rt else (success, rt) in
          if negb (status_ok opened) then (opened, rt)
          else
            (success,
             with_lease None (rt_lease_counter rt)
               (with_lifecycle (rt_incarnation rt) (rt_epoch rt) (workers_of cfg) true (rt_stop_requested rt)
                  (si_monotonic io) rt))
      end
  end.

(** The members a start resets before it recovers; a segment that an earlier failed start
    left open is a file of the directory. *)
Definition begin_start (io : StartIo) (rt : ControllerRuntime) : ControllerRuntime :=
  let rt := with_lifecycle (si_incarnation io) 1 (rt_workers rt) (rt_started rt) false (rt_started_at rt) rt in
  with_log [] [] (with_recovery empty_recovery (with_store (rt_store rt) 0 (disk_of rt) rt)).

Definition start (io : StartIo) (rt : ControllerRuntime) : Status * ControllerRuntime :=
  if rt_started rt then (success, rt)
  else
    let rt := begin_start io rt in
    if persistent (rt_config rt) then
      match recover_runtime io rt with
      | (Failure st, rt) => (st, rt)
      | (Value (f, epoch, next_sequence, next_segment), rt) => finish_start io f epoch next_sequence next_segment rt
      end
    else finish_start io None 0 1 1 rt.

Definition stop (short : option nat) (sync : Status) (rt : ControllerRuntime) : Status * ControllerRuntime :=
  if negb (rt_started rt) && (rt_workers rt =? 0) then (success, rt)
  else
    let was := rt_started rt in
    let rt := with_lifecycle (rt_incarnation rt) (rt_epoch rt) 0 (rt_started rt) true (rt_started_at rt) rt in
    if negb was then (success, rt)
    else
      let rt := with_lifecycle (rt_incarnation rt) (rt_epoch rt) 0 false true (rt_started_at rt) rt in
      let rt := with_lease None (rt_lease_counter rt) rt in
      match rt_store rt with
      | None => (success, rt)
      | Some s =>
          let '(closed, s) := close_clean short sync s in
          let rt := with_store None (rt_records_since_snapshot rt)
                      (disk_of (with_store (Some s) (rt_records_since_snapshot rt) (rt_disk rt) rt)) rt in
          if negb (status_ok closed) then (closed, rt) else (success, rt)
      end.

Definition restart (short : option nat) (sync : Status) (io : StartIo) (rt : ControllerRuntime)
    : Status * ControllerRuntime :=
  let '(stopped, rt) := stop short sync rt in
  if negb (status_ok stopped) then (stopped, rt) else start io rt.

(** ** Status *)

Record RuntimeStatus := MkRuntimeStatus {
  st_started : bool;
  st_fabric_id : FabricId;
  st_name : string;
  st_site : string;
  st_fabric_state : FabricState;
  st_controller : ControllerIncarnation;
  st_epoch : Epoch;
  st_generation : TopologyGeneration;
  st_topology_digest : Digest;
  st_evidence_digest : Digest;
  st_health : FabricHealth;
  st_leaf_count : Z;
  st_spine_count : Z;
  st_port_count : Z;
  st_link_count : Z;
  st_history_count : Z;
  st_evidence_count : Z;
  st_counters : Counters;
  st_worker_threads : Z;
  st_persistence : bool;
  st_recovery : RecoveryReport;
  st_active_lease : LeaseId;
  st_lease_expires : Z;
  st_uptime : Z;
  st_fault_point : FaultPoint
}.

Definition runtime_status (monotonic : Z) (rt : ControllerRuntime) : RuntimeStatus :=
  let cfg := rt_config rt in
  let of_fabric {A} (k : Fabric -> A) (d : A) : A := match rt_fabric rt with Some f => k f | None => d end in
  let count {A} (k : Fabric -> list A) : Z := of_fabric (fun f => wrap 32 (Zlen (k f))) 0 in
  MkRuntimeStatus (rt_started rt) (rc_fabric_id cfg) (of_fabric fab_name (rc_name cfg)) (of_fabric fab_site (rc_site cfg))
    (of_fabric fab_state FS_Unformed) (rt_incarnation rt) (rt_epoch rt) (rt_generation rt)
    (of_fabric topology_digest zero_digest) (of_fabric evidence_digest zero_digest)
    (match rt_health rt with
     | Some h => hr_health h
     | None => of_fabric (fun f => if bool_decide (fab_state f = FS_Unformed) then FH_Unformed else FH_Indeterminate) FH_Unformed
     end)
    (count leaves) (count spines) (count ports) (count links) (count history_links) (count evidence)
    (rt_counters rt) (wrap 32 (rt_workers rt)) (persistent cfg) (rt_recovery rt)
    (match rt_lease rt with Some l => al_lease l | None => 0 end)
    (match rt_lease rt with Some l => tok_expires_at (al_token l) | None => 0 end)
    (if rt_started_at rt =? 0 then 0 else wrap 64 (monotonic - rt_started_at rt)) (rt_fault_point rt).

Definition RuntimeStatus_to_string (s : RuntimeStatus) : string :=
  "runtime: " +:+ (if st_started s then "started" else "stopped") +:+ " fabric=" +:+ FabricId_to_string (st_fabric_id s)
  +:+ " name=" +:+ quote +:+ st_name s +:+ quote
  +:+ (if bool_decide (st_site s = "") then "" else " site=" +:+ quote +:+ st_site s +:+ quote) +:+ newline
  +:+ "  state=" +:+ FabricState_to_string (st_fabric_state s) +:+ " health=" +:+ FabricHealth_to_string (st_health s)
  +:+ " generation=" +:+ std_to_string (st_generation s) +:+ " epoch=" +:+ std_to_string (st_epoch s) +:+ newline
  +:+ "  controller=" +:+ incarnation_to_string (st_controller s) +:+ " uptime_ms=" +:+ std_to_string (st_uptime s)
  +:+ " workers=" +:+ std_to_string (st_worker_threads s)
  +:+ " persistence=" +:+ (if st_persistence s then "on" else "off") +:+ newline
  +:+ "  topology_digest=" +:+ short_hex 16 (st_topology_digest s)
  +:+ " evidence_digest=" +:+ (if st_evidence_count s =? 0 then "none" else short_hex 16 (st_evidence_digest s)) +:+ newline
  +:+ "  topology: leaves=" +:+ std_to_string (st_leaf_count s) +:+ " spines=" +:+ std_to_string (st_spine_count s)
  +:+ " ports=" +:+ std_to_string (st_port_count s) +:+ " links=" +:+ std_to_string (st_link_count s)
  +:+ " history_links=" +:+ std_to_string (st_history_count s) +:+ " evidence=" +:+ std_to_string (st_evidence_count s)
  +:+ newline
  +:+ "  commands: applied=" +:+ std_to_string (n_applied (st_counters s))
  +:+ " refused=" +:+ std_to_string (n_refused (st_counters s)) +:+ " fenced=" +:+ std_to_string (n_fenced (st_counters s))
  +:+ " deduplicated=" +:+ std_to_string (n_duplicated (st_counters s))
  +:+ " queries=" +:+ std_to_string (n_queries (st_counters s)) +:+ newline
  +:+ "  lease=" +:+ std_to_string (st_active_lease s) +:+ " expires_at_ms=" +:+ std_to_string (st_lease_expires s)
  +:+ " fault_point=" +:+ FaultPoint_to_string (st_fault_point s) +:+ newline
  +:+ "  recovery: " +:+ RecoveryReport_to_string (st_recovery s).

Definition RecoveryStatus_to_u8 (s : RecoveryStatus) : Z :=
  match s with
  | RS_Missing => 0 | RS_Empty => 1 | RS_Clean => 2 | RS_CrashWithoutTrailer => 3 | RS_TruncatedTail => 4
  | RS_ChainBroken => 5 | RS_Corrupt => 6 | RS_IncompatibleVersion => 7 | RS_IoError => 8
  end.

Definition status_digest_ops (s : RuntimeStatus) : list WriteOp :=
  [WString "slf.runtime_status.v1"; WU8 (bool_u8 (st_started s)); WU64 (st_fabric_id s); WString (st_name s);
   WString (st_site s); WU8 (FabricState_to_u8 (st_fabric_state s)); WU64 (hi (st_controller s));
   WU64 (lo (st_controller s)); WU64 (st_epoch s); WU64 (st_generation s);
   WBlock (digest_bytes (st_topology_digest s)); WBlock (digest_bytes (st_evidence_digest s));
   WU8 (FabricHealth_to_u8 (st_health s)); WU32 (st_leaf_count s); WU32 (st_spine_count s); WU32 (st_port_count s);
   WU32 (st_link_count s); WU32 (st_history_count s); WU32 (st_evidence_count s);
   WU64 (n_applied (st_counters s)); WU64 (n_refused (st_counters s)); WU64 (n_fenced (st_counters s));
   WU64 (n_duplicated (st_counters s)); WU64 (n_queries (st_counters s)); WU32 (st_worker_threads s);
   WU8 (bool_u8 (st_persistence s)); WU64 (st_active_lease s); WU64 (st_lease_expires s);
   WU8 (FaultPoint_to_u8 (st_fault_point s)); WU8 (RecoveryStatus_to_u8 (rr_status (st_recovery s)));
   WU64 (rr_records_valid (st_recovery s)); WU64 (rr_bytes_dropped (st_recovery s))].

Definition status_digest (s : RuntimeStatus) : Digest := digest_build (status_digest_ops s).
