(* ===== verification/RuntimeSpec.v ===== *)
(** * What the runtime promises (src/runtime.cpp)

    Commands are all or nothing, authorised at the live coordinate, and applied at most
    once; a runtime that keeps a journal can be rebuilt from it. *)
From S2P Require Import Prelude Status Checked Identity Bytes Digest Capacity Model Builder BuilderSpec Sample Freeze Codec CodecSpec Topology Eligibility Governance GovernanceSpec Store StoreDir StoreSpec Durability Effect EffectSpec Runtime.

#[local] Strategy 10000 [sha_finish update_span sha256 le_store].
#[local] Opaque encode_journal_header digest_of digest_of_two record_front.

(** ** One command *)

(** Equal up to the counters, the journal and the workers. *)
Record rt_same (a b : ControllerRuntime) : Prop := {
  sm_config : rt_config b = rt_config a;
  sm_fabric : rt_fabric b = rt_fabric a;
  sm_index : rt_index b = rt_index a;
  sm_incarnation : rt_incarnation b = rt_incarnation a;
  sm_epoch : rt_epoch b = rt_epoch a;
  sm_generation : rt_generation b = rt_generation a;
  sm_lease : rt_lease b = rt_lease a;
  sm_lease_counter : rt_lease_counter b = rt_lease_counter a;
  sm_started : rt_started b = rt_started a;
  sm_dedup : rt_dedup b = rt_dedup a;
  sm_history : rt_history b = rt_history a;
  sm_disk : rt_disk b = rt_disk a
}.

Lemma rt_same_refl rt : rt_same rt rt.
Proof. by split. Qed.
Lemma rt_same_refused rt : rt_same rt (count_refused rt).
Proof. by split. Qed.
Lemma rt_same_fenced rt : rt_same rt (count_fenced rt).
Proof. by split. Qed.
Lemma rt_same_duplicated rt : rt_same rt (count_duplicated rt).
Proof. by split. Qed.
Lemma rt_same_store rt s n : rt_same rt (with_store s n (rt_disk rt) rt).
Proof. by split. Qed.
Lemma rt_same_trans a b c : rt_same a b -> rt_same b c -> rt_same a c.
Proof. intros [] []. split; congruence. Qed.
#[local] Hint Resolve rt_same_refl rt_same_refused rt_same_fenced rt_same_duplicated rt_same_store : slf.

(** What must hold for a command to take effect. *)
Record authorised (now : Z) (c : Command) (rt : ControllerRuntime) : Prop := {
  au_started : rt_started rt = true;
  au_request : cmd_request c <> 0;
  au_fresh : find_recorded (cmd_request c) (rt_dedup rt) = None;
  au_window : Zlen (rt_dedup rt) < rc_max_dedup (rt_config rt);
  au_token : code (validate_token (cmd_token c) (authority_context now rt)) = SC_Ok;
  au_generation : cmd_expected_generation c = rt_generation rt;
  au_epoch : cmd_expected_epoch c = rt_epoch rt
}.

(** The result of a command that was applied to [f] and gave [f']. *)
Definition committed_result (c : Command) (f' : Fabric) (rt : ControllerRuntime) : CommandResult :=
  MkResult SC_Ok ("applied " +:+ CommandKind_to_string (cmd_kind c)) (cmd_request c) (fab_generation f') (rt_epoch rt)
    (topology_digest f') false true default_token.

(** The journal's part in a command that took effect. *)
Definition committed_store (io : AppendIo) (c : Command) (f' : Fabric) (rt rt' : ControllerRuntime) : Prop :=
  match rt_store rt with
  | None => rt_store rt' = None
  | Some s =>
      let r := append_command io c (committed_result c f' rt) (rt_incarnation rt) (rt_epoch rt) s in
      status_ok r.1 = true /\ rt_store rt' = Some r.2
  end.

(** The journal when nothing took effect: untouched, or after an append that failed. *)
Definition kept_store (io : AppendIo) (c : Command) (rt rt' : ControllerRuntime) : Prop :=
  rt_store rt' = rt_store rt
  \/ exists s f', rt_store rt = Some s /\ fab_generation f' = target_generation c rt
     /\ let r := append_command io c (committed_result c f' rt) (rt_incarnation rt) (rt_epoch rt) s in
        status_ok r.1 = false /\ rt_store rt' = Some r.2.

(** The lease after a commit: its token moves to the new coordinate. *)
Definition refresh_lease (f : Fabric) (l : AuthorityLease) : AuthorityLease :=
  let t := al_token l in
  MkLease (MkToken (tok_controller t) (tok_epoch t) (fab_generation f) (tok_lease t) (topology_digest f) (tok_issued_at t)
             (tok_expires_at t)) (al_requester l) (al_lease l).

Record took_effect (io : AppendIo) (now : Z) (c : Command) (rt : ControllerRuntime) (r : CommandResult)
    (rt' : ControllerRuntime) (f f' : Fabric) : Prop := {
  te_authorised : authorised now c rt;
  te_fabric : rt_fabric rt = Some f;
  te_effect : apply_command_to (rc_limits (rt_config rt)) f c (target_generation c rt) (rt_epoch rt) (rt_incarnation rt) = Value f';
  te_store : committed_store io c f' rt rt';
  te_published : rt_fabric rt' = Some f' /\ (exists ix, rt_index rt' = Some ix /\ build_index f' = Value ix);
  te_coordinate : rt_generation rt' = target_generation c rt /\ rt_epoch rt' = rt_epoch rt
                  /\ rt_incarnation rt' = rt_incarnation rt /\ rt_config rt' = rt_config rt /\ rt_started rt' = true
                  /\ rt_disk rt' = rt_disk rt /\ rt_lease_counter rt' = rt_lease_counter rt;
  te_result : without_token r = committed_result c f' rt;
  te_recorded : rt_dedup rt' = rt_dedup rt ++ [(cmd_request c, r)];
  te_lease : rt_lease rt' = refresh_lease f' <$> rt_lease rt;
  te_refreshed : forall l, rt_lease rt = Some l -> res_refreshed_token r = al_token (refresh_lease f' l)
}.

Lemma publish_effect c result f ix rt r rt' :
  publish c result f ix rt = (r, rt') ->
  rt_fabric rt' = Some f /\ rt_index rt' = Some ix /\ rt_generation rt' = fab_generation f /\ rt_epoch rt' = rt_epoch rt
  /\ rt_incarnation rt' = rt_incarnation rt /\ rt_config rt' = rt_config rt /\ rt_started rt' = rt_started rt
  /\ rt_disk rt' = rt_disk rt /\ rt_lease_counter rt' = rt_lease_counter rt /\ rt_store rt' = rt_store rt
  /\ rt_fault_point rt' = rt_fault_point rt
  /\ without_token r = without_token result /\ rt_dedup rt' = rt_dedup rt ++ [(cmd_request c, r)]
  /\ rt_lease rt' = refresh_lease f <$> rt_lease rt
  /\ (forall l, rt_lease rt = Some l -> res_refreshed_token r = al_token (refresh_lease f l)).
Proof.
  unfold publish. cbn [rt_lease with_topology]. destruct (rt_lease rt) as [l|] eqn:El; intros [= <- <-]; split_and!; try done; intros ? H; by simplify_eq.
Qed.

Lemma commit_outcome io now c f rt r rt' :
  let blank := MkResult SC_Ok "" (cmd_request c) (rt_generation rt) (rt_epoch rt) (live_digest rt) false false default_token in
  authorised now c rt -> rt_fabric rt = Some f -> commit_command io c blank f rt = Returned r rt' ->
  (rt_same rt rt' /\ kept_store io c rt rt' /\ res_mutated r = false) \/ exists f', took_effect io now c rt r rt' f f'.
Proof.
  intros blank Ha Hf. unfold commit_command.
  destruct (apply_command_to _ _ _ _ _ _) as [f'|st] eqn:Ee; [|intros [= <- <-]; left; split_and!; [auto with slf|by left|done]].
  destruct (build_index f') as [ix|st] eqn:Ei; [|intros [= <- <-]; left; split_and!; [auto with slf|by left|done]].
  destruct (hit_fault FP_BeforeCommit rt); [done|]. cbn [res_request res_deduplicated res_refreshed_token blank].
  change (MkResult SC_Ok ("applied " +:+ CommandKind_to_string (cmd_kind c)) (cmd_request c) (fab_generation f') (rt_epoch rt)
    (topology_digest f') false true default_token) with (committed_result c f' rt).
  destruct (apply_command_coordinate _ _ _ _ _ _ _ Ee) as (Hg & _).
  set (journal := match rt_store rt with None => (success, rt) | Some s => _ end).
  assert (exists n s, journal.2 = with_store s n (rt_disk rt) rt) as (n & s & Ej).
  { subst journal. destruct (rt_store rt) as [s|] eqn:Es; [|exists (rt_records_since_snapshot rt), None; clear -Es; destruct rt; cbn in *; by subst].
    destruct (append_command _ _ _ _ _ _) as [a s']. by eexists _, _. }
  assert (status_ok journal.1 = true -> committed_store io c f' rt journal.2) as Hcs.
  { subst journal. unfold committed_store. destruct (rt_store rt) as [s0|] eqn:Es; [|by cbn].
    destruct (append_command _ _ _ _ _ _) as [a s'] eqn:E. cbn [fst snd]. cbv zeta. cbn [fst snd]. by split. }
  assert (status_ok journal.1 = false -> kept_store io c rt journal.2) as Hks.
  { subst journal. unfold kept_store. destruct (rt_store rt) as [s0|] eqn:Es; [|done].
    destruct (append_command io c (committed_result c f' rt) (rt_incarnation rt) (rt_epoch rt) s0) as [a s'] eqn:E. cbn [fst snd]. intros Hno.
    right. exists s0, f'. rewrite E. by split_and!. }
  destruct journal as [appended rt1]. cbn [fst snd] in *. subst rt1.
  destruct (status_ok appended) eqn:Eo; cbn [negb].
  2:{ intros [= <- <-]. left. split_and!; [|exact (Hks eq_refl)|done]. eapply rt_same_trans; [apply rt_same_store|apply rt_same_refused]. }
  destruct (hit_fault FP_AfterCommitBeforeAck _); [done|].
  destruct (publish c (committed_result c f' rt) f' ix (with_store s n (rt_disk rt) rt)) as [r1 rt1] eqn:Ep.
  destruct (hit_fault FP_AfterAckBeforeSnapshot rt1); [done|]. intros [= <- <-]. right. exists f'.
  apply publish_effect in Ep as (P1 & P2 & P3 & P4 & P5 & P6 & P7 & P8 & P9 & P10 & _ & P11 & P12 & P13 & P14).
  split; try done.
  - specialize (Hcs eq_refl). unfold committed_store in *. rewrite P10. cbn [rt_store with_store] in *. done.
  - split; [done|]. by exists ix.
  - split_and!; try done; [by rewrite P3, Hg|]. rewrite P7. apply Ha.
Qed.

Lemma apply_outcome io now c rt r rt' :
  (rt_started rt = true -> is_Some (rt_fabric rt)) ->
  apply io now c rt = Returned r rt' ->
  (rt_same rt rt' /\ kept_store io c rt rt' /\ (res_mutated r = true -> res_deduplicated r = true))
  \/ exists f f', took_effect io now c rt r rt' f f'.
Proof.
  intros Hfab. unfold apply, apply_locked. cbv zeta.
  destruct (rt_started rt) eqn:Est; cbn [negb]; [|intros [= <- <-]; left; split_and!; [auto with slf|by left|done]].
  destruct (is_zero (cmd_request c)) eqn:Ez; [intros [= <- <-]; left; split_and!; [auto with slf|by left|done]|].
  destruct (find_recorded _ _) eqn:Er; [intros [= <- <-]; left; split_and!; [auto with slf|by left|done]|].
  destruct (Z.leb_spec (rc_max_dedup (rt_config rt)) (Zlen (rt_dedup rt))); [intros [= <- <-]; left; split_and!; [auto with slf|by left|done]|].
  destruct (status_ok (validate_token (cmd_token c) (authority_context now rt))) eqn:Ev; cbn [negb].
  2:{ intros [= <- <-]. left. split_and!; [case_match; auto with slf|left; by case_match|done]. }
  destruct (Z.eqb_spec (cmd_expected_generation c) (rt_generation rt)) as [Eg|]; cbn [negb orb]; [|intros [= <- <-]; left; split_and!; [auto with slf|by left|done]].
  destruct (Z.eqb_spec (cmd_expected_epoch c) (rt_epoch rt)) as [Ee|]; cbn [negb]; [|intros [= <- <-]; left; split_and!; [auto with slf|by left|done]].
  destruct (Hfab eq_refl) as [f Ef]. rewrite Ef.
  destruct (status_ok (command_precondition f c)); cbn [negb]; [|intros [= <- <-]; left; split_and!; [auto with slf|by left|done]].
  intros Hc. assert (authorised now c rt) as Ha.
  { split; try done. - by apply Z.eqb_neq. - unfold status_ok, is_ok in Ev. by apply bool_decide_eq_true in Ev. }
  destruct (commit_outcome io now c f rt r rt' Ha Ef Hc) as [(H1 & H2 & H3)|[f' H1]]; [left; split_and!; [done|done|congruence]|].
  right. by exists f, f'.
Qed.


(** ** Runs of a started runtime *)

Inductive live_step : ControllerRuntime -> ControllerRuntime -> Prop :=
| ls_acquire io now who ttl rt : live_step rt (acquire_authority io now who ttl rt).2
| ls_revoke io rt : live_step rt (revoke_authority io rt).2
| ls_apply io now c rt r rt' : apply io now c rt = Returned r rt' -> live_step rt rt'
| ls_install io f replace rt : live_step rt (install_fabric io f replace rt).2
| ls_compact io rt : live_step rt (compact io rt).2
| ls_sweep now rt : live_step rt (sweep now rt)
| ls_compactor io rt : live_step rt (compactor_turn io rt)
| ls_assess from to c t rt : live_step rt (assess_paths from to c t rt).2
| ls_spines leaf c t rt : live_step rt (eligible_spines leaf c t rt).2
| ls_health c rt : live_step rt (query_health c rt).2
| ls_authorize now from to c ttl rt : live_step rt (authorize_path now from to c ttl rt).2
| ls_fault p rt : live_step rt (set_fault_point p rt).

(** What every step keeps. *)
Record rt_frame (a b : ControllerRuntime) : Prop := {
  fr_config : rt_config b = rt_config a;
  fr_incarnation : rt_incarnation b = rt_incarnation a;
  fr_epoch : rt_epoch b = rt_epoch a;
  fr_started : rt_started b = rt_started a;
  fr_dedup : exists l, rt_dedup b = rt_dedup a ++ l;
  fr_counter : rt_lease_counter b = rt_lease_counter a \/ rt_lease_counter b = wrap 64 (rt_lease_counter a + 1)
}.

(** The consistency of what a started runtime publishes. *)
Record rt_ok (rt : ControllerRuntime) : Prop := {
  ok_published : rt_started rt = true -> exists f ix, rt_fabric rt = Some f /\ rt_index rt = Some ix
                 /\ build_index f = Value ix /\ rt_generation rt = fab_generation f;
  ok_lease : forall l, rt_lease rt = Some l -> tok_controller (al_token l) = rt_incarnation rt
             /\ tok_epoch (al_token l) = rt_epoch rt /\ tok_lease (al_token l) = al_lease l;
  ok_window : Zlen (rt_dedup rt) <= Z.max 0 (rc_max_dedup (rt_config rt))
}.

Lemma frame_refl rt : rt_frame rt rt.
Proof. split; try done; [|by left]. exists []. by rewrite app_nil_r. Qed.

Lemma frame_same rt rt' : rt_same rt rt' -> rt_frame rt rt'.
Proof. intros []. split; try done; [|by left]. exists []. by rewrite app_nil_r. Qed.

Lemma ok_same rt rt' : rt_same rt rt' -> rt_ok rt -> rt_ok rt'.
Proof. intros [] [H1 H2 H3]. split; [|intros l|]; repeat match goal with H : _ rt' = _ rt |- _ => rewrite H end; auto. Qed.

(** Steps that change the lease or the journal only. *)
Ltac plain_step := split; [split; try done; try (by left); try (exists []; by rewrite app_nil_r)|].

Lemma acquire_ok io now who ttl rt : rt_ok rt -> rt_frame rt (acquire_authority io now who ttl rt).2 /\ rt_ok (acquire_authority io now who ttl rt).2.
Proof.
  intros [H1 H2 H3]. unfold acquire_authority. destruct (negb (rt_started rt)); [split; [apply frame_refl|by split]|].
  destruct (_ || _ || _); [split; [apply frame_refl|by split]|]. cbv zeta. destruct (_ =? 0); [split; [apply frame_refl|by split]|].
  destruct (checked_add _ _) as [e|]; [|split; [apply frame_refl|by split]]. cbn [rt_store with_lease].
  destruct (rt_store rt) as [s|].
  - destruct (append _ _ _ _ _ _ s) as [a s']. destruct (status_ok a); cbn [negb snd];
      (split; [split; try done; try (by right); exists []; by rewrite app_nil_r|]); (split; [done| |done]); by intros l [= <-].
  - cbn [snd]. split; [split; try done; [exists []; by rewrite app_nil_r|by right]|]. split; [done| |done]. by intros l [= <-].
Qed.

Lemma revoke_ok io rt : rt_ok rt -> rt_frame rt (revoke_authority io rt).2 /\ rt_ok (revoke_authority io rt).2.
Proof.
  intros Hok. pose proof Hok as [H1 H2 H3]. unfold revoke_authority. destruct (rt_lease rt) as [l|]; [|split; [apply frame_refl|exact Hok]].
  cbv zeta. cbn [rt_store with_lease]. destruct (rt_store rt) as [s|].
  - destruct (append _ _ _ _ _ _ s) as [a s']. destruct (status_ok a); cbn [negb snd]; plain_step; by split.
  - cbn [snd]. plain_step. by split.
Qed.

Lemma install_ok io f replace rt : rt_ok rt -> rt_frame rt (install_fabric io f replace rt).2 /\ rt_ok (install_fabric io f replace rt).2.
Proof.
  intros Hok. assert (rt_frame rt rt /\ rt_ok rt) as Hsame by (split; [apply frame_refl|done]). pose proof Hok as [H1 H2 H3].
  unfold install_fabric, install_fabric_locked. destruct (negb _); [done|]. destruct (_ && _); [done|].
  destruct (build_index f) as [ix|] eqn:Ei; [|done].
  destruct (rt_store rt) as [s|].
  - destruct (append_fabric io f _ _ s) as [a s']. destruct (status_ok a); cbn [negb snd]; plain_step; split; try done.
    intros _. by exists f, ix.
  - cbn [snd]. plain_step. split; try done. intros _. by exists f, ix.
Qed.

Lemma compact_ok io rt : rt_ok rt -> rt_frame rt (compact io rt).2 /\ rt_ok (compact io rt).2.
Proof.
  intros Hok. assert (rt_frame rt rt /\ rt_ok rt) as Hsame by (split; [apply frame_refl|done]). pose proof Hok as [H1 H2 H3].
  unfold compact. destruct (negb _); [done|]. destruct (rt_store rt) as [s|]; [|done]. destruct (rt_fabric rt) as [f|] eqn:Ef; [|done].
  destruct (snapshot_write _ _ _ _) as [w b]. destruct (status_ok w); cbn [negb snd]; plain_step; split; try done; cbn; by rewrite Ef.
Qed.

Lemma sweep_ok now rt : rt_ok rt -> rt_frame rt (sweep now rt) /\ rt_ok (sweep now rt).
Proof.
  intros Hok. assert (rt_frame rt rt /\ rt_ok rt) as Hsame by (split; [apply frame_refl|done]). pose proof Hok as [H1 H2 H3].
  unfold sweep. destruct (rt_fabric rt) as [f|] eqn:Ef; [|done]. destruct (_ || _); [done|]. cbv zeta.
  destruct (rt_lease rt) as [l|] eqn:El; [destruct (expired_at _ _)|]; plain_step; split; cbn; try done; try by rewrite Ef.
  all: by rewrite El.
Qed.

Lemma query_same {A} rt (k : EligibilityEngine -> Outcome A) : rt_same rt (with_index rt k).2.
Proof. unfold with_index. destruct (rt_index rt); [by split|apply rt_same_refl]. Qed.

Lemma live_step_ok rt rt' : live_step rt rt' -> rt_ok rt -> rt_frame rt rt' /\ rt_ok rt'.
Proof.
  assert (forall rt rt', rt_same rt rt' -> rt_ok rt -> rt_frame rt rt' /\ rt_ok rt') as Hsame
    by (intros; split; [by apply frame_same|by eapply ok_same]).
  intros [io now who ttl a|io a|io now c a r b Ha|io f rep a|io a|now a|io a|from to c t a|leaf c t a|c a|now from to c ttl a|p a] Hok.
  - by apply acquire_ok.
  - by apply revoke_ok.
  - destruct (apply_outcome io now c a r b) as [(H & _)|(f & f' & Ht)]; [|exact Ha|by apply Hsame|].
    { intros Hs. destruct Hok as [H1 _ _]. destruct (H1 Hs) as (f & ix & E & _). by rewrite E. }
    destruct Ht as [Hau _ Hef _ [Hf' Hix] (Hg & He & Hi & Hc & Hst & _ & Hn) _ Hd Hl _]. destruct Hok as [_ H2 _].
    pose proof (au_window _ _ _ Hau) as Hw. pose proof (au_started _ _ _ Hau) as Hs. split.
    + split; try done; [congruence|by eexists|by left].
    + split.
      * intros _. destruct Hix as (ix & ? & ?). exists f', ix. split_and!; try done.
        rewrite Hg. symmetry. by apply (apply_command_coordinate _ _ _ _ _ _ _ Hef).
      * intros l. rewrite Hl, fmap_Some. intros (l0 & E & ->). destruct (H2 l0 E) as (? & ? & ?). cbn. rewrite Hi, He. done.
      * rewrite Hd, Hc, Zlen_app. change (Zlen [(cmd_request c, r)]) with 1. lia.
  - by apply install_ok.
  - by apply compact_ok.
  - by apply sweep_ok.
  - unfold compactor_turn. destruct (rt_stop_requested a); [apply Hsame; [apply rt_same_refl|done]|].
    destruct (_ <=? _); [by apply compact_ok|apply Hsame; [apply rt_same_refl|done]].
  - apply Hsame; [apply query_same|done].
  - apply Hsame; [|done]. unfold eligible_spines. destruct (negb _); [apply rt_same_refl|apply query_same].
  - apply Hsame; [apply query_same|done].
  - apply Hsame; [|done]. unfold authorize_path. destruct (assess_paths from to c live_token a) as [o b] eqn:E.
    assert (b = (assess_paths from to c live_token a).2) as -> by by rewrite E.
    assert (rt_same a (assess_paths from to c live_token a).2) by apply query_same. destruct o; [destruct (rt_lease _)|]; done.
  - apply Hsame; [by split|done].
Qed.

(** ** Reachable states *)

Lemma replay_record_window cfg r s s' :
  replay_record cfg r s = Next s' -> Zlen (rp_dedup s) <= Z.max 0 (rc_max_dedup cfg) -> Zlen (rp_dedup s') <= Z.max 0 (rc_max_dedup cfg).
Proof.
  unfold replay_record. cbv zeta. cbn [rp_fabric rp_epoch rp_commands rp_dedup]. destruct (rec_type r); try (by intros [= <-]).
  - destruct (read_commit _ _) as [[[cb rb]|st] rd]; cbn [fst]; [|done].
    destruct (deserialize_command cb) as [c|]; [|done]. destruct (deserialize_command_result rb) as [res|]; [|done].
    intros H Hw. assert (forall d, d = (if Zlen (rp_dedup s) <? rc_max_dedup cfg then rp_dedup s ++ [(cmd_request c, with_dedup_mark false res)]
      else rp_dedup s) -> Zlen d <= Z.max 0 (rc_max_dedup cfg)) as Hd.
    { intros d ->. destruct (Z.ltb_spec (Zlen (rp_dedup s)) (rc_max_dedup cfg)); [rewrite Zlen_app; change (Zlen [_]) with 1|]; lia. }
    destruct (rp_fabric s); [destruct (apply_command_to _ _ _ _ _ _)|]; try done; injection H as <-; by apply Hd.
  - destruct (deserialize_fabric _ _); [|done]. by intros [= <-].
Qed.

Lemma replay_all_window cfg rs s s' :
  replay_all cfg rs s = Next s' -> Zlen (rp_dedup s) <= Z.max 0 (rc_max_dedup cfg) -> Zlen (rp_dedup s') <= Z.max 0 (rc_max_dedup cfg).
Proof.
  revert s. induction rs as [|r rs IH]; intros s; cbn [replay_all]; [by intros [= <-]|].
  destruct (replay_record cfg r s) as [|s1] eqn:E; [done|]. intros H Hw. eapply IH; [exact H|]. by eapply replay_record_window.
Qed.

Lemma prune_frame io f segs rt st rt' :
  prune_segments io f segs rt = (st, rt') ->
  rt_config rt' = rt_config rt /\ rt_dedup rt' = rt_dedup rt /\ rt_incarnation rt' = rt_incarnation rt
  /\ rt_epoch rt' = rt_epoch rt /\ rt_fabric rt' = rt_fabric rt /\ rt_started rt' = rt_started rt.
Proof.
  unfold prune_segments. destruct f as [f|]; [|by intros [= <- <-]]. destruct (last segs) as [fin|]; [|by intros [= <- <-]].
  cbv zeta. destruct (_ >? _); [|by intros [= <- <-]]. destruct (snapshot_write _ _ _ _) as [w b].
  destruct (negb _); by intros [= <- <-].
Qed.

Lemma recover_runtime_frame io rt v rt' :
  recover_runtime io rt = (Value v, rt') -> Zlen (rt_dedup rt) <= Z.max 0 (rc_max_dedup (rt_config rt)) ->
  rt_config rt' = rt_config rt /\ rt_incarnation rt' = rt_incarnation rt
  /\ Zlen (rt_dedup rt') <= Z.max 0 (rc_max_dedup (rt_config rt)).
Proof.
  unfold recover_runtime. cbv zeta. destruct (recover_store _ _ _ _ _) as [[o|st] recs]; [|done].
  destruct (recovery_fatal _); [done|]. destruct (next_slots _ _) as [ns nseg]. intros H Hw.
  destruct (replay_all _ _ _) as [|s] eqn:Er in H; [done|]. apply replay_all_window in Er; [|exact Hw].
  destruct (prune_segments _ _ _ _) as [p rt1] eqn:Ep. apply prune_frame in Ep as (E1 & E2 & E3 & _).
  destruct (negb (status_ok p)); [done|]. injection H as <- <-. cbn [with_recovery rt_config rt_incarnation rt_dedup].
  rewrite E1, E2, E3. cbn in *. done.
Qed.

Lemma recover_runtime_started io rt : rt_started (recover_runtime io rt).2 = rt_started rt.
Proof.
  unfold recover_runtime. cbv zeta. destruct (recover_store _ _ _ _ _) as [[o|st] recs]; [|done].
  destruct (recovery_fatal _); [done|]. destruct (next_slots _ _) as [ns nseg]. destruct (replay_all _ _ _) as [|s]; [done|].
  destruct (prune_segments _ _ _ _) as [p rt1] eqn:Ep. apply prune_frame in Ep as (_ & _ & _ & _ & _ & E).
  destruct (negb (status_ok p)); cbn [snd with_recovery rt_started]; exact E.
Qed.

Lemma open_segment_frame io f seg seq rt st rt' :
  open_segment io f seg seq rt = (st, rt') ->
  rt_config rt' = rt_config rt /\ rt_dedup rt' = rt_dedup rt /\ rt_incarnation rt' = rt_incarnation rt
  /\ rt_epoch rt' = rt_epoch rt /\ rt_fabric rt' = rt_fabric rt /\ rt_index rt' = rt_index rt
  /\ rt_generation rt' = rt_generation rt /\ rt_started rt' = rt_started rt.
Proof.
  unfold open_segment. cbv zeta. destruct (create_store _ _ _ _ _ _ _ _ _ _) as [[s|e] leftover]; [|intros [= <- <-]; by split_and!].
  destruct (append _ _ _ _ _ _ s) as [a s1]. destruct (status_ok a); cbn [negb]; [|intros [= <- <-]; by split_and!].
  destruct (append_fabric _ _ _ _ s1) as [a2 s2]. destruct (status_ok a2); cbn [negb]; intros [= <- <-]; by split_and!.
Qed.

Lemma finish_start_ok io f e seq seg rt st rt' :
  Zlen (rt_dedup rt) <= Z.max 0 (rc_max_dedup (rt_config rt)) -> rt_started rt = false ->
  finish_start io f e seq seg rt = (st, rt') -> rt_started rt' = true ->
  rt_ok rt' /\ rt_config rt' = rt_config rt /\ rt_epoch rt' = wrap 64 (e + 1) /\ rt_lease rt' = None
  /\ rt_incarnation rt' = rt_incarnation rt /\ rt_dedup rt' = rt_dedup rt /\ (forall g, f = Some g -> rt_fabric rt' = Some g).
Proof.
  intros Hw Hs. unfold finish_start. cbv zeta.
  destruct (match f with Some _ => _ | None => _ end) as [g|st0] eqn:Eg; [|intros [= <- <-]; congruence].
  destruct (build_index g) as [ix|st0] eqn:Ei; [|intros [= <- <-]; cbn; congruence].
  match goal with |- (let '(_, _) := (if _ then open_segment _ _ _ _ ?x else _) in _) = _ -> _ => set (rt1 := x) end.
  assert (forall st1 rt2, (if persistent (rt_config rt) then open_segment io g seg seq rt1 else (success, rt1)) = (st1, rt2) ->
    rt_config rt2 = rt_config rt1 /\ rt_dedup rt2 = rt_dedup rt1 /\ rt_incarnation rt2 = rt_incarnation rt1
    /\ rt_epoch rt2 = rt_epoch rt1 /\ rt_fabric rt2 = rt_fabric rt1 /\ rt_index rt2 = rt_index rt1
    /\ rt_generation rt2 = rt_generation rt1 /\ rt_started rt2 = rt_started rt1) as Hopen.
  { intros st1 rt2. destruct (persistent _); [apply open_segment_frame|]. intros [= <- <-]. by split_and!. }
  destruct (if persistent (rt_config rt) then _ else _) as [st1 rt2] eqn:Eo.
  destruct (Hopen _ _ eq_refl) as (E1 & E2 & E3 & E4 & E5 & E6 & E7 & E8).
  destruct (negb (status_ok st1)); [intros [= <- <-]; rewrite E8; cbn; congruence|]. intros [= <- <-] _.
  cbn [with_lease with_lifecycle rt_config rt_epoch rt_lease rt_incarnation rt_dedup rt_fabric] in *.
  rewrite E1, E2, E3, E4, E5. split_and!; try done.
  - split; cbn [rt_started rt_fabric rt_index rt_generation rt_lease rt_dedup rt_config with_lease with_lifecycle]; [|done|by rewrite E1, E2].
    intros _. exists g, ix. rewrite E5, E6, E7. done.
  - intros g' ->. by injection Eg as ->.
Qed.

Lemma start_ok io rt st rt' :
  rt_started rt = false -> start io rt = (st, rt') -> rt_started rt' = true ->
  rt_ok rt' /\ rt_config rt' = rt_config rt /\ rt_lease rt' = None /\ rt_incarnation rt' = si_incarnation io.
Proof.
  intros Hs. unfold start. rewrite Hs. cbv zeta.
  assert (Zlen (rt_dedup (begin_start io rt)) <= Z.max 0 (rc_max_dedup (rt_config (begin_start io rt)))) as Hw
    by (cbn [begin_start rt_dedup with_log]; rewrite Zlen_nil; lia).
  destruct (persistent _).
  - destruct (recover_runtime io (begin_start io rt)) as [[[[[f e] seq] seg]|st0] rt1] eqn:Er; [|intros [= <- <-]].
    + destruct (recover_runtime_frame _ _ _ _ Er Hw) as (E1 & E2 & Hw1).
      intros Hf Hst. apply finish_start_ok in Hf as (Hok & F1 & F2 & F3 & F4 & F5 & _); [|by rewrite E1| |exact Hst].
      * split_and!; [done|by rewrite F1, E1|done|by rewrite F4, E2].
      * pose proof (recover_runtime_started io (begin_start io rt)) as H. rewrite Er in H. cbn [snd] in H. by rewrite H.
    + pose proof (recover_runtime_started io (begin_start io rt)) as H. rewrite Er in H. cbn [snd] in H. rewrite H. cbn. congruence.
  - intros Hf Hst. apply finish_start_ok in Hf as (Hok & F1 & _ & F3 & F4 & _); [|done|done|exact Hst].
    split_and!; [done|by rewrite F1|done|by rewrite F4].
Qed.

Lemma run_ok rt rt' : rtc live_step rt rt' -> rt_ok rt -> rt_ok rt' /\ rt_config rt' = rt_config rt
  /\ rt_incarnation rt' = rt_incarnation rt /\ rt_epoch rt' = rt_epoch rt /\ rt_started rt' = rt_started rt
  /\ exists l, rt_dedup rt' = rt_dedup rt ++ l.
Proof.
  induction 1 as [rt|rt rt1 rt2 Hstep _ IH]; intros Hok; [split_and!; try done; exists []; by rewrite app_nil_r|].
  destruct (live_step_ok _ _ Hstep Hok) as [[F1 F2 F3 F4 [l1 F5] _] Hok1].
  destruct (IH Hok1) as (H1 & H2 & H3 & H4 & H5 & l2 & H6).
  split_and!; [done|congruence..|]. exists (l1 ++ l2). by rewrite H6, F5, (assoc_L (++)).
Qed.

(** C5: The runtime's invariant. From any stopped runtime over any state directory, once a
    start succeeds, after any sequence of operations (commands, leases, installs, compactions,
    queries, worker turns) with any answers of the file system, the runtime publishes one
    consistent topology: the index is the index of the fabric, the generation is the fabric's,
    an active lease carries this incarnation and this epoch, the exactly-once window stays
    within its bound, and neither the incarnation nor the epoch has moved. *)
Theorem runtime_consistent io rt0 st rt1 rt2 :
  rt_started rt0 = false -> start io rt0 = (st, rt1) -> rt_started rt1 = true -> rtc live_step rt1 rt2 ->
  rt_ok rt2 /\ rt_started rt2 = true /\ rt_incarnation rt2 = si_incarnation io /\ rt_epoch rt2 = rt_epoch rt1.
Proof.
  intros Hs Hst H1 Hrun. destruct (start_ok _ _ _ _ Hs Hst H1) as (Hok & _ & _ & Hi).
  destruct (run_ok _ _ Hrun Hok) as (Hok2 & _ & Hi2 & He & Hs2 & _). split_and!; congruence || done.
Qed.

(** ** Exactly once *)

Lemma find_recorded_app id d r l :
  find_recorded id d = None -> find_recorded id ((d ++ [(id, r)]) ++ l) = Some r.
Proof.
  unfold find_recorded. induction d as [|[k x] d IH]; cbn [app List.find fst].
  - intros _. by rewrite Z.eqb_refl.
  - destruct (k =? id); [done|]. exact IH.
Qed.

(** The record an applied command leaves stays first under its request. *)
Lemma applied_recorded io now c rt r rt1 rt2 :
  rt_ok rt -> apply io now c rt = Returned r rt1 -> res_mutated r = true -> res_deduplicated r = false -> rtc live_step rt1 rt2 ->
  cmd_request c <> 0 /\ rt_started rt2 = true /\ find_recorded (cmd_request c) (rt_dedup rt2) = Some r.
Proof.
  intros Hok Ha Hm Hd Hrun.
  assert (rt_started rt = true -> is_Some (rt_fabric rt)) as Hfab.
  { intros Hs. destruct (ok_published _ Hok Hs) as (f & ix & E & _). by rewrite E. }
  destruct (apply_outcome io now c rt r rt1 Hfab Ha) as [(_ & _ & H)|(f & f' & Ht)]; [specialize (H Hm); congruence|].
  destruct (live_step_ok rt rt1 (ls_apply _ _ _ _ _ _ Ha) Hok) as [_ Hok1].
  destruct (run_ok _ _ Hrun Hok1) as (_ & _ & _ & _ & Hs & l & El). destruct Ht as [Hau _ _ _ _ (_ & _ & _ & _ & Hst & _) _ Hrec _ _].
  split_and!; [apply Hau|by rewrite Hs|]. rewrite El, Hrec, find_recorded_app; [done|]. apply Hau.
Qed.

(** Exactly once. After a command was applied, a command with the same request
    identifier, whatever else it carries and whenever it comes in the same run, is answered
    with the recorded result marked as deduplicated and changes nothing but a counter. *)
Theorem applied_at_most_once io now c rt r rt1 rt2 io' now' c' :
  rt_ok rt -> apply io now c rt = Returned r rt1 -> res_mutated r = true -> res_deduplicated r = false ->
  rtc live_step rt1 rt2 -> cmd_request c' = cmd_request c ->
  apply io' now' c' rt2 = Returned (with_dedup_mark true r) (count_duplicated rt2).
Proof.
  intros Hok Ha Hm Hd Hrun Hreq. destruct (applied_recorded _ _ _ _ _ _ _ Hok Ha Hm Hd Hrun) as (Hz & Hs & Hf).
  unfold apply, apply_locked. cbv zeta. rewrite Hs, Hreq. cbn [negb]. unfold is_zero. by rewrite (proj2 (Z.eqb_neq _ _) Hz), Hf.
Qed.
