(* ===== verification/Replay.v ===== *)
(** * The journal reconstructs the runtime (src/runtime.cpp, src/store.cpp)

    Replaying the records of the open segment yields the live fabric, epoch and
    exactly-once window, after any run; and a start over what a crash left behind
    recovers them. *)
From S2P Require Import Prelude Status Checked Identity Bytes Digest Capacity Model Builder BuilderSpec Sample Freeze Codec CodecSpec Topology Eligibility Governance GovernanceSpec Store StoreDir StoreSpec Durability Effect EffectSpec Runtime RuntimeSpec.

#[local] Strategy 10000 [sha_finish update_span sha256 le_store].
#[local] Opaque encode_journal_header digest_of digest_of_two record_front.

(** ** Records of a growing log *)

Lemma records_of_app inc chain seq a b :
  records_of inc chain seq (a ++ b) = records_of inc chain seq a ++ records_of inc (chain_of chain seq a) (seq + Zlen a) b.
Proof.
  revert chain seq. induction a as [|e a IH]; intros chain seq; cbn [app records_of chain_of].
  - by rewrite Zlen_nil, Z.add_0_r.
  - rewrite IH, Zlen_cons. do 3 f_equal. lia.
Qed.

Lemma replay_all_app cfg rs rs' s :
  replay_all cfg (rs ++ rs') s = match replay_all cfg rs s with Next s1 => replay_all cfg rs' s1 | refused => refused end.
Proof.
  revert s. induction rs as [|r rs IH]; intros s; cbn [app replay_all]; [done|]. by destruct (replay_record cfg r s).
Qed.

(** The record of an entry. *)
Definition record_of_entry (inc : ControllerIncarnation) (seq : Z) (chain : Digest) (e : Entry) : RecoveredRecord :=
  MkRecovered (e_type e) seq (e_generation e) (e_epoch e) inc (e_payload e) false chain.

Lemma log_records_snoc inc segment created first es e :
  exists chain, log_records inc segment created first (es ++ [e])
    = log_records inc segment created first es ++ [record_of_entry inc (first + Zlen es) chain e].
Proof. unfold log_records. rewrite records_of_app. by eexists. Qed.

(** A result as the journal keeps it. *)
Definition strip (p : RequestId * CommandResult) : RequestId * CommandResult := (p.1, without_token p.2).

(** ** Commit records *)

Lemma write_block_ok w l w' s :
  write_block w l = (s, w') -> status_ok s = true ->
  buffer w' = buffer w ++ enc (WBlock l) /\ Zlen l <= u32_max /\ max_bytes w' = max_bytes w.
Proof.
  unfold write_block, write_bytes, write_u32, push_bytes, require. cbn [enc].
  destruct (Z.gtb_spec (Zlen l) u32_max); [by intros [= <- <-]|].
  destruct (_ || _); [by intros [= <- <-]|]. change (status_ok success) with true. cbn [negb].
  cbn [append_buffer max_bytes buffer]. destruct (_ || _); [by intros [= <- <-]|]. change (status_ok success) with true.
  cbn [negb]. intros [= <- <-] _. cbn [append_buffer buffer max_bytes]. rewrite <- (assoc_L (++)). split_and!; [done|lia|done].
Qed.

(** The payload [append_command] writes. *)
Definition commit_payload (c : Command) (r : CommandResult) : list byte :=
  enc (WBlock (serialize_command c)) ++ enc (WBlock (serialize_command_result r)).

Lemma append_command_ok io c r w epoch s :
  status_ok (append_command io c r w epoch s).1 = true ->
  append_command io c r w epoch s = append io RT_CommandCommit (commit_payload c r) w epoch (res_generation r) s
  /\ Zlen (serialize_command c) <= u32_max /\ Zlen (serialize_command_result r) <= u32_max.
Proof.
  unfold append_command. cbv zeta. set (bound := if max_record_bytes (fs_config s) <? 65536 then 65536 else max_record_bytes (fs_config s)).
  destruct (write_block (new_writer bound) (serialize_command c)) as [s1 w1] eqn:E1.
  destruct (status_ok s1) eqn:O1; cbn [negb fst]; [|congruence].
  destruct (write_block w1 (serialize_command_result r)) as [s2 w2] eqn:E2.
  destruct (status_ok s2) eqn:O2; cbn [negb fst]; [|congruence]. intros _.
  apply write_block_ok in E1 as (B1 & L1 & _); [|done]. apply write_block_ok in E2 as (B2 & L2 & _); [|done].
  unfold commit_payload. rewrite B2, B1. cbn [new_writer buffer app]. done.
Qed.

Lemma read_commit_payload max c r :
  Zlen (serialize_command c) <= u32_max -> Zlen (serialize_command_result r) <= u32_max ->
  Zlen (commit_payload c r) <= max ->
  (read_commit max (new_reader (commit_payload c r) max)).1 = Value (serialize_command c, serialize_command_result r).
Proof.
  intros L1 L2 Hmax. unfold commit_payload in *. cbn [enc] in Hmax. rewrite !Zlen_app, !Zlen_le_store in Hmax.
  pose proof (Zlen_nonneg (serialize_command c)). pose proof (Zlen_nonneg (serialize_command_result r)).
  assert (decodes max (read_commit max) (enc (WBlock (serialize_command c)) ++ enc (WBlock (serialize_command_result r)))
    (serialize_command c, serialize_command_result r)) as Hd.
  { unfold read_commit. apply decodes_fields. eapply decodes_bind; [apply decodes_block; lia|].
    eapply decodes_to_nil; [apply decodes_block; lia|]. apply decodes_ret. }
  by rewrite (decodes_run _ _ _ _ Hd).
Qed.

(** ** Replaying one record *)

Section Replaying.
Context (cfg : RuntimeConfig).

(** A fabric the journal can hold. *)
Definition persistable (f : Fabric) : Prop :=
  deserialize_fabric (serialize_fabric f) (rc_limits cfg) = Value f /\ u64_ok (fab_generation f).

Lemma replay_silent t payload e g inc seq chain s :
  t = RT_Fence \/ t = RT_IncarnationStart -> rp_epoch s <= e ->
  replay_record cfg (record_of_entry inc seq chain (MkEntry t payload e g)) s
  = Next (MkReplay (rp_fabric s) e (rp_commands s) (rp_dedup s)).
Proof.
  intros Ht He. unfold replay_record, record_of_entry. cbn [rec_type rec_epoch e_type e_epoch].
  assert ((if e >? rp_epoch s then e else rp_epoch s) = e) as -> by (destruct (Z.gtb_spec e (rp_epoch s)); lia).
  by destruct Ht as [-> | ->].
Qed.

Lemma replay_fabric f e g inc seq chain s :
  persistable f -> rp_epoch s <= e ->
  replay_record cfg (record_of_entry inc seq chain (MkEntry RT_FabricSnapshot (serialize_fabric f) e g)) s
  = Next (MkReplay (Some f) e (rp_commands s) (rp_dedup s)).
Proof.
  intros [Hf _] He. unfold replay_record, record_of_entry. cbn [rec_type rec_epoch rec_payload e_type e_epoch e_payload].
  assert ((if e >? rp_epoch s then e else rp_epoch s) = e) as -> by (destruct (Z.gtb_spec e (rp_epoch s)); lia).
  by rewrite Hf.
Qed.

Lemma replay_commit c r f f' e inc seq chain s :
  command_fits c -> result_fits r -> Zlen (serialize_command c) <= u32_max -> Zlen (serialize_command_result r) <= u32_max ->
  Zlen (commit_payload c r) <= max_record_bytes (rc_store cfg) -> rp_epoch s <= e -> Zlen (rp_dedup s) < rc_max_dedup cfg ->
  res_deduplicated r = false -> rp_fabric s = Some f ->
  apply_command_to (rc_limits cfg) f c (res_generation r) e inc = Value f' ->
  replay_record cfg (record_of_entry inc seq chain (MkEntry RT_CommandCommit (commit_payload c r) e (res_generation r))) s
  = Next (MkReplay (Some f') e (wrap 64 (rp_commands s + 1)) (rp_dedup s ++ [(cmd_request c, without_token r)])).
Proof.
  intros Hc Hr L1 L2 Hmax He Hw Hd Hf Ha. unfold replay_record, record_of_entry.
  cbn [rec_type rec_epoch rec_payload rec_incarnation e_type e_epoch e_payload].
  assert ((if e >? rp_epoch s then e else rp_epoch s) = e) as -> by (destruct (Z.gtb_spec e (rp_epoch s)); lia).
  rewrite read_commit_payload by done. rewrite (deserialize_serialize_command c Hc), (deserialize_serialize_result r Hr).
  cbn [rp_fabric rp_epoch rp_commands rp_dedup]. destruct (Z.ltb_spec (Zlen (rp_dedup s)) (rc_max_dedup cfg)); [|lia].
  rewrite Hf. cbn [with_dedup_mark without_token res_generation]. rewrite Ha. unfold with_dedup_mark, without_token.
  cbn. by rewrite Hd.
Qed.

(** ** The simulation *)

(** The segment the runtime writes to, and the exactly-once window it started with. *)
Context (inc : ControllerIncarnation) (segment created first : Z) (window : list (RequestId * CommandResult)).
Hypothesis seg_ok : segment_ok (rc_store cfg) inc segment created first.

Definition replay_result (n : Z) (rt : ControllerRuntime) : ReplayState :=
  MkReplay (rt_fabric rt) (rt_epoch rt) n (strip <$> rt_dedup rt).

Record journaled (s : FabricStore) (es : list Entry) (tail : list byte) (rt : ControllerRuntime) : Prop := {
  jr_config : rt_config rt = cfg;
  jr_incarnation : rt_incarnation rt = inc;
  jr_epoch : u64_ok (rt_epoch rt);
  jr_generation : u64_ok (rt_generation rt);
  jr_store : rt_store rt = Some s;
  jr_log : represents (rc_store cfg) inc segment created first s es tail;
  jr_epochs : Forall (fun e => e_epoch e = rt_epoch rt) es;
  jr_replays : forall s0, rp_dedup s0 = window -> rp_epoch s0 <= rt_epoch rt ->
    exists n, replay_all cfg (log_records inc segment created first es) s0 = Next (replay_result n rt);
  jr_some : es <> []
}.

Definition journal_live (rt : ControllerRuntime) : Prop := exists s es tail, journaled s es tail rt.

(** A step that leaves the journal alone. *)
Lemma journal_quiet rt rt' :
  journal_live rt -> rt_config rt' = rt_config rt -> rt_incarnation rt' = rt_incarnation rt -> rt_epoch rt' = rt_epoch rt ->
  rt_generation rt' = rt_generation rt -> rt_store rt' = rt_store rt -> rt_fabric rt' = rt_fabric rt ->
  rt_dedup rt' = rt_dedup rt -> journal_live rt'.
Proof.
  intros (s & es & tail & [H1 H2 H3 H4 H5 H6 He7 H7 Hne]) E1 E2 E3 E4 E5 E6 E7. exists s, es, tail.
  split; try congruence; try done; [by rewrite E3|]. unfold replay_result. rewrite E3, E6, E7. exact H7.
Qed.

(** An append that failed: the log is the same, the file may have a torn tail. *)
Lemma journal_failed rt rt' s s' es tail tail' :
  journaled s es tail rt -> represents (rc_store cfg) inc segment created first s' es tail' ->
  rt_config rt' = rt_config rt -> rt_incarnation rt' = rt_incarnation rt -> rt_epoch rt' = rt_epoch rt ->
  rt_generation rt' = rt_generation rt -> rt_store rt' = Some s' -> rt_fabric rt' = rt_fabric rt ->
  rt_dedup rt' = rt_dedup rt -> journal_live rt'.
Proof.
  intros [H1 H2 H3 H4 H5 H6 He7 H7 Hne] Hrep E1 E2 E3 E4 E5 E6 E7. exists s', es, tail'.
  split; try congruence; try done; [by rewrite E3|]. unfold replay_result. rewrite E3, E6, E7. exact H7.
Qed.

(** An append that succeeded: the log has one more entry, and replaying it gives the new state. *)
Lemma journal_appended rt rt' s s' es tail e :
  journaled s es tail rt -> represents (rc_store cfg) inc segment created first s' (es ++ [e]) [] ->
  rt_config rt' = rt_config rt -> rt_incarnation rt' = rt_incarnation rt -> rt_epoch rt' = rt_epoch rt ->
  u64_ok (rt_generation rt') -> rt_store rt' = Some s' ->
  e_epoch e = rt_epoch rt ->
  (forall n seq chain, exists n', replay_record cfg (record_of_entry inc seq chain e) (replay_result n rt) = Next (replay_result n' rt')) ->
  journal_live rt'.
Proof.
  intros [H1 H2 H3 H4 H5 H6 He7 H7 Hne] Hrep E1 E2 E3 E4 E5 Hee Hr. exists s', (es ++ [e]), [].
  split; try congruence; try done; [rewrite E3; by apply Forall_app; split; [|constructor]| |by destruct es]. intros s0 Hd He. rewrite E3 in He.
  destruct (H7 s0 Hd He) as [n Hn]. destruct (log_records_snoc inc segment created first es e) as [chain ->].
  rewrite replay_all_app, Hn. cbn [replay_all]. destruct (Hr n (first + Zlen es) chain) as [n' ->]. by exists n'.
Qed.

(** Appending through the runtime's journal. *)
Lemma journal_append rt s es tail io t payload g :
  journaled s es tail rt -> u64_ok g ->
  let r := append io t payload inc (rt_epoch rt) g s in
  if status_ok r.1 then represents (rc_store cfg) inc segment created first r.2 (es ++ [MkEntry t payload (rt_epoch rt) g]) []
       /\ Zlen payload <= max_record_bytes (rc_store cfg)
  else exists tail', represents (rc_store cfg) inc segment created first r.2 es tail'.
Proof.
  intros [H1 H2 H3 H4 H5 H6 He7 H7 Hne] Hg. cbv zeta.
  pose proof (append_represents (rc_store cfg) inc segment created first io t payload inc (rt_epoch rt) g s es tail seg_ok H3 Hg H6) as H.
  cbv zeta in H. destruct (status_ok _).
  - split; [exact H|]. pose proof (rp_entries _ _ _ _ _ _ _ _ H) as Hall. apply Forall_app in Hall as [_ Hall].
    apply Forall_cons in Hall as [[[Hp _] _ _] _]. exact Hp.
  - destruct H as (t' & H & _). by exists t'.
Qed.

Lemma journal_acquire io now who ttl rt : journal_live rt -> journal_live (acquire_authority io now who ttl rt).2.
Proof.
  intros Hj. unfold acquire_authority. destruct (negb _); [done|]. destruct (_ || _ || _); [done|]. cbv zeta.
  destruct (_ =? 0); [done|]. destruct (checked_add _ _) as [ex|]; [|done].
  destruct Hj as (s & es & tail & Hj). pose proof Hj as [H1 H2 H3 H4 H5 H6 He7 H7 Hne]. cbn [with_lease rt_store rt_incarnation rt_epoch rt_generation].
  rewrite H5, H2. match goal with |- context [append io RT_Fence ?p inc _ _ s] =>
    pose proof (journal_append rt s es tail io RT_Fence p (rt_generation rt) Hj H4) as H; set (payload := p) in * end.
  cbv zeta in H. destruct (append io RT_Fence payload inc (rt_epoch rt) (rt_generation rt) s) as [ap s']. cbn [fst snd] in H.
  destruct (status_ok ap); cbn [negb snd].
  - destruct H as [H _]. eapply (journal_appended rt); [exact Hj|exact H|done..|]. intros n seq chain. exists n.
    apply replay_silent; [by left|done].
  - destruct H as [tail' H]. by eapply (journal_failed rt); [exact Hj|exact H|..].
Qed.

Lemma journal_revoke io rt : journal_live rt -> journal_live (revoke_authority io rt).2.
Proof.
  intros Hj. unfold revoke_authority. destruct (rt_lease rt); [|done]. cbv zeta.
  destruct Hj as (s & es & tail & Hj). pose proof Hj as [H1 H2 H3 H4 H5 H6 He7 H7 Hne]. cbn [with_lease rt_store rt_incarnation rt_epoch rt_generation].
  rewrite H5, H2. pose proof (journal_append rt s es tail io RT_Fence [] (rt_generation rt) Hj H4) as H. cbv zeta in H.
  destruct (append io RT_Fence [] inc (rt_epoch rt) (rt_generation rt) s) as [ap s']. cbn [fst snd] in H.
  destruct (status_ok ap); cbn [negb snd].
  - destruct H as [H _]. eapply (journal_appended rt); [exact Hj|exact H|done..|]. intros n seq chain. exists n.
    apply replay_silent; [by left|done].
  - destruct H as [tail' H]. by eapply (journal_failed rt); [exact Hj|exact H|..].
Qed.

Lemma journal_install io f replace rt : persistable f -> journal_live rt -> journal_live (install_fabric io f replace rt).2.
Proof.
  intros Hf Hj. unfold install_fabric, install_fabric_locked. destruct (negb _); [done|]. destruct (_ && _); [done|].
  destruct (build_index f) as [ix|]; [|done]. destruct Hj as (s & es & tail & Hj). pose proof Hj as [H1 H2 H3 H4 H5 H6 He7 H7 Hne].
  rewrite H5, H2. unfold append_fabric. cbv zeta. destruct (_ >? _); [by eapply (journal_failed rt); [exact Hj|exact H6|..]|].
  pose proof (journal_append rt s es tail io RT_FabricSnapshot (serialize_fabric f) (fab_generation f) Hj (proj2 Hf)) as H. cbv zeta in H.
  destruct (append io RT_FabricSnapshot (serialize_fabric f) inc (rt_epoch rt) (fab_generation f) s) as [ap s']. cbn [fst snd] in H.
  destruct (status_ok ap); cbn [negb snd].
  - destruct H as [H _]. eapply (journal_appended rt); [exact Hj|exact H|done|done|done|apply Hf|done|done|]. intros n seq chain. exists n.
    by apply replay_fabric.
  - destruct H as [tail' H]. by eapply (journal_failed rt); [exact Hj|exact H|..].
Qed.

Lemma next_generation_ok c rt : u64_ok (rt_generation rt) -> u64_ok (target_generation c rt).
Proof. intros H. unfold target_generation, next_generation. destruct (is_topology_command _); [|done]. apply wrap_fits. lia. Qed.

Lemma committed_result_fits c f f' lim g e o rt :
  command_fits c -> u64_ok (rt_epoch rt) -> u64_ok g -> apply_command_to lim f c g e o = Value f' ->
  result_fits (committed_result c f' rt).
Proof.
  intros Hc He Hg Ha. destruct (apply_command_coordinate _ _ _ _ _ _ _ Ha) as (Eg & _ & _ & _ & Ed).
  split; unfold committed_result; cbn [res_code res_detail res_request res_generation res_epoch res_topology_digest].
  - split; [unfold fits; cbn; lia|done].
  - destruct (cmd_kind c); split; vm_compute; done.
  - apply Hc.
  - by rewrite Eg.
  - done.
  - injection Ed as -> _. apply digest_of_32.
Qed.

Lemma journal_apply io now c rt r rt' :
  rt_ok rt -> command_fits c -> apply io now c rt = Returned r rt' -> journal_live rt -> journal_live rt'.
Proof.
  intros Hok Hc Ha (s & es & tail & Hj). pose proof Hj as [H1 H2 H3 H4 H5 H6 He7 H7 Hne].
  assert (rt_started rt = true -> is_Some (rt_fabric rt)) as Hfab.
  { intros Hs. destruct (ok_published _ Hok Hs) as (f & ix & E & _). by rewrite E. }
  destruct (apply_outcome io now c rt r rt' Hfab Ha) as [([] & [Hst|(s0 & f' & Es & Eg & Hno & Hst)] & _)|(f & f' & Ht)].
  - eapply journal_quiet; [by exists s, es, tail|done..].
  - rewrite H5 in Es. injection Es as <-.
    pose proof (op_represents (rc_store cfg) inc segment created first (OpCommand io c (committed_result c f' rt) (rt_incarnation rt) (rt_epoch rt))
      s es tail seg_ok) as H. cbn [store_op op_entry] in H. cbv zeta in H. rewrite Hno in H. destruct H as [tail' H]; [|done|].
    { constructor; [|constructor]. cbn [e_epoch e_generation committed_result res_generation]. split; [done|]. rewrite Eg. by apply next_generation_ok. }
    by eapply (journal_failed rt); [exact Hj|exact H|..].
  - destruct Ht as [Hau Hf He Hcs [Hp _] (Eg & Ee & Ei & Ec & _ & _ & _) Hr Hd _ _]. unfold committed_store in Hcs. rewrite H5 in Hcs.
    destruct Hcs as [Hso Hs']. destruct (append_command_ok _ _ _ _ _ _ Hso) as (Ea & L1 & L2). rewrite Ea in Hso, Hs'.
    pose proof (next_generation_ok c rt H4) as Hg. pose proof (apply_command_coordinate _ _ _ _ _ _ _ He) as (Egf & _).
    assert (res_generation (committed_result c f' rt) = target_generation c rt) as Erg by exact Egf.
    rewrite Erg, H2 in Hso, Hs'.
    pose proof (journal_append rt s es tail io RT_CommandCommit (commit_payload c (committed_result c f' rt)) (target_generation c rt) Hj Hg) as H.
    cbv zeta in H. rewrite Hso in H. destruct H as [H Hlen].
    eapply (journal_appended rt); [exact Hj|exact H|done|done|done|by rewrite Eg|done|done|].
    intros n seq chain. exists (wrap 64 (n + 1)). unfold replay_result at 2. rewrite Hp, Ee, Hd, fmap_app. cbn [fmap list_fmap strip fst snd].
    change (strip (cmd_request c, r)) with (cmd_request c, without_token r). rewrite Hr.
    rewrite <- Erg.
    apply (replay_commit c (committed_result c f' rt) f f'); try done.
    + eapply committed_result_fits; [done|done|exact Hg|exact He].
    + cbn [rp_dedup replay_result]. unfold Zlen. rewrite length_fmap. rewrite <- H1. apply Hau.
    + rewrite Erg, <- H1, <- H2. exact He.
Qed.

(** ** Runs *)

(** Steps whose commands and fabrics the journal can hold; compaction apart. *)
Inductive journal_step : ControllerRuntime -> ControllerRuntime -> Prop :=
| js_acquire io now who ttl rt : journal_step rt (acquire_authority io now who ttl rt).2
| js_revoke io rt : journal_step rt (revoke_authority io rt).2
| js_apply io now c rt r rt' : command_fits c -> apply io now c rt = Returned r rt' -> journal_step rt rt'
| js_install io f replace rt : persistable f -> journal_step rt (install_fabric io f replace rt).2
| js_sweep now rt : journal_step rt (sweep now rt)
| js_assess from to c t rt : journal_step rt (assess_paths from to c t rt).2
| js_health c rt : journal_step rt (query_health c rt).2
| js_authorize now from to c ttl rt : journal_step rt (authorize_path now from to c ttl rt).2.

Lemma journal_step_live rt rt' : journal_step rt rt' -> live_step rt rt'.
Proof. intros []; by econstructor. Qed.

Lemma query_store {A} rt (k : EligibilityEngine -> Outcome A) : rt_store (with_index rt k).2 = rt_store rt.
Proof. unfold with_index. by destruct (rt_index rt). Qed.

Lemma query_live {A} rt (k : EligibilityEngine -> Outcome A) : journal_live rt -> journal_live (with_index rt k).2.
Proof. intros H. destruct (query_same rt k). eapply journal_quiet; [exact H|done..|apply query_store|done|done]. Qed.

Lemma journal_step_keeps rt rt' : rt_ok rt -> journal_step rt rt' -> journal_live rt -> journal_live rt'.
Proof.
  intros Hok Hs. revert Hok. destruct Hs; intros Hok Hj.
  - by apply journal_acquire.
  - by apply journal_revoke.
  - eapply journal_apply; eassumption.
  - by apply journal_install.
  - unfold sweep. destruct (rt_fabric _); [|done]. destruct (_ || _); [done|]. cbv zeta.
    eapply journal_quiet; [exact Hj|..]; by repeat case_match.
  - by apply query_live.
  - by apply query_live.
  - unfold authorize_path. destruct (assess_paths from to c live_token rt) as [o b] eqn:E.
    assert (journal_live b) as Hb by (change b with (o, b).2; rewrite <- E; by apply query_live).
    destruct o; [|done]. by destruct (rt_lease b).
Qed.

Lemma journal_run rt rt' : rtc journal_step rt rt' -> rt_ok rt -> journal_live rt -> journal_live rt' /\ rt_ok rt'.
Proof.
  induction 1 as [rt|rt rt1 rt2 Hs _ IH]; intros Hok Hj; [done|].
  destruct (live_step_ok _ _ (journal_step_live _ _ Hs) Hok) as [_ Hok1]. apply IH; [done|]. exact (journal_step_keeps rt rt1 Hok Hs Hj).
Qed.
End Replaying.

(** The closed files of the directory are not touched by a running segment. *)
Lemma query_disk {A} rt (k : EligibilityEngine -> Outcome A) : rt_disk (with_index rt k).2 = rt_disk rt.
Proof. apply query_same. Qed.

Lemma journal_step_disk cfg rt rt' : rt_ok rt -> journal_step cfg rt rt' -> rt_disk rt' = rt_disk rt.
Proof.
  intros Hok Hs. revert Hok. destruct Hs as [| |? ? ? ? ? ? ? Ha| | | | |]; intros Hok.
  - unfold acquire_authority. by repeat case_match.
  - unfold revoke_authority. by repeat case_match.
  - apply apply_outcome in Ha as [(Hsame & _)|(f & f' & Ht)]; [apply Hsame|apply (te_coordinate _ _ _ _ _ _ _ _ Ht)|].
    intros Hst. destruct (ok_published _ Hok Hst) as (f & ? & -> & _). by exists f.
  - unfold install_fabric, install_fabric_locked. by repeat case_match.
  - unfold sweep. by repeat case_match.
  - apply query_disk.
  - apply query_disk.
  - unfold authorize_path. destruct (assess_paths from to c live_token rt) as [o b] eqn:E.
    assert (rt_disk b = rt_disk rt) as <- by (change b with (o, b).2; rewrite <- E; apply query_disk).
    by repeat case_match.
Qed.
