(* ===== verification/Archive.v ===== *)
(** * The state directory across incarnations (src/store.cpp, src/runtime.cpp)

    A directory holds one segment per incarnation of the controller. This file describes
    such a directory, shows what [recover_store] reads from it and what a start makes of
    that. *)
From S2P Require Import Prelude Status Checked Identity Bytes Digest Capacity Model Builder BuilderSpec Sample Freeze Codec CodecSpec Topology Eligibility Governance GovernanceSpec Store StoreDir StoreSpec StoreDirSpec Durability Effect EffectSpec Runtime RuntimeSpec Replay.

#[local] Strategy 10000 [sha_finish update_span sha256 le_store].
#[local] Opaque encode_journal_header digest_of digest_of_two record_front.

(** ** Epochs and replay *)

(** Replay uses the recovered epoch only to raise it. *)
Lemma replay_record_epoch cfg r f e n d f' e' n' d' E :
  replay_record cfg r (MkReplay f e n d) = Next (MkReplay f' e' n' d') -> rec_epoch r <= E ->
  replay_record cfg r (MkReplay f E n d) = Next (MkReplay f' E n' d').
Proof.
  unfold replay_record. cbv zeta. cbn [rp_fabric rp_epoch rp_commands rp_dedup]. intros H Hr.
  assert ((if rec_epoch r >? E then rec_epoch r else E) = E) as -> by (destruct (Z.gtb_spec (rec_epoch r) E); lia).
  destruct (rec_type r); try (by simplify_eq).
  - destruct (read_commit _ _) as [[[cb rb]|st] rd]; cbn [fst] in *; [|done].
    destruct (deserialize_command cb) as [c|]; [|done]. destruct (deserialize_command_result rb) as [res|]; [|done].
    destruct f as [f|]; [|by simplify_eq]. destruct (apply_command_to _ _ _ _ _ _); by simplify_eq.
  - destruct (deserialize_fabric _ _); by simplify_eq.
Qed.

Lemma replay_all_epoch cfg rs f e n d f' e' n' d' E :
  replay_all cfg rs (MkReplay f e n d) = Next (MkReplay f' e' n' d') -> Forall (fun r => rec_epoch r <= E) rs ->
  replay_all cfg rs (MkReplay f E n d) = Next (MkReplay f' E n' d').
Proof.
  revert f e n d. induction rs as [|r rs IH]; intros f e n d; cbn [replay_all]; [by intros [= -> -> -> ->]|].
  intros H [Hr Hrs]%Forall_cons. destruct (replay_record cfg r (MkReplay f e n d)) as [|[f1 e1 n1 d1]] eqn:E1; [done|].
  rewrite (replay_record_epoch _ _ _ _ _ _ _ _ _ _ _ E1 Hr). by eapply IH.
Qed.

(** ** Chapters *)

(** One closed segment of the directory: who wrote it, when, at which epoch, its log, and
    whether it was closed with a trailer. *)
Record Chapter := MkChapter {
  ch_inc : ControllerIncarnation;
  ch_created : Z;
  ch_epoch : Z;
  ch_entries : list Entry;
  ch_closed : bool
}.

Definition chapter_len (ch : Chapter) : Z := Zlen (ch_entries ch).

Definition chapter_file (i first : Z) (ch : Chapter) : list byte :=
  journal_file (ch_inc ch) i (ch_created ch) first (ch_entries ch)
  ++ (if ch_closed ch
      then encode_trailer (chapter_len ch) (first - 1 + chapter_len ch) first
             (log_chain (ch_inc ch) i (ch_created ch) first (ch_entries ch))
      else []).

Definition chapter_records (i first : Z) (ch : Chapter) : list RecoveredRecord :=
  log_records (ch_inc ch) i (ch_created ch) first (ch_entries ch).

Record chapter_ok (config : StoreConfig) (i first : Z) (ch : Chapter) : Prop := {
  co_log : log_ok config (ch_inc ch) i (ch_created ch) first (ch_entries ch);
  co_some : ch_entries ch <> [];
  co_epochs : Forall (fun e => e_epoch e = ch_epoch ch) (ch_entries ch);
  co_size : Zlen (chapter_file i first ch) <= max_recovery_bytes config;
  co_index : 0 <= i < 10 ^ 8 - 1
}.

(** Chapters in order: consecutive indices and sequence numbers. *)
Fixpoint chapters_ok (config : StoreConfig) (i first : Z) (chs : list Chapter) : Prop :=
  match chs with
  | [] => True
  | ch :: chs => chapter_ok config i first ch /\ chapters_ok config (i + 1) (first + chapter_len ch) chs
  end.

Fixpoint library (i first : Z) (chs : list Chapter) : Directory :=
  match chs with
  | [] => []
  | ch :: chs =>
      MkDirEntry (segment_name i) RegularFile (FileBytes (chapter_file i first ch))
      :: library (i + 1) (first + chapter_len ch) chs
  end.

Fixpoint library_records (i first : Z) (chs : list Chapter) : list RecoveredRecord :=
  match chs with
  | [] => []
  | ch :: chs => chapter_records i first ch ++ library_records (i + 1) (first + chapter_len ch) chs
  end.

Definition total (chs : list Chapter) : Z := fold_right (fun ch n => chapter_len ch + n) 0 chs.

(** The segments as they are listed. *)
Fixpoint listing (i first : Z) (chs : list Chapter) : list SegmentInfo :=
  match chs with
  | [] => []
  | ch :: chs =>
      new_segment (segment_name i) i (Zlen (chapter_file i first ch)) :: listing (i + 1) (first + chapter_len ch) chs
  end.

Lemma total_app a b : total (a ++ b) = total a + total b.
Proof. induction a as [|ch a IH]; cbn [app total fold_right]; [done|]. fold (total (a ++ b)) (total a). lia. Qed.

Lemma total_nonneg chs : 0 <= total chs.
Proof.
  induction chs as [|ch chs IH]; cbn [total fold_right]; [done|]. fold (total chs). unfold chapter_len. pose proof (Zlen_nonneg (ch_entries ch)). lia.
Qed.

Lemma library_app i first a b :
  library i first (a ++ b) = library i first a ++ library (i + Zlen a) (first + total a) b.
Proof.
  revert i first. induction a as [|ch a IH]; intros i first; cbn [app library total fold_right].
  - by rewrite Zlen_nil, !Z.add_0_r.
  - fold (total a). rewrite IH, Zlen_cons. do 3 f_equal; lia.
Qed.

Lemma library_records_app i first a b :
  library_records i first (a ++ b) = library_records i first a ++ library_records (i + Zlen a) (first + total a) b.
Proof.
  revert i first. induction a as [|ch a IH]; intros i first; cbn [app library_records total fold_right].
  - by rewrite Zlen_nil, !Z.add_0_r.
  - fold (total a). rewrite IH, Zlen_cons, (assoc_L (++)). do 2 f_equal; lia.
Qed.

Lemma chapters_ok_app config i first a b :
  chapters_ok config i first (a ++ b) <-> chapters_ok config i first a /\ chapters_ok config (i + Zlen a) (first + total a) b.
Proof.
  revert i first. induction a as [|ch a IH]; intros i first; cbn [app chapters_ok total fold_right].
  - rewrite Zlen_nil, !Z.add_0_r. tauto.
  - fold (total a). rewrite IH, Zlen_cons. replace (i + 1 + Zlen a) with (i + (1 + Zlen a)) by lia.
    replace (first + chapter_len ch + total a) with (first + (chapter_len ch + total a)) by lia. tauto.
Qed.

Lemma Zlen_records inc chain seq es : Zlen (records_of inc chain seq es) = Zlen es.
Proof. revert chain seq. induction es as [|e es IH]; intros chain seq; cbn [records_of]; [done|]. by rewrite !Zlen_cons, IH. Qed.

Lemma Zlen_library_records i first chs : Zlen (library_records i first chs) = total chs.
Proof.
  revert i first. induction chs as [|ch chs IH]; intros i first; cbn [library_records total fold_right]; [done|]. fold (total chs).
  rewrite Zlen_app, IH. unfold chapter_records, log_records. by rewrite Zlen_records.
Qed.

(** ** Reading the directory *)

Lemma segment_name_inj i j : 0 <= i < 10 ^ 8 -> 0 <= j < 10 ^ 8 -> segment_name i = segment_name j -> i = j.
Proof. intros Hi Hj E. pose proof (parse_segment_name i Hi) as H. rewrite E, parse_segment_name in H by done. by simplify_eq. Qed.

Lemma segment_name_not_snapshot i : 0 <= i < 10 ^ 8 -> segment_name i <> snapshot_name.
Proof. intros Hi E. pose proof (parse_segment_name i Hi) as H. rewrite E in H. by vm_compute in H. Qed.

(** Every name of the library is that of an index in its range. *)
Lemma library_names config i first chs e :
  chapters_ok config i first chs -> e ∈ library i first chs ->
  exists j, i <= j < i + Zlen chs /\ 0 <= j < 10 ^ 8 - 1 /\ de_name e = segment_name j.
Proof.
  revert i first. induction chs as [|ch chs IH]; intros i first; cbn [library chapters_ok]; [by intros _ ?%elem_of_nil|].
  intros [[_ _ _ _ Hi] Hok]. rewrite Zlen_cons. pose proof (Zlen_nonneg chs). intros [->|He]%elem_of_cons; [by exists i; split; [lia|]|].
  destruct (IH _ _ Hok He) as (j & Hj & Hj' & En). exists j. split; [lia|done].
Qed.

(** [d] answers every chapter under its name. *)
Fixpoint shelved (d : Directory) (i first : Z) (chs : list Chapter) : Prop :=
  match chs with
  | [] => True
  | ch :: chs =>
      dir_file d (segment_name i) = FileBytes (chapter_file i first ch) /\ shelved d (i + 1) (first + chapter_len ch) chs
  end.

Lemma dir_file_skip pre d name : (forall e, e ∈ pre -> de_name e <> name) -> dir_file (pre ++ d) name = dir_file d name.
Proof.
  intros H. unfold dir_file. induction pre as [|e pre IH]; cbn [app List.find]; [done|].
  rewrite bool_decide_false by (apply H; constructor). apply IH. intros e' He'. apply H. by constructor.
Qed.

Lemma dir_file_absent d name : (forall e, e ∈ d -> de_name e <> name) -> dir_file d name = FileAbsent.
Proof. intros H. rewrite <- (app_nil_r d). by rewrite dir_file_skip. Qed.

Lemma shelved_library config pre i first chs :
  chapters_ok config i first chs -> (forall e, e ∈ pre -> exists j, 0 <= j < i /\ de_name e = segment_name j) ->
  shelved (pre ++ library i first chs) i first chs.
Proof.
  revert pre i first. induction chs as [|ch chs IH]; intros pre i first; cbn [chapters_ok library shelved]; [done|].
  intros [Hch Hok] Hpre. pose proof (co_index _ _ _ _ Hch) as Hi. split.
  - rewrite dir_file_skip; [unfold dir_file; cbn [List.find]; by rewrite bool_decide_true|].
    intros e He. destruct (Hpre e He) as (j & Hj & ->). intros E%segment_name_inj; lia.
  - specialize (IH (pre ++ [MkDirEntry (segment_name i) RegularFile (FileBytes (chapter_file i first ch))])
      (i + 1) (first + chapter_len ch) Hok). rewrite <- (assoc_L (++)) in IH. apply IH.
    intros e [He| ->%list_elem_of_singleton]%elem_of_app; [|exists i; split; [lia|done]].
    destruct (Hpre e He) as (j & Hj & ->). exists j. split; [lia|done].
Qed.

Lemma collect_library config i first chs acc :
  chapters_ok config i first chs -> collect_segments (library i first chs) None acc = Value (acc ++ listing i first chs).
Proof.
  revert i first acc. induction chs as [|ch chs IH]; intros i first acc; cbn [chapters_ok library collect_segments listing];
    [by rewrite app_nil_r|]. intros [Hch Hok]. pose proof (co_index _ _ _ _ Hch) as Hi. cbn [de_kind de_name de_file].
  rewrite parse_segment_name by lia. cbn [entry_size]. rewrite IH by done. by rewrite <- (assoc_L (++)).
Qed.

Lemma listing_sorted i first chs : StronglySorted seg_le (listing i first chs) /\ Forall (fun s => i <= seg_index s) (listing i first chs).
Proof.
  revert i first. induction chs as [|ch chs IH]; intros i first; cbn [listing]; [by split; constructor|].
  destruct (IH (i + 1) (first + chapter_len ch)) as [Hs Hf]. split; constructor.
  - done.
  - eapply Forall_impl; [exact Hf|]. intros s Hs'. unfold seg_le. cbn in *. lia.
  - cbn. lia.
  - eapply Forall_impl; [exact Hf|]. intros s Hs'. cbn in *. lia.
Qed.

Lemma listing_index_inj i first chs s t :
  s ∈ listing i first chs -> t ∈ listing i first chs -> seg_index s = seg_index t -> s = t.
Proof.
  revert i first. induction chs as [|ch chs IH]; intros i first; cbn [listing]; [by intros ?%elem_of_nil|].
  destruct (listing_sorted (i + 1) (first + chapter_len ch) chs) as [_ Hf]. rewrite Forall_forall in Hf.
  intros [->|Hs]%elem_of_cons [->|Ht]%elem_of_cons E; [done| | |by eapply IH].
  - specialize (Hf _ Ht). cbn in *. lia.
  - specialize (Hf _ Hs). cbn in *. lia.
Qed.

Lemma Zlen_listing i first chs : Zlen (listing i first chs) = Zlen chs.
Proof. revert i first. induction chs as [|ch chs IH]; intros i first; cbn [listing]; [done|]. by rewrite !Zlen_cons, IH. Qed.

Lemma list_library config i first chs max :
  chapters_ok config i first chs -> Zlen chs <= max ->
  list_journal_segments (Some (library i first chs)) max = Value (listing i first chs).
Proof.
  intros Hok Hmax. unfold list_journal_segments. rewrite (collect_library config) by done. cbn [app]. cbv zeta.
  assert (merge_sort seg_le (listing i first chs) = listing i first chs) as ->.
  { apply (StronglySorted_unique_strong seg_le).
    - intros a b. rewrite merge_sort_Permutation. unfold seg_le. intros Ha Hb ? ?. eapply listing_index_inj; [done..|lia].
    - apply StronglySorted_merge_sort; apply _.
    - apply listing_sorted.
    - apply merge_sort_Permutation. }
  rewrite Zlen_listing. destruct (Z.gtb_spec (Zlen chs) max); [lia|done].
Qed.

(** What recovery reads from one chapter. *)
Lemma chapter_recovers config i first ch path :
  chapter_ok config i first ch ->
  exists rep, recover_journal (FileBytes (chapter_file i first ch)) path config (Some []) = (rep, Some (chapter_records i first ch))
    /\ (rr_status rep = RS_Clean \/ rr_status rep = RS_CrashWithoutTrailer) /\ rr_last_epoch rep = ch_epoch ch.
Proof.
  intros [Hlog Hne Hep Hsize _]. unfold chapter_file, chapter_records in *. destruct (ch_closed ch).
  - destruct (recover_closed config path _ _ _ _ _ (chapter_len ch) (first - 1 + chapter_len ch) Hlog Hsize) as [(H1 & _ & _ & H2) H3].
    cbv zeta in *. eexists. rewrite (surjective_pairing (recover_journal _ _ _ _)), H2. split_and!; [reflexivity|by left|by apply H3].
  - rewrite app_nil_r in *. rewrite recover_whole by done. eexists. split_and!; [reflexivity| |by apply report_after_last].
    right. destruct (report_after_status (log_start (ch_inc ch) i (ch_created ch) first) first (ch_entries ch)
      (start_report (ch_inc ch) (journal_file (ch_inc ch) i (ch_created ch) first (ch_entries ch)) (log_start (ch_inc ch) i (ch_created ch) first))) as [-> _].
    done.
Qed.

(** ** Recovering the directory *)

Lemma feed_collect rs sink :
  Zlen sink + Zlen rs <= 1000000 -> feed_sink (Some collect_record) None rs sink = (success, sink ++ rs).
Proof.
  revert sink. induction rs as [|r rs IH]; intros sink H; cbn [feed_sink]; [by rewrite app_nil_r|].
  rewrite Zlen_cons in H. pose proof (Zlen_nonneg rs). unfold collect_record at 1. destruct (Z.leb_spec 1000000 (Zlen sink)); [lia|].
  change (status_ok success) with true. cbn [negb]. rewrite IH by (rewrite Zlen_app; change (Zlen [r]) with 1; lia).
  by rewrite <- (assoc_L (++)).
Qed.

Lemma chapter_ends i first ch :
  ch_entries ch <> [] -> exists r0 r1, head (chapter_records i first ch) = Some r0 /\ last (chapter_records i first ch) = Some r1
    /\ rec_seq r0 = first /\ rec_seq r1 = first + chapter_len ch - 1.
Proof.
  intros Hne. unfold chapter_records, chapter_len. destruct (ch_entries ch) as [|e es _] eqn:E using rev_ind; [done|].
  destruct (log_records_snoc (ch_inc ch) i (ch_created ch) first es e) as [chain H]. rewrite H, last_snoc.
  destruct es as [|e0 es].
  - cbn [log_records records_of app head]. eexists _, _. split_and!; [done|done|..];
      cbn [rec_seq record_of_entry app]; rewrite ?Zlen_cons, ?Zlen_nil; lia.
  - unfold log_records. cbn [records_of app head]. eexists _, _. split_and!; [done|done|done|].
    cbn [rec_seq record_of_entry]. rewrite !Zlen_cons, Zlen_app. change (Zlen [e]) with 1. lia.
Qed.

(** The segments [recover_store] reports for the chapters. *)
Fixpoint segments_follow (i first : Z) (chs : list Chapter) (segs : list SegmentInfo) : Prop :=
  match chs, segs with
  | [], [] => True
  | ch :: chs, s :: segs =>
      seg_index s = i /\ seg_last_sequence s = first + chapter_len ch - 1
      /\ segments_follow (i + 1) (first + chapter_len ch) chs segs
  | _, _ => False
  end.

Definition newest (e : Z) (chs : list Chapter) : Z := fold_left (fun e ch => Z.max e (ch_epoch ch)) chs e.

(** The report so far is that of readable segments. *)
Definition readable (r : RecoveryReport) : Prop := rr_status r = RS_Missing \/ rr_status r = RS_CrashWithoutTrailer.

Lemma recover_chapter config d directory i first ch p sink :
  chapter_ok config i first ch -> dir_file d (segment_name i) = FileBytes (chapter_file i first ch) ->
  Zlen sink + chapter_len ch <= 1000000 -> readable (ps_report p) -> (ps_expected p = 0 \/ ps_expected p = first) ->
  exists p' s, recover_segment (Some collect_record) d directory config None
      (new_segment (segment_name i) i (Zlen (chapter_file i first ch))) p sink = (Value p', sink ++ chapter_records i first ch)
    /\ readable (ps_report p') /\ rr_last_epoch (ps_report p') = Z.max (rr_last_epoch (ps_report p)) (ch_epoch ch)
    /\ ps_expected p' = first + chapter_len ch /\ ps_segments p' = ps_segments p ++ [s]
    /\ seg_index s = i /\ seg_last_sequence s = first + chapter_len ch - 1
    /\ rr_snapshot_used (ps_report p') = rr_snapshot_used (ps_report p).
Proof.
  intros Hch Hd Hn Hr Hx. pose proof Hch as [[[_ _ _ _ [Hf Hf0]] _ _ Hseq] Hne _ _ _].
  destruct (chapter_recovers config i first ch (path_join directory (segment_name i)) Hch) as (rep & Erec & Hst & Hep).
  destruct (chapter_ends i first ch Hne) as (r0 & r1 & E0 & E1 & S0 & S1).
  assert (1 <= chapter_len ch) as Hlen.
  { unfold chapter_len. destruct (ch_entries ch) as [|? l]; [done|]. rewrite Zlen_cons. pose proof (Zlen_nonneg l). lia. }
  unfold fits in Hf. unfold chapter_len in *. unfold recover_segment. cbn [new_segment seg_name seg_index seg_bytes].
  rewrite Hd, Erec. cbn [from_option id]. cbv zeta. rewrite E0, E1, S0, S1.
  assert (negb (ps_expected p =? 0) && negb (first =? 0) && negb (first =? ps_expected p) = false) as ->.
  { destruct Hx as [-> | ->]; [done|]. rewrite Z.eqb_refl. cbn [negb]. by rewrite andb_false_r. }
  destruct (Z.eqb_spec (first + Zlen (ch_entries ch) - 1) 0) as [|_]; [lia|].
  rewrite feed_collect by (unfold chapter_records, log_records; rewrite Zlen_records; lia).
  change (negb (status_ok success)) with false. cbv iota. eexists _, _.
  split_and!; [reflexivity| | | |reflexivity|done|done|done]; cbn [ps_report ps_expected].
  - unfold readable, merge_report. cbn [rr_status]. destruct Hr as [-> | ->], Hst as [-> | ->]; cbn; auto.
  - unfold merge_report. cbn [rr_last_epoch]. rewrite Hep.
    destruct (Z.gtb_spec (ch_epoch ch) (rr_last_epoch (ps_report p))); lia.
  - rewrite wrap_small by (unfold fits; lia). lia.
Qed.

Lemma recover_chapters config d directory i first chs p sink :
  chapters_ok config i first chs -> shelved d i first chs -> Zlen sink + total chs <= 1000000 ->
  readable (ps_report p) -> (ps_expected p = 0 \/ ps_expected p = first) ->
  exists p' segs, recover_segments (Some collect_record) d directory config None (listing i first chs) p sink
      = (Value p', sink ++ library_records i first chs)
    /\ readable (ps_report p') /\ rr_last_epoch (ps_report p') = newest (rr_last_epoch (ps_report p)) chs
    /\ ps_segments p' = ps_segments p ++ segs /\ segments_follow i first chs segs.
Proof.
  revert i first p sink. induction chs as [|ch chs IH]; intros i first p sink; cbn [chapters_ok shelved listing library_records recover_segments].
  { intros _ _ _ Hr _. exists p, []. rewrite !app_nil_r. by split_and!. }
  intros [Hch Hok] [Hd Hsh] Hn Hr Hx. cbn [total fold_right] in Hn. fold (total chs) in Hn. pose proof (total_nonneg chs).
  destruct (recover_chapter config d directory i first ch p sink Hch Hd ltac:(lia) Hr Hx)
    as (p1 & s1 & E1 & Hr1 & He1 & Hx1 & Hs1 & Hi1 & Hl1 & _). rewrite E1.
  assert (Zlen (sink ++ chapter_records i first ch) + total chs <= 1000000) as Hn1.
  { rewrite Zlen_app. unfold chapter_records, log_records. rewrite Zlen_records. unfold chapter_len in Hn. lia. }
  destruct (IH _ _ p1 _ Hok Hsh Hn1 Hr1 ltac:(by right)) as (p2 & segs & E2 & Hr2 & He2 & Hs2 & Hf2).
  exists p2, (s1 :: segs). rewrite E2, (assoc_L (++)). split_and!; try done.
  - by rewrite He2, He1.
  - rewrite Hs2, Hs1, <- (assoc_L (++)). done.
Qed.

(** The whole directory: the records of every chapter in order, a report a start can use. *)
Lemma recover_library config directory chs :
  chs <> [] -> chapters_ok config 1 1 chs -> total chs <= 1000000 -> Zlen chs <= max_segments config ->
  exists o, recover_store (Some collect_record) (Some (library 1 1 chs)) directory config []
      = (Value o, library_records 1 1 chs)
    /\ ro_snapshot_accepted o = false /\ recovery_fatal (rr_status (ro_report o)) = false
    /\ rr_last_epoch (ro_report o) = newest 0 chs /\ segments_follow 1 1 chs (ro_segments o).
Proof.
  intros Hne Hok Hn Hmax. unfold recover_store.
  assert (recover_snapshot (library 1 1 chs) directory config = (empty_recovery, None)) as ->.
  { unfold recover_snapshot. rewrite dir_file_absent; [done|]. intros e He.
    destruct (library_names _ _ _ _ _ Hok He) as (j & _ & Hj & ->). apply segment_name_not_snapshot. lia. }
  cbv zeta beta iota. rewrite (list_library config) by done.
  destruct (recover_chapters config (library 1 1 chs) directory 1 1 chs (MkPass empty_recovery [] 0 true false []) [] Hok)
    as (p' & segs & E & Hr & He & Hs & Hf); [|done|by left|by left|].
  { apply (shelved_library config [] 1 1 chs Hok). by intros e He%elem_of_nil. }
  assert (exists s l, listing 1 1 chs = s :: l) as (s & l & El) by (destruct chs; [done|cbn [listing]; by eexists _, _]).
  rewrite El in E |- *. cbn [fmap option_fmap option_map]. rewrite E. cbn [app] in *. eexists. split; [reflexivity|].
  cbn [ro_snapshot_accepted ro_report ro_segments]. rewrite Hs. cbn [ps_segments app].
  split_and!; [done| | |exact Hf].
  - unfold settle_report. cbv zeta. destruct Hr as [Hr|Hr]; rewrite Hr; cbn [bool_decide];
      destruct (ps_saw_clean p'), (rr_reobservation _); cbn; rewrite ?Hr; done.
  - unfold settle_report. cbv zeta. change 0 with (rr_last_epoch (ps_report (MkPass empty_recovery [] 0 true false []))). rewrite <- He. destruct (_ || _); [by destruct (rr_reobservation _)|].
    by destruct (rr_reobservation _).
Qed.
