(* ===== verification/Restart.v ===== *)
(** * Restarts recover the committed state (src/runtime.cpp)

    A controller runs, crashes or stops, and starts again, any number of times. Each start
    reads back the topology and the exactly-once window as the last incarnation left them,
    at the next epoch. *)
From S2P Require Import Prelude Status Checked Identity Bytes Digest Capacity Model Builder BuilderSpec Sample Freeze Codec CodecSpec Topology Eligibility Governance GovernanceSpec Store StoreDir StoreSpec StoreDirSpec Durability Effect EffectSpec Runtime RuntimeSpec Replay Archive.

#[local] Strategy 10000 [sha_finish update_span sha256 le_store].
#[local] Opaque encode_journal_header digest_of digest_of_two record_front.

Section Restart.
Context (cfg : RuntimeConfig).

(** The configuration keeps its state, and no counter of a segment can wrap. *)
Record config_ok : Prop := {
  cf_persistent : persistent cfg = true;
  cf_record : max_record_bytes (rc_store cfg) <= u32_max;
  cf_count : 0 <= max_records_per_segment (rc_store cfg) <= kReplayBound;
  cf_segments : 0 < max_segments (rc_store cfg)
}.

(** The clock and the random source answer 64-bit numbers. *)
Record io_ok (io : StartIo) : Prop := {
  ik_hi : u64_ok (hi (si_incarnation io));
  ik_lo : u64_ok (lo (si_incarnation io));
  ik_now : u64_ok (si_now io)
}.

(** Replaying the chapters gives this fabric and this exactly-once window. *)
Definition archived (chs : list Chapter) (f : option Fabric) (window : list (RequestId * CommandResult)) : Prop :=
  forall E, Forall (fun ch => ch_epoch ch <= E) chs ->
  exists n, replay_all cfg (library_records 1 1 chs) (MkReplay None E 0 []) = Next (MkReplay f E n window).

Lemma newest_spec e chs : e <= newest e chs /\ Forall (fun ch => ch_epoch ch <= newest e chs) chs.
Proof.
  revert e. induction chs as [|ch chs IH]; intros e; cbn [newest fold_left]; [by split; [lia|constructor]|].
  fold (newest (Z.max e (ch_epoch ch)) chs). destruct (IH (Z.max e (ch_epoch ch))) as [H1 H2].
  split; [lia|]. constructor; [lia|done].
Qed.

Lemma newest_last e chs ch : Forall (fun c => ch_epoch c <= ch_epoch ch) chs -> e <= ch_epoch ch -> newest e (chs ++ [ch]) = ch_epoch ch.
Proof.
  revert e. induction chs as [|c chs IH]; intros e Hall He; cbn [app newest fold_left]; [lia|].
  apply Forall_cons in Hall as [Hc Hall]. apply IH; [done|lia].
Qed.

Lemma next_slots_follow i first chs segs acc :
  segments_follow i first chs segs -> acc = (first, i) -> 0 <= first -> 0 <= i -> first + total chs < 2 ^ 64 -> i + Zlen chs < 2 ^ 32 ->
  fold_left (fun acc seg => (Z.max acc.1 (wrap 64 (seg_last_sequence seg + 1)), Z.max acc.2 (wrap 32 (seg_index seg + 1)))) segs acc
  = (first + total chs, i + Zlen chs).
Proof.
  revert i first segs acc. induction chs as [|ch chs IH]; intros i first [|s segs] acc; cbn [segments_follow fold_left total fold_right]; try done.
  { intros _ -> _ _ _ _. f_equal; [lia|]. change (Zlen (@nil Chapter)) with 0. lia. }
  fold (total chs). intros (Hi & Hl & Hf) -> H0 H1 H2 H3. rewrite Zlen_cons in *. pose proof (Zlen_nonneg chs). pose proof (total_nonneg chs).
  assert (0 <= chapter_len ch) by apply Zlen_nonneg. cbn [fst snd]. rewrite Hi, Hl, !wrap_small by (unfold fits; lia).
  rewrite (IH (i + 1) (first + chapter_len ch)); [f_equal; lia|done|f_equal; lia|lia..].
Qed.

(** The library is what the state directory holds. *)
Definition shelf (disk : option Directory) (chs : list Chapter) : Prop :=
  disk = Some (library 1 1 chs) \/ disk = None /\ chs = [].

Record archive_ok (disk : option Directory) (chs : list Chapter) (f : option Fabric)
    (window : list (RequestId * CommandResult)) : Prop := {
  ar_disk : shelf disk chs;
  ar_chapters : chapters_ok (rc_store cfg) 1 1 chs;
  ar_archived : archived chs f window;
  ar_total : total chs <= 1000000;
  ar_segments : Zlen chs < max_segments (rc_store cfg) /\ Zlen chs < 10 ^ 8 - 1;
  ar_window : strip <$> window = window
}.

Lemma archived_nil f window : archived [] f window -> f = None /\ window = [].
Proof. intros H. destruct (H 0 ltac:(constructor)) as [n Hn]. cbn in Hn. by simplify_eq. Qed.

Lemma segments_follow_length i first chs segs : segments_follow i first chs segs -> Zlen segs = Zlen chs.
Proof.
  revert i first segs. induction chs as [|ch chs IH]; intros i first [|s segs]; cbn [segments_follow]; try done.
  intros (_ & _ & H). rewrite !Zlen_cons. f_equal. by eapply IH.
Qed.

(** An empty directory, or none. *)
Lemma recover_nothing disk directory :
  shelf disk [] -> 0 < max_segments (rc_store cfg) ->
  exists o, recover_store (Some collect_record) disk directory (rc_store cfg) [] = (Value o, [])
    /\ ro_snapshot_accepted o = false /\ recovery_fatal (rr_status (ro_report o)) = false
    /\ rr_last_epoch (ro_report o) = 0 /\ ro_segments o = [].
Proof.
  intros Hs Hm. unfold recover_store. destruct Hs as [-> | [-> _]]; [|eexists; split; [reflexivity|done]].
  cbv zeta. cbn [recover_snapshot library dir_file List.find]. rewrite (list_library (rc_store cfg) 1 1 []); [|done|change (Zlen (@nil Chapter)) with 0; lia].
  eexists. split; [reflexivity|done].
Qed.

Lemma replay_archive io rt chs f window o n :
  rt_config rt = cfg ->
  segments_follow 1 1 chs (ro_segments o) -> total chs <= 1000000 -> Zlen chs < max_segments (rc_store cfg) /\ Zlen chs < 10 ^ 8 - 1 ->
  exists rr,
    (let '(next_sequence, next_segment) := next_slots None (ro_segments o) in
     let rt1 := with_log window (rt_history rt) (with_recovery (ro_report o) rt) in
     let '(pruned, rt2) := prune_segments io f (ro_segments o) rt1 in
     if negb (status_ok pruned) then (Failure pruned, rt2)
     else (Value (f, newest 0 chs, next_sequence, next_segment),
           with_recovery (replay_notes f n (rt_recovery rt2)) rt2))
    = (Value (f, newest 0 chs, 1 + total chs, 1 + Zlen chs), with_recovery rr (with_log window (rt_history rt) rt)).
Proof.
  intros Hc Hf Ht [Hm Hm']. unfold next_slots. pose proof (total_nonneg chs).
  rewrite (next_slots_follow 1 1 chs (ro_segments o) (1, 1)) by (done || lia). cbv zeta.
  assert (prune_segments io f (ro_segments o) (with_log window (rt_history rt) (with_recovery (ro_report o) rt))
    = (success, with_log window (rt_history rt) (with_recovery (ro_report o) rt))) as ->.
  { unfold prune_segments. destruct f; [|done]. destruct (last _); [|done]. cbn [with_log with_recovery rt_config]. cbv zeta.
    rewrite Hc, (segments_follow_length _ _ _ _ Hf). destruct (Z.gtb_spec (Zlen chs + 1) (max_segments (rc_store cfg))); [lia|done]. }
  eexists. reflexivity.
Qed.

Lemma recover_archive io rt chs f window :
  rt_config rt = cfg -> rt_dedup rt = [] -> archive_ok (rt_disk rt) chs f window ->
  exists rr, recover_runtime io rt
    = (Value (f, newest 0 chs, 1 + total chs, 1 + Zlen chs), with_recovery rr (with_log window (rt_history rt) rt)).
Proof.
  intros Hc Hd [Hs Hok Har Ht Hm Hw].
  assert (exists o, recover_store (Some collect_record) (rt_disk rt) (rc_state_dir cfg) (rc_store cfg) []
      = (Value o, library_records 1 1 chs)
    /\ ro_snapshot_accepted o = false /\ recovery_fatal (rr_status (ro_report o)) = false
    /\ rr_last_epoch (ro_report o) = newest 0 chs /\ segments_follow 1 1 chs (ro_segments o)) as (o & Eo & Ea & Ef & Ee & Esegs).
  { destruct (decide (chs = [])) as [->|Hne].
    - destruct (recover_nothing (rt_disk rt) (rc_state_dir cfg) Hs) as (o & H1 & H2 & H3 & H4 & H5); [pose proof (Zlen_nonneg (@nil Chapter)); lia|].
      exists o. rewrite H5. by split_and!.
    - destruct Hs as [-> | [_ ?]]; [|done]. apply recover_library; [done|done|done|lia]. }
  unfold recover_runtime. cbv zeta. rewrite Hc, Eo, Ef, Ea, Ee.
  destruct (Har (newest 0 chs) (proj2 (newest_spec 0 chs))) as [n En]. cbn [rt_dedup with_recovery]. rewrite Hd, En.
  cbn [rp_fabric rp_epoch rp_commands rp_dedup]. exact (replay_archive io rt chs f window o n Hc Esegs Ht Hm).
Qed.

(** ** Opening the next segment *)

Lemma create_failed path mkdir present opens short sync created config inc segment first e left :
  create_store path mkdir present opens short sync created config inc segment first = (Failure e, left) -> status_ok e = false.
Proof.
  unfold create_store. destruct (inc_is_zero inc); [by intros [= <- <-]|]. destruct mkdir; [by intros [= <- <-]|].
  destruct present; [by intros [= <- <-]|]. destruct opens; [|by intros [= <- <-]]. cbn [negb].
  destruct (write_all _ _) as [st b]. destruct (status_ok st) eqn:E1; cbn [negb]; [|by intros [= <- <-]].
  destruct (status_ok sync) eqn:E2; cbn [negb]; [done|by intros [= <- <-]].
Qed.

Lemma open_segment_live io f seg seq rt st rt' :
  config_ok -> io_ok io -> rt_incarnation rt = si_incarnation io -> u32_ok seg -> 0 < seq <= 1000001 -> persistable cfg f ->
  rt_config rt = cfg -> rt_fabric rt = Some f -> rt_generation rt = fab_generation f -> u64_ok (rt_epoch rt) ->
  strip <$> rt_dedup rt = rt_dedup rt ->
  open_segment io f seg seq rt = (st, rt') -> status_ok st = true ->
  journal_live cfg (si_incarnation io) seg (si_now io) seq (rt_dedup rt) rt' /\ rt_disk rt' = rt_disk rt.
Proof.
  intros [_ Cr Cn _] [I1 I2 I3] Ei Hseg Hseq Hp Ec Ef Eg He Hw. unfold open_segment. cbv zeta. rewrite Ec.
  destruct (create_store _ _ _ _ _ _ _ _ _ _ _) as [[s|e] leftover] eqn:Es; [|apply create_failed in Es; intros [= <- <-]; congruence].
  assert (segment_ok (rc_store cfg) (si_incarnation io) seg (si_now io) seq) as Hso.
  { split; [split; try done; split; [unfold fits|]; lia|done|done|unfold kReplayBound in *; lia]. }
  rewrite Ei in *. apply create_represents in Es as (R0 & _ & _); [|lia|lia].
  cbn [with_store rt_incarnation rt_epoch rt_generation rt_config rt_records_since_snapshot rt_disk].
  set (e1 := MkEntry RT_IncarnationStart [] (rt_epoch rt) (fab_generation f)).
  pose proof (append_represents _ _ _ _ _ (si_first io) RT_IncarnationStart [] (si_incarnation io) (rt_epoch rt) (rt_generation rt) s [] [] Hso He) as H1.
  rewrite Eg in *. specialize (H1 (proj2 Hp) R0). cbv zeta in H1. rewrite Ei.
  destruct (append (si_first io) _ _ _ _ _ s) as [st1 s1]. cbn [fst snd] in H1.
  destruct (status_ok st1) eqn:O1; cbn [negb]; [|intros [= <- <-]; congruence]. change (represents (rc_store cfg) (si_incarnation io) seg (si_now io) seq s1 [e1] []) in H1.
  unfold append_fabric. cbv zeta. destruct (_ >? _); [by intros [= <- <-]|].
  pose proof (append_represents _ _ _ _ _ (si_second io) RT_FabricSnapshot (serialize_fabric f) (si_incarnation io) (rt_epoch rt) (fab_generation f) s1 _ _ Hso He (proj2 Hp) H1) as H2.
  cbv zeta in H2. destruct (append (si_second io) _ _ _ _ _ s1) as [st2 s2]. cbn [fst snd] in H2.
  destruct (status_ok st2) eqn:O2; cbn [negb]; [|intros [= <- <-]; congruence]. intros [= <- <-] _. split; [|done].
  eexists s2, _, []. split; cbn [rt_config rt_incarnation rt_epoch rt_generation rt_store with_store]; [done|done|done|rewrite Eg; apply Hp|done|exact H2| | |done].
  - by repeat constructor.
  - intros s0 Hd0 He0. exists (rp_commands s0). destruct (log_records_snoc (si_incarnation io) seg (si_now io) seq [e1] (MkEntry RT_FabricSnapshot (serialize_fabric f) (rt_epoch rt) (fab_generation f))) as [c2 ->].
    change [e1] with ([] ++ [e1]). destruct (log_records_snoc (si_incarnation io) seg (si_now io) seq [] e1) as [c1 ->]. cbn [log_records records_of app replay_all].
    unfold e1. rewrite (replay_silent cfg) by (by right || done). cbn [replay_all]. rewrite (replay_fabric cfg); [|done|cbn [rp_epoch]; lia].
    cbn [rp_commands rp_dedup]. unfold replay_result. cbn [rt_fabric rt_epoch rt_dedup with_store]. by rewrite Ef, Hd0, Hw.
Qed.

(** ** A running incarnation *)

(** The closed segments are the chapters, replaying them gives the window this incarnation
    started with, and replaying its own segment on top gives its state. *)
Record lives_on (chs : list Chapter) (window : list (RequestId * CommandResult)) (created : Z) (rt : ControllerRuntime) : Prop := {
  lv_config : rt_config rt = cfg;
  lv_started : rt_started rt = true;
  lv_ok : rt_ok rt;
  lv_shelf : shelf (rt_disk rt) chs;
  lv_chapters : chapters_ok (rc_store cfg) 1 1 chs;
  lv_archived : exists f0, archived chs f0 window;
  lv_older : Forall (fun ch => ch_epoch ch < rt_epoch rt) chs;
  lv_segment : segment_ok (rc_store cfg) (rt_incarnation rt) (1 + Zlen chs) created (1 + total chs);
  lv_live : journal_live cfg (rt_incarnation rt) (1 + Zlen chs) created (1 + total chs) window rt
}.

Lemma finish_start_live io f e seq seg rt st rt' :
  config_ok -> io_ok io -> rt_config rt = cfg -> rt_incarnation rt = si_incarnation io -> rt_started rt = false ->
  u32_ok seg -> 0 < seq <= 1000001 -> strip <$> rt_dedup rt = rt_dedup rt ->
  finish_start io f e seq seg rt = (st, rt') -> rt_started rt' = true -> (forall g, rt_fabric rt' = Some g -> persistable cfg g) ->
  journal_live cfg (si_incarnation io) seg (si_now io) seq (rt_dedup rt) rt' /\ rt_disk rt' = rt_disk rt.
Proof.
  intros Hcf Hio Hc Hi Hs Hseg Hseq Hw. unfold finish_start. cbv zeta. rewrite Hc, (cf_persistent Hcf).
  destruct (match f with Some _ => _ | None => _ end) as [g|st0]; [|intros [= <- <-]; congruence].
  destruct (build_index g) as [ix|st0]; [|intros [= <- <-]; cbn; congruence].
  match goal with |- context [open_segment io g seg seq ?x] => set (rt1 := x) end.
  destruct (open_segment io g seg seq rt1) as [st1 rt2] eqn:Eo.
  pose proof (open_segment_frame _ _ _ _ _ _ _ Eo) as (E1 & E2 & E3 & E4 & E5 & E6 & E7 & E8).
  destruct (status_ok st1) eqn:O1; cbn [negb]; [|intros [= <- <-]; rewrite E8; cbn; congruence]. intros [= <- <-] _ Hp.
  destruct (open_segment_live io g seg seq rt1 st1 rt2) as [Hl Hd]; try done.
  - apply Hp. cbn [with_lease with_lifecycle rt_fabric]. by rewrite E5.
  - apply wrap_fits. lia.
  - split; [|exact Hd]. by eapply (journal_quiet cfg _ _ _ _ _ rt2).
Qed.

(** A start over an archive, up to the opening of the new segment. *)
Lemma start_recovered io rt0 chs f window st rt' :
  config_ok -> rt_started rt0 = false -> rt_config rt0 = cfg -> archive_ok (disk_of rt0) chs f window ->
  start io rt0 = (st, rt') ->
  exists rr, let rt2 := with_recovery rr (with_log window [] (begin_start io rt0)) in
    finish_start io f (newest 0 chs) (1 + total chs) (1 + Zlen chs) rt2 = (st, rt')
    /\ Zlen (rt_dedup rt2) <= Z.max 0 (rc_max_dedup (rt_config rt2)).
Proof.
  intros Hcf Hs Hc Har. unfold start. rewrite Hs. cbv zeta. set (rt1 := begin_start io rt0).
  assert (rt_config rt1 = cfg) as Hc1 by exact Hc. rewrite Hc1, (cf_persistent Hcf).
  destruct (recover_archive io rt1 chs f window Hc1 eq_refl Har) as [rr ->]. intros Hf. exists rr. split; [exact Hf|].
  destruct (newest_spec 0 chs) as [N0 N1]. destruct (ar_archived _ _ _ _ Har _ N1) as [n Hr].
  apply replay_all_window in Hr; [cbn [rt_dedup with_recovery with_log rt_config]; by rewrite Hc1|]. cbn [rp_dedup]. rewrite Zlen_nil. lia.
Qed.

(** What a start over an archive publishes. *)
Lemma start_over io rt0 chs f window st rt' :
  config_ok -> rt_started rt0 = false -> rt_config rt0 = cfg -> archive_ok (disk_of rt0) chs f window ->
  newest 0 chs + 1 < 2 ^ 64 -> start io rt0 = (st, rt') -> rt_started rt' = true ->
  rt_dedup rt' = window /\ rt_epoch rt' = newest 0 chs + 1 /\ (forall g, f = Some g -> rt_fabric rt' = Some g).
Proof.
  intros Hcf Hs Hc Har Hn Hst Hst'. destruct (start_recovered io rt0 chs f window st rt' Hcf Hs Hc Har Hst) as (rr & Hf & Hw).
  destruct (finish_start_ok _ _ _ _ _ _ _ _ Hw Hs Hf Hst') as (_ & _ & F2 & _ & _ & F5 & F6).
  destruct (newest_spec 0 chs) as [N0 _]. rewrite wrap_small in F2 by (unfold fits; lia). done.
Qed.

Lemma start_lives io rt0 chs f window st rt' :
  config_ok -> io_ok io -> rt_started rt0 = false -> rt_config rt0 = cfg -> archive_ok (disk_of rt0) chs f window ->
  newest 0 chs + 1 < 2 ^ 64 -> start io rt0 = (st, rt') -> rt_started rt' = true ->
  (forall g, rt_fabric rt' = Some g -> persistable cfg g) -> lives_on chs window (si_now io) rt'.
Proof.
  intros Hcf Hio Hs Hc Har Hn Hst Hst' Hp. destruct (start_recovered io rt0 chs f window st rt' Hcf Hs Hc Har Hst) as (rr & Hf & Hw).
  cbv zeta in *. destruct Har as [Ha1 Ha2 Ha3 Ha4 [Ha5 Ha6] Ha7]. destruct (newest_spec 0 chs) as [N0 N1].
  pose proof (Zlen_nonneg chs). pose proof (total_nonneg chs).
  assert (u32_ok (1 + Zlen chs)) as Hseg by (unfold fits; lia). assert (0 < 1 + total chs <= 1000001) as Hseq by lia.
  destruct (finish_start_ok _ _ _ _ _ _ _ _ Hw Hs Hf Hst') as (Hok & F1 & F2 & F3 & F4 & F5 & F6).
  destruct (finish_start_live io f _ _ _ (with_recovery rr (with_log window [] (begin_start io rt0))) st rt' Hcf Hio Hc eq_refl Hs Hseg Hseq Ha7 Hf Hst' Hp) as [Hl Hd].
  rewrite wrap_small in F2 by (unfold fits; lia). assert (rt_incarnation rt' = si_incarnation io) as Hi by exact F4. split.
  - by rewrite F1.
  - done.
  - done.
  - rewrite Hd. exact Ha1.
  - done.
  - by exists f.
  - eapply Forall_impl; [exact N1|]. cbn beta. lia.
  - rewrite Hi. destruct Hcf as [_ C1 C2 _], Hio as [I1 I2 I3].
    split; [split; try done; split; [unfold fits|]; lia|done|done|unfold kReplayBound in *; lia].
  - rewrite Hi. exact Hl.
Qed.

(** ** The end of an incarnation *)

(** There is room for one more segment after this one, and its file was not torn. *)
Record room (rt : ControllerRuntime) : Prop := {
  rm_store : exists s, rt_store rt = Some s /\ fs_poisoned s = false /\ fs_last_sequence s <= 1000000
             /\ Zlen (fs_bytes s) + kTrailerBytes <= max_recovery_bytes (rc_store cfg);
  rm_segments : Zlen (default [] (disk_of rt)) < max_segments (rc_store cfg) /\ Zlen (default [] (disk_of rt)) < 10 ^ 8 - 1;
  rm_epoch : rt_epoch rt + 1 < 2 ^ 64
}.

Lemma records_epochs inc chain seq es E : Forall (fun e => e_epoch e <= E) es -> Forall (fun r => rec_epoch r <= E) (records_of inc chain seq es).
Proof. revert chain seq. induction es as [|e es IH]; intros chain seq; cbn [records_of]; [constructor|]. intros [? ?]%Forall_cons. constructor; [done|by apply IH]. Qed.

(** Replaying one more chapter. *)
Lemma archived_snoc chs f0 window ch inc created rt s es tail :
  archived chs f0 window -> journaled cfg inc (1 + Zlen chs) created (1 + total chs) window s es tail rt ->
  ch_inc ch = inc -> ch_created ch = created -> ch_entries ch = es -> ch_epoch ch = rt_epoch rt ->
  archived (chs ++ [ch]) (rt_fabric rt) (strip <$> rt_dedup rt).
Proof.
  intros Ha [_ _ _ _ _ _ Hep Hr _] E1 E2 E3 E4 E Hall. apply Forall_app in Hall as [Hall [Hch _]%Forall_cons].
  destruct (Ha E Hall) as [n Hn]. rewrite library_records_app, replay_all_app, Hn. cbn [library_records]. rewrite app_nil_r.
  unfold chapter_records. rewrite E1, E2, E3.
  destruct (Hr (MkReplay f0 (rt_epoch rt) n window)) as [n' Hn']; [done|cbn; lia|]. exists n'.
  eapply (replay_all_epoch cfg _ f0 (rt_epoch rt)); [exact Hn'|]. apply records_epochs. eapply Forall_impl; [exact Hep|].
  cbn beta. intros e He. lia.
Qed.

(** Adding the open segment to the shelf. *)
Lemma shelf_put disk chs ch bytes :
  shelf disk chs -> chapters_ok (rc_store cfg) 1 1 chs -> Zlen chs < 10 ^ 8 - 1 -> bytes = chapter_file (1 + Zlen chs) (1 + total chs) ch ->
  dir_put (segment_name (1 + Zlen chs)) bytes disk = Some (library 1 1 (chs ++ [ch])).
Proof.
  intros Hs Hok Hlen ->. unfold dir_put. cbv zeta.
  assert (default [] disk = library 1 1 chs) as -> by (destruct Hs as [-> | [-> ->]]; done).
  rewrite library_app. cbn [library]. destruct (existsb _ (library 1 1 chs)) eqn:E; [|done]. exfalso.
  apply existsb_exists in E as (e & He & En). apply bool_decide_eq_true in En. apply list_elem_of_In in He.
  destruct (library_names _ _ _ _ _ Hok He) as (j & Hj & Hj' & Ej). rewrite Ej in En. pose proof (Zlen_nonneg chs).
  apply segment_name_inj in En; lia.
Qed.

Lemma Zlen_library i first chs : Zlen (library i first chs) = Zlen chs.
Proof. revert i first. induction chs as [|ch chs IH]; intros i first; cbn [library]; [done|]. by rewrite !Zlen_cons, IH. Qed.

Lemma Zlen_dir_put name bytes d : Zlen (default [] d) <= Zlen (default [] (dir_put name bytes d)).
Proof.
  unfold dir_put. cbv zeta. cbn [from_option id]. destruct (existsb _ _); [unfold Zlen; rewrite length_fmap; lia|].
  rewrite Zlen_app. change (Zlen [_]) with 1. lia.
Qed.

(** What an incarnation leaves in the directory, with or without the trailer. *)
Lemma chapter_closes chs window created rt s es closed bytes :
  lives_on chs window created rt -> room rt -> rt_store rt = Some s ->
  journaled cfg (rt_incarnation rt) (1 + Zlen chs) created (1 + total chs) window s es [] rt ->
  bytes = chapter_file (1 + Zlen chs) (1 + total chs) (MkChapter (rt_incarnation rt) created (rt_epoch rt) es closed) ->
  Zlen bytes <= max_recovery_bytes (rc_store cfg) ->
  let chs' := chs ++ [MkChapter (rt_incarnation rt) created (rt_epoch rt) es closed] in
  archive_ok (dir_put (segment_name (1 + Zlen chs)) bytes (rt_disk rt)) chs' (rt_fabric rt) (strip <$> rt_dedup rt)
  /\ newest 0 chs' = rt_epoch rt.
Proof.
  intros [L1 L2 L3 L4 L5 [f0 L6] L7 [Sh S1 S2 S3] L9] [R1 [R2 R2'] R3] Es Hj Hb Hsize. cbv zeta.
  set (ch := MkChapter _ _ _ _ _) in *. pose proof Hj as [J1 J2 J3 J4 J5 J6 J7 J8 J9]. pose proof (Zlen_nonneg chs).
  destruct R1 as (s' & Es' & Hpois & Hlast & Hbytes). assert (s' = s) as -> by congruence.
  assert (Zlen chs + 1 < max_segments (rc_store cfg) /\ Zlen chs + 1 < 10 ^ 8 - 1) as Hm.
  { assert (Zlen (default [] (rt_disk rt)) = Zlen chs) as Hd.
    { destruct L4 as [-> | [-> ->]]; [apply Zlen_library|done]. }
    unfold disk_of in R2, R2'. rewrite Es, (rp_segment _ _ _ _ _ _ _ _ J6) in R2, R2'.
    pose proof (Zlen_dir_put (segment_name (1 + Zlen chs)) (fs_bytes s) (rt_disk rt)) as Hput. set (open := MkChapter (rt_incarnation rt) created (rt_epoch rt) es false).
    rewrite (shelf_put _ chs open _ L4 L5) in R2, R2' by (lia || (rewrite (rp_bytes _ _ _ _ _ _ _ _ J6); reflexivity)).
    cbn [from_option id] in R2, R2'. rewrite Zlen_library, Zlen_app in R2, R2'. change (Zlen [open]) with 1 in R2, R2'. lia. }
  assert (chapter_ok (rc_store cfg) (1 + Zlen chs) (1 + total chs) ch) as Hch.
  { split.
    - split; [exact Sh|apply J6| |]; pose proof (rp_bound _ _ _ _ _ _ _ _ J6); cbn [ch_entries ch]; lia.
    - exact J9.
    - exact J7.
    - by rewrite <- Hb.
    - lia. }
  split.
  - split.
    + left. eapply shelf_put; [done|done|lia|done].
    + apply chapters_ok_app. split; [done|]. by split.
    + by eapply archived_snoc.
    + rewrite total_app. cbn [total fold_right]. unfold chapter_len. cbn [ch_entries ch]. pose proof (rp_last _ _ _ _ _ _ _ _ J6). lia.
    + rewrite Zlen_app. change (Zlen [ch]) with 1. lia.
    + rewrite <- list_fmap_compose. done.
  - apply newest_last; [|cbn; apply J3]. eapply Forall_impl; [exact L7|]. cbn. lia.
Qed.

Lemma unpoisoned_live chs window created rt :
  lives_on chs window created rt -> room rt ->
  exists s es, rt_store rt = Some s /\ journaled cfg (rt_incarnation rt) (1 + Zlen chs) created (1 + total chs) window s es [] rt
    /\ Zlen (fs_bytes s) + kTrailerBytes <= max_recovery_bytes (rc_store cfg).
Proof.
  intros HL [(s & Es & Hp & _ & Hb) _ _]. destruct (lv_live _ _ _ _ HL) as (s' & es & tail & Hj).
  assert (s' = s) as -> by (pose proof (jr_store _ _ _ _ _ _ _ _ _ _ Hj); congruence).
  assert (tail = []) as ->; [|by exists s, es].
  destruct tail; [done|]. pose proof (rp_poisoned _ _ _ _ _ _ _ _ (jr_log _ _ _ _ _ _ _ _ _ _ Hj) ltac:(done)). congruence.
Qed.

(** A crash leaves the open segment as it is. *)
Lemma crash_archives chs window created rt :
  lives_on chs window created rt -> room rt ->
  exists chs', archive_ok (disk_of rt) chs' (rt_fabric rt) (strip <$> rt_dedup rt) /\ newest 0 chs' = rt_epoch rt.
Proof.
  intros HL HR. destruct (unpoisoned_live _ _ _ _ HL HR) as (s & es & Es & Hj & Hb). pose proof (jr_log _ _ _ _ _ _ _ _ _ _ Hj) as Hlog.
  unfold disk_of. rewrite Es, (rp_segment _ _ _ _ _ _ _ _ Hlog). eexists.
  apply (chapter_closes chs window created rt s es false); [done..|exact (rp_bytes _ _ _ _ _ _ _ _ Hlog)|unfold kTrailerBytes in Hb; lia].
Qed.

(** A stop that succeeds closes it with a trailer. *)
Lemma stop_archives short sync chs window created rt st rt' :
  lives_on chs window created rt -> room rt -> stop short sync rt = (st, rt') -> status_ok st = true ->
  rt_started rt' = false /\ rt_config rt' = cfg
  /\ exists chs', archive_ok (disk_of rt') chs' (rt_fabric rt) (strip <$> rt_dedup rt) /\ newest 0 chs' = rt_epoch rt.
Proof.
  intros HL HR. destruct (unpoisoned_live _ _ _ _ HL HR) as (s & es & Es & Hj & Hb). pose proof (jr_log _ _ _ _ _ _ _ _ _ _ Hj) as Hlog.
  unfold stop. rewrite (lv_started _ _ _ _ HL). cbn [negb andb]. cbv zeta. cbn [with_lifecycle with_lease rt_store]. rewrite Es.
  unfold close_clean. rewrite (rp_closed _ _ _ _ _ _ _ _ Hlog), (rp_open _ _ _ _ _ _ _ _ Hlog). cbn [negb]. cbv zeta.
  destruct (write_all short _) as [w b] eqn:Ew. destruct (status_ok w) eqn:O1; cbn [negb]; [|rewrite O1; intros [= <- <-]; congruence].
  apply write_all_ok in Ew; [|done]. destruct (status_ok sync) eqn:O2; cbn [negb]; intros [= <- <-] Hst; [|congruence].
  split_and!; [done|exact (lv_config _ _ _ _ HL)|].
  unfold disk_of. cbn [with_store with_lifecycle with_lease rt_store rt_disk fs_segment fs_bytes with_file].
  rewrite (rp_segment _ _ _ _ _ _ _ _ Hlog). eexists.
  apply (chapter_closes chs window created rt s es true); [done..| |].
  - rewrite Ew, (rp_bytes _ _ _ _ _ _ _ _ Hlog), app_nil_r, (rp_records _ _ _ _ _ _ _ _ Hlog), (rp_last _ _ _ _ _ _ _ _ Hlog),
      (rp_first _ _ _ _ _ _ _ _ Hlog), (rp_chain _ _ _ _ _ _ _ _ Hlog). reflexivity.
  - rewrite Zlen_app, Ew, Zlen_app, trailer_front_length; [|rewrite (rp_chain _ _ _ _ _ _ _ _ Hlog); apply chain_of_32, digest_of_32].
    pose proof (digest_of_32 (trailer_front (fs_records s) (fs_last_sequence s) (fs_first_sequence s) (fs_chain s))) as H32.
    unfold digest32 in H32. rewrite H32. unfold kTrailerBytes in Hb. lia.
Qed.

(** ** Lives *)

(** The topology a start publishes is one the journal can hold. *)
Definition holdable (rt : ControllerRuntime) : Prop := forall g, rt_fabric rt = Some g -> persistable cfg g.

(** The runtimes of one state directory: booted over an empty directory, then any number of
    operations, crashes and orderly restarts. *)
Inductive lived : ControllerRuntime -> Prop :=
| lived_boot io disk st rt :
    io_ok io -> disk = None \/ disk = Some [] -> start io (new_runtime cfg disk) = (st, rt) -> rt_started rt = true ->
    holdable rt -> lived rt
| lived_step rt rt' : lived rt -> journal_step cfg rt rt' -> lived rt'
| lived_crash io st rt rt' :
    lived rt -> room rt -> io_ok io -> start io (new_runtime cfg (disk_of rt)) = (st, rt') -> rt_started rt' = true ->
    holdable rt' -> lived rt'
| lived_restart short sync io st rt rt' :
    lived rt -> room rt -> io_ok io -> restart short sync io rt = (st, rt') -> rt_started rt' = true ->
    holdable rt' -> lived rt'.

Lemma empty_archive disk : disk = None \/ disk = Some [] -> 0 < max_segments (rc_store cfg) -> archive_ok disk [] None [].
Proof.
  intros Hd Hm. split; [by destruct Hd as [-> | ->]; [right|left]|done| |done|by change (Zlen (@nil Chapter)) with 0|done].
  intros E _. by exists 0.
Qed.

(** A restart that comes up went through a stop that succeeded. *)
Lemma restart_stops short sync io rt st rt' :
  restart short sync io rt = (st, rt') -> rt_started rt' = true ->
  exists st0 rt0, stop short sync rt = (st0, rt0) /\ status_ok st0 = true /\ start io rt0 = (st, rt').
Proof.
  unfold restart. destruct (stop short sync rt) as [st0 rt0] eqn:E. destruct (status_ok st0) eqn:O; cbn [negb]; [by eexists _, _|].
  intros [= <- <-] Hs. exfalso. unfold stop in E. cbv zeta in E. destruct (rt_started rt); cbn [negb andb] in E.
  - cbn [with_lifecycle with_lease rt_store] in E. destruct (rt_store rt) as [s|]; [|by simplify_eq].
    destruct (close_clean short sync s) as [closed s']. destruct (negb _); by simplify_eq.
  - destruct (_ =? 0); by simplify_eq.
Qed.

Lemma lived_lives rt : config_ok -> lived rt -> exists chs window created, lives_on chs window created rt.
Proof.
  intros Hcf. induction 1 as [io disk st rt Hio Hd Hst Hs Hh|rt rt' _ IH Hstep|io st rt rt' _ IH HR Hio Hst Hs Hh|short sync io st rt rt' _ IH HR Hio Hst Hs Hh].
  - exists [], [], (si_now io). apply (start_lives io (new_runtime cfg disk) [] None [] st rt); [done|done|done|done| |done|exact Hst|done|exact Hh].
    apply empty_archive; [exact Hd|apply Hcf].
  - destruct IH as (chs & window & created & [L1 L2 L3 L4 L5 L6 L7 L8 L9]). exists chs, window, created.
    pose proof (journal_step_disk _ _ _ L3 Hstep) as Hd. pose proof (journal_step_keeps _ _ _ _ _ _ L8 _ _ L3 Hstep L9) as Hj.
    destruct (live_step_ok _ _ (journal_step_live _ _ _ Hstep) L3) as [[F1 F2 F3 F4 _ _] Hok].
    split; [congruence|congruence|done|by rewrite Hd|done|done|by rewrite F3|by rewrite F2|by rewrite F2].
  - destruct IH as (chs & window & created & HL). destruct (crash_archives _ _ _ _ HL HR) as (chs' & Har & Hn).
    exists chs', (strip <$> rt_dedup rt), (si_now io).
    eapply (start_lives io (new_runtime cfg (disk_of rt))); [done|done|done|done|exact Har|rewrite Hn; apply HR|exact Hst|done|exact Hh].
  - destruct IH as (chs & window & created & HL). destruct (restart_stops _ _ _ _ _ _ Hst Hs) as (st0 & rt0 & E0 & O0 & Hst').
    destruct (stop_archives _ _ _ _ _ _ _ _ HL HR E0 O0) as (Hs0 & Hc0 & chs' & Har & Hn).
    exists chs', (strip <$> rt_dedup rt), (si_now io).
    eapply (start_lives io rt0); [done|done|done|done|exact Har|rewrite Hn; apply HR|exact Hst'|done|exact Hh].
Qed.

Lemma lived_fabric rt : config_ok -> lived rt -> exists g, rt_fabric rt = Some g.
Proof.
  intros Hcf HL. destruct (lived_lives rt Hcf HL) as (chs & window & created & H).
  destruct (ok_published _ (lv_ok _ _ _ _ H) (lv_started _ _ _ _ H)) as (f & _ & E & _). by exists f.
Qed.

(** After a crash, and after an orderly restart. *)
Lemma crash_recovers io rt st rt' :
  config_ok -> lived rt -> room rt -> start io (new_runtime cfg (disk_of rt)) = (st, rt') -> rt_started rt' = true ->
  rt_fabric rt' = rt_fabric rt /\ rt_dedup rt' = strip <$> rt_dedup rt /\ rt_epoch rt' = rt_epoch rt + 1.
Proof.
  intros Hcf HL HR Hst Hs. destruct (lived_fabric rt Hcf HL) as [g Eg]. destruct (lived_lives rt Hcf HL) as (chs & window & created & Hl).
  destruct (crash_archives _ _ _ _ Hl HR) as (chs' & Har & Hn).
  destruct (start_over io (new_runtime cfg (disk_of rt)) chs' (rt_fabric rt) (strip <$> rt_dedup rt) st rt') as (H1 & H2 & H3);
    [done|done|done|exact Har|rewrite Hn; apply HR|exact Hst|exact Hs|]. rewrite Eg, (H3 g Eg), H2, Hn. done.
Qed.

Lemma restart_recovers short sync io rt st rt' :
  config_ok -> lived rt -> room rt -> restart short sync io rt = (st, rt') -> rt_started rt' = true ->
  rt_fabric rt' = rt_fabric rt /\ rt_dedup rt' = strip <$> rt_dedup rt /\ rt_epoch rt' = rt_epoch rt + 1.
Proof.
  intros Hcf HL HR Hst Hs. destruct (lived_fabric rt Hcf HL) as [g Eg]. destruct (lived_lives rt Hcf HL) as (chs & window & created & Hl).
  destruct (restart_stops _ _ _ _ _ _ Hst Hs) as (st0 & rt0 & E0 & O0 & Hst').
  destruct (stop_archives _ _ _ _ _ _ _ _ Hl HR E0 O0) as (Hs0 & Hc0 & chs' & Har & Hn).
  destruct (start_over io rt0 chs' (rt_fabric rt) (strip <$> rt_dedup rt) st rt') as (H1 & H2 & H3);
    [done|done|done|exact Har|rewrite Hn; apply HR|exact Hst'|exact Hs|]. rewrite Eg, (H3 g Eg), H2, Hn. done.
Qed.

(** ** Starts that must succeed *)

(** An append on a healthy segment with a healthy file system succeeds. *)
Lemma append_fine inc segment created first type payload w epoch generation s es :
  segment_ok (rc_store cfg) inc segment created first -> represents (rc_store cfg) inc segment created first s es [] ->
  fs_poisoned s = false -> Zlen es < max_records_per_segment (rc_store cfg) -> Zlen payload <= max_record_bytes (rc_store cfg) ->
  inc_is_zero w = false ->
  exists s', append io_fine type payload w epoch generation s = (success, s') /\ fs_poisoned s' = false.
Proof.
  intros Hso [H1 H2 H3 H4 H5 H6 H7 H8 H9 H10 H11 H12 H13] Hp Hroom Hlen Hw. unfold append. rewrite Hw, H2, H3, Hp, H8.
  destruct (Z.gtb_spec (Zlen payload) (max_record_bytes (rc_store cfg))); [lia|].
  destruct (Z.leb_spec (max_records_per_segment (rc_store cfg)) (Zlen es)); [lia|]. pose proof (Zlen_nonneg es).
  destruct Hso as [[_ _ _ _ [[Hf _] Hf0]] _ _ Hq].
  assert (checked_add (fs_last_sequence s) 1 = Some (first + Zlen es)) as -> by (rewrite H6; apply checked_add_spec; unfold fits; lia).
  cbn [io_fine io_header io_payload io_sync write_all]. cbv zeta beta iota. unfold sync_locked. cbn [with_file fs_open fs_config].
  rewrite H1, H3. destruct (sync_on_commit (rc_store cfg)); (eexists; split; [reflexivity|exact Hp]).
Qed.

Lemma shelf_slot_free disk chs :
  shelf disk chs -> chapters_ok (rc_store cfg) 1 1 chs -> Zlen chs < 10 ^ 8 - 1 ->
  match disk with
  | Some d => match dir_file d (segment_name (1 + Zlen chs)) with FileAbsent => false | _ => true end
  | None => false
  end = false.
Proof.
  intros [-> | [-> _]] Hok Hlen; [|done]. rewrite dir_file_absent; [done|]. intros e He En.
  destruct (library_names _ _ _ _ _ Hok He) as (j & Hj & Hj' & Ej). rewrite Ej in En. pose proof (Zlen_nonneg chs).
  apply segment_name_inj in En; lia.
Qed.

Lemma open_segment_fine inc now f chs rt :
  config_ok -> io_ok (start_io_fine inc now) -> 2 <= max_records_per_segment (rc_store cfg) ->
  Zlen (serialize_fabric f) <= max_record_bytes (rc_store cfg) -> u64_ok (fab_generation f) ->
  shelf (rt_disk rt) chs -> chapters_ok (rc_store cfg) 1 1 chs -> Zlen chs < 10 ^ 8 - 1 -> total chs <= 1000000 ->
  rt_config rt = cfg -> rt_incarnation rt = inc -> inc_is_zero inc = false -> u64_ok (rt_epoch rt) -> rt_generation rt = fab_generation f ->
  exists rt', open_segment (start_io_fine inc now) f (1 + Zlen chs) (1 + total chs) rt = (success, rt').
Proof.
  intros Hcf [I1 I2 I3] Hrec Hlen Hg Hs Hok Hn Ht Hc Hi Hz He Eg. pose proof (Zlen_nonneg chs). pose proof (total_nonneg chs).
  assert (segment_ok (rc_store cfg) inc (1 + Zlen chs) now (1 + total chs)) as Hso.
  { destruct Hcf as [_ C1 C2 _]. cbn in I1, I2, I3.
    split; [split; try done; [unfold fits; lia|split; [unfold fits|]; lia]|done|done|unfold kReplayBound in *; lia]. }
  unfold open_segment. cbv zeta. rewrite (shelf_slot_free _ _ Hs Hok Hn), Hc, Hi.
  cbn [start_io_fine si_mkdir si_open si_header si_sync si_now si_first si_second].
  destruct (create_store _ _ _ _ _ _ _ _ _ _ _) as [[s|e] left] eqn:Ec; [|exfalso; unfold create_store in Ec; rewrite Hz in Ec; done].
  apply create_represents in Ec as (R0 & _ & P0); [|lia|lia]. cbn [with_store rt_incarnation rt_epoch rt_generation rt_config].
  rewrite Hi, Eg. assert (Zlen (@nil byte) = 0) as Z0 by done. assert (Zlen (@nil Entry) = 0) as Z1 by done.
  assert (0 <= max_record_bytes (rc_store cfg)) as Hmb by (pose proof (Zlen_nonneg (serialize_fabric f)); lia).
  destruct (append_fine inc _ now _ RT_IncarnationStart [] inc (rt_epoch rt) (fab_generation f) s [] Hso R0 P0 ltac:(lia) ltac:(lia) Hz) as (s1 & E1 & P1).
  pose proof (append_represents _ _ _ _ _ io_fine RT_IncarnationStart [] inc (rt_epoch rt) (fab_generation f) s [] [] Hso He Hg R0) as R1.
  cbv zeta in R1. rewrite E1 in R1 |- *. change (status_ok success) with true. change (status_ok (success, s1).1) with true in R1. cbn [negb app fst snd] in *.
  unfold append_fabric. cbv zeta. rewrite (rp_config _ _ _ _ _ _ _ _ R1).
  destruct (Z.gtb_spec (Zlen (serialize_fabric f)) (max_record_bytes (rc_store cfg))); [lia|].
  destruct (append_fine inc _ now _ RT_FabricSnapshot (serialize_fabric f) inc (rt_epoch rt) (fab_generation f) s1 _ Hso R1 P1) as (s2 & E2 & P2);
    [rewrite Zlen_cons, Z1; lia|done|done|].
  rewrite E2. change (status_ok success) with true. cbn [negb]. by eexists.
Qed.

Lemma start_fine inc now rt0 chs g ix window :
  config_ok -> io_ok (start_io_fine inc now) -> 2 <= max_records_per_segment (rc_store cfg) ->
  Zlen (serialize_fabric g) <= max_record_bytes (rc_store cfg) -> u64_ok (fab_generation g) -> inc_is_zero inc = false ->
  rt_started rt0 = false -> rt_config rt0 = cfg -> archive_ok (disk_of rt0) chs (Some g) window -> build_index g = Value ix ->
  exists rt', start (start_io_fine inc now) rt0 = (success, rt') /\ rt_started rt' = true.
Proof.
  intros Hcf Hio Hrec Hlen Hg Hz Hs Hc Har Hix. unfold start. rewrite Hs. cbv zeta. set (rt1 := begin_start (start_io_fine inc now) rt0).
  assert (rt_config rt1 = cfg) as Hc1 by exact Hc. rewrite Hc1, (cf_persistent Hcf).
  destruct (recover_archive (start_io_fine inc now) rt1 chs (Some g) window Hc1 eq_refl Har) as [rr ->].
  unfold finish_start. cbv zeta. rewrite Hix. cbn [with_recovery with_log rt_config]. rewrite Hc1, (cf_persistent Hcf).
  destruct Har as [Ha1 Ha2 Ha3 Ha4 [Ha5 Ha6] Ha7].
  match goal with |- context [open_segment _ g _ _ ?x] => set (rt2 := x) end.
  destruct (open_segment_fine inc now g chs rt2) as [rt3 E3]; try done; [apply wrap_fits; lia|].
  rewrite E3. change (status_ok success) with true. cbn [negb]. by eexists.
Qed.

(** With a file system that answers every call, a crashed controller starts again. *)
Lemma crash_starts inc now rt g :
  config_ok -> lived rt -> room rt -> io_ok (start_io_fine inc now) -> inc_is_zero inc = false ->
  2 <= max_records_per_segment (rc_store cfg) -> rt_fabric rt = Some g -> u64_ok (fab_generation g) ->
  Zlen (serialize_fabric g) <= max_record_bytes (rc_store cfg) ->
  exists rt', start (start_io_fine inc now) (new_runtime cfg (disk_of rt)) = (success, rt') /\ rt_started rt' = true.
Proof.
  intros Hcf HL HR Hio Hz Hrec Eg Hg Hlen. destruct (lived_lives rt Hcf HL) as (chs & window & created & Hl).
  destruct (crash_archives _ _ _ _ Hl HR) as (chs' & Har & Hn). rewrite Eg in Har.
  destruct (ok_published _ (lv_ok _ _ _ _ Hl) (lv_started _ _ _ _ Hl)) as (f & ix & Ef & _ & Hix & _).
  assert (f = g) as -> by congruence. by eapply (start_fine inc now (new_runtime cfg (disk_of rt)) chs' g ix).
Qed.
End Restart.

(** A token of an earlier epoch never validates. *)
Lemma old_token_fenced now t rt : tok_epoch t <> rt_epoch rt -> status_ok (validate_authority now t rt) = false.
Proof.
  intros He. destruct (status_ok _) eqn:E; [|done]. unfold status_ok, is_ok in E. apply bool_decide_eq_true in E.
  apply validate_token_iff in E as (_ & _ & Hl & _). exfalso. apply He. apply Hl.
Qed.

(** Both ways of going down. *)
Lemma restart_state cfg io rt st rt' short sync :
  config_ok cfg -> lived cfg rt -> room cfg rt ->
  start io (new_runtime cfg (disk_of rt)) = (st, rt') \/ restart short sync io rt = (st, rt') -> rt_started rt' = true ->
  rt_fabric rt' = rt_fabric rt /\ rt_dedup rt' = strip <$> rt_dedup rt /\ rt_epoch rt' = rt_epoch rt + 1.
Proof. intros Hcf HL HR [Hst|Hst] Hs; [by eapply crash_recovers|by eapply restart_recovers]. Qed.

Lemma find_recorded_strip id d : find_recorded id (strip <$> d) = without_token <$> find_recorded id d.
Proof.
  unfold find_recorded. induction d as [|[k x] d IH]; [done|]. cbn [fmap list_fmap List.find strip fst snd].
  destruct (k =? id); [done|exact IH].
Qed.



