(* ===== verification/Session.v ===== *)
(** * Progress of a governed session (src/runtime.cpp)

    With a healthy journal a lease that is asked for is granted and its token validates until
    it expires; an authorised command whose effect validates is committed, and the token
    refreshed by the commit validates in its place. *)
From S2P Require Import Prelude Status Checked Identity Bytes Digest Capacity Model Builder BuilderSpec Sample Freeze Codec CodecSpec Topology Eligibility Governance GovernanceSpec Store StoreDir StoreSpec StoreDirSpec Durability Effect EffectSpec Runtime RuntimeSpec Replay Archive Restart.

#[local] Strategy 10000 [sha_finish update_span sha256 le_store].
#[local] Opaque encode_journal_header digest_of digest_of_two record_front.

(** ** A journal that takes one more record *)

Record writable (s : FabricStore) : Prop := {
  wr_open : fs_open s = true;
  wr_closed : fs_closed s = false;
  wr_poisoned : fs_poisoned s = false;
  wr_records : fs_records s < max_records_per_segment (fs_config s);
  wr_last : 0 <= fs_last_sequence s < u64_max
}.

(** The journal of a runtime, when it keeps one. *)
Definition journal_takes (rt : ControllerRuntime) (bytes : Z) : Prop :=
  forall s, rt_store rt = Some s -> writable s /\ bytes <= max_record_bytes (fs_config s).

Lemma append_writable s type payload w epoch generation :
  writable s -> Zlen payload <= max_record_bytes (fs_config s) -> inc_is_zero w = false ->
  exists s', append io_fine type payload w epoch generation s = (success, s')
    /\ fs_config s' = fs_config s /\ fs_open s' = true /\ fs_closed s' = false /\ fs_poisoned s' = false
    /\ fs_records s' = wrap 64 (fs_records s + 1) /\ fs_last_sequence s' = fs_last_sequence s + 1.
Proof.
  intros [H1 H2 H3 H4 H5] Hlen Hw. unfold append. rewrite Hw, H2, H3.
  destruct (Z.gtb_spec (Zlen payload) (max_record_bytes (fs_config s))); [lia|].
  destruct (Z.leb_spec (max_records_per_segment (fs_config s)) (fs_records s)); [lia|].
  assert (checked_add (fs_last_sequence s) 1 = Some (fs_last_sequence s + 1)) as -> by (apply checked_add_spec; unfold fits, u64_max in *; lia).
  cbn [io_fine io_header io_payload io_sync write_all]. cbv zeta beta iota. unfold sync_locked. cbn [with_file fs_open fs_config].
  rewrite H1. destruct (sync_on_commit (fs_config s)); eexists; (split; [reflexivity|by split_and!]).
Qed.

Lemma append_command_writable s c r w epoch :
  writable s -> Zlen (commit_payload c r) <= max_record_bytes (fs_config s) -> max_record_bytes (fs_config s) <= u32_max ->
  inc_is_zero w = false -> exists s', append_command io_fine c r w epoch s = (success, s').
Proof.
  intros Hs Hlen Hmax Hw. unfold append_command. cbv zeta.
  set (bound := if max_record_bytes (fs_config s) <? 65536 then 65536 else max_record_bytes (fs_config s)).
  assert (max_record_bytes (fs_config s) <= bound) as Hb by (subst bound; destruct (Z.ltb_spec (max_record_bytes (fs_config s)) 65536); lia).
  pose proof Hlen as Hlen'. unfold commit_payload in Hlen'. cbn [enc] in Hlen'. rewrite !Zlen_app, !Zlen_le_store in Hlen'.
  pose proof (Zlen_nonneg (serialize_command c)). pose proof (Zlen_nonneg (serialize_command_result r)).
  assert (write_block (new_writer bound) (serialize_command c) = (success, MkWriter (enc (WBlock (serialize_command c))) bound)) as ->.
  { pose proof (write_op_fit (new_writer bound) (WBlock (serialize_command c))) as Hw1. cbn [write_op] in Hw1. rewrite Hw1; [done|cbn; lia|].
    cbn [enc new_writer buffer max_bytes]. rewrite Zlen_app, Zlen_le_store, Zlen_nil. lia. }
  change (status_ok success) with true. cbn [negb].
  assert (write_block (MkWriter (enc (WBlock (serialize_command c))) bound) (serialize_command_result r)
    = (success, MkWriter (commit_payload c r) bound)) as ->.
  { pose proof (write_op_fit (MkWriter (enc (WBlock (serialize_command c))) bound) (WBlock (serialize_command_result r))) as Hw2.
    cbn [write_op] in Hw2. rewrite Hw2; [done|cbn; lia|]. cbn [enc buffer max_bytes]. rewrite !Zlen_app, !Zlen_le_store. lia. }
  change (status_ok success) with true. cbn [negb buffer].
  destruct (append_writable s RT_CommandCommit (commit_payload c r) w epoch (res_generation r) Hs Hlen Hw) as (s' & E & _). by exists s'.
Qed.

(** ** Leases *)

(** A token that carries the live coordinate and lease validates until it expires. *)
Lemma live_token_validates now t rt l :
  rt_lease rt = Some l -> al_lease l = tok_lease t -> inc_is_zero (rt_incarnation rt) = false -> tok_lease t <> 0 ->
  tok_controller t = rt_incarnation rt -> tok_epoch t = rt_epoch rt -> tok_generation t = rt_generation rt ->
  tok_topology_digest t = live_digest rt ->
  code (validate_authority now t rt) = SC_Ok <-> now < tok_expires_at t.
Proof.
  intros El Ell Hi Hl E1 E2 E3 E4. unfold validate_authority. rewrite validate_token_iff. unfold token_live, authority_context.
  cbn [ctx_controller ctx_epoch ctx_generation ctx_topology_digest ctx_active_lease ctx_now]. rewrite El. cbn [fmap option_fmap option_map].
  assert (tok_controller t <> zero_incarnation) by (rewrite E1; by intros E; rewrite E in Hi). rewrite Ell. naive_solver.
Qed.

(** Leases are granted. On a started runtime with a healthy journal, a well-formed request
    for a lease is granted, and at every later moment the minted token validates exactly until
    it expires. *)
Theorem lease_is_granted now who ttl rt expires :
  rt_started rt = true -> inc_is_zero (rt_incarnation rt) = false -> journal_takes rt 4096 ->
  who <> "" -> strlen who <= 256 -> is_valid_utf8 who = true -> ttl <> 0 -> checked_add now ttl = Some expires ->
  wrap 64 (rt_lease_counter rt + 1) <> 0 ->
  exists l rt', acquire_authority io_fine now who ttl rt = (Value l, rt') /\ tok_expires_at (al_token l) = expires
    /\ rt_lease rt' = Some l /\ rt_fabric rt' = rt_fabric rt
    /\ forall now', code (validate_authority now' (al_token l) rt') = SC_Ok <-> now' < expires.
Proof.
  intros Hs Hi Hj Hw Hwl Hu Ht Hx Hc. unfold acquire_authority. rewrite Hs, bool_decide_false, Hu by done. cbn [negb orb].
  destruct (Z.gtb_spec (strlen who) 256); [lia|]. cbn [orb]. rewrite (proj2 (Z.eqb_neq _ _) Ht). cbv zeta. rewrite (proj2 (Z.eqb_neq _ _) Ht), Hx.
  set (l := MkLease _ _ _). cbn [with_lease rt_store rt_incarnation rt_epoch rt_generation rt_records_since_snapshot rt_disk].
  assert (forall rt', rt_lease rt' = Some l -> rt_incarnation rt' = rt_incarnation rt -> rt_epoch rt' = rt_epoch rt ->
    rt_generation rt' = rt_generation rt -> rt_fabric rt' = rt_fabric rt ->
    forall now', code (validate_authority now' (al_token l) rt') = SC_Ok <-> now' < expires) as Hval.
  { intros rt' E1 E2 E3 E4 E5 now'. apply (live_token_validates now' (al_token l) rt' l); try done; [by rewrite E2|].
    unfold live_digest. by rewrite E5. }
  destruct (rt_store rt) as [s|] eqn:Es; [|eexists _, _; split; [reflexivity|]; split_and!; [done|done|done|by apply Hval]].
  destruct (Hj s Es) as [Hwr Hfit].
  destruct (append_writable s RT_Fence (lease_record l) (rt_incarnation rt) (rt_epoch rt) (rt_generation rt) Hwr) as (s' & E & _); [|done|].
  { etransitivity; [|exact Hfit]. unfold lease_record. destruct (writes_bound (new_writer 4096) [WU64 (al_lease l); WU64 (tok_issued_at (al_token l)); WU64 (tok_expires_at (al_token l)); WString (al_requester l)]) as [Hb _]; [done|exact Hb]. }
  rewrite E. change (status_ok success) with true. cbn [negb]. eexists _, _. split; [reflexivity|].
  split_and!; [done|done|done|by apply Hval].
Qed.

(** ** Commands *)

(** A command that passes every check returns with a mutation of its own. *)
Lemma checked_command_returns now c rt f f' ix :
  authorised now c rt -> rt_fabric rt = Some f -> status_ok (command_precondition f c) = true ->
  apply_command_to (rc_limits (rt_config rt)) f c (target_generation c rt) (rt_epoch rt) (rt_incarnation rt) = Value f' ->
  build_index f' = Value ix -> rt_fault_point rt = FP_None -> inc_is_zero (rt_incarnation rt) = false ->
  journal_takes rt (Zlen (commit_payload c (committed_result c f' rt))) ->
  (forall s, rt_store rt = Some s -> max_record_bytes (fs_config s) <= u32_max) ->
  exists r rt', apply io_fine now c rt = Returned r rt' /\ res_mutated r = true /\ res_deduplicated r = false.
Proof.
  intros [A1 A2 A3 A4 A5 A6 A7] Ef Hpre He Hix Hfp Hi Hj Hmax. unfold apply, apply_locked. cbv zeta. rewrite A1. cbn [negb]. unfold is_zero.
  rewrite (proj2 (Z.eqb_neq _ _) A2), A3. destruct (Z.leb_spec (rc_max_dedup (rt_config rt)) (Zlen (rt_dedup rt))); [lia|].
  assert (status_ok (validate_token (cmd_token c) (authority_context now rt)) = true) as -> by (unfold status_ok, is_ok; by apply bool_decide_eq_true).
  rewrite A6, A7, !Z.eqb_refl, Ef, Hpre. cbn [negb orb]. unfold commit_command. rewrite He, Hix.
  assert (forall p rt', rt_fault_point rt' = FP_None -> hit_fault p rt' = false) as Hhit.
  { intros p rt' E. unfold hit_fault. rewrite E. done. }
  rewrite Hhit by done. cbv zeta. cbn [res_request res_deduplicated res_refreshed_token].
  set (result := MkResult _ _ _ _ _ _ _ _ _). change result with (committed_result c f' rt).
  assert (forall rt1, rt_fault_point rt1 = FP_None -> exists r rt',
    (if hit_fault FP_AfterCommitBeforeAck rt1 then Exited rt1
     else let '(result0, rt0) := publish c (committed_result c f' rt) f' ix rt1 in
          if hit_fault FP_AfterAckBeforeSnapshot rt0 then Exited rt0 else Returned result0 rt0) = Returned r rt'
    /\ res_mutated r = true /\ res_deduplicated r = false) as Hpub.
  { intros rt1 E1. rewrite Hhit by done. destruct (publish c (committed_result c f' rt) f' ix rt1) as [r rt'] eqn:Ep.
    pose proof (publish_effect _ _ _ _ _ _ _ Ep) as (_ & _ & _ & _ & _ & _ & _ & _ & _ & _ & Efp & Er & _).
    rewrite Hhit by congruence. exists r, rt'. split; [done|].
    split; [by apply (f_equal res_mutated) in Er|by apply (f_equal res_deduplicated) in Er]. }
  destruct (rt_store rt) as [s|] eqn:Es; [|apply Hpub; exact Hfp].
  destruct (Hj s Es) as [Hw Hfit].
  destruct (append_command_writable s c (committed_result c f' rt) (rt_incarnation rt) (rt_epoch rt) Hw Hfit (Hmax s eq_refl) Hi) as [s' ->].
  change (status_ok success) with true. cbn [negb]. apply Hpub. exact Hfp.
Qed.

(** C7: Authorised commands commit. When every check of a command holds (its token, its
    coordinate, its precondition), its effect builds a valid topology with an index, no fault
    is injected and the journal has room for its record, the command returns Ok, its effect is
    published, and when a lease is active the refreshed token validates until it expires. *)
Theorem authorised_command_commits now c rt f f' ix :
  rt_ok rt -> authorised now c rt -> rt_fabric rt = Some f -> status_ok (command_precondition f c) = true ->
  apply_command_to (rc_limits (rt_config rt)) f c (target_generation c rt) (rt_epoch rt) (rt_incarnation rt) = Value f' ->
  build_index f' = Value ix -> rt_fault_point rt = FP_None -> inc_is_zero (rt_incarnation rt) = false ->
  journal_takes rt (Zlen (commit_payload c (committed_result c f' rt))) ->
  (forall s, rt_store rt = Some s -> max_record_bytes (fs_config s) <= u32_max) ->
  exists r rt', apply io_fine now c rt = Returned r rt' /\ res_code r = SC_Ok /\ res_mutated r = true
    /\ rt_fabric rt' = Some f' /\ rt_generation rt' = target_generation c rt
    /\ (forall l now', rt_lease rt = Some l -> tok_lease (al_token l) <> 0 ->
         code (validate_authority now' (res_refreshed_token r) rt') = SC_Ok <-> now' < tok_expires_at (al_token l)).
Proof.
  intros Hok Ha Ef Hpre He Hix Hfp Hi Hj Hmax.
  destruct (checked_command_returns now c rt f f' ix Ha Ef Hpre He Hix Hfp Hi Hj Hmax) as (r & rt' & Er & Hm & Hd).
  assert (rt_started rt = true -> is_Some (rt_fabric rt)) as Hfab by (intros _; by rewrite Ef).
  destruct (apply_outcome io_fine now c rt r rt' Hfab Er) as [(_ & _ & H)|(f1 & f1' & [T1 T2 T3 T4 T5 T6 T7 T8 T9 T10])]; [specialize (H Hm); congruence|].
  assert (f1 = f) as -> by congruence. assert (f1' = f') as -> by congruence. clear T3.
  destruct T5 as [P1 _]. destruct T6 as (G1 & G2 & G3 & G4 & G5 & _). exists r, rt'. split_and!; [done| |done|done|done|].
  - by apply (f_equal res_code) in T7.
  - intros l now' El Hl. rewrite El in T9. cbn [fmap option_fmap option_map] in T9. rewrite (T10 l El).
    destruct (ok_lease _ Hok l El) as (L1 & L2 & L3).
    rewrite (live_token_validates now' (al_token (refresh_lease f' l)) rt' (refresh_lease f' l)); [done|done|exact (eq_sym L3)|by rewrite G3|exact Hl|by rewrite G3|by rewrite G2| |].
    + cbn [refresh_lease al_token tok_generation]. destruct (apply_command_coordinate _ _ _ _ _ _ _ He) as (E & _). by rewrite G1.
    + unfold live_digest. by rewrite P1.
Qed.
