(* ===== verification/Transport.v ===== *)
(** * Framed transport (include/slf/transport.hpp, src/transport.cpp)

    Endpoints, wire frames and the socket loops that move them. The operating
    system is an argument: what each [send] takes, how the peer's bytes arrive
    in pieces, and what each socket call answers. *)
From S2P Require Import Prelude Status Identity Bytes Digest Store.

(** version.hpp *)
Definition kProtocolVersion : Z := 1.

(** ** Data *)

Record FrameHeader := MkFrame {
  fh_magic : Z;
  fh_version : Z;
  fh_type : Z;
  fh_flags : Z;
  fh_payload_len : Z;
  fh_request_id : Z;
  fh_reserved : Z
}.

#[export] Instance FrameHeader_eq_dec : EqDecision FrameHeader.
Proof. solve_decision. Defined.

Definition kFrameMagic : Z := 0x534C4646.
Definition kFrameHeaderBytes : Z := 64.
Definition kDigestBytes : Z := 32.
Definition kFlagReply : Z := 1.

Definition default_frame : FrameHeader := MkFrame kFrameMagic kProtocolVersion 0 0 0 0 0.

Record TransportLimits := MkLimits {
  max_frame_payload : Z;
  max_connections : Z;
  max_in_flight : Z;
  io_timeout_ms : Z;
  max_retries : Z;
  max_frames_per_connection : Z
}.

Definition default_transport_limits : TransportLimits := MkLimits (4 * 1024 * 1024) 32 64 5000 2 100000.

Record Endpoint := MkEndpoint { host : string; port : Z }.

(** ** Endpoints *)

Definition Endpoint_to_string (e : Endpoint) : string := host e +:+ ":" +:+ std_to_string (port e).

(** [text.rfind(c)]: the halves around the last occurrence. *)
Fixpoint rsplit_at_byte (c : byte) (bs : list byte) : option (list byte * list byte) :=
  match bs with
  | [] => None
  | b :: r =>
      match rsplit_at_byte c r with
      | Some (p, s) => Some (b :: p, s)
      | None => if bool_decide (b = c) then Some ([], r) else None
      end
  end.

Definition parse_endpoint (text : string) : Outcome Endpoint :=
  match rsplit_at_byte x3a (bytes_of text) with
  | None | Some ([], _) | Some (_, []) => fail SC_Invalid "endpoint must be host:port"
  | Some (h, p) =>
      match parse_u32 (text_of p) with
      | None => fail SC_Invalid "endpoint port must be in 1..65535"
      | Some v =>
          if (v =? 0) || (v >? 65535) then fail SC_Invalid "endpoint port must be in 1..65535"
          else if negb (is_valid_utf8 (text_of h)) || (Zlen h >? 255) then
            fail SC_Invalid "endpoint host is not valid"
          else Value (MkEndpoint (text_of h) (wrap 16 v))
      end
  end.

(** ** Frames *)

(** [std::copy] of [src] over the front of [dst]. *)
Definition copy_front (src dst : list byte) : list byte := src ++ drop (List.length src) dst.

Definition frame_ops (h : FrameHeader) : list WriteOp :=
  [WU32 (fh_magic h); WU16 (fh_version h); WU16 (fh_type h); WU32 (fh_flags h); WU32 (fh_payload_len h);
   WU64 (fh_request_id h); WU64 (fh_reserved h)].

Definition frame_header_bytes (h : FrameHeader) : list byte :=
  copy_front (buffer (writes (new_writer kDefaultMaxBytes) (frame_ops h)))
    (replicate (Z.to_nat kFrameHeaderBytes) x00).

(** The header [encode_frame] sends for [h]. *)
Definition stamp (h : FrameHeader) (payload : list byte) : FrameHeader :=
  MkFrame kFrameMagic (fh_version h) (fh_type h) (fh_flags h) (wrap 32 (Zlen payload)) (fh_request_id h)
    (fh_reserved h).

Definition encode_frame (h : FrameHeader) (payload : list byte) (limits : TransportLimits) : Outcome (list byte) :=
  if Zlen payload >? max_frame_payload limits then
    fail SC_Exhausted "frame payload exceeds the configured bound"
  else
    let bytes := frame_header_bytes (stamp h payload) in
    let front := take (Z.to_nat (kFrameHeaderBytes - kDigestBytes)) bytes in
    let digest := digest_of_two front payload in
    Value ((front ++ digest_bytes digest) ++ payload).

Definition read_frame_fields : Reader FrameHeader :=
  magic ← read_u32; version ← read_u16; type ← read_u16; flags ← read_u32; payload_len ← read_u32;
  request_id ← read_u64; reserved ← read_u64;
  mret (MkFrame magic version type flags payload_len request_id reserved).

Definition decode_frame_header (header_bytes : list byte) (limits : TransportLimits) : Outcome FrameHeader :=
  if negb (Zlen header_bytes =? kFrameHeaderBytes) then fail SC_Invalid "frame header must be exactly 64 bytes"
  else
    h ← (fields SC_Truncated "frame header is incomplete" read_frame_fields
           (new_reader header_bytes kDefaultMaxString)).1;
    if negb (fh_magic h =? kFrameMagic) then fail SC_Corrupt "frame magic does not match"
    else if negb (fh_version h =? kProtocolVersion) then
      fail SC_IncompatibleVersion ("frame protocol version " +:+ std_to_string (fh_version h) +:+ " is not supported")
    else if fh_payload_len h >? max_frame_payload limits then
      fail SC_Exhausted "frame declares a payload larger than the configured bound"
    else Value h.

Definition verify_frame (header_bytes payload : list byte) : Status :=
  if negb (Zlen header_bytes =? kFrameHeaderBytes) then MkStatus SC_Invalid "frame header must be exactly 64 bytes"
  else
    let stored := MkDigest (span (kFrameHeaderBytes - kDigestBytes) kDigestBytes header_bytes) in
    let computed := digest_of_two (span 0 (kFrameHeaderBytes - kDigestBytes) header_bytes) payload in
    if negb (bool_decide (computed = stored)) then
      MkStatus SC_IntegrityError "frame digest does not match its contents"
    else success.

(** ** Sockets *)

(** The last socket error: whether it is a deadline expiry, and its text. *)
Record SocketErrno := MkErrno { timed_out : bool; error_text : string }.

Definition socket_error (what : string) (e : SocketErrno) : Status :=
  if timed_out e then MkStatus SC_DeadlineExpired (what +:+ " exceeded the configured deadline")
  else MkStatus SC_IoError (what +:+ " failed: " +:+ error_text e).

Definition kInvalidSocket : Z := -1.

(** A connection is its handle; [valid] tells whether it holds one. *)
Definition Connection := Z.
Definition valid (c : Connection) : bool := negb (c =? kInvalidSocket).

Definition kMaxChunk : Z := Z.shiftl 1 20.
Definition chunk_of (remaining : Z) : Z := if remaining >? kMaxChunk then kMaxChunk else remaining.

(** What one [send] answers: the room the kernel has, and the error when it has none. *)
Record SendAnswer := MkSend { send_room : Z; send_errno : SocketErrno }.

(** The loop of [write_all]: the status and the bytes handed to the kernel. Once the answers
    run out every [send] takes its whole chunk. *)
Fixpoint send_loop (fuel : nat) (answers : list SendAnswer) (data : list byte) : Status * list byte :=
  match data, fuel with
  | [], _ => (success, [])
  | _, O => (MkStatus SC_Internal "out of fuel", [])
  | _, S fuel =>
      let chunk := chunk_of (Zlen data) in
      let written := match answers with [] => chunk | a :: _ => Z.min (send_room a) chunk end in
      let errno := match answers with [] => MkErrno false "" | a :: _ => send_errno a end in
      if written <=? 0 then (socket_error "send" errno, [])
      else
        let '(st, sent) := send_loop fuel (tail answers) (drop (Z.to_nat written) data) in
        (st, take (Z.to_nat written) data ++ sent)
  end.

Definition conn_write_all (c : Connection) (answers : list SendAnswer) (data : list byte) : Status * list byte :=
  if negb (valid c) then (MkStatus SC_Closed "connection is closed", [])
  else send_loop (List.length data) answers data.

(** What reaches the socket, in order: bytes, or an error of one [recv]. After the last of
    them the peer has closed the connection. *)
Inductive Arrival := Arrived (l : list byte) | Errored (e : SocketErrno).

(** One [recv]: [None] is a return of 0, an error a negative one. *)
Fixpoint recv (chunk : nat) (w : list Arrival) : option (SocketErrno + list byte) * list Arrival :=
  match w with
  | [] => (None, [])
  | Arrived [] :: w => recv chunk w
  | Arrived l :: w =>
      (Some (inr (take chunk l)), match drop chunk l with [] => w | r => Arrived r :: w end)
  | Errored e :: w => (Some (inl e), w)
  end.

Fixpoint recv_loop (fuel : nat) (size : nat) (w : list Arrival) : Outcome (list byte) * list Arrival :=
  match size, fuel with
  | O, _ => (Value [], w)
  | _, O => (fail SC_Internal "out of fuel", w)
  | _, S fuel =>
      match recv (Z.to_nat (chunk_of (Z.of_nat size))) w with
      | (None, w) => (fail SC_Truncated "peer closed the connection mid-frame", w)
      | (Some (inl e), w) => (Failure (socket_error "recv" e), w)
      | (Some (inr l), w) =>
          match recv_loop fuel (size - List.length l) w with
          | (Value r, w) => (Value (l ++ r), w)
          | (Failure st, w) => (Failure st, w)
          end
      end
  end.

(** [read_all] into a buffer of [size] bytes. *)
Definition conn_read_all (c : Connection) (size : nat) (w : list Arrival) : Outcome (list byte) * list Arrival :=
  if negb (valid c) then (fail SC_Closed "connection is closed", w)
  else recv_loop size size w.

Definition write_frame (c : Connection) (answers : list SendAnswer) (h : FrameHeader) (payload : list byte)
    (limits : TransportLimits) : Status * list byte :=
  match encode_frame h payload limits with
  | Failure st => (st, [])
  | Value bytes => conn_write_all c answers bytes
  end.

Definition read_frame (c : Connection) (limits : TransportLimits) (w : list Arrival)
    : Outcome (FrameHeader * list byte) * list Arrival :=
  match conn_read_all c (Z.to_nat kFrameHeaderBytes) w with
  | (Failure st, w) => (Failure st, w)
  | (Value header_bytes, w) =>
      match decode_frame_header header_bytes limits with
      | Failure st => (Failure st, w)
      | Value header =>
          let '(read, w) :=
            if fh_payload_len header =? 0 then (Value [], w)
            else conn_read_all c (Z.to_nat (fh_payload_len header)) w in
          match read with
          | Failure st => (Failure st, w)
          | Value payload =>
              let verified := verify_frame header_bytes payload in
              if negb (status_ok verified) then (Failure verified, w)
              else (Value (header, payload), w)
          end
      end
  end.

(** ** Connections and listeners

    [handles] is the set of socket handles the process holds open. *)

Record SocketOs := MkSocketOs {
  os_ready : Status;
  os_socket : SocketErrno + Z;
  os_inet_pton : string -> bool;
  os_connect : option SocketErrno;
  os_rcv_timeout : option SocketErrno;
  os_snd_timeout : option SocketErrno;
  os_bind : option SocketErrno;
  os_listen : option SocketErrno;
  os_sockname : SocketErrno + Z;
  os_select : SocketErrno + bool;
  os_accept : SocketErrno + Z
}.

Definition close_socket (socket : Z) (handles : gset Z) : gset Z :=
  if socket =? kInvalidSocket then handles else handles ∖ {[socket]}.

(** [Connection::close] leaves an invalid handle behind. *)
Definition conn_close (c : Connection) (handles : gset Z) : Connection * gset Z :=
  if valid c then (kInvalidSocket, close_socket c handles) else (c, handles).

(** [Connection::shutdown] and [shutdown_socket]: the sockets told to stop, none when the handle is gone. *)
Definition conn_shutdown (c : Connection) : list Z := if valid c then [c] else [].

(** Moves leave the source without a handle; an assignment first closes the target's. The
    third component of [conn_assign] is the source afterwards. *)
Definition conn_move (other : Connection) : Connection * Connection := (other, kInvalidSocket).
Definition conn_assign (c other : Connection) (handles : gset Z) : Connection * Connection * gset Z :=
  (other, kInvalidSocket, (conn_close c handles).2).

Definition set_timeouts (os : SocketOs) (timeout_ms : Z) : Status :=
  if timeout_ms =? 0 then success
  else match os_rcv_timeout os with
  | Some e => socket_error "setsockopt(SO_RCVTIMEO)" e
  | None => match os_snd_timeout os with
            | Some e => socket_error "setsockopt(SO_SNDTIMEO)" e
            | None => success
            end
  end.

Definition set_deadlines (os : SocketOs) (c : Connection) (timeout_ms : Z) : Status :=
  if negb (valid c) then MkStatus SC_Closed "connection is closed" else set_timeouts os timeout_ms.

(** The host becomes an address: the loopback, or a literal that [inet_pton] reads. *)
Definition resolvable (os : SocketOs) (h : string) : bool :=
  bool_decide (h = "") || bool_decide (h = "localhost") || os_inet_pton os h.

Definition connect (os : SocketOs) (e : Endpoint) (limits : TransportLimits) (handles : gset Z)
    : Outcome Connection * gset Z :=
  if negb (status_ok (os_ready os)) then (Failure (os_ready os), handles)
  else match os_socket os with
  | inl err => (Failure (socket_error "socket" err), handles)
  | inr socket =>
      let handles := {[socket]} ∪ handles in
      if negb (resolvable os (host e)) then
        (fail SC_Invalid "client host must be an IPv4 literal or localhost", close_socket socket handles)
      else match os_connect os with
      | Some err => (Failure (socket_error "connect" err), close_socket socket handles)
      | None =>
          let deadlines := set_deadlines os socket (io_timeout_ms limits) in
          if negb (status_ok deadlines) then (Failure deadlines, (conn_close socket handles).2)
          else (Value socket, handles)
      end
  end.

Record TcpListener := MkListener { listener_socket : Z; listener_port : Z }.

Definition listener_close (l : TcpListener) (handles : gset Z) : TcpListener * gset Z :=
  if listener_socket l =? kInvalidSocket then (l, handles)
  else (MkListener kInvalidSocket (listener_port l), close_socket (listener_socket l) handles).

Definition listener_move (other : TcpListener) : TcpListener * TcpListener := (other, MkListener kInvalidSocket 0).
Definition listener_assign (l other : TcpListener) (handles : gset Z) : TcpListener * TcpListener * gset Z :=
  (other, MkListener kInvalidSocket 0, (listener_close l handles).2).

(** [getpeername]'s answer: [None] when it fails or is not IPv4, else the address as text, if
    [inet_ntop] can write it, and the port. *)
Definition peer (c : Connection) (name : option (option string * Z)) : string :=
  if negb (valid c) then "<closed>"
  else match name with
  | Some (Some text, port) => text +:+ ":" +:+ std_to_string port
  | _ => "<unknown>"
  end.

Definition bind (os : SocketOs) (e : Endpoint) (handles : gset Z) : Outcome TcpListener * gset Z :=
  if negb (status_ok (os_ready os)) then (Failure (os_ready os), handles)
  else match os_socket os with
  | inl err => (Failure (socket_error "socket" err), handles)
  | inr socket =>
      let handles := {[socket]} ∪ handles in
      let closing what err := (Failure (socket_error what err), close_socket socket handles) in
      if negb (resolvable os (host e)) then
        (fail SC_Invalid "listener host must be an IPv4 literal or localhost", close_socket socket handles)
      else match os_bind os with
      | Some err => closing "bind" err
      | None =>
          match os_listen os with
          | Some err => closing "listen" err
          | None =>
              match os_sockname os with
              | inl err => closing "getsockname" err
              | inr port => (Value (MkListener socket port), handles)
              end
          end
      end
  end.

Definition accept (os : SocketOs) (l : TcpListener) (handles : gset Z) : Outcome Connection * gset Z :=
  if listener_socket l =? kInvalidSocket then (fail SC_Closed "listener is closed", handles)
  else match os_select os with
  | inr false => (fail SC_DeadlineExpired "no connection arrived before the accept deadline", handles)
  | inl err => (Failure (socket_error "select" err), handles)
  | inr true =>
      match os_accept os with
      | inl err => (Failure (socket_error "accept" err), handles)
      | inr socket => (Value socket, {[socket]} ∪ handles)
      end
  end.
