(* ===== verification/TransportSpec.v ===== *)
(** * What the transport promises (src/transport.cpp)

    Frames cross a byte stream intact and in order however the two kernels cut
    it; a frame that [read_frame] accepts is exactly an encoding; a stream that
    stops inside a frame is an error; a socket call that fails keeps no handle. *)
From S2P Require Import Prelude Status Identity Bytes Digest Store StoreSpec ScanSpec Transport.

(** Conversion never needs to look inside the hash. *)
#[local] Strategy 10000 [sha_finish update_span sha256 le_store].
#[local] Opaque digest_of_two.

(** ** Sending *)

(** The bytes handed over are a prefix of the data, all of it on success. *)
Lemma send_loop_prefix fuel answers data st sent :
  (List.length data <= fuel)%nat -> send_loop fuel answers data = (st, sent) ->
  exists rest, data = sent ++ rest /\ (code st = SC_Ok <-> rest = []).
Proof.
  revert answers data st sent. induction fuel as [|fuel IH]; intros answers data st sent Hf.
  { destruct data; [|simpl in Hf; lia]. cbn. intros [= <- <-]. by exists []. }
  destruct data as [|b data]; cbn [send_loop]; [intros [= <- <-]; by exists []|].
  set (chunk := chunk_of _). set (written := match answers with [] => chunk | _ => _ end).
  destruct (Z.leb_spec written 0) as [|Hw].
  { intros [= <- <-]. exists (b :: data). split; [done|]. unfold socket_error. by destruct (timed_out _). }
  destruct (send_loop fuel (tail answers) (drop (Z.to_nat written) (b :: data))) as [st' sent'] eqn:E.
  intros [= <- <-]. apply IH in E as (rest & E & Hst).
  2: { rewrite length_drop. simpl in *. lia. }
  exists rest. split; [|done]. by rewrite <- (assoc_L (++)), <- E, take_drop.
Qed.

(** A kernel that always has room takes everything. *)
Lemma send_loop_roomy fuel answers data :
  (List.length data <= fuel)%nat -> Forall (fun a => 0 < send_room a) answers ->
  send_loop fuel answers data = (success, data).
Proof.
  revert answers data. induction fuel as [|fuel IH]; intros answers data Hf Ha.
  { destruct data; [done|simpl in Hf; lia]. }
  destruct data as [|b data]; cbn [send_loop]; [done|].
  set (chunk := chunk_of _).
  assert (0 < chunk) as Hc.
  { unfold chunk, chunk_of, kMaxChunk. rewrite Zlen_cons. pose proof (Zlen_nonneg data). case_match; [done|lia]. }
  set (written := match answers with [] => chunk | _ => _ end).
  assert (0 < written) as Hw. { unfold written. destruct Ha; lia. }
  destruct (Z.leb_spec written 0); [lia|]. rewrite IH.
  - by rewrite take_drop.
  - rewrite length_drop. simpl in *. lia.
  - by destruct Ha.
Qed.

(** ** Receiving *)

(** The bytes that can be read before the first error or the end. *)
Fixpoint stream (w : list Arrival) : list byte :=
  match w with
  | Arrived l :: w => l ++ stream w
  | _ => []
  end.

(** What comes after them: an error, or the peer's close. *)
Fixpoint ending (w : list Arrival) : option SocketErrno :=
  match w with
  | Arrived _ :: w => ending w
  | Errored e :: _ => Some e
  | [] => None
  end.

Definition ending_status (w : list Arrival) : Status :=
  match ending w with
  | Some e => socket_error "recv" e
  | None => MkStatus SC_Truncated "peer closed the connection mid-frame"
  end.

Lemma recv_spec chunk w :
  (0 < chunk)%nat ->
  (stream w = [] /\ (recv chunk w).1 = inl <$> ending w) \/
  (exists l w', recv chunk w = (Some (inr l), w') /\ (0 < List.length l <= chunk)%nat /\
     stream w = l ++ stream w' /\ ending w' = ending w).
Proof.
  intros Hc. induction w as [|[l|e] w IH]; [by left| |by left].
  destruct l as [|b l]; [exact IH|]. right. cbn [recv stream ending].
  exists (take chunk (b :: l)), (match drop chunk (b :: l) with [] => w | r => Arrived r :: w end).
  split; [done|]. split; [rewrite length_take; simpl; lia|].
  pose proof (take_drop chunk (b :: l)) as Htd.
  destruct (drop chunk (b :: l)) as [|c r] eqn:E; cbn [stream ending]; (split; [|done]).
  - by rewrite <- Htd at 1; rewrite app_nil_r.
  - by rewrite (assoc_L (++)), Htd.
Qed.

Lemma chunk_of_pos n : (0 < n)%nat -> (0 < Z.to_nat (chunk_of (Z.of_nat n)) <= n)%nat.
Proof.
  intros Hn. unfold chunk_of. destruct (Z.gtb_spec (Z.of_nat n) kMaxChunk).
  - split; [unfold kMaxChunk; change (Z.shiftl 1 20) with 1048576; lia|].
    unfold kMaxChunk in *. lia.
  - lia.
Qed.

(** [read_all] fills the buffer when the bytes are there, and otherwise reports
    how the stream ended; either way it terminates within the buffer's size. *)
Lemma recv_loop_spec fuel size w :
  (size <= fuel)%nat ->
  if decide (size <= List.length (stream w))%nat then
    exists w', recv_loop fuel size w = (Value (take size (stream w)), w') /\
      stream w = take size (stream w) ++ stream w' /\ ending w' = ending w
  else (recv_loop fuel size w).1 = Failure (ending_status w).
Proof.
  revert size w. induction fuel as [|fuel IH]; intros size w Hf.
  { destruct size; [|lia]. rewrite decide_True by lia. exists w. by rewrite take_0. }
  destruct size as [|size]; [rewrite decide_True by lia; exists w; by rewrite take_0|].
  cbn [recv_loop]. pose proof (chunk_of_pos (S size) ltac:(lia)) as Hc.
  destruct (recv_spec (Z.to_nat (chunk_of (Z.of_nat (S size)))) w) as [(Hs & Hr)|(l & w' & -> & Hl & Hs & He)]; [lia| |].
  - rewrite Hs, decide_False by (simpl; lia). unfold ending_status.
    destruct (recv _ w) as [r w']. simpl in Hr. subst r. by destruct (ending w).
  - specialize (IH (S size - List.length l)%nat w' ltac:(lia)). rewrite Hs, length_app.
    unfold ending_status. rewrite <- He. unfold ending_status in IH.
    destruct (decide (S size - List.length l <= List.length (stream w'))%nat).
    + destruct IH as (w'' & -> & Hs' & He'). rewrite decide_True by lia.
      exists w''. rewrite take_app_ge by lia. split; [done|].
      split; [|done]. by rewrite <- (assoc_L (++)), <- Hs'.
    + rewrite decide_False by lia. destruct (recv_loop _ _ w') as [[?|?] ?]; [done|]. exact IH.
Qed.

(** ** One frame *)

(** The fields a sender chooses, in the ranges of their types. *)
Record header_ok (h : FrameHeader) : Prop := {
  ho_version : fh_version h = kProtocolVersion;
  ho_type : u16_ok (fh_type h);
  ho_flags : u32_ok (fh_flags h);
  ho_request : u64_ok (fh_request_id h);
  ho_reserved : u64_ok (fh_reserved h)
}.

Definition frame_front (h : FrameHeader) : list byte := encs (frame_ops h).

Definition frame_head (h : FrameHeader) (payload : list byte) : list byte :=
  frame_front h ++ digest_bytes (digest_of_two (frame_front h) payload).

Lemma frame_front_length h : Zlen (frame_front h) = 32.
Proof. unfold frame_front, frame_ops, encs, Zlen. cbn [fmap list_fmap enc concat]. rewrite !length_app, !le_store_length. done. Qed.

Lemma frame_front_take h : take (Z.to_nat (kFrameHeaderBytes - kDigestBytes)) (frame_header_bytes h) = frame_front h.
Proof.
  unfold frame_header_bytes, copy_front. rewrite writes_fit_new.
  - fold (frame_front h). pose proof (frame_front_length h) as Hl. unfold Zlen in Hl.
    change (Z.to_nat (kFrameHeaderBytes - kDigestBytes)) with 32%nat.
    replace 32%nat with (List.length (frame_front h)) by lia. apply take_app_length.
  - unfold frame_ops. repeat constructor.
  - fold (frame_front h). rewrite frame_front_length. unfold kDefaultMaxBytes. lia.
Qed.

Lemma frame_digest_32 a b : Zlen (digest_bytes (digest_of_two a b)) = 32.
Proof. rewrite digest_of_two_app. apply digest_of_32. Qed.

Lemma frame_head_length h payload : Zlen (frame_head h payload) = kFrameHeaderBytes.
Proof. unfold frame_head. by rewrite Zlen_app, frame_front_length, frame_digest_32. Qed.

Lemma encode_frame_Value h payload limits :
  Zlen payload <= max_frame_payload limits ->
  encode_frame h payload limits = Value (frame_head (stamp h payload) payload ++ payload).
Proof.
  intros H. unfold encode_frame. destruct (Z.gtb_spec (Zlen payload) (max_frame_payload limits)); [lia|].
  by rewrite frame_front_take.
Qed.

Lemma encode_frame_inv h payload limits bytes :
  encode_frame h payload limits = Value bytes ->
  bytes = frame_head (stamp h payload) payload ++ payload /\ Zlen payload <= max_frame_payload limits.
Proof.
  intros H. destruct (decide (Zlen payload <= max_frame_payload limits)) as [Hp|Hp].
  - rewrite encode_frame_Value in H by done. by injection H as <-.
  - unfold encode_frame in H. destruct (Z.gtb_spec (Zlen payload) (max_frame_payload limits)); [done|lia].
Qed.

Lemma decode_frame_front h tail off mx :
  u32_ok (fh_magic h) -> u16_ok (fh_version h) -> u32_ok (fh_payload_len h) -> u16_ok (fh_type h) ->
  u32_ok (fh_flags h) -> u64_ok (fh_request_id h) -> u64_ok (fh_reserved h) ->
  (read_frame_fields (MkReader (frame_front h ++ tail) off mx)).1 = Value h.
Proof.
  intros. cut (decodes mx read_frame_fields (frame_front h) h); [intros E; by rewrite E|].
  unfold frame_front, frame_ops, read_frame_fields.
  repeat (rewrite encs_cons; eapply decodes_bind; [eauto with slf|]).
  destruct h. apply decodes_ret.
Qed.

Lemma u32_of_bound n limit : 0 <= n -> n <= limit -> limit <= u32_max -> u32_ok n.
Proof. unfold u32_max, fits. lia. Qed.

Lemma decode_frame_head h payload limits :
  header_ok h -> Zlen payload <= max_frame_payload limits -> max_frame_payload limits <= u32_max ->
  decode_frame_header (frame_head (stamp h payload) payload) limits = Value (stamp h payload).
Proof.
  intros [Hv Ht Hf Hr Hs] Hp Hl. pose proof (Zlen_nonneg payload) as H0.
  pose proof (u32_of_bound _ _ H0 Hp Hl) as Hu.
  unfold decode_frame_header. rewrite frame_head_length. cbn [Z.eqb Pos.eqb kFrameHeaderBytes negb].
  unfold fields, new_reader. unfold frame_head at 1.
  pose proof (decode_frame_front (stamp h payload)
    (digest_bytes (digest_of_two (frame_front (stamp h payload)) payload)) 0 kDefaultMaxString) as E.
  cbn [stamp fh_magic fh_version fh_type fh_flags fh_payload_len fh_request_id fh_reserved] in E.
  rewrite wrap_small in E by done.
  specialize (E ltac:(done) ltac:(by rewrite Hv) Hu Ht Hf Hr Hs).
  destruct (read_frame_fields _) as [o r]. simpl in E. subst o. cbn [fst].
  unfold mbind, Outcome_bind. cbn [stamp fh_magic fh_version fh_payload_len].
  rewrite Hv, wrap_small by done. cbn [Z.eqb Pos.eqb kFrameMagic kProtocolVersion negb].
  destruct (Z.gtb_spec (Zlen payload) (max_frame_payload limits)); [lia|done].
Qed.

Lemma verify_frame_head h payload : verify_frame (frame_head h payload) payload = success.
Proof.
  unfold verify_frame. rewrite frame_head_length. cbn [Z.eqb Pos.eqb kFrameHeaderBytes negb]. unfold frame_head.
  change (64 - kDigestBytes) with 32. change kDigestBytes with 32.
  rewrite (span_head (frame_front h)) by (done || apply frame_front_length).
  rewrite <- (app_nil_r (digest_bytes _)).
  rewrite (span_at (frame_front h) _ []) by (apply frame_front_length || apply frame_digest_32).
  rewrite MkDigest_eta. by rewrite bool_decide_true.
Qed.

(** ** Reading frames *)

Lemma read_all_full c size w l rest :
  valid c = true -> stream w = l ++ rest -> List.length l = size ->
  exists w', conn_read_all c size w = (Value l, w') /\ stream w' = rest /\ ending w' = ending w.
Proof.
  intros Hc Hs Hl. unfold conn_read_all. rewrite Hc. cbn [negb].
  pose proof (recv_loop_spec size size w (le_n _)) as H. rewrite Hs, length_app, decide_True in H by lia.
  destruct H as (w' & E & Hw & He). subst size. rewrite take_app_length in E, Hw.
  exists w'. split; [done|]. split; [|done]. by apply app_inv_head in Hw.
Qed.

Lemma read_all_short c size w :
  valid c = true -> (List.length (stream w) < size)%nat ->
  (conn_read_all c size w).1 = Failure (ending_status w).
Proof.
  intros Hc Hs. unfold conn_read_all. rewrite Hc. cbn [negb].
  pose proof (recv_loop_spec size size w (le_n _)) as H. by rewrite decide_False in H by lia.
Qed.

Lemma read_all_inv c size w l w' :
  conn_read_all c size w = (Value l, w') ->
  stream w = l ++ stream w' /\ List.length l = size /\ ending w' = ending w.
Proof.
  unfold conn_read_all. destruct (valid c); cbn [negb]; [|by intros [=]].
  pose proof (recv_loop_spec size size w (le_n _)) as H. intros E. rewrite E in H.
  case_decide as Hd; [|done]. destruct H as (w'' & [= -> ->] & Hs & He).
  split; [done|]. split; [|done]. rewrite length_take. lia.
Qed.

Lemma Zlen_to_nat {A} (l : list A) z : Zlen l = z -> List.length l = Z.to_nat z.
Proof. intros <-. unfold Zlen. by rewrite Nat2Z.id. Qed.

Lemma read_payload_full c w (payload rest : list byte) :
  valid c = true -> stream w = payload ++ rest ->
  exists w', (if Zlen payload =? 0 then (Value [], w)
              else conn_read_all c (Z.to_nat (Zlen payload)) w) = (Value payload, w') /\
    stream w' = rest /\ ending w' = ending w.
Proof.
  intros Hc Hs. destruct (Z.eqb_spec (Zlen payload) 0) as [H0|].
  - destruct payload; [by exists w|unfold Zlen in H0; simpl in H0; lia].
  - apply (read_all_full c _ w payload rest); [done..|by apply Zlen_to_nat].
Qed.

Lemma read_frame_whole c limits w h payload rest :
  valid c = true -> header_ok h -> Zlen payload <= max_frame_payload limits -> max_frame_payload limits <= u32_max ->
  stream w = frame_head (stamp h payload) payload ++ payload ++ rest ->
  exists w', read_frame c limits w = (Value (stamp h payload, payload), w') /\ stream w' = rest /\ ending w' = ending w.
Proof.
  intros Hc Hh Hp Hl Hs. unfold read_frame.
  destruct (read_all_full c (Z.to_nat kFrameHeaderBytes) w _ _ Hc Hs) as (w1 & -> & Hs1 & He1).
  { apply Zlen_to_nat, frame_head_length. }
  rewrite decode_frame_head by done.
  replace (fh_payload_len (stamp h payload)) with (Zlen payload).
  2: { symmetry. apply wrap_small. eapply u32_of_bound; eauto with slf. }
  destruct (read_payload_full c w1 payload rest Hc Hs1) as (w2 & -> & Hs2 & He2).
  rewrite verify_frame_head. cbn [status_ok]. exists w2. split; [done|]. split; [done|congruence].
Qed.

(** ** Converse: what an accepted frame looked like *)

Lemma read_le_inv n what r v r' :
  read_le (Z.of_nat n) what r = (Value v, r') ->
  br_rest r = le_store n 0 v ++ br_rest r' /\ fits (8 * Z.of_nat n) v.
Proof.
  unfold read_le, mbind, Reader_bind. destruct (take_bytes _ _ r) as [[l|st] r1] eqn:E; [|by intros [=]].
  intros [= <- <-]. apply take_bytes_bounded in E as (Hl & Hr & _); [|lia].
  assert (List.length l = n) as Hn by (unfold Zlen in Hl; lia).
  rewrite le_store_load by (done || lia). split; [done|].
  pose proof (le_load_range 0 l ltac:(lia)) as H. rewrite Hl, Z.add_0_l in H. exact H.
Qed.

(** The fields that [read_frame_fields] returns are the bytes it consumed. *)
Lemma read_frame_fields_inv r h r' :
  read_frame_fields r = (Value h, r') ->
  br_rest r = frame_front h ++ br_rest r' /\
  u16_ok (fh_version h) /\ u16_ok (fh_type h) /\ u32_ok (fh_flags h) /\ u32_ok (fh_payload_len h) /\
  u64_ok (fh_request_id h) /\ u64_ok (fh_reserved h).
Proof.
  unfold read_frame_fields, mbind, Reader_bind. intros H.
  repeat match type of H with
  | match ?m ?s with _ => _ end = _ =>
      let E := fresh "E" in destruct (m s) as [[?|?] ?] eqn:E; [|discriminate H];
      first [apply (read_le_inv 2) in E as [E ?]|apply (read_le_inv 4) in E as [E ?]|apply (read_le_inv 8) in E as [E ?]]
  end.
  injection H as <- <-. cbn [fh_version fh_type fh_flags fh_payload_len fh_request_id fh_reserved].
  split_and!; try done. unfold frame_front, frame_ops, encs.
  cbn [fmap list_fmap enc concat fh_magic fh_version fh_type fh_flags fh_payload_len fh_request_id fh_reserved].
  rewrite E, E0, E1, E2, E3, E4, E5. by rewrite app_nil_r, <- !(assoc_L (++)).
Qed.

Lemma decode_frame_header_inv bytes limits h :
  decode_frame_header bytes limits = Value h ->
  exists tail, bytes = frame_front h ++ tail /\ Zlen tail = 32 /\ header_ok h /\
    fh_magic h = kFrameMagic /\ u32_ok (fh_payload_len h) /\ fh_payload_len h <= max_frame_payload limits.
Proof.
  unfold decode_frame_header. destruct (Z.eqb_spec (Zlen bytes) kFrameHeaderBytes) as [Hl|]; [|done].
  cbn [negb]. unfold fields, new_reader.
  destruct (read_frame_fields _) as [[h'|st] r] eqn:E; [|done]. apply read_frame_fields_inv in E as (E & Hf).
  cbn [fst]. unfold mbind, Outcome_bind.
  destruct (Z.eqb_spec (fh_magic h') kFrameMagic) as [Hm|]; [|done].
  destruct (Z.eqb_spec (fh_version h') kProtocolVersion) as [Hv|]; [|done].
  destruct (Z.gtb_spec (fh_payload_len h') (max_frame_payload limits)); [done|]. intros [= <-].
  cbn [br_rest] in E. exists (br_rest r). split; [done|]. split.
  { rewrite E, Zlen_app, frame_front_length in Hl. unfold kFrameHeaderBytes in Hl. lia. }
  split; [constructor; tauto|]. split; [done|]. split; [tauto|done].
Qed.

Lemma read_frame_inv c limits w h payload w' :
  read_frame c limits w = (Value (h, payload), w') ->
  stream w = frame_head h payload ++ payload ++ stream w' /\ h = stamp h payload /\ header_ok h /\
  Zlen payload <= max_frame_payload limits /\ fh_payload_len h = Zlen payload /\ ending w' = ending w.
Proof.
  unfold read_frame. destruct (conn_read_all c _ w) as [[bytes|st] w1] eqn:E1; [|done].
  apply read_all_inv in E1 as (Hs1 & Hl1 & He1).
  destruct (decode_frame_header bytes limits) as [h'|st] eqn:Ed; [|done].
  apply decode_frame_header_inv in Ed as (tl & -> & Htl & Hok & Hm & Hu & Hb).
  assert (exists o w2, (if fh_payload_len h' =? 0 then (Value [], w1)
      else conn_read_all c (Z.to_nat (fh_payload_len h')) w1) = (o, w2) /\
      forall p, o = Value p -> stream w1 = p ++ stream w2 /\ Zlen p = fh_payload_len h' /\ ending w2 = ending w1)
    as (o & w2 & -> & Ho).
  { destruct (Z.eqb_spec (fh_payload_len h') 0) as [H0|].
    - exists (Value []), w1. split; [done|]. intros p [= <-]. by rewrite H0.
    - destruct (conn_read_all c (Z.to_nat (fh_payload_len h')) w1) as [o w2] eqn:E. exists o, w2. split; [done|].
      intros p ->. apply read_all_inv in E as (Hs & Hl & He). split; [done|]. split; [|done].
      unfold Zlen. unfold fits in Hu. lia. }
  destruct o as [p|st]; [|done]. specialize (Ho p eq_refl) as (Hs2 & Hl2 & He2).
  unfold verify_frame. destruct (negb (Zlen _ =? _)); [done|].
  change (kFrameHeaderBytes - kDigestBytes) with 32. change kDigestBytes with 32.
  rewrite (span_head (frame_front h')) by (done || apply frame_front_length).
  rewrite <- (app_nil_r tl), (span_at (frame_front h') tl []) by (apply frame_front_length || done).
  destruct (bool_decide_reflect (digest_of_two (frame_front h') p = MkDigest tl)) as [Hd|]; [|done].
  cbn [negb]. cbn [status_ok]. intros [= -> -> ->].
  split; [|split; [|split; [done|split; [lia|split; [lia|congruence]]]]].
  - rewrite Hs1, Hs2. unfold frame_head. by rewrite Hd.
  - unfold stamp. rewrite Hl2, wrap_small, <- Hm by done. by destruct h.
Qed.

(** A stream that stops inside a frame. *)
Lemma read_frame_cut c limits w h payload cut :
  valid c = true -> header_ok h -> Zlen payload <= max_frame_payload limits -> max_frame_payload limits <= u32_max ->
  (cut < List.length (frame_head (stamp h payload) payload ++ payload))%nat ->
  stream w = take cut (frame_head (stamp h payload) payload ++ payload) ->
  (read_frame c limits w).1 = Failure (ending_status w).
Proof.
  intros Hc Hh Hp Hl Hcut Hs. unfold read_frame.
  pose proof (Zlen_to_nat _ _ (frame_head_length (stamp h payload) payload)) as Hhl.
  destruct (decide (cut < Z.to_nat kFrameHeaderBytes)%nat) as [Hh64|Hh64].
  - pose proof (read_all_short c (Z.to_nat kFrameHeaderBytes) w Hc) as H.
    destruct (conn_read_all c _ w) as [o w1]. simpl in H. rewrite H; [done|].
    rewrite Hs, length_take. lia.
  - rewrite take_app_ge in Hs by lia.
    destruct (read_all_full c (Z.to_nat kFrameHeaderBytes) w _ _ Hc Hs Hhl) as (w1 & -> & Hs1 & He1).
    rewrite decode_frame_head by done. unfold ending_status. rewrite <- He1. fold (ending_status w1).
    replace (fh_payload_len (stamp h payload)) with (Zlen payload).
    2: { symmetry. apply wrap_small. eapply u32_of_bound; eauto with slf. }
    rewrite length_app in Hcut.
    destruct (Z.eqb_spec (Zlen payload) 0) as [H0|]; [unfold Zlen in H0; lia|].
    pose proof (read_all_short c (Z.to_nat (Zlen payload)) w1 Hc) as H.
    destruct (conn_read_all c _ w1) as [o w2]. simpl in H. rewrite H; [done|].
    rewrite Hs1, length_take. unfold Zlen. lia.
Qed.

(** ** A sequence of frames over one connection *)

(** A frame to send, with what the sender's kernel answers meanwhile. *)
Record Outgoing := MkOutgoing { out_answers : list SendAnswer; out_header : FrameHeader; out_payload : list byte }.

(** [wires] are the bytes of each frame, all accepted for sending. *)
Definition transmitted (c : Connection) (limits : TransportLimits) (fs : list Outgoing) (wires : list (list byte)) : Prop :=
  Forall2 (fun f bytes => write_frame c (out_answers f) (out_header f) (out_payload f) limits = (success, bytes)) fs wires.

Definition received (f : Outgoing) : FrameHeader * list byte :=
  (stamp (out_header f) (out_payload f), out_payload f).

Fixpoint read_frames (n : nat) (c : Connection) (limits : TransportLimits) (w : list Arrival)
    : Outcome (list (FrameHeader * list byte)) * list Arrival :=
  match n with
  | O => (Value [], w)
  | S n =>
      match read_frame c limits w with
      | (Failure st, w) => (Failure st, w)
      | (Value f, w) =>
          match read_frames n c limits w with
          | (Failure st, w) => (Failure st, w)
          | (Value fs, w) => (Value (f :: fs), w)
          end
      end
  end.

Lemma write_frame_inv c answers h payload limits st bytes :
  write_frame c answers h payload limits = (st, bytes) -> code st = SC_Ok ->
  bytes = frame_head (stamp h payload) payload ++ payload /\ Zlen payload <= max_frame_payload limits.
Proof.
  unfold write_frame. intros H Hok. destruct (encode_frame h payload limits) as [frame|st'] eqn:E.
  - apply encode_frame_inv in E as (-> & Hp). split; [|done]. unfold conn_write_all in H.
    destruct (valid c); cbn [negb] in H; [|by injection H as <- <-].
    apply send_loop_prefix in H as (rest & E & Hst); [|done].
    by rewrite (proj1 Hst Hok), app_nil_r in E.
  - injection H as <- <-. unfold encode_frame in E. case_match; [|done]. by injection E as <-.
Qed.

(** C28: frames that one side has sent successfully are read by the other side intact and in
    order, whatever amounts the sender's kernel took at a time and however the bytes were cut
    into arrivals; the reader is left exactly at the byte behind the last of them. *)
Theorem frames_cross_intact c c' limits fs wires w rest :
  valid c' = true -> max_frame_payload limits <= u32_max -> Forall (fun f => header_ok (out_header f)) fs ->
  transmitted c limits fs wires -> stream w = concat wires ++ rest ->
  exists w', read_frames (List.length fs) c' limits w = (Value (received <$> fs), w') /\ stream w' = rest.
Proof.
  intros Hc Hl Hok Ht. revert w Hok. induction Ht as [|f bytes fs wires Hf _ IH]; intros w Hok Hs; [by exists w|].
  apply Forall_cons in Hok as [Ho Hok]. apply write_frame_inv in Hf as (-> & Hp); [|done].
  cbn [concat] in Hs. rewrite <- !(assoc_L (++)) in Hs.
  destruct (read_frame_whole c' limits w _ _ _ Hc Ho Hp Hl Hs) as (w1 & E & Hs1 & _).
  destruct (IH w1 Hok Hs1) as (w2 & E2 & Hs2).
  exists w2. split; [|done]. cbn [List.length read_frames]. by rewrite E, E2.
Qed.

(** C29: a frame that the reader accepts is, byte for byte, the encoding of the header and
    payload it returns, with the digest over both, within the payload bound; exactly those
    bytes are consumed. Any change to a frame in transit is therefore refused unless it
    preserves the SHA-256 digest. *)
Theorem accepted_frame_is_encoding c limits w w' h payload :
  read_frame c limits w = (Value (h, payload), w') ->
  exists bytes, encode_frame h payload limits = Value bytes /\ stream w = bytes ++ stream w' /\
    header_ok h /\ fh_payload_len h = Zlen payload /\ Zlen payload <= max_frame_payload limits.
Proof.
  intros (Hs & E & Hok & Hp & Hl & _)%read_frame_inv.
  exists (frame_head h payload ++ payload). rewrite encode_frame_Value, <- E, <- (assoc_L (++)) by done. done.
Qed.

(** C30: a connection that ends inside a frame is an error, never a shorter frame: Truncated
    when the peer closed it, DeadlineExpired when the deadline passed, IoError otherwise. *)
Theorem cut_frame_is_error c limits w h payload bytes cut :
  valid c = true -> header_ok h -> max_frame_payload limits <= u32_max ->
  encode_frame h payload limits = Value bytes -> (cut < List.length bytes)%nat -> stream w = take cut bytes ->
  exists st w', read_frame c limits w = (Failure st, w') /\
    code st = match ending w with
              | None => SC_Truncated
              | Some e => if timed_out e then SC_DeadlineExpired else SC_IoError
              end.
Proof.
  intros Hc Hh Hl He Hcut Hs. apply encode_frame_inv in He as (-> & Hp).
  pose proof (read_frame_cut c limits w h payload cut Hc Hh Hp Hl Hcut Hs) as E.
  destruct (read_frame c limits w) as [o w']. simpl in E. exists (ending_status w), w'. split; [by subst|].
  unfold ending_status, socket_error. destruct (ending w) as [e|]; [|done]. by destruct (timed_out e).
Qed.

(** A write either hands the whole frame to the kernel or reports an error after a prefix of
    it; with room for at least one byte every time it succeeds. *)
Lemma write_frame_all_or_error c answers h payload limits bytes :
  valid c = true -> encode_frame h payload limits = Value bytes ->
  (exists st sent rest, write_frame c answers h payload limits = (st, sent) /\ bytes = sent ++ rest /\
     (code st = SC_Ok <-> rest = [])) /\
  (Forall (fun a => 0 < send_room a) answers -> write_frame c answers h payload limits = (success, bytes)).
Proof.
  intros Hc He. unfold write_frame, conn_write_all. rewrite He, Hc. cbn [negb]. split.
  - destruct (send_loop _ _ _) as [st sent] eqn:E. apply send_loop_prefix in E as (rest & E & Hst); [|done].
    by exists st, sent, rest.
  - intros Ha. by apply send_loop_roomy.
Qed.

(** ** Socket handles *)

Lemma status_ok_success st : status_ok st = false -> code st <> SC_Ok.
Proof. intros H E. apply status_ok_spec in E. congruence. Qed.

Lemma close_fresh socket (handles : gset Z) :
  socket <> kInvalidSocket -> socket ∉ handles -> close_socket socket ({[socket]} ∪ handles) = handles.
Proof.
  intros H1 H2. unfold close_socket. destruct (Z.eqb_spec socket kInvalidSocket); [done|]. set_solver.
Qed.

Lemma valid_spec c : valid c = true <-> c <> kInvalidSocket.
Proof. unfold valid. destruct (Z.eqb_spec c kInvalidSocket); naive_solver. Qed.

(** The handle the system returns is a new one. *)
Definition os_fresh (answer : SocketErrno + Z) (handles : gset Z) : Prop :=
  forall socket, answer = inr socket -> socket <> kInvalidSocket /\ socket ∉ handles.

(** What an operation that opens a socket leaves open: nothing new when it fails, and its own
    handle, which closing releases, when it succeeds. *)
Definition opens_one {A} (handle : A -> Z) (handles : gset Z) (r : Outcome A * gset Z) : Prop :=
  match r.1 with
  | Failure _ => r.2 = handles
  | Value a => handle a <> kInvalidSocket /\ (handle a ∉ handles) /\ r.2 = ({[handle a]} ∪ handles) /\
      (conn_close (handle a) r.2).2 = handles
  end.

Lemma opens_one_Value {A} (handle : A -> Z) handles a :
  handle a <> kInvalidSocket -> handle a ∉ handles -> opens_one handle handles (Value a, {[handle a]} ∪ handles).
Proof.
  intros H1 H2. unfold opens_one. cbn [fst snd]. split_and!; try done.
  unfold conn_close. rewrite (proj2 (valid_spec _) H1). by apply close_fresh.
Qed.

Lemma connect_opens_one os e limits handles :
  os_fresh (os_socket os) handles -> opens_one (fun c => c) handles (connect os e limits handles).
Proof.
  intros Hs. unfold connect. destruct (status_ok (os_ready os)); [|done]. cbn [negb].
  destruct (os_socket os) as [|socket]; [done|]. destruct (Hs socket eq_refl) as [H1 H2].
  pose proof (close_fresh socket handles H1 H2) as Hc.
  destruct (negb (resolvable _ _)); [done|]. destruct (os_connect os); [done|].
  destruct (negb (status_ok _)); [|by apply (opens_one_Value (fun c => c))].
  unfold opens_one, conn_close. by rewrite (proj2 (valid_spec _) H1).
Qed.

Lemma bind_opens_one os e handles :
  os_fresh (os_socket os) handles -> opens_one listener_socket handles (bind os e handles).
Proof.
  intros Hs. unfold bind. destruct (status_ok (os_ready os)); [|done]. cbn [negb].
  destruct (os_socket os) as [|socket]; [done|]. destruct (Hs socket eq_refl) as [H1 H2].
  pose proof (close_fresh socket handles H1 H2) as Hc.
  destruct (negb (resolvable _ _)); [done|]. destruct (os_bind os); [done|]. destruct (os_listen os); [done|].
  destruct (os_sockname os); [done|]. by apply (opens_one_Value listener_socket _ (MkListener socket _)).
Qed.

Lemma accept_opens_one os l handles :
  os_fresh (os_accept os) handles -> opens_one (fun c => c) handles (accept os l handles).
Proof.
  intros Ha. unfold accept. destruct (_ =? _); [done|]. destruct (os_select os) as [|[]]; [done| |done].
  destruct (os_accept os) as [|socket]; [done|]. destruct (Ha socket eq_refl) as [H1 H2].
  by apply (opens_one_Value (fun c => c)).
Qed.

(** C31: no failing path of connecting, binding or accepting leaks a socket: after a failure
    the process holds exactly the handles it held before, after a success one more, which
    closing it releases. *)
Theorem sockets_never_leak os e limits l handles :
  os_fresh (os_socket os) handles -> os_fresh (os_accept os) handles ->
  opens_one (fun c => c) handles (connect os e limits handles) /\
  opens_one listener_socket handles (bind os e handles) /\
  opens_one (fun c => c) handles (accept os l handles).
Proof.
  intros Hs Ha. split_and!; [by apply connect_opens_one|by apply bind_opens_one|by apply accept_opens_one].
Qed.

(** ** Endpoints *)

Lemma rsplit_none c l : c ∉ l -> rsplit_at_byte c l = None.
Proof.
  induction l as [|b l IH]; intros H; [done|]. cbn [rsplit_at_byte].
  rewrite IH by (intros H'; apply H; by right). rewrite bool_decide_false; [done|]. intros ->. apply H. left.
Qed.

Lemma rsplit_app c p l : c ∉ l -> rsplit_at_byte c (p ++ c :: l) = Some (p, l).
Proof.
  intros H. induction p as [|b p IH]; cbn [app rsplit_at_byte].
  - by rewrite rsplit_none, bool_decide_true.
  - by rewrite IH.
Qed.

Lemma rsplit_inv c bs p l : rsplit_at_byte c bs = Some (p, l) -> bs = p ++ c :: l.
Proof.
  revert p l. induction bs as [|b bs IH]; intros p l; [done|]. cbn [rsplit_at_byte].
  destruct (rsplit_at_byte c bs) as [[p' l']|].
  - intros [= <- <-]. cbn [app]. by rewrite (IH p' l').
  - destruct (bool_decide_reflect (b = c)); [|done]. intros [= <- <-]. by subst.
Qed.

Record endpoint_ok (e : Endpoint) : Prop := {
  eok_host : host e <> "" /\ is_valid_utf8 (host e) = true /\ strlen (host e) <= 255;
  eok_port : 1 <= port e <= 65535
}.

Lemma wrap_port v : 1 <= v <= 65535 -> wrap 16 v = v.
Proof. intros H. apply wrap_small. unfold fits. lia. Qed.

(** an endpoint with a host and a port in 1..65535 is read back from its text, and
    whatever text the parser accepts, what it returns is such an endpoint. *)
Theorem endpoint_text_roundtrip e :
  (endpoint_ok e -> parse_endpoint (Endpoint_to_string e) = Value e) /\
  (forall text, parse_endpoint text = Value e -> endpoint_ok e).
Proof.
  split.
  - intros [(Hh & Hu & Hl) Hp]. unfold parse_endpoint, Endpoint_to_string.
    rewrite !bytes_of_app. change (bytes_of ":") with [x3a]. cbn [app].
    rewrite rsplit_app.
    2: { intros H. pose proof (std_to_string_digits (port e)) as Hd. rewrite Forall_forall in Hd.
         destruct (Hd _ H) as [_ H']. by vm_compute in H'. }
    pose proof (std_to_string_length (port e)) as Hlen. rewrite text_of_bytes_of.
    destruct (bytes_of (host e)) as [|b r] eqn:Eh; [by apply (bytes_of_inj _ "") in Eh|].
    rewrite <- Eh, text_of_bytes_of.
    destruct (bytes_of (std_to_string (port e))); [simpl in Hlen; lia|].
    rewrite parse_u32_to_string by (unfold fits; lia).
    destruct (Z.eqb_spec (port e) 0); [lia|]. destruct (Z.gtb_spec (port e) 65535); [lia|]. cbn [orb].
    rewrite Hu. unfold strlen in Hl. destruct (Z.gtb_spec (Zlen (bytes_of (host e))) 255); [lia|]. cbn [negb orb].
    rewrite wrap_port by done. by destruct e.
  - intros text. unfold parse_endpoint. destruct (rsplit_at_byte x3a (bytes_of text)) as [[[|b h] [|d p]]|]; try done.
    destruct (parse_u32 _) as [v|] eqn:Ev; [|done].
    unfold parse_u32, parse_u64 in Ev. destruct (_ || _)%bool; [done|].
    destruct (parse_digits 0 _) as [v'|] eqn:Ed; [|done]. apply parse_digits_range in Ed; [|unfold u64_max; lia].
    destruct (v' >? u32_max); [done|]. injection Ev as ->.
    destruct (Z.eqb_spec v 0); [done|]. destruct (Z.gtb_spec v 65535); [done|]. cbn [orb].
    destruct (is_valid_utf8 (text_of (b :: h))) eqn:Hu; [|done].
    destruct (Z.gtb_spec (Zlen (b :: h)) 255); [done|]. cbn [negb orb]. intros [= <-].
    rewrite wrap_port by lia. constructor; cbn [host port]; [|lia].
    unfold strlen. rewrite bytes_of_text_of. split_and!; [|done|done].
    intros E. apply (f_equal bytes_of) in E. by rewrite bytes_of_text_of in E.
Qed.

(** ** Witnesses *)

Module Sample_wire.

(** Two frames, the second empty; the sender's kernel takes 3 bytes, then 40, then the rest. *)
Definition errno : SocketErrno := MkErrno false "reset".
Definition ping : FrameHeader := MkFrame 0 kProtocolVersion 11 0 0 7 0.
Definition bye : FrameHeader := MkFrame 0 kProtocolVersion 12 1 0 8 0.
Definition outgoing : list Outgoing :=
  [MkOutgoing [MkSend 3 errno; MkSend 40 errno] ping (bytes_of "hello"); MkOutgoing [] bye []].
Definition wires : list (list byte) :=
  (fun f => (write_frame 5 (out_answers f) (out_header f) (out_payload f) default_transport_limits).2) <$> outgoing.

(** The bytes arrive in pieces that ignore the frame boundaries. *)
Definition arrivals : list Arrival :=
  [Arrived (take 10 (concat wires)); Arrived []; Arrived (take 90 (drop 10 (concat wires)));
   Arrived (drop 100 (concat wires) ++ [x2a]); Errored errno].

Definition ping_frame : list byte := value_or (encode_frame ping (bytes_of "hello") default_transport_limits) [].

Definition socket_os : SocketOs :=
  MkSocketOs success (inr 4) (fun h => bool_decide (h = "127.0.0.1")) (Some errno) None None None None (inr 9000)
    (inr true) (inr 6).

Lemma header_oks : Forall (fun f => header_ok (out_header f)) outgoing.
Proof. repeat constructor; vm_compute; done. Qed.

End Sample_wire.

Lemma frames_cross_intact_witness :
  exists w', read_frames 2 9 default_transport_limits Sample_wire.arrivals
             = (Value (received <$> Sample_wire.outgoing), w') /\ stream w' = [x2a].
Proof.
  apply (frames_cross_intact 5 9 default_transport_limits Sample_wire.outgoing Sample_wire.wires).
  - reflexivity.
  - vm_compute. discriminate.
  - apply Sample_wire.header_oks.
  - constructor; [vm_compute; reflexivity|]. constructor; [vm_compute; reflexivity|constructor].
  - vm_compute. reflexivity.
Defined.

Lemma accepted_frame_is_encoding_witness :
  exists w' bytes, encode_frame (stamp Sample_wire.ping (bytes_of "hello")) (bytes_of "hello") default_transport_limits = Value bytes /\
    stream Sample_wire.arrivals = bytes ++ stream w'.
Proof.
  eexists. edestruct (accepted_frame_is_encoding 9 default_transport_limits Sample_wire.arrivals
    (read_frame 9 default_transport_limits Sample_wire.arrivals).2) as (bytes & He & Hs & _).
  - vm_compute. reflexivity.
  - exists bytes. split; [exact He|exact Hs].
Defined.

Lemma cut_frame_is_error_witness :
  exists st w', read_frame 9 default_transport_limits [Arrived (take 66 Sample_wire.ping_frame)] = (Failure st, w') /\
    code st = SC_Truncated.
Proof.
  apply (cut_frame_is_error 9 default_transport_limits [Arrived (take 66 Sample_wire.ping_frame)] Sample_wire.ping
    (bytes_of "hello") Sample_wire.ping_frame 66).
  - reflexivity.
  - constructor; vm_compute; done.
  - vm_compute. discriminate.
  - vm_compute. reflexivity.
  - vm_compute. lia.
  - vm_compute. reflexivity.
Defined.

Lemma sockets_never_leak_witness :
  opens_one (fun c => c) {[3]} (connect Sample_wire.socket_os (MkEndpoint "localhost" 9000) default_transport_limits {[3]}) /\
  opens_one listener_socket {[3]} (bind Sample_wire.socket_os (MkEndpoint "localhost" 9000) {[3]}) /\
  opens_one (fun c => c) {[3]} (accept Sample_wire.socket_os (MkListener 3 9000) {[3]}).
Proof.
  apply sockets_never_leak; intros socket [= <-]; split; try discriminate; set_solver.
Defined.

Lemma endpoint_text_roundtrip_witness :
  parse_endpoint (Endpoint_to_string (MkEndpoint "127.0.0.1" 7450)) = Value (MkEndpoint "127.0.0.1" 7450).
Proof.
  apply (endpoint_text_roundtrip (MkEndpoint "127.0.0.1" 7450)). constructor; [|cbn; lia].
  split; [discriminate|]. vm_compute. split; [reflexivity|discriminate].
Defined.
