(* ===== verification/Service.v ===== *)
(** * Requests and responses (include/slf/service.hpp, src/service.cpp)

    The payload codecs of the wire protocol, and [RuntimeService::handle], which
    turns a request into calls of the runtime. An encoder inside the file chains
    its writes and stops at the first that fails; [encode_request] and
    [encode_response] run several such chains and drop their statuses. *)
From S2P Require Import Prelude Status Identity Bytes Digest Capacity Model Codec Topology Eligibility Governance Store StoreDir Runtime Transport.

(** ** Data *)

Inductive RequestKind :=
| RK_Hello | RK_Status | RK_Paths | RK_EligibleSpines | RK_Health | RK_Command | RK_AuthorizePath
| RK_ValidateAuthority | RK_Compact | RK_Lease | RK_Ping | RK_Bye.

#[export] Instance RequestKind_eq_dec : EqDecision RequestKind.
Proof. solve_decision. Defined.

Definition RequestKind_to_u16 (k : RequestKind) : Z :=
  match k with
  | RK_Hello => 1 | RK_Status => 2 | RK_Paths => 3 | RK_EligibleSpines => 4 | RK_Health => 5 | RK_Command => 6
  | RK_AuthorizePath => 7 | RK_ValidateAuthority => 8 | RK_Compact => 9 | RK_Lease => 10 | RK_Ping => 11 | RK_Bye => 12
  end.

Definition all_request_kinds : list RequestKind :=
  [RK_Hello; RK_Status; RK_Paths; RK_EligibleSpines; RK_Health; RK_Command; RK_AuthorizePath; RK_ValidateAuthority;
   RK_Compact; RK_Lease; RK_Ping; RK_Bye].

(** The range check and the cast of [decode_request]. *)
Definition RequestKind_of_u16 (v : Z) : option RequestKind :=
  List.find (fun k => RequestKind_to_u16 k =? v) all_request_kinds.

Definition RequestKind_to_string (k : RequestKind) : string :=
  match k with
  | RK_Hello => "hello"
  | RK_Status => "status"
  | RK_Paths => "paths"
  | RK_EligibleSpines => "eligible_spines"
  | RK_Health => "health"
  | RK_Command => "command"
  | RK_AuthorizePath => "authorize_path"
  | RK_ValidateAuthority => "validate_authority"
  | RK_Compact => "compact"
  | RK_Lease => "lease"
  | RK_Ping => "ping"
  | RK_Bye => "bye"
  end.

Definition parse_request_kind (text : string) : option RequestKind :=
  if bool_decide (text = "hello") then Some RK_Hello
  else if bool_decide (text = "status") then Some RK_Status
  else if bool_decide (text = "paths") then Some RK_Paths
  else if bool_decide (text = "eligible_spines") then Some RK_EligibleSpines
  else if bool_decide (text = "health") then Some RK_Health
  else if bool_decide (text = "command") then Some RK_Command
  else if bool_decide (text = "authorize_path") then Some RK_AuthorizePath
  else if bool_decide (text = "validate_authority") then Some RK_ValidateAuthority
  else if bool_decide (text = "compact") then Some RK_Compact
  else if bool_decide (text = "lease") then Some RK_Lease
  else if bool_decide (text = "ping") then Some RK_Ping
  else if bool_decide (text = "bye") then Some RK_Bye
  else None.

Record Request := MkRequest {
  rq_id : RequestId;
  rq_kind : RequestKind;
  rq_version : Z;
  rq_client : string;
  rq_from : NodeKey;
  rq_to : NodeKey;
  rq_constraints : PathConstraints;
  rq_command : Command;
  rq_authority : PathAuthority;
  rq_token : AuthorityToken;
  rq_ttl : Z
}.

Record Response := MkResponse {
  rs_id : RequestId;
  rs_code : StatusCode;
  rs_detail : string;
  rs_version : Z;
  rs_controller : ControllerIncarnation;
  rs_epoch : Epoch;
  rs_generation : TopologyGeneration;
  rs_topology_digest : Digest;
  rs_max_payload : Z;
  rs_server_name : string;
  rs_uptime : Z;
  rs_status : RuntimeStatus;
  rs_assessment : PathAssessment;
  rs_spines : list SpineEligibility;
  rs_health : FabricHealthReport;
  rs_result : CommandResult;
  rs_authority : PathAuthority;
  rs_check : AuthorityCheck;
  rs_lease_token : AuthorityToken;
  rs_lease_requester : string
}.

(** *** Default-constructed values *)

Definition default_node : NodeKey := node_of_leaf 0.
Definition default_link : LinkRecord := MkLink 0 default_node 0 default_node 0 LC_LeafSpine LA_Enabled 0 0.
Definition default_evidence : LinkEvidence := MkEvidence 0 LO_Unknown 0 zero_incarnation 0 0 0.
Definition default_command : Command :=
  MkCommand 0 default_token 0 0 CK_SetFabricState FS_Operational default_node NS_Active 0 PA_Enabled 0 LA_Enabled
    default_link default_evidence default_options.
Definition default_authority : PathAuthority :=
  MkPathAuthority zero_incarnation 0 0 zero_digest 0 default_node default_node RC_Unreachable EV_Ineligible [] 0 0
    zero_digest.
Definition default_assessment : PathAssessment :=
  MkAssessment default_node default_node RC_Unreachable EV_Ineligible SC_Ok 0 0 zero_incarnation zero_digest [] [] 0
    no_sets empty_capacity [] 0 false.
Definition default_health : FabricHealthReport :=
  MkHealth FH_Unformed SC_Ok "" [] 0 0 0 0 0 0 0 0 0 0 0 zero_incarnation zero_digest.
Definition default_result : CommandResult := MkResult SC_Ok "" 0 0 0 zero_digest false false default_token.
Definition default_status : RuntimeStatus :=
  MkRuntimeStatus false 0 "" "" FS_Unformed zero_incarnation 0 0 zero_digest zero_digest FH_Unformed 0 0 0 0 0 0
    (MkCounters 0 0 0 0 0) 0 false empty_recovery 0 0 0 FP_None.

Definition default_request : Request :=
  MkRequest 0 RK_Ping kProtocolVersion "" default_node default_node default_constraints default_command
    default_authority default_token 0.
Definition default_response : Response :=
  MkResponse 0 SC_Ok "" kProtocolVersion zero_incarnation 0 0 zero_digest 0 "" 0 default_status default_assessment []
    default_health default_result default_authority success default_token "".

(** ** Encoders *)

Definition kRequestDomain : string := "slf.request.v1".
Definition kResponseDomain : string := "slf.response.v1".
Definition kMaxDetailBytes : Z := 4096.
Definition kMaxNameBytes : Z := 256.
Definition kMaxWireSpines : Z := 4096.
Definition kMaxWireSets : Z := 64.
Definition kMaxWireExplanations : Z := 64.
Definition kMaxWireReasons : Z := 64.
Definition kMaxBlockBytes : Z := 4 * 1024 * 1024.

Definition clamp_to (limit : Z) (text : string) : string :=
  if strlen text <=? limit then text else text_of (take (Z.to_nat limit) (bytes_of text)).
Definition clamp_detail (text : string) : string := clamp_to kMaxDetailBytes text.

(** [status = status.ok() ? write : status], one call after the other. *)
Fixpoint write_chain (w : ByteWriter) (ops : list WriteOp) : Status * ByteWriter :=
  match ops with
  | [] => (success, w)
  | op :: ops =>
      let '(s, w) := write_op w op in
      if negb (status_ok s) then (s, w) else write_chain w ops
  end.

(** Chains whose statuses are dropped. *)
Definition write_chains (w : ByteWriter) (chains : list (list WriteOp)) : ByteWriter :=
  fold_left (fun w ops => (write_chain w ops).2) chains w.

Definition code_op (c : StatusCode) : WriteOp := WU16 (StatusCode_to_u16 c).
Definition flag_op (b : bool) : WriteOp := WU8 (bool_u8 b).
Definition digest_op (d : Digest) : WriteOp := WBytes (digest_bytes d).
Definition count_op {A} (l : list A) : WriteOp := WU32 (Zlen l).

Definition ratio_or_zero (r : option Rational) : Rational := default (MkRational 0 1) r.

Definition constraints_ops (c : PathConstraints) : list WriteOp :=
  [flag_op (pc_domain_diversity c); WU32 (pc_min_eligible_spines c); WU64 (pc_min_total_capacity_mbps c);
   flag_op (bool_decide (is_Some (pc_max_oversubscription c)));
   WU64 (num (ratio_or_zero (pc_max_oversubscription c))); WU64 (den (ratio_or_zero (pc_max_oversubscription c)));
   flag_op (pc_allow_peer_paths c); flag_op (pc_require_evidence c); WU32 (pc_max_sets c); WU32 (pc_max_explanations c)].

Definition node_ops (k : NodeKey) : list WriteOp := [WU8 (Tier_to_u8 (tier k)); WU32 (index k)].

Definition OversubscriptionClass_to_u8 (c : OversubscriptionClass) : Z :=
  match c with OC_Unprovisioned => 0 | OC_Subscribed => 1 | OC_Oversubscribed => 2 | OC_Indeterminate => 3 end.

Definition capacity_ops (c : CapacitySummary) : list WriteOp :=
  [WU64 (uplink_capacity_mbps c); WU32 (uplink_count c); WU64 (downlink_capacity_mbps c); WU32 (downlink_count c);
   WU64 (access_capacity_mbps c); WU64 (min_uplink_mbps c); WU64 (max_uplink_mbps c); WU64 (spine_capacity_mbps c);
   WU32 (cap_spine_count c); WU64 (num (oversubscription c)); WU64 (den (oversubscription c));
   WU8 (OversubscriptionClass_to_u8 (classification c)); code_op (cap_code c); WString (clamp_detail (cap_detail c))].

Definition spine_eligibility_ops (e : SpineEligibility) : list WriteOp :=
  [WU32 (se_spine e); WU8 (EligibilityVerdict_to_u8 (se_verdict e)); code_op (se_code e); flag_op (se_structural_ok e);
   WU8 (EvidenceFreshness_to_u8 (se_freshness e)); WU64 (se_capacity e); WU32 (se_domain e);
   WString (clamp_detail (se_detail e))].

Definition spine_set_ops (s : EligibleSpineSet) : list WriteOp :=
  [WU64 (set_total s); WU32 (set_distinct_domains s); count_op (set_spines s)] ++ (WU32 <$> set_spines s)
  ++ [count_op (set_domains s)] ++ (WU32 <$> set_domains s).

Definition assessment_ops (a : PathAssessment) : list WriteOp :=
  node_ops (pa_from a) ++ node_ops (pa_to a)
  ++ [WU8 (ReachabilityClass_to_u8 (pa_cls a)); WU8 (EligibilityVerdict_to_u8 (pa_verdict a)); code_op (pa_code a);
      WU64 (pa_generation a); WU64 (pa_epoch a); WU64 (hi (pa_controller a)); WU64 (lo (pa_controller a));
      digest_op (pa_topology_digest a); flag_op (pa_evidence_required a); WU64 (pa_links_examined a);
      WU32 (pa_domain_loss_tolerance a)]
  ++ [count_op (pa_eligible_spines a)] ++ (WU32 <$> pa_eligible_spines a)
  ++ [count_op (pa_covered_domains a)] ++ (WU32 <$> pa_covered_domains a)
  ++ [flag_op (sets_truncated (pa_spine_sets a)); WU64 (candidate_combinations (pa_spine_sets a));
      count_op (sets (pa_spine_sets a))]
  ++ concat (spine_set_ops <$> sets (pa_spine_sets a))
  ++ capacity_ops (pa_capacity a)
  ++ [count_op (pa_explanation a)] ++ ((fun t => WString (clamp_detail t)) <$> pa_explanation a).

Definition health_ops (h : FabricHealthReport) : list WriteOp :=
  [WU8 (FabricHealth_to_u8 (hr_health h)); code_op (hr_code h); WString (clamp_detail (hr_summary h));
   count_op (hr_reasons h)]
  ++ ((fun t => WString (clamp_to 512 t)) <$> hr_reasons h)
  ++ (WU32 <$> [hr_leaves_total h; hr_leaves_serving h; hr_leaves_isolated h; hr_leaves_indeterminate h;
                hr_spines_total h; hr_spines_serving h; hr_spines_failed h; hr_spines_draining h; hr_disabled_links h])
  ++ [WU64 (hr_generation h); WU64 (hr_epoch h); WU64 (hi (hr_controller h)); WU64 (lo (hr_controller h));
      digest_op (hr_topology_digest h)].

Definition status_ops (s : RuntimeStatus) : list WriteOp :=
  [flag_op (st_started s); WU64 (st_fabric_id s); WString (st_name s); WString (st_site s);
   WU8 (FabricState_to_u8 (st_fabric_state s)); WU64 (hi (st_controller s)); WU64 (lo (st_controller s));
   WU64 (st_epoch s); WU64 (st_generation s); digest_op (st_topology_digest s); digest_op (st_evidence_digest s);
   WU8 (FabricHealth_to_u8 (st_health s))]
  ++ (WU32 <$> [st_leaf_count s; st_spine_count s; st_port_count s; st_link_count s; st_history_count s;
                st_evidence_count s])
  ++ (WU64 <$> [n_applied (st_counters s); n_refused (st_counters s); n_fenced (st_counters s);
                n_duplicated (st_counters s); n_queries (st_counters s)])
  ++ [WU32 (st_worker_threads s); flag_op (st_persistence s); WU64 (st_active_lease s); WU64 (st_lease_expires s);
      WU64 (st_uptime s); WU8 (FaultPoint_to_u8 (st_fault_point s));
      WU16 (RecoveryStatus_to_u8 (rr_status (st_recovery s))); code_op (rr_code (st_recovery s));
      WString (clamp_detail (rr_detail (st_recovery s))); WU64 (rr_records_valid (st_recovery s));
      WU64 (rr_bytes_dropped (st_recovery s)); flag_op (rr_snapshot_used (st_recovery s));
      flag_op (rr_dynamic_evidence (st_recovery s)); flag_op (rr_reobservation (st_recovery s))].

Definition wire_result_ops (r : CommandResult) : list WriteOp :=
  [code_op (res_code r); WString (clamp_detail (res_detail r)); WU64 (res_request r); WU64 (res_generation r);
   WU64 (res_epoch r); digest_op (res_topology_digest r); flag_op (res_deduplicated r); flag_op (res_mutated r)]
  ++ token_ops (res_refreshed_token r).

Definition request_chains (r : Request) : list (list WriteOp) :=
  [[WString kRequestDomain]; [WU64 (rq_id r)]; [WU16 (RequestKind_to_u16 (rq_kind r))]; [WU16 (rq_version r)];
   [WString (clamp_to kMaxNameBytes (rq_client r))]; node_ops (rq_from r); node_ops (rq_to r);
   constraints_ops (rq_constraints r); [WBlock (serialize_command (rq_command r))];
   [WBlock (serialize_path_authority (rq_authority r))]; token_ops (rq_token r); [WU64 (rq_ttl r)]].

Definition encode_request (r : Request) : list byte :=
  buffer (write_chains (new_writer kMaxBlockBytes) (request_chains r)).

Definition response_chains (r : Response) : list (list WriteOp) :=
  [[WString kResponseDomain]; [WU64 (rs_id r)]; [code_op (rs_code r)]; [WString (clamp_detail (rs_detail r))];
   [WU16 (rs_version r)]; [WU64 (hi (rs_controller r))]; [WU64 (lo (rs_controller r))]; [WU64 (rs_epoch r)];
   [WU64 (rs_generation r)]; [digest_op (rs_topology_digest r)]; [WU32 (rs_max_payload r)];
   [WString (clamp_to kMaxNameBytes (rs_server_name r))]; [WU64 (rs_uptime r)]; status_ops (rs_status r);
   assessment_ops (rs_assessment r); [count_op (rs_spines r)]]
  ++ (spine_eligibility_ops <$> rs_spines r)
  ++ [health_ops (rs_health r); wire_result_ops (rs_result r); [WBlock (serialize_path_authority (rs_authority r))];
      [code_op (code (rs_check r))]; [WString (clamp_detail (detail (rs_check r)))]; token_ops (rs_lease_token r);
      [WString (clamp_to kMaxNameBytes (rs_lease_requester r))]].

Definition encode_response (r : Response) : list byte :=
  buffer (write_chains (new_writer kMaxBlockBytes) (response_chains r)).

(** ** Decoders *)

Definition OversubscriptionClass_of_u8 (v : Z) : option OversubscriptionClass :=
  List.find (fun c => OversubscriptionClass_to_u8 c =? v)
    [OC_Unprovisioned; OC_Subscribed; OC_Oversubscribed; OC_Indeterminate].

Definition FaultPoint_of_u8 (v : Z) : option FaultPoint :=
  List.find (fun p => FaultPoint_to_u8 p =? v)
    [FP_None; FP_BeforeCommit; FP_AfterCommitBeforeAck; FP_AfterAckBeforeSnapshot].

Definition RecoveryStatus_of_u16 (v : Z) : option RecoveryStatus :=
  List.find (fun s => RecoveryStatus_to_u8 s =? v)
    [RS_Missing; RS_Empty; RS_Clean; RS_CrashWithoutTrailer; RS_TruncatedTail; RS_ChainBroken; RS_Corrupt;
     RS_IncompatibleVersion; RS_IoError].

Definition flag_of (v : Z) : bool := negb (v =? 0).
Definition read_flag : Reader bool := v ← read_u8; mret (flag_of v).
Definition read_code : Reader StatusCode := v ← read_u16; mret (StatusCode_of_u16 v).
Definition read_incarnation : Reader ControllerIncarnation := h ← read_u64; l ← read_u64; mret (MkInc h l).

(** A cast of an integer that has been checked to be in range. *)
Definition known {A} (o : option A) (what : string) : Reader A := lift (opt_or o SC_Invalid what).
Definition within (n bound : Z) (what : string) : Reader unit := ensure (negb (n >? bound)) SC_Exhausted what.

Definition decode_constraints : Reader PathConstraints :=
  '(diversity, min_spines, min_capacity, has_ratio, n, d, peer, evidence, max_sets, max_explanations) ←
    fields SC_Truncated "path constraints are incomplete"
      (diversity ← read_flag; min_spines ← read_u32; min_capacity ← read_u64; has_ratio ← read_flag; n ← read_u64;
       d ← read_u64; peer ← read_flag; evidence ← read_flag; max_sets ← read_u32; max_explanations ← read_u32;
       mret (diversity, min_spines, min_capacity, has_ratio, n, d, peer, evidence, max_sets, max_explanations));
  _ ← ensure (negb ((max_sets >? 4096) || (max_explanations >? 1024))) SC_Exhausted
        "path constraint bounds exceed the accepted maximum";
  ratio ← (if has_ratio : bool then r ← lift (rational_make n d); mret (Some r) else mret None);
  mret (MkConstraints diversity min_spines min_capacity ratio peer evidence max_sets max_explanations).

Definition decode_node : Reader NodeKey :=
  '(tier, index) ← fields SC_Truncated "node reference is incomplete"
    (tier ← read_u8; index ← read_u32; mret (tier, index));
  _ ← ensure (negb (tier >? 1)) SC_Invalid "node reference carries an unknown tier";
  mret (MkNode (Tier_of_u8 tier) index).

Definition decode_digest : Reader Digest :=
  bytes ← fields SC_Truncated "digest is incomplete" (read_bytes 32);
  mret (MkDigest bytes).

Definition decode_capacity : Reader CapacitySummary :=
  '(uplink, uplinks, downlink, downlinks, access, least, most, spine, spines, n, d, cls, c, text) ←
    fields SC_Truncated "capacity summary is incomplete"
      (uplink ← read_u64; uplinks ← read_u32; downlink ← read_u64; downlinks ← read_u32; access ← read_u64;
       least ← read_u64; most ← read_u64; spine ← read_u64; spines ← read_u32; n ← read_u64; d ← read_u64;
       cls ← read_u8; c ← read_code; text ← read_string;
       mret (uplink, uplinks, downlink, downlinks, access, least, most, spine, spines, n, d, cls, c, text));
  cls ← known (OversubscriptionClass_of_u8 cls) "capacity summary carries an unknown classification";
  ratio ← lift (rational_make n d);
  mret (MkCapacity uplink uplinks downlink downlinks access least most spine spines ratio cls c text).

Definition decode_spine_eligibility : Reader SpineEligibility :=
  '(spine, verdict, c, structural, freshness, capacity, domain, text) ←
    fields SC_Truncated "spine eligibility entry is incomplete"
      (spine ← read_u32; verdict ← read_u8; c ← read_code; structural ← read_flag; freshness ← read_u8;
       capacity ← read_u64; domain ← read_u32; text ← read_string;
       mret (spine, verdict, c, structural, freshness, capacity, domain, text));
  verdict ← known (EligibilityVerdict_of_u8 verdict) "spine eligibility entry carries an unknown enumeration value";
  freshness ← known (EvidenceFreshness_of_u8 freshness) "spine eligibility entry carries an unknown enumeration value";
  mret (MkSE spine verdict c structural freshness capacity domain text).

(** [count] values of four bytes, or the complaint that they are incomplete. *)
Definition read_u32s (count : Z) (what : string) : Reader (list Z) :=
  fields SC_Truncated what (read_n (Z.to_nat count) read_u32).

Definition decode_spine_set : Reader EligibleSpineSet :=
  '(capacity, distinct, spine_count) ← fields SC_Truncated "spine set is incomplete"
    (capacity ← read_u64; distinct ← read_u32; spine_count ← read_u32; mret (capacity, distinct, spine_count));
  _ ← ensure (negb ((spine_count >? kMaxWireSpines) || (distinct >? kMaxWireSpines))) SC_Exhausted
        "spine set exceeds the accepted bound";
  spines ← read_u32s spine_count "spine set spine list is incomplete";
  domain_count ← fields SC_Truncated "spine set domain list is incomplete" read_u32;
  _ ← within domain_count kMaxWireSpines "spine set domain list exceeds the accepted bound";
  domains ← read_u32s domain_count "spine set domain list is incomplete";
  mret (MkSet spines domains capacity distinct).

Definition decode_sets : Reader EligibleSpineSets :=
  '(truncated, combinations, set_count) ← fields SC_Truncated "path assessment spine set summary is incomplete"
    (truncated ← read_flag; combinations ← read_u64; set_count ← read_u32; mret (truncated, combinations, set_count));
  _ ← within set_count kMaxWireSets "path assessment spine set count exceeds the accepted bound";
  found ← read_n (Z.to_nat set_count) decode_spine_set;
  mret (MkSets found truncated combinations).

Definition decode_assessment : Reader PathAssessment :=
  '(from, to, cls, verdict, c, generation, epoch, controller, digest, required, examined, tolerance, spine_count) ←
    fields SC_Truncated "path assessment is incomplete"
      (from ← decode_node; to ← decode_node; cls ← read_u8; verdict ← read_u8; c ← read_code; generation ← read_u64;
       epoch ← read_u64; controller ← read_incarnation; digest ← decode_digest; required ← read_flag;
       examined ← read_u64; tolerance ← read_u32; spine_count ← read_u32;
       mret (from, to, cls, verdict, c, generation, epoch, controller, digest, required, examined, tolerance, spine_count));
  cls ← known (ReachabilityClass_of_u8 cls) "path assessment carries an unknown enumeration value";
  verdict ← known (EligibilityVerdict_of_u8 verdict) "path assessment carries an unknown enumeration value";
  _ ← within spine_count kMaxWireSpines "path assessment spine list exceeds the accepted bound";
  spines ← read_u32s spine_count "path assessment spine list is incomplete";
  domain_count ← fields SC_Truncated "path assessment domain list is incomplete" read_u32;
  _ ← within domain_count kMaxWireSpines "path assessment domain list exceeds the accepted bound";
  domains ← read_u32s domain_count "path assessment domain list is incomplete";
  found ← decode_sets;
  capacity ← decode_capacity;
  explanation_count ← fields SC_Truncated "path assessment explanation list is incomplete" read_u32;
  _ ← within explanation_count kMaxWireExplanations "path assessment explanation count exceeds the accepted bound";
  explanation ← fields SC_Truncated "path assessment explanation line is incomplete"
    (read_n (Z.to_nat explanation_count) read_string);
  mret (MkAssessment from to cls verdict c generation epoch controller digest spines domains tolerance found capacity
          explanation examined required).

(** Counters read into an array, then taken from their places. *)
Definition place (i : nat) (l : list Z) : Z := nth i l 0.

Definition decode_health : Reader FabricHealthReport :=
  '(health, c, summary, reason_count) ← fields SC_Truncated "health report is incomplete"
    (health ← read_u8; c ← read_code; summary ← read_string; reason_count ← read_u32;
     mret (health, c, summary, reason_count));
  health ← known (FabricHealth_of_u8 health) "health report carries an unknown classification";
  _ ← within reason_count kMaxWireReasons "health report reason count exceeds the accepted bound";
  reasons ← fields SC_Truncated "health report reason is incomplete" (read_n (Z.to_nat reason_count) read_string);
  counts ← fields SC_Truncated "health report counter is incomplete" (read_n 9 read_u32);
  '(generation, epoch, controller, digest) ← fields SC_Truncated "health report coordinate is incomplete"
    (generation ← read_u64; epoch ← read_u64; controller ← read_incarnation; digest ← decode_digest;
     mret (generation, epoch, controller, digest));
  mret (MkHealth health c summary reasons (place 0 counts) (place 1 counts) (place 2 counts) (place 3 counts)
          (place 4 counts) (place 5 counts) (place 6 counts) (place 7 counts) (place 8 counts) generation epoch
          controller digest).

(** The report of a recovery as it comes over the wire: nine fields are not sent. *)
Definition wire_recovery (status : RecoveryStatus) (c : StatusCode) (text : string) (valid dropped : Z)
    (used dynamic again : bool) : RecoveryReport :=
  MkRecovery status c text false false used false valid 0 0 dropped dynamic again 0 0 zero_incarnation zero_digest.

Definition decode_recovery_tail : Reader (Z * bool * LeaseId * Z * Z * FaultPoint * RecoveryReport) :=
  '(workers, persistence, lease, expiry, uptime, fault, rstatus, c, text, valid, dropped, used, dynamic, again) ←
    fields SC_Truncated "runtime status trailer is incomplete"
      (workers ← read_u32; persistence ← read_flag; lease ← read_u64; expiry ← read_u64; uptime ← read_u64;
       fault ← read_u8; rstatus ← read_u16; c ← read_code; text ← read_string; valid ← read_u64; dropped ← read_u64;
       used ← read_flag; dynamic ← read_flag; again ← read_flag;
       mret (workers, persistence, lease, expiry, uptime, fault, rstatus, c, text, valid, dropped, used, dynamic, again));
  fault ← known (FaultPoint_of_u8 fault) "runtime status carries an unknown enumeration value";
  rstatus ← known (RecoveryStatus_of_u16 rstatus) "runtime status carries an unknown enumeration value";
  mret (workers, persistence, lease, expiry, uptime, fault, wire_recovery rstatus c text valid dropped used dynamic again).

Definition decode_status : Reader RuntimeStatus :=
  '(started, id, name, site, state, controller, epoch, generation, topology, evidence, health) ←
    fields SC_Truncated "runtime status is incomplete"
      (started ← read_flag; id ← read_u64; name ← read_string; site ← read_string; state ← read_u8;
       controller ← read_incarnation; epoch ← read_u64; generation ← read_u64; topology ← decode_digest;
       evidence ← decode_digest; health ← read_u8;
       mret (started, id, name, site, state, controller, epoch, generation, topology, evidence, health));
  state ← known (FabricState_of_u8 state) "runtime status carries an unknown enumeration value";
  health ← known (FabricHealth_of_u8 health) "runtime status carries an unknown enumeration value";
  counts ← fields SC_Truncated "runtime status counter is incomplete" (read_n 6 read_u32);
  counters ← fields SC_Truncated "runtime status counter is incomplete" (read_n 5 read_u64);
  '(workers, persistence, lease, expiry, uptime, fault, recovery) ← decode_recovery_tail;
  mret (MkRuntimeStatus started id name site state controller epoch generation topology evidence health
          (place 0 counts) (place 1 counts) (place 2 counts) (place 3 counts) (place 4 counts) (place 5 counts)
          (MkCounters (place 0 counters) (place 1 counters) (place 2 counters) (place 3 counters) (place 4 counters))
          workers persistence recovery lease expiry uptime fault).

Definition decode_token : Reader AuthorityToken := fields SC_Truncated "authority token is incomplete" read_token.

Definition decode_wire_result : Reader CommandResult :=
  fields SC_Truncated "command result is incomplete"
    (c ← read_code; text ← read_string; request ← read_u64; generation ← read_u64; epoch ← read_u64;
     digest ← decode_digest; deduplicated ← read_flag; mutated ← read_flag; token ← decode_token;
     mret (MkResult c text request generation epoch digest deduplicated mutated token)).

Definition read_request_fields (limits : TransportLimits)
    : Reader (string * Z * Z * Z * string * NodeKey * NodeKey * PathConstraints * list byte * list byte * AuthorityToken * Z) :=
  domain ← read_string; id ← read_u64; kind ← read_u16; version ← read_u16; client ← read_string; from ← decode_node;
  to ← decode_node; constraints ← decode_constraints; command ← read_block (max_frame_payload limits);
  authority ← read_block (max_frame_payload limits); token ← decode_token; ttl ← read_u64;
  mret (domain, id, kind, version, client, from, to, constraints, command, authority, token, ttl).

Definition decode_request (payload : list byte) (limits : TransportLimits) : Outcome Request :=
  match fields SC_Truncated "request payload is incomplete" (read_request_fields limits)
          (new_reader payload kMaxDetailBytes) with
  | (Failure st, _) => Failure st
  | (Value (domain, id, kind, version, client, from, to, constraints, command, authority, token, ttl), reader) =>
      if negb (bool_decide (domain = kRequestDomain)) then
        fail SC_Invalid "request payload has an unexpected domain tag"
      else
        kind ← opt_or (RequestKind_of_u16 kind) SC_Invalid "request carries an unknown request kind";
        _ ← check (expect_end reader);
        command ← deserialize_command command;
        authority ← deserialize_path_authority authority;
        Value (MkRequest id kind version client from to constraints command authority token ttl)
  end.

Definition read_response_head
    : Reader (Z * StatusCode * string * Z * ControllerIncarnation * Z * Z * Digest * Z * string * Z) :=
  '(domain, id, c, text, version, controller, epoch, generation, digest, max_payload, server, uptime) ←
    fields SC_Truncated "response header is incomplete"
      (domain ← read_string; id ← read_u64; c ← read_code; text ← read_string; version ← read_u16;
       controller ← read_incarnation; epoch ← read_u64; generation ← read_u64; digest ← decode_digest;
       max_payload ← read_u32; server ← read_string; uptime ← read_u64;
       mret (domain, id, c, text, version, controller, epoch, generation, digest, max_payload, server, uptime));
  _ ← ensure (bool_decide (domain = kResponseDomain)) SC_Invalid "response payload has an unexpected domain tag";
  mret (id, c, text, version, controller, epoch, generation, digest, max_payload, server, uptime).

Definition read_response (limits : TransportLimits) : Reader Response :=
  '(id, c, text, version, controller, epoch, generation, digest, max_payload, server, uptime) ← read_response_head;
  status ← decode_status;
  assessment ← decode_assessment;
  spine_count ← fields SC_Truncated "response spine list is incomplete" read_u32;
  _ ← within spine_count kMaxWireSpines "response spine list exceeds the accepted bound";
  spines ← read_n (Z.to_nat spine_count) decode_spine_eligibility;
  health ← decode_health;
  result ← decode_wire_result;
  authority_bytes ← read_block (max_frame_payload limits);
  authority ← lift (deserialize_path_authority authority_bytes);
  '(check_code, check_detail, lease, requester) ← fields SC_Truncated "response authority check is incomplete"
    (check_code ← read_code; check_detail ← read_string; lease ← decode_token; requester ← read_string;
     mret (check_code, check_detail, lease, requester));
  mret (MkResponse id c text version controller epoch generation digest max_payload server uptime status assessment
          spines health result authority (MkStatus check_code check_detail) lease requester).

Definition decode_response (payload : list byte) (limits : TransportLimits) : Outcome Response :=
  run_to_end (read_response limits) payload kMaxDetailBytes.

(** ** The handler *)

Definition assessment_summary (a : PathAssessment) : string :=
  NodeKey_to_string (pa_from a) +:+ " -> " +:+ NodeKey_to_string (pa_to a) +:+ ": "
  +:+ EligibilityVerdict_to_string (pa_verdict a) +:+ " (" +:+ StatusCode_to_string (pa_code a) +:+ ") class="
  +:+ ReachabilityClass_to_string (pa_cls a) +:+ " spines=" +:+ std_to_string (Zlen (pa_eligible_spines a))
  +:+ " domains=" +:+ std_to_string (Zlen (pa_covered_domains a)) +:+ " diversity_tolerance="
  +:+ std_to_string (pa_domain_loss_tolerance a).

Definition put_outcome (c : StatusCode) (text : string) (r : Response) : Response :=
  MkResponse (rs_id r) c text (rs_version r) (rs_controller r) (rs_epoch r) (rs_generation r) (rs_topology_digest r)
    (rs_max_payload r) (rs_server_name r) (rs_uptime r) (rs_status r) (rs_assessment r) (rs_spines r) (rs_health r)
    (rs_result r) (rs_authority r) (rs_check r) (rs_lease_token r) (rs_lease_requester r).
Definition put_assessment (a : PathAssessment) (r : Response) : Response :=
  MkResponse (rs_id r) (rs_code r) (rs_detail r) (rs_version r) (rs_controller r) (rs_epoch r) (rs_generation r)
    (rs_topology_digest r) (rs_max_payload r) (rs_server_name r) (rs_uptime r) (rs_status r) a (rs_spines r)
    (rs_health r) (rs_result r) (rs_authority r) (rs_check r) (rs_lease_token r) (rs_lease_requester r).
Definition put_spines (l : list SpineEligibility) (r : Response) : Response :=
  MkResponse (rs_id r) (rs_code r) (rs_detail r) (rs_version r) (rs_controller r) (rs_epoch r) (rs_generation r)
    (rs_topology_digest r) (rs_max_payload r) (rs_server_name r) (rs_uptime r) (rs_status r) (rs_assessment r) l
    (rs_health r) (rs_result r) (rs_authority r) (rs_check r) (rs_lease_token r) (rs_lease_requester r).
Definition put_health (h : FabricHealthReport) (r : Response) : Response :=
  MkResponse (rs_id r) (rs_code r) (rs_detail r) (rs_version r) (rs_controller r) (rs_epoch r) (rs_generation r)
    (rs_topology_digest r) (rs_max_payload r) (rs_server_name r) (rs_uptime r) (rs_status r) (rs_assessment r)
    (rs_spines r) h (rs_result r) (rs_authority r) (rs_check r) (rs_lease_token r) (rs_lease_requester r).
(** The coordinate of the response is moved to that of the result. *)
Definition put_result (c : CommandResult) (r : Response) : Response :=
  MkResponse (rs_id r) (rs_code r) (rs_detail r) (rs_version r) (rs_controller r) (rs_epoch r) (res_generation c)
    (res_topology_digest c) (rs_max_payload r) (rs_server_name r) (rs_uptime r) (rs_status r) (rs_assessment r)
    (rs_spines r) (rs_health r) c (rs_authority r) (rs_check r) (rs_lease_token r) (rs_lease_requester r).
Definition put_authority (a : PathAuthority) (r : Response) : Response :=
  MkResponse (rs_id r) (rs_code r) (rs_detail r) (rs_version r) (rs_controller r) (rs_epoch r) (rs_generation r)
    (rs_topology_digest r) (rs_max_payload r) (rs_server_name r) (rs_uptime r) (rs_status r) (rs_assessment r)
    (rs_spines r) (rs_health r) (rs_result r) a (rs_check r) (rs_lease_token r) (rs_lease_requester r).
Definition put_check (c : AuthorityCheck) (r : Response) : Response :=
  MkResponse (rs_id r) (rs_code r) (rs_detail r) (rs_version r) (rs_controller r) (rs_epoch r) (rs_generation r)
    (rs_topology_digest r) (rs_max_payload r) (rs_server_name r) (rs_uptime r) (rs_status r) (rs_assessment r)
    (rs_spines r) (rs_health r) (rs_result r) (rs_authority r) c (rs_lease_token r) (rs_lease_requester r).
Definition put_lease (token : AuthorityToken) (requester : string) (r : Response) : Response :=
  MkResponse (rs_id r) (rs_code r) (rs_detail r) (rs_version r) (rs_controller r) (rs_epoch r) (rs_generation r)
    (rs_topology_digest r) (rs_max_payload r) (rs_server_name r) (rs_uptime r) (rs_status r) (rs_assessment r)
    (rs_spines r) (rs_health r) (rs_result r) (rs_authority r) (rs_check r) token requester.

(** What the clocks and the file system answer while one request is handled. *)
Record ServiceIo := MkServiceIo {
  svc_now : Z;
  svc_monotonic : Z;
  svc_append : AppendIo;
  svc_snapshot : SnapshotIo
}.

(** A handler answers, or the process ends inside it at a fault point. *)
Inductive Handled (S : Type) :=
| Answered (r : Response) (s : S)
| Died (s : S).
Arguments Answered {S} r s.
Arguments Died {S} s.

(** [RequestHandler]: what the server needs, whatever is behind it. *)
Class RequestHandler (S Io : Type) := handle : Io -> Request -> S -> Handled S.

(** The response every request starts from. *)
Definition opening_response (monotonic : Z) (q : Request) (rt : ControllerRuntime) : Response :=
  let status := runtime_status monotonic rt in
  MkResponse (rq_id q) SC_Ok "" kProtocolVersion (st_controller status) (st_epoch status) (st_generation status)
    (st_topology_digest status) (4 * 1024 * 1024) "slf-controller" (st_uptime status) status default_assessment []
    default_health default_result default_authority success default_token "".

(** A query's answer, or its refusal as the outcome of the response. *)
Definition answer {A} (o : Outcome A * ControllerRuntime) (r : Response) (k : A -> Response) : Handled ControllerRuntime :=
  match o with
  | (Failure st, rt) => Answered (put_outcome (code st) (detail st) r) rt
  | (Value v, rt) => Answered (k v) rt
  end.

Definition count_eligible (l : list SpineEligibility) : Z :=
  fold_left (fun n e => if bool_decide (se_verdict e = EV_Eligible) then wrap 32 (n + 1) else n) l 0.

Definition spines_detail (leaf : NodeKey) (l : list SpineEligibility) : string :=
  "eligible spines for " +:+ NodeKey_to_string leaf +:+ ": " +:+ std_to_string (count_eligible l) +:+ " of "
  +:+ std_to_string (Zlen l).

(** [RuntimeService::handle]. *)
Definition RuntimeService_handle (io : ServiceIo) (q : Request) (rt : ControllerRuntime) : Handled ControllerRuntime :=
  let r := opening_response (svc_monotonic io) q rt in
  match rq_kind q with
  | RK_Hello => Answered (put_outcome SC_Ok "hello accepted" r) rt
  | RK_Ping => Answered (put_outcome SC_Ok "pong" r) rt
  | RK_Status => Answered r rt
  | RK_Paths =>
      answer (assess_paths (rq_from q) (rq_to q) (rq_constraints q) live_token rt) r
        (fun a => put_outcome (pa_code a) (assessment_summary a) (put_assessment a r))
  | RK_EligibleSpines =>
      answer (eligible_spines (rq_from q) (rq_constraints q) live_token rt) r
        (fun l => put_outcome SC_Ok (spines_detail (rq_from q) l) (put_spines l r))
  | RK_Health =>
      answer (query_health (rq_constraints q) rt) r
        (fun h => put_outcome (hr_code h) (hr_summary h) (put_health h r))
  | RK_Command =>
      match apply (svc_append io) (svc_now io) (rq_command q) rt with
      | Exited rt => Died rt
      | Returned c rt => Answered (put_outcome (res_code c) (res_detail c) (put_result c r)) rt
      end
  | RK_AuthorizePath =>
      answer (authorize_path (svc_now io) (rq_from q) (rq_to q) (rq_constraints q) (rq_ttl q) rt) r
        (fun a => put_outcome SC_Ok "path authority minted" (put_authority a r))
  | RK_ValidateAuthority =>
      let c := validate_path_authority_ref (svc_now io) (rq_authority q) rt in
      Answered (put_outcome (code c) (detail c) (put_check c r)) rt
  | RK_Lease =>
      answer (acquire_authority (svc_append io) (svc_now io) "protocol-client" (rq_ttl q) rt) r
        (fun l => put_outcome SC_Ok "lease minted" (put_lease (al_token l) (al_requester l) r))
  | RK_Compact =>
      let '(compacted, rt) := compact (svc_snapshot io) rt in
      Answered (put_outcome (code compacted)
                  (if status_ok compacted then "snapshot written" else detail compacted) r) rt
  | RK_Bye => Answered (put_outcome SC_Ok "bye" r) rt
  end.

#[export] Instance RuntimeService : RequestHandler ControllerRuntime ServiceIo := RuntimeService_handle.
