(* ===== verification/Server.v ===== *)
(** * The framed server and client (src/service.cpp)

    What one worker does on one connection is a function of what arrives on its
    socket. The threads of [FabricServer] are a step relation: a step is one
    critical section, one atomic access or one system call of one thread. *)
From S2P Require Import Prelude Status Identity Bytes Digest Model Eligibility Governance Transport Service.

(** ** Counters *)

Record ServerStats := MkStats {
  ss_accepted : Z;
  ss_rejected : Z;
  ss_frames_read : Z;
  ss_frames_written : Z;
  ss_protocol_errors : Z;
  ss_handler_errors : Z;
  ss_bytes_in : Z;
  ss_bytes_out : Z
}.

Definition no_stats : ServerStats := MkStats 0 0 0 0 0 0 0 0.

Definition count_accepted (accepted : bool) (s : ServerStats) : ServerStats :=
  MkStats (if accepted then wrap 64 (ss_accepted s + 1) else ss_accepted s)
    (if accepted then ss_rejected s else wrap 64 (ss_rejected s + 1)) (ss_frames_read s) (ss_frames_written s)
    (ss_protocol_errors s) (ss_handler_errors s) (ss_bytes_in s) (ss_bytes_out s).
Definition count_protocol_error (s : ServerStats) : ServerStats :=
  MkStats (ss_accepted s) (ss_rejected s) (ss_frames_read s) (ss_frames_written s) (wrap 64 (ss_protocol_errors s + 1))
    (ss_handler_errors s) (ss_bytes_in s) (ss_bytes_out s).
Definition count_read (n : Z) (s : ServerStats) : ServerStats :=
  MkStats (ss_accepted s) (ss_rejected s) (wrap 64 (ss_frames_read s + 1)) (ss_frames_written s) (ss_protocol_errors s)
    (ss_handler_errors s) (wrap 64 (ss_bytes_in s + (n + kFrameHeaderBytes))) (ss_bytes_out s).
Definition count_written (n : Z) (s : ServerStats) : ServerStats :=
  MkStats (ss_accepted s) (ss_rejected s) (ss_frames_read s) (wrap 64 (ss_frames_written s + 1)) (ss_protocol_errors s)
    (ss_handler_errors s) (ss_bytes_in s) (wrap 64 (ss_bytes_out s + (n + kFrameHeaderBytes))).

(** ** One connection *)

(** A reply to a request that is not handed to the handler. *)
Definition error_response (id : RequestId) (c : StatusCode) (text : string) : Response :=
  MkResponse id c text (rs_version default_response) (rs_controller default_response) (rs_epoch default_response)
    (rs_generation default_response) (rs_topology_digest default_response) (rs_max_payload default_response)
    (rs_server_name default_response) (rs_uptime default_response) (rs_status default_response)
    (rs_assessment default_response) (rs_spines default_response) (rs_health default_response)
    (rs_result default_response) (rs_authority default_response) (rs_check default_response)
    (rs_lease_token default_response) (rs_lease_requester default_response).

Definition frame_of (type flags : Z) (id : RequestId) : FrameHeader :=
  MkFrame kFrameMagic kProtocolVersion type flags 0 id 0.

Definition reply_frame (k : RequestKind) (id : RequestId) : FrameHeader := frame_of (RequestKind_to_u16 k) kFlagReply id.

(** The frame failures that are answered before the connection is closed. *)
Definition answers_failure (c : StatusCode) : bool :=
  bool_decide (c = SC_IncompatibleVersion) || bool_decide (c = SC_Corrupt) || bool_decide (c = SC_IntegrityError).

Section Connection.
Context {St Io : Type} `{RequestHandler St Io}.

(** What a worker holds while it serves: the bytes still to arrive, the counters, the
    handler's state, and what it has sent. *)
Record Line := MkLine {
  ln_wire : list Arrival;
  ln_stats : ServerStats;
  ln_state : St;
  ln_sent : list byte
}.

Inductive Turned := Continues | Breaks | Ends.

(** The response to a payload: from the handler when it decodes to a request of this version. *)
Definition respond (limits : TransportLimits) (io : Io) (header : FrameHeader) (payload : list byte) (st : St)
    : Outcome Request * Handled St * bool :=
  let request := decode_request payload limits in
  match request with
  | Failure e => (request, Answered (error_response (fh_request_id header) (code e) (detail e)) st, true)
  | Value q =>
      if negb (rq_version q =? kProtocolVersion) then
        (request, Answered (error_response (rq_id q) SC_IncompatibleVersion "client protocol version is not supported") st, true)
      else (request, handle io q st, false)
  end.

(** One turn of the worker's inner loop: a frame is read, answered, and counted. [answers] is
    what the kernel takes of the reply. *)
Definition serve_frame (limits : TransportLimits) (c : Connection) (io : Io) (answers : list SendAnswer) (l : Line)
    : Turned * Line :=
  match read_frame c limits (ln_wire l) with
  | (Failure e, w) =>
      if answers_failure (code e) then
        let id := fh_request_id default_frame in
        let sent := (write_frame c answers (reply_frame RK_Bye id)
                       (encode_response (error_response id (code e) (detail e))) limits).2 in
        (Breaks, MkLine w (count_protocol_error (ln_stats l)) (ln_state l) (ln_sent l ++ sent))
      else (Breaks, MkLine w (ln_stats l) (ln_state l) (ln_sent l))
  | (Value (header, payload), w) =>
      let stats := count_read (Zlen payload) (ln_stats l) in
      let '(request, handled, bad) := respond limits io header payload (ln_state l) in
      let stats := if bad : bool then count_protocol_error stats else stats in
      match handled with
      | Died st => (Ends, MkLine w stats st (ln_sent l))
      | Answered r st =>
          let encoded := encode_response r in
          let kind := match request with Value q => rq_kind q | Failure _ => RK_Bye end in
          let '(written, sent) := write_frame c answers (reply_frame kind (rs_id r)) encoded limits in
          let stats := if status_ok written then count_written (Zlen encoded) stats else count_protocol_error stats in
          let bye := match request with Value q => bool_decide (rq_kind q = RK_Bye) | Failure _ => false end in
          ((if negb (status_ok written) || bye then Breaks else Continues), MkLine w stats st (ln_sent l ++ sent))
      end
  end.

(** What the [n]-th turn meets: whether the server still runs, and the answers of the system. *)
Record Turn := MkTurn { tn_running : bool; tn_io : Io; tn_answers : list SendAnswer }.

Fixpoint serve_loop (fuel : nat) (limits : TransportLimits) (c : Connection) (turns : nat -> Turn) (l : Line)
    : Turned * Line :=
  match fuel with
  | O => (Breaks, l)
  | S fuel =>
      let turn := turns O in
      if negb (tn_running turn) then (Breaks, l)
      else
        match serve_frame limits c (tn_io turn) (tn_answers turn) l with
        | (Continues, l) => serve_loop fuel limits c (fun n => turns (S n)) l
        | r => r
        end
  end.

Definition serve_connection (limits : TransportLimits) (c : Connection) (turns : nat -> Turn) (l : Line) : Turned * Line :=
  serve_loop (Z.to_nat (max_frames_per_connection limits)) limits c turns l.
End Connection.

Arguments Line : clear implicits.
Arguments Turn : clear implicits.

(** ** The client *)

Record FabricClient := MkClient { fc_limits : TransportLimits; fc_connection : Connection; fc_next : Z }.

Definition connected (fc : FabricClient) : bool := valid (fc_connection fc).

Definition client_connect (os : SocketOs) (e : Endpoint) (limits : TransportLimits) (handles : gset Z)
    : Outcome FabricClient * gset Z :=
  match connect os e limits handles with
  | (Failure st, handles) => (Failure st, handles)
  | (Value c, handles) => (Value (MkClient limits c 1), handles)
  end.

Definition request_frame (q : Request) : FrameHeader := frame_of (RequestKind_to_u16 (rq_kind q)) 0 (rq_id q).

(** [FabricClient::call]: the outcome, the bytes sent, and what is left on the socket. *)
Definition client_call (os : SocketOs) (fc : FabricClient) (q : Request) (timeout_ms : Z) (answers : list SendAnswer)
    (w : list Arrival) : Outcome Response * list byte * list Arrival :=
  let deadlines := if timeout_ms =? 0 then success else set_deadlines os (fc_connection fc) timeout_ms in
  if negb (status_ok deadlines) then (Failure deadlines, [], w)
  else
    let '(written, sent) := write_frame (fc_connection fc) answers (request_frame q) (encode_request q) (fc_limits fc) in
    if negb (status_ok written) then (Failure written, sent, w)
    else
      match read_frame (fc_connection fc) (fc_limits fc) w with
      | (Failure st, w) => (Failure st, sent, w)
      | (Value (reply, payload), w) =>
          if Z.land (fh_flags reply) kFlagReply =? 0 then
            (fail SC_Invalid "server sent a request frame where a reply was expected", sent, w)
          else (decode_response payload (fc_limits fc), sent, w)
      end.

(** [FabricClient::close]: a [Bye] is sent and its reply awaited, then the socket is closed. *)
Definition bye_request (id : RequestId) : Request :=
  MkRequest id RK_Bye kProtocolVersion "" default_node default_node default_constraints default_command
    default_authority default_token 0.

Definition client_close (fc : FabricClient) (answers : list SendAnswer) (w : list Arrival) (handles : gset Z)
    : Status * list byte * FabricClient * gset Z :=
  let '(result, sent, next) :=
    if valid (fc_connection fc) then
      let '(written, sent) := write_frame (fc_connection fc) answers (request_frame (bye_request (fc_next fc)))
                                (encode_request (bye_request (fc_next fc))) (fc_limits fc) in
      let result := if negb (status_ok written) then written else success in
      match (read_frame (fc_connection fc) (fc_limits fc) w).1 with
      | Failure st => (if status_ok result then st else result, sent, wrap 64 (fc_next fc + 1))
      | Value _ => (result, sent, wrap 64 (fc_next fc + 1))
      end
    else (success, [], fc_next fc) in
  let '(c, handles) := conn_close (fc_connection fc) handles in
  (result, sent, MkClient (fc_limits fc) c next, handles).

Definition hello_request (client_name : string) : Request :=
  MkRequest 1 RK_Hello kProtocolVersion client_name default_node default_node default_constraints default_command
    default_authority default_token 0.

Definition handshake (os : SocketOs) (fc : FabricClient) (client_name : string) (answers : list SendAnswer)
    (w : list Arrival) : Outcome Response * list byte * list Arrival :=
  let '(o, sent, w) := client_call os fc (hello_request client_name) 0 answers w in
  (match o with
   | Failure st => Failure st
   | Value r =>
       if negb (bool_decide (rs_code r = SC_Ok)) then fail (rs_code r) (rs_detail r)
       else if negb (rs_version r =? kProtocolVersion) then
         fail SC_IncompatibleVersion "server protocol version is not supported"
       else Value r
   end, sent, w).
