(* ===== verification/ServiceSpec.v ===== *)
(** * Requests and responses cross the wire (src/service.cpp)

    Every payload codec satisfies one law, [Wired]: the operations of a sendable
    value are accepted by the writer, and the decoder reads them back as the
    value that is meant to arrive. Lists inherit it from their elements, and the
    round trips of [Request] and [Response] are its instances put together. *)
From S2P Require Import Prelude Status Checked Identity Bytes Digest Capacity Model Codec Sample CodecSpec Topology Eligibility Governance GovernanceSpec Store StoreDir Runtime Transport Service.

(** ** Chains of writes *)

Lemma write_chain_fit w ops :
  Forall op_ok ops -> Zlen (buffer w) + Zlen (encs ops) <= max_bytes w ->
  write_chain w ops = (success, append_buffer w (encs ops)).
Proof.
  revert w. induction ops as [|op ops IH]; intros w Hok Hfit; cbn [write_chain].
  { unfold append_buffer. rewrite app_nil_r. by destruct w. }
  apply Forall_cons in Hok as [Hop Hok]. rewrite encs_cons, Zlen_app in Hfit. pose proof (Zlen_nonneg (encs ops)).
  rewrite write_op_fit by (done || lia). cbn [negb status_ok success]. change (negb (status_ok success)) with false. cbv iota.
  rewrite IH; [|done|].
  - unfold append_buffer. cbn [buffer max_bytes]. by rewrite encs_cons, (assoc_L (++)).
  - unfold append_buffer. cbn [buffer max_bytes]. rewrite Zlen_app. lia.
Qed.

Lemma write_chains_fit w chains :
  Forall (Forall op_ok) chains -> Zlen (buffer w) + Zlen (encs (concat chains)) <= max_bytes w ->
  buffer (write_chains w chains) = buffer w ++ encs (concat chains).
Proof.
  revert w. induction chains as [|ops chains IH]; intros w Hok Hfit; [by rewrite app_nil_r|].
  apply Forall_cons in Hok as [Hops Hok]. cbn [concat] in *. rewrite encs_app, Zlen_app in Hfit.
  pose proof (Zlen_nonneg (encs (concat chains))).
  change (write_chains w (ops :: chains)) with (write_chains (write_chain w ops).2 chains).
  rewrite write_chain_fit by (done || lia). cbn [snd]. rewrite IH; [|done|].
  - unfold append_buffer. cbn [buffer]. by rewrite encs_app, (assoc_L (++)).
  - unfold append_buffer. cbn [buffer max_bytes]. rewrite Zlen_app. lia.
Qed.

(** The bound of a block is never passed, whatever is encoded. *)
Lemma write_chain_bound w ops :
  Zlen (buffer w) <= max_bytes w ->
  Zlen (buffer (write_chain w ops).2) <= max_bytes w /\ max_bytes (write_chain w ops).2 = max_bytes w.
Proof.
  revert w. induction ops as [|op ops IH]; intros w Hw; cbn [write_chain]; [done|].
  pose proof (write_op_bound w op Hw) as Hb. pose proof (write_op_max w op) as Hm.
  destruct (write_op w op) as [s w']. cbn [snd] in *. destruct (negb (status_ok s)); cbn [snd]; [lia|].
  rewrite <- Hm. apply IH. lia.
Qed.

Lemma write_chains_bound w chains :
  Zlen (buffer w) <= max_bytes w -> Zlen (buffer (write_chains w chains)) <= max_bytes w.
Proof.
  revert w. induction chains as [|ops chains IH]; intros w Hw; [done|].
  change (write_chains w (ops :: chains)) with (write_chains (write_chain w ops).2 chains).
  destruct (write_chain_bound w ops Hw) as [Hb Hm]. rewrite <- Hm in *. by apply IH.
Qed.

Lemma encode_response_bound r : Zlen (encode_response r) <= kMaxBlockBytes.
Proof. apply (write_chains_bound (new_writer kMaxBlockBytes)). vm_compute. discriminate. Qed.

(** ** The law of a codec *)

Class Wired {A} (m : Reader A) (ops : A -> list WriteOp) (ok : A -> Prop) (arrives : A -> A) : Prop := {
  wired_ops : forall a, ok a -> Forall op_ok (ops a);
  wired_decodes : forall a, ok a -> decodes kMaxDetailBytes m (encs (ops a)) (arrives a)
}.

Lemma decodes_read_n_map {A} mx (m : Reader A) (encode : A -> list byte) (f : A -> A) l :
  (forall a, a ∈ l -> decodes mx m (encode a) (f a)) ->
  decodes mx (read_n (List.length l) m) (concat (encode <$> l)) (f <$> l).
Proof.
  induction l as [|a l IH]; intros H; cbn [read_n fmap list_fmap concat length]; [apply decodes_ret|].
  eapply decodes_bind; [apply H; left|].
  eapply decodes_to_nil; [apply IH; intros b Hb; apply H; by right|]. apply decodes_ret.
Qed.

(** The elements of a list, after its count has been read. *)
Lemma decodes_elems {A} (m : Reader A) ops ok arrives `{!Wired m ops ok arrives} l :
  Forall ok l ->
  decodes kMaxDetailBytes (read_n (Z.to_nat (Zlen l)) m) (encs (concat (ops <$> l))) (arrives <$> l).
Proof.
  intros Hl. rewrite encs_concat. unfold Zlen. rewrite Nat2Z.id.
  apply decodes_read_n_map. intros a Ha. apply wired_decodes. by eapply Forall_forall.
Qed.

Lemma wired_all_ops {A} (m : Reader A) ops ok arrives `{!Wired m ops ok arrives} l :
  Forall ok l -> Forall op_ok (concat (ops <$> l)).
Proof.
  intros Hl. induction Hl as [|a l Ha Hl IH]; [by apply Forall_nil|]. cbn [fmap list_fmap concat].
  apply Forall_app. split; [by eapply wired_ops|done].
Qed.

Lemma concat_singletons {A B} (f : A -> B) l : concat ((fun x => [f x]) <$> l) = f <$> l.
Proof. induction l as [|x l IH]; [done|]. cbn. by rewrite <- IH. Qed.

(** ** Texts and plain fields *)

Definition text_ok (limit : Z) (t : string) : Prop := is_valid_utf8 (clamp_to limit t) = true.

Lemma clamp_to_length limit t : 0 <= limit -> strlen (clamp_to limit t) <= limit.
Proof.
  intros H. unfold clamp_to. destruct (Z.leb_spec (strlen t) limit); [done|].
  unfold strlen. rewrite bytes_of_text_of. unfold Zlen. rewrite length_take. lia.
Qed.

Lemma clamp_to_small limit t : strlen t <= limit -> clamp_to limit t = t.
Proof. intros H. unfold clamp_to. destruct (Z.leb_spec (strlen t) limit); [done|lia]. Qed.

Lemma decodes_clamped limit t :
  0 <= limit <= kMaxDetailBytes -> text_ok limit t ->
  decodes kMaxDetailBytes read_string (enc (WString (clamp_to limit t))) (clamp_to limit t).
Proof.
  intros Hl Ht. pose proof (clamp_to_length limit t (proj1 Hl)). unfold kMaxDetailBytes in *.
  apply decodes_string; [unfold u32_max; lia|lia|done].
Qed.

Lemma clamped_ok limit t : 0 <= limit <= kMaxDetailBytes -> text_ok limit t -> op_ok (WString (clamp_to limit t)).
Proof.
  intros Hl Ht. pose proof (clamp_to_length limit t (proj1 Hl)). unfold kMaxDetailBytes in *.
  split; [unfold u32_max; lia|done].
Qed.

#[export] Instance wired_text limit :
  0 <= limit <= kMaxDetailBytes -> Wired read_string (fun t => [WString (clamp_to limit t)]) (text_ok limit) (clamp_to limit).
Proof.
  intros Hl. split; intros t Ht.
  - apply Forall_cons. split; [by apply clamped_ok|by apply Forall_nil].
  - rewrite encs_cons. change (encs []) with (@nil byte). rewrite app_nil_r. by apply decodes_clamped.
Qed.

#[export] Instance wired_u32 : Wired read_u32 (fun v => [WU32 v]) u32_ok (fun v => v).
Proof.
  split; intros v Hv; [by apply Forall_cons|]. rewrite encs_cons. change (encs []) with (@nil byte).
  rewrite app_nil_r. by apply decodes_u32.
Qed.

#[export] Instance wired_u64 : Wired read_u64 (fun v => [WU64 v]) u64_ok (fun v => v).
Proof.
  split; intros v Hv; [by apply Forall_cons|]. rewrite encs_cons. change (encs []) with (@nil byte).
  rewrite app_nil_r. by apply decodes_u64.
Qed.

Lemma decodes_u32_elems l :
  Forall u32_ok l -> decodes kMaxDetailBytes (read_n (Z.to_nat (Zlen l)) read_u32) (encs (WU32 <$> l)) l.
Proof.
  intros H. rewrite <- concat_singletons. pose proof (decodes_elems read_u32 _ u32_ok (fun v => v) l H) as D.
  by rewrite list_fmap_id in D.
Qed.

Lemma decodes_u64_elems l :
  Forall u64_ok l -> decodes kMaxDetailBytes (read_n (Z.to_nat (Zlen l)) read_u64) (encs (WU64 <$> l)) l.
Proof.
  intros H. rewrite <- concat_singletons. pose proof (decodes_elems read_u64 _ u64_ok (fun v => v) l H) as D.
  by rewrite list_fmap_id in D.
Qed.

Lemma decodes_texts limit l :
  0 <= limit <= kMaxDetailBytes -> Forall (text_ok limit) l ->
  decodes kMaxDetailBytes (read_n (Z.to_nat (Zlen l)) read_string) (encs ((fun t => WString (clamp_to limit t)) <$> l))
    (clamp_to limit <$> l).
Proof.
  intros Hl H. pose proof (wired_text limit Hl). rewrite <- (concat_singletons (fun t => WString (clamp_to limit t))).
  exact (decodes_elems read_string _ (text_ok limit) (clamp_to limit) l H).
Qed.

Definition code_fits (c : StatusCode) : Prop :=
  u16_ok (StatusCode_to_u16 c) /\ StatusCode_of_u16 (StatusCode_to_u16 c) = c.

Lemma decodes_code mx c : code_fits c -> decodes mx read_code (enc (code_op c)) c.
Proof.
  intros [Hc Hc']. unfold read_code. eapply decodes_to_nil; [by apply decodes_u16|]. rewrite Hc'. apply decodes_ret.
Qed.

Lemma decodes_flag mx b : decodes mx read_flag (enc (flag_op b)) b.
Proof.
  unfold read_flag. eapply decodes_to_nil; [apply decodes_u8, bool_u8_ok|]. unfold flag_of.
  rewrite bool_u8_back. apply decodes_ret.
Qed.

Lemma decodes_digest mx d : digest_ok d -> decodes mx decode_digest (enc (digest_op d)) d.
Proof.
  intros Hd. unfold decode_digest. eapply decodes_to_nil; [by apply decodes_fields, decodes_bytes|].
  destruct d. apply decodes_ret.
Qed.

Definition incarnation_fits (i : ControllerIncarnation) : Prop := u64_ok (hi i) /\ u64_ok (lo i).

(** Two operations of a run, read as one incarnation. *)
Lemma decodes_incarnation mx i :
  incarnation_fits i -> decodes mx read_incarnation (enc (WU64 (hi i)) ++ enc (WU64 (lo i))) i.
Proof.
  intros [H1 H2]. unfold read_incarnation. destruct i as [h l]. eapply decodes_bind; [by apply decodes_u64|].
  eapply decodes_to_nil; [by apply decodes_u64|]. apply decodes_ret.
Qed.

Lemma decodes_known {A B} mx (o : option A) what (a : A) (k : A -> Reader B) bs b :
  o = Some a -> decodes mx (k a) bs b -> decodes mx (known o what ≫= k) bs b.
Proof. intros -> H. eapply decodes_bind_nil; [apply decodes_lift|done]. Qed.

Lemma decodes_within {B} mx n bound what (k : unit -> Reader B) bs b :
  n <= bound -> decodes mx (k tt) bs b -> decodes mx (within n bound what ≫= k) bs b.
Proof.
  intros Hn H. eapply decodes_bind_nil; [apply decodes_ensure|done]. destruct (Z.gtb_spec n bound); [lia|done].
Qed.

#[export] Hint Resolve decodes_code decodes_flag decodes_digest : slf.

(** Reads the next field, the next two as an incarnation, or the next group. *)
Ltac wire_step :=
  first
    [ rewrite encs_cons; eapply decodes_bind; [solve [eassumption | auto with slf]|]
    | rewrite encs_cons, encs_cons, (assoc_L (++)); eapply decodes_bind; [solve [by apply decodes_incarnation]|]
    | rewrite encs_app; eapply decodes_bind; [solve [eassumption | auto with slf]|] ].
Ltac wire_run := repeat (wire_step; cbv beta iota); first [apply decodes_ret | eapply decodes_to_nil; [solve [eassumption | auto with slf]|]; apply decodes_ret].
Ltac plain_ops :=
  repeat (apply Forall_cons; split; [first [exact I | done | by apply clamped_ok | eassumption]|]); first [by apply Forall_nil | idtac].

#[export] Hint Resolve LeafRole_u8_ok SpineRole_u8_ok NodeState_u8_ok PortAdmin_u8_ok LinkClass_u8_ok
  LinkObservation_u8_ok FabricState_u8_ok EvidencePolicy_u8_ok EvidenceFreshness_u8_ok FabricHealth_u8_ok
  CommandKind_u8_ok ReachabilityClass_u8_ok EligibilityVerdict_u8_ok : slf.

(** ** The parts of a request *)

Definition node_fits (k : NodeKey) : Prop := tier_valid (tier k) /\ u32_ok (index k).

Lemma decodes_node mx k : node_fits k -> decodes mx decode_node (encs (node_ops k)) k.
Proof.
  intros [Ht Hi]. destruct (tier_u8 _ Ht) as (Ht1 & Ht2 & Ht3). unfold decode_node, node_ops. destruct k as [t i].
  simpl in *. eapply decodes_to_nil; [apply decodes_fields; wire_run|]. cbv beta iota.
  eapply decodes_bind_nil; [apply decodes_ensure; by rewrite Ht3|]. rewrite Ht2. apply decodes_ret.
Qed.

Lemma decodes_wire_token mx t : token_fits t -> decodes mx decode_token (encs (token_ops t)) t.
Proof. intros H. by apply decodes_fields, decodes_token. Qed.
#[export] Hint Resolve decodes_node decodes_wire_token : slf.

Definition ratio_fits (r : Rational) : Prop :=
  u64_ok (num r) /\ u64_ok (den r) /\ rational_make (num r) (den r) = Value r.

Record constraints_fit (c : PathConstraints) : Prop := {
  cs_min : u32_ok (pc_min_eligible_spines c);
  cs_capacity : u64_ok (pc_min_total_capacity_mbps c);
  cs_ratio : forall r, pc_max_oversubscription c = Some r -> ratio_fits r;
  cs_sets : 0 <= pc_max_sets c <= 4096;
  cs_explanations : 0 <= pc_max_explanations c <= 1024
}.

#[export] Instance wired_constraints : Wired decode_constraints constraints_ops constraints_fit (fun c => c).
Proof.
  split; intros c []; unfold constraints_ops; [plain_ops|]. unfold decode_constraints.
  assert (u32_ok (pc_max_sets c)) by (unfold fits; lia). assert (u32_ok (pc_max_explanations c)) by (unfold fits; lia).
  assert (u64_ok (num (ratio_or_zero (pc_max_oversubscription c))) /\ u64_ok (den (ratio_or_zero (pc_max_oversubscription c))))
    as [? ?].
  { destruct (pc_max_oversubscription c) as [r|]; [by destruct (cs_ratio0 r eq_refl) as (? & ? & ?)|].
    unfold fits. simpl. lia. }
  eapply decodes_to_nil; [apply decodes_fields; wire_run|]. cbv beta iota.
  eapply decodes_bind_nil.
  { apply decodes_ensure. destruct (Z.gtb_spec (pc_max_sets c) 4096), (Z.gtb_spec (pc_max_explanations c) 1024); lia || done. }
  destruct c as [? ? ? [r|] ? ? ? ?]; cbn [pc_max_oversubscription] in *.
  - destruct (cs_ratio0 r eq_refl) as (_ & _ & Hr). change (ratio_or_zero (Some r)) with r. rewrite bool_decide_true by done. rewrite Hr.
    eapply decodes_bind_nil; [eapply decodes_bind_nil; [apply decodes_lift|apply decodes_ret]|]. apply decodes_ret.
  - rewrite bool_decide_false by (by intros [? ?]). eapply decodes_bind_nil; apply decodes_ret.
Qed.

(** ** The parts of a response *)

Definition clamped_capacity (c : CapacitySummary) : CapacitySummary :=
  MkCapacity (uplink_capacity_mbps c) (uplink_count c) (downlink_capacity_mbps c) (downlink_count c)
    (access_capacity_mbps c) (min_uplink_mbps c) (max_uplink_mbps c) (spine_capacity_mbps c) (cap_spine_count c)
    (oversubscription c) (classification c) (cap_code c) (clamp_detail (cap_detail c)).

Record capacity_fits (c : CapacitySummary) : Prop := {
  cp_uplink : u64_ok (uplink_capacity_mbps c) /\ u32_ok (uplink_count c);
  cp_downlink : u64_ok (downlink_capacity_mbps c) /\ u32_ok (downlink_count c);
  cp_access : u64_ok (access_capacity_mbps c);
  cp_range : u64_ok (min_uplink_mbps c) /\ u64_ok (max_uplink_mbps c);
  cp_spine : u64_ok (spine_capacity_mbps c) /\ u32_ok (cap_spine_count c);
  cp_ratio : ratio_fits (oversubscription c);
  cp_code : code_fits (cap_code c);
  cp_detail : text_ok kMaxDetailBytes (cap_detail c)
}.

Lemma detail_bound : 0 <= kMaxDetailBytes <= kMaxDetailBytes.
Proof. vm_compute. by split. Qed.
Lemma name_bound : 0 <= kMaxNameBytes <= kMaxDetailBytes.
Proof. vm_compute. by split. Qed.
#[export] Hint Resolve detail_bound name_bound decodes_clamped : slf.

Lemma OversubscriptionClass_of_to_u8 c : OversubscriptionClass_of_u8 (OversubscriptionClass_to_u8 c) = Some c.
Proof. by destruct c. Qed.
Lemma OversubscriptionClass_u8_ok c : u8_ok (OversubscriptionClass_to_u8 c).
Proof. destruct c; unfold fits; simpl; lia. Qed.
#[export] Hint Resolve OversubscriptionClass_u8_ok : slf.

#[export] Instance wired_capacity : Wired decode_capacity capacity_ops capacity_fits clamped_capacity.
Proof.
  split; intros c [[] [] ? [] [] (? & ? & Hr) ? ?]; unfold capacity_ops, clamp_detail.
  { plain_ops. }
  unfold decode_capacity. eapply decodes_to_nil; [apply decodes_fields; wire_run|]. cbv beta iota.
  eapply decodes_known; [apply OversubscriptionClass_of_to_u8|]. rewrite Hr.
  eapply decodes_bind_nil; [apply decodes_lift|]. apply decodes_ret.
Qed.

Definition clamped_spine (e : SpineEligibility) : SpineEligibility :=
  MkSE (se_spine e) (se_verdict e) (se_code e) (se_structural_ok e) (se_freshness e) (se_capacity e) (se_domain e)
    (clamp_detail (se_detail e)).

Record spine_entry_fits (e : SpineEligibility) : Prop := {
  se_ok_spine : u32_ok (se_spine e);
  se_ok_code : code_fits (se_code e);
  se_ok_capacity : u64_ok (se_capacity e);
  se_ok_domain : u32_ok (se_domain e);
  se_ok_detail : text_ok kMaxDetailBytes (se_detail e)
}.

#[export] Instance wired_spine_entry : Wired decode_spine_eligibility spine_eligibility_ops spine_entry_fits clamped_spine.
Proof.
  split; intros e []; unfold spine_eligibility_ops, clamp_detail; [plain_ops|].
  unfold decode_spine_eligibility. eapply decodes_to_nil; [apply decodes_fields; wire_run|]. cbv beta iota.
  eapply decodes_known; [apply EligibilityVerdict_of_to_u8|].
  eapply decodes_known; [apply EvidenceFreshness_of_to_u8|]. apply decodes_ret.
Qed.

Definition wire_list (l : list Z) : Prop := Zlen l <= kMaxWireSpines /\ Forall u32_ok l.

Record spine_set_fits (s : EligibleSpineSet) : Prop := {
  ws_total : u64_ok (set_total s);
  ws_distinct : 0 <= set_distinct_domains s <= kMaxWireSpines;
  ws_spines : wire_list (set_spines s);
  ws_domains : wire_list (set_domains s)
}.

Lemma count_fits {A} (l : list A) n : Zlen l <= n -> n <= u32_max -> u32_ok (Zlen l).
Proof. intros. apply Zlen_u32. lia. Qed.

Lemma decodes_count {A} mx (l : list A) : u32_ok (Zlen l) -> decodes mx read_u32 (enc (count_op l)) (Zlen l).
Proof. apply decodes_u32. Qed.
#[export] Hint Resolve decodes_count : slf.

Lemma u32s_ops l : Forall op_ok (WU32 <$> l).
Proof. apply Forall_fmap, Forall_forall. done. Qed.

#[export] Instance wired_spine_set : Wired decode_spine_set spine_set_ops spine_set_fits (fun s => s).
Proof.
  split; intros s [Ht Hd [Hs Hs'] [Hdm Hdm']]; unfold spine_set_ops.
  { repeat (apply Forall_app; split); plain_ops; apply u32s_ops. }
  assert (u32_ok (Zlen (set_spines s))) by (eapply count_fits; [exact Hs|vm_compute; discriminate]).
  assert (u32_ok (Zlen (set_domains s))) by (eapply count_fits; [exact Hdm|vm_compute; discriminate]).
  assert (u32_ok (set_distinct_domains s)) by (unfold fits, kMaxWireSpines in *; lia).
  unfold decode_spine_set. rewrite encs_app. eapply decodes_bind; [apply decodes_fields; wire_run|]. cbv beta iota.
  eapply decodes_bind_nil.
  { apply decodes_ensure. destruct (Z.gtb_spec (Zlen (set_spines s)) kMaxWireSpines),
      (Z.gtb_spec (set_distinct_domains s) kMaxWireSpines); lia || done. }
  rewrite encs_app. eapply decodes_bind; [by apply decodes_fields, decodes_u32_elems|].
  rewrite encs_app, encs_cons. change (encs []) with (@nil byte). rewrite app_nil_r.
  eapply decodes_bind; [apply decodes_fields; auto with slf|]. eapply decodes_within; [done|].
  eapply decodes_to_nil; [by apply decodes_fields, decodes_u32_elems|]. destruct s. apply decodes_ret.
Qed.

Definition sets_fit (s : EligibleSpineSets) : Prop :=
  Zlen (sets s) <= kMaxWireSets /\ Forall spine_set_fits (sets s) /\ u64_ok (candidate_combinations s).

Definition sets_ops (s : EligibleSpineSets) : list WriteOp :=
  [flag_op (sets_truncated s); WU64 (candidate_combinations s); count_op (sets s)]
  ++ concat (spine_set_ops <$> sets s).

#[export] Instance wired_sets : Wired decode_sets sets_ops sets_fit (fun s => s).
Proof.
  split; intros s (Hn & Hs & Hc); unfold sets_ops.
  { apply Forall_app. split; [plain_ops|by eapply wired_all_ops; [exact wired_spine_set|]]. }
  assert (u32_ok (Zlen (sets s))) by (eapply count_fits; [exact Hn|vm_compute; discriminate]).
  unfold decode_sets. rewrite encs_app. eapply decodes_bind; [apply decodes_fields; wire_run|]. cbv beta iota.
  eapply decodes_within; [done|].
  eapply decodes_to_nil; [by eapply (decodes_elems decode_spine_set); [exact wired_spine_set|]|].
  rewrite list_fmap_id. destruct s. apply decodes_ret.
Qed.

Record assessment_fits (a : PathAssessment) : Prop := {
  as_from : node_fits (pa_from a);
  as_to : node_fits (pa_to a);
  as_code : code_fits (pa_code a);
  as_generation : u64_ok (pa_generation a);
  as_epoch : u64_ok (pa_epoch a);
  as_controller : incarnation_fits (pa_controller a);
  as_digest : digest_ok (pa_topology_digest a);
  as_examined : u64_ok (pa_links_examined a);
  as_tolerance : u32_ok (pa_domain_loss_tolerance a);
  as_spines : wire_list (pa_eligible_spines a);
  as_domains : wire_list (pa_covered_domains a);
  as_sets : sets_fit (pa_spine_sets a);
  as_capacity : capacity_fits (pa_capacity a);
  as_explanation : Zlen (pa_explanation a) <= kMaxWireExplanations /\ Forall (text_ok kMaxDetailBytes) (pa_explanation a)
}.

Definition clamped_assessment (a : PathAssessment) : PathAssessment :=
  MkAssessment (pa_from a) (pa_to a) (pa_cls a) (pa_verdict a) (pa_code a) (pa_generation a) (pa_epoch a)
    (pa_controller a) (pa_topology_digest a) (pa_eligible_spines a) (pa_covered_domains a) (pa_domain_loss_tolerance a)
    (pa_spine_sets a) (clamped_capacity (pa_capacity a)) (clamp_detail <$> pa_explanation a) (pa_links_examined a)
    (pa_evidence_required a).

Definition assessment_front (a : PathAssessment) : list WriteOp :=
  node_ops (pa_from a) ++ node_ops (pa_to a)
  ++ [WU8 (ReachabilityClass_to_u8 (pa_cls a)); WU8 (EligibilityVerdict_to_u8 (pa_verdict a)); code_op (pa_code a);
      WU64 (pa_generation a); WU64 (pa_epoch a); WU64 (hi (pa_controller a)); WU64 (lo (pa_controller a));
      digest_op (pa_topology_digest a); flag_op (pa_evidence_required a); WU64 (pa_links_examined a);
      WU32 (pa_domain_loss_tolerance a); count_op (pa_eligible_spines a)].

(** The operations of an assessment, grouped as they are read. *)
Lemma assessment_ops_split a :
  assessment_ops a
  = assessment_front a ++ (WU32 <$> pa_eligible_spines a) ++ [count_op (pa_covered_domains a)]
    ++ (WU32 <$> pa_covered_domains a) ++ sets_ops (pa_spine_sets a) ++ capacity_ops (pa_capacity a)
    ++ [count_op (pa_explanation a)] ++ ((fun t => WString (clamp_to kMaxDetailBytes t)) <$> pa_explanation a).
Proof. unfold assessment_ops, assessment_front, sets_ops. by rewrite <- !(assoc_L (++)). Qed.

Lemma decodes_single_count {A B} mx (l : list A) c what (k : Z -> Reader B) ops b :
  u32_ok (Zlen l) -> decodes mx (k (Zlen l)) (encs ops) b ->
  decodes mx (fields c what read_u32 ≫= k) (encs ([count_op l] ++ ops)) b.
Proof.
  intros Hl H. cbn [app]. rewrite encs_cons. eapply decodes_bind; [|exact H]. by apply decodes_fields, decodes_u32.
Qed.

Lemma texts_ops limit l :
  0 <= limit <= kMaxDetailBytes -> Forall (text_ok limit) l -> Forall op_ok ((fun t => WString (clamp_to limit t)) <$> l).
Proof. intros Hl H. apply Forall_fmap. eapply Forall_impl; [exact H|]. intros t Ht. by apply clamped_ok. Qed.

#[export] Instance wired_assessment : Wired decode_assessment assessment_ops assessment_fits clamped_assessment.
Proof.
  split; intros a [? ? ? ? ? ? ? ? ? [Hs Hs'] [Hd Hd'] Hsets Hcap [He He']]; rewrite assessment_ops_split.
  { unfold assessment_front, node_ops. rewrite !Forall_app. split_and!; try (by plain_ops); try apply u32s_ops.
    - by apply (wired_ops (Wired := wired_sets)).
    - by apply (wired_ops (Wired := wired_capacity)).
    - by apply texts_ops; [auto with slf|]. }
  assert (u32_ok (Zlen (pa_eligible_spines a))) by (eapply count_fits; [exact Hs|vm_compute; discriminate]).
  assert (u32_ok (Zlen (pa_covered_domains a))) by (eapply count_fits; [exact Hd|vm_compute; discriminate]).
  assert (u32_ok (Zlen (pa_explanation a))) by (eapply count_fits; [exact He|vm_compute; discriminate]).
  unfold decode_assessment. rewrite encs_app.
  eapply decodes_bind; [apply decodes_fields; unfold assessment_front; wire_run|]. cbv beta iota.
  eapply decodes_known; [apply ReachabilityClass_of_to_u8|]. eapply decodes_known; [apply EligibilityVerdict_of_to_u8|].
  eapply decodes_within; [done|]. rewrite encs_app. eapply decodes_bind; [by apply decodes_fields, decodes_u32_elems|].
  apply decodes_single_count; [done|]. eapply decodes_within; [done|].
  rewrite encs_app. eapply decodes_bind; [by apply decodes_fields, decodes_u32_elems|].
  rewrite encs_app. eapply decodes_bind; [by apply (wired_decodes (Wired := wired_sets))|].
  rewrite encs_app. eapply decodes_bind; [by apply (wired_decodes (Wired := wired_capacity))|].
  apply decodes_single_count; [done|]. eapply decodes_within; [done|].
  eapply decodes_to_nil; [by apply decodes_fields, decodes_texts; [auto with slf|]|]. apply decodes_ret.
Qed.

(** *** Health *)

Definition health_counts (h : FabricHealthReport) : list Z :=
  [hr_leaves_total h; hr_leaves_serving h; hr_leaves_isolated h; hr_leaves_indeterminate h; hr_spines_total h;
   hr_spines_serving h; hr_spines_failed h; hr_spines_draining h; hr_disabled_links h].

Record health_fits (h : FabricHealthReport) : Prop := {
  hf_code : code_fits (hr_code h);
  hf_summary : text_ok kMaxDetailBytes (hr_summary h);
  hf_reasons : Zlen (hr_reasons h) <= kMaxWireReasons /\ Forall (text_ok 512) (hr_reasons h);
  hf_counts : Forall u32_ok (health_counts h);
  hf_generation : u64_ok (hr_generation h);
  hf_epoch : u64_ok (hr_epoch h);
  hf_controller : incarnation_fits (hr_controller h);
  hf_digest : digest_ok (hr_topology_digest h)
}.

Definition clamped_health (h : FabricHealthReport) : FabricHealthReport :=
  MkHealth (hr_health h) (hr_code h) (clamp_detail (hr_summary h)) (clamp_to 512 <$> hr_reasons h) (hr_leaves_total h)
    (hr_leaves_serving h) (hr_leaves_isolated h) (hr_leaves_indeterminate h) (hr_spines_total h) (hr_spines_serving h)
    (hr_spines_failed h) (hr_spines_draining h) (hr_disabled_links h) (hr_generation h) (hr_epoch h) (hr_controller h)
    (hr_topology_digest h).

#[export] Instance wired_health : Wired decode_health health_ops health_fits clamped_health.
Proof.
  assert (0 <= 512 <= kMaxDetailBytes) as H512 by (vm_compute; split; discriminate).
  split; intros h [? ? [Hr Hr'] Hc ? ? ? ?]; unfold health_ops, clamp_detail; fold (health_counts h).
  { rewrite !Forall_app. split_and!; first [by apply texts_ops | apply u32s_ops | by plain_ops]. }
  assert (u32_ok (Zlen (hr_reasons h))) by (eapply count_fits; [exact Hr|vm_compute; discriminate]).
  unfold decode_health. rewrite encs_app. eapply decodes_bind; [apply decodes_fields; wire_run|]. cbv beta iota.
  eapply decodes_known; [apply FabricHealth_of_to_u8|]. eapply decodes_within; [done|].
  rewrite encs_app. eapply decodes_bind; [by apply decodes_fields, decodes_texts|].
  rewrite encs_app. eapply decodes_bind; [apply decodes_fields; by apply (decodes_u32_elems (health_counts h))|].
  eapply decodes_to_nil; [apply decodes_fields; wire_run|]. apply decodes_ret.
Qed.

(** *** Command results *)

Record wire_result_fits (r : CommandResult) : Prop := {
  wr_code : code_fits (res_code r);
  wr_detail : text_ok kMaxDetailBytes (res_detail r);
  wr_request : u64_ok (res_request r);
  wr_generation : u64_ok (res_generation r);
  wr_epoch : u64_ok (res_epoch r);
  wr_digest : digest_ok (res_topology_digest r);
  wr_token : token_fits (res_refreshed_token r)
}.

Definition clamped_result (r : CommandResult) : CommandResult :=
  MkResult (res_code r) (clamp_detail (res_detail r)) (res_request r) (res_generation r) (res_epoch r)
    (res_topology_digest r) (res_deduplicated r) (res_mutated r) (res_refreshed_token r).

Lemma token_ops_ok t : Forall op_ok (token_ops t).
Proof. unfold token_ops. plain_ops. Qed.

#[export] Instance wired_result : Wired decode_wire_result wire_result_ops wire_result_fits clamped_result.
Proof.
  split; intros r []; unfold wire_result_ops, clamp_detail.
  { apply Forall_app. split; [plain_ops|apply token_ops_ok]. }
  apply decodes_fields. cbn [app]. wire_run.
Qed.
