(* ===== verification/ServiceRoundtrip.v ===== *)
(** * Round trips of requests and responses (src/service.cpp)

    The runtime status, then whole requests and responses: what a peer decodes
    is what was encoded, with long texts cut and the fields that are not sent
    at their defaults. *)
From S2P Require Import Prelude Status Checked Identity Bytes Digest Capacity Model Codec Sample CodecSpec Topology Eligibility Governance GovernanceSpec Store StoreDir Runtime Transport Service ServiceSpec.

(** ** The runtime status *)

Definition status_counts (s : RuntimeStatus) : list Z :=
  [st_leaf_count s; st_spine_count s; st_port_count s; st_link_count s; st_history_count s; st_evidence_count s].
Definition status_counters (s : RuntimeStatus) : list Z :=
  [n_applied (st_counters s); n_refused (st_counters s); n_fenced (st_counters s); n_duplicated (st_counters s);
   n_queries (st_counters s)].

Definition plain_text (t : string) : Prop := is_valid_utf8 t = true /\ strlen t <= kMaxDetailBytes.

Record status_fits (s : RuntimeStatus) : Prop := {
  sf_fabric : u64_ok (st_fabric_id s);
  sf_name : plain_text (st_name s);
  sf_site : plain_text (st_site s);
  sf_controller : incarnation_fits (st_controller s);
  sf_epoch : u64_ok (st_epoch s);
  sf_generation : u64_ok (st_generation s);
  sf_topology : digest_ok (st_topology_digest s);
  sf_evidence : digest_ok (st_evidence_digest s);
  sf_counts : Forall u32_ok (status_counts s);
  sf_counters : Forall u64_ok (status_counters s);
  sf_workers : u32_ok (st_worker_threads s);
  sf_lease : u64_ok (st_active_lease s) /\ u64_ok (st_lease_expires s);
  sf_uptime : u64_ok (st_uptime s);
  sf_code : code_fits (rr_code (st_recovery s));
  sf_detail : text_ok kMaxDetailBytes (rr_detail (st_recovery s));
  sf_records : u64_ok (rr_records_valid (st_recovery s)) /\ u64_ok (rr_bytes_dropped (st_recovery s))
}.

(** The recovery report that arrives: the fields that are sent, and defaults. *)
Definition wired_recovery (r : RecoveryReport) : RecoveryReport :=
  wire_recovery (rr_status r) (rr_code r) (clamp_detail (rr_detail r)) (rr_records_valid r) (rr_bytes_dropped r)
    (rr_snapshot_used r) (rr_dynamic_evidence r) (rr_reobservation r).

Definition clamped_status (s : RuntimeStatus) : RuntimeStatus :=
  MkRuntimeStatus (st_started s) (st_fabric_id s) (st_name s) (st_site s) (st_fabric_state s) (st_controller s)
    (st_epoch s) (st_generation s) (st_topology_digest s) (st_evidence_digest s) (st_health s) (st_leaf_count s)
    (st_spine_count s) (st_port_count s) (st_link_count s) (st_history_count s) (st_evidence_count s) (st_counters s)
    (st_worker_threads s) (st_persistence s) (wired_recovery (st_recovery s)) (st_active_lease s) (st_lease_expires s)
    (st_uptime s) (st_fault_point s).

Lemma FaultPoint_of_to_u8 p : FaultPoint_of_u8 (FaultPoint_to_u8 p) = Some p.
Proof. by destruct p. Qed.
Lemma FaultPoint_u8_ok p : u8_ok (FaultPoint_to_u8 p).
Proof. destruct p; unfold fits; simpl; lia. Qed.
Lemma RecoveryStatus_of_to_u16 s : RecoveryStatus_of_u16 (RecoveryStatus_to_u8 s) = Some s.
Proof. by destruct s. Qed.
Lemma RecoveryStatus_u16_ok s : u16_ok (RecoveryStatus_to_u8 s).
Proof. destruct s; unfold fits; simpl; lia. Qed.
#[export] Hint Resolve FaultPoint_u8_ok RecoveryStatus_u16_ok : slf.

Lemma decodes_plain t : plain_text t -> decodes kMaxDetailBytes read_string (enc (WString t)) t.
Proof. intros [Hu Hl]. apply decodes_string; [unfold kMaxDetailBytes, u32_max in *; lia|done|done]. Qed.
Lemma plain_op t : plain_text t -> op_ok (WString t).
Proof. intros [Hu Hl]. split; [unfold kMaxDetailBytes, u32_max in *; lia|done]. Qed.
#[export] Hint Resolve decodes_plain : slf.

Definition status_tail (s : RuntimeStatus) : list WriteOp :=
  [WU32 (st_worker_threads s); flag_op (st_persistence s); WU64 (st_active_lease s); WU64 (st_lease_expires s);
   WU64 (st_uptime s); WU8 (FaultPoint_to_u8 (st_fault_point s));
   WU16 (RecoveryStatus_to_u8 (rr_status (st_recovery s))); code_op (rr_code (st_recovery s));
   WString (clamp_to kMaxDetailBytes (rr_detail (st_recovery s))); WU64 (rr_records_valid (st_recovery s));
   WU64 (rr_bytes_dropped (st_recovery s)); flag_op (rr_snapshot_used (st_recovery s));
   flag_op (rr_dynamic_evidence (st_recovery s)); flag_op (rr_reobservation (st_recovery s))].

Lemma decodes_status_tail s :
  status_fits s ->
  decodes kMaxDetailBytes decode_recovery_tail (encs (status_tail s))
    (st_worker_threads s, st_persistence s, st_active_lease s, st_lease_expires s, st_uptime s, st_fault_point s,
     wired_recovery (st_recovery s)).
Proof.
  intros []. destruct sf_lease0, sf_records0. unfold decode_recovery_tail, status_tail.
  eapply decodes_to_nil; [apply decodes_fields; wire_run|]. cbv beta iota.
  eapply decodes_known; [apply FaultPoint_of_to_u8|]. eapply decodes_known; [apply RecoveryStatus_of_to_u16|].
  apply decodes_ret.
Qed.

#[export] Instance wired_status : Wired decode_status status_ops status_fits clamped_status.
Proof.
  split; intros s Hs; pose proof Hs as []; unfold status_ops; fold (status_counts s) (status_counters s) (status_tail s).
  { rewrite !Forall_app. split_and!.
    - repeat (apply Forall_cons; split; [first [exact I | by apply plain_op]|]). by apply Forall_nil.
    - apply u32s_ops.
    - apply Forall_fmap, Forall_forall. done.
    - unfold status_tail. plain_ops. }
  unfold decode_status. rewrite encs_app. eapply decodes_bind; [apply decodes_fields; wire_run|]. cbv beta iota.
  eapply decodes_known; [apply FabricState_of_to_u8|]. eapply decodes_known; [apply FabricHealth_of_to_u8|].
  rewrite encs_app. eapply decodes_bind; [apply decodes_fields; by apply (decodes_u32_elems (status_counts s))|].
  rewrite encs_app. eapply decodes_bind; [apply decodes_fields; by apply (decodes_u64_elems (status_counters s))|].
  eapply decodes_to_nil; [by apply decodes_status_tail|]. cbv beta iota.
  assert (MkCounters (place 0 (status_counters s)) (place 1 (status_counters s)) (place 2 (status_counters s))
            (place 3 (status_counters s)) (place 4 (status_counters s)) = st_counters s) as -> by (unfold status_counters; by destruct (st_counters s)).
  apply decodes_ret.
Qed.

(** ** Requests *)

Record request_fits (limits : TransportLimits) (q : Request) : Prop := {
  rqf_id : u64_ok (rq_id q);
  rqf_version : u16_ok (rq_version q);
  rqf_client : text_ok kMaxNameBytes (rq_client q);
  rqf_from : node_fits (rq_from q);
  rqf_to : node_fits (rq_to q);
  rqf_constraints : constraints_fit (rq_constraints q);
  rqf_command : command_fits (rq_command q);
  rqf_authority : authority_fits (rq_authority q);
  rqf_token : token_fits (rq_token q);
  rqf_ttl : u64_ok (rq_ttl q);
  rqf_blocks : 20000 <= max_frame_payload limits
}.

Definition clamped_request (q : Request) : Request :=
  MkRequest (rq_id q) (rq_kind q) (rq_version q) (clamp_to kMaxNameBytes (rq_client q)) (rq_from q) (rq_to q)
    (rq_constraints q) (rq_command q) (rq_authority q) (rq_token q) (rq_ttl q).

Lemma RequestKind_of_to_u16 k : RequestKind_of_u16 (RequestKind_to_u16 k) = Some k.
Proof. by destruct k. Qed.
Lemma RequestKind_u16_ok k : u16_ok (RequestKind_to_u16 k).
Proof. destruct k; unfold fits; simpl; lia. Qed.
#[export] Hint Resolve RequestKind_u16_ok : slf.

Lemma command_length c : command_fits c -> Zlen (serialize_command c) <= 1000.
Proof.
  intros Hf. unfold serialize_command. pose proof (tf_digest _ (cf_token _ Hf)) as Hd. unfold digest_ok in Hd.
  assert (Zlen (encs (command_ops c)) <= 1000) as H.
  { rewrite command_ops_split. unfold token_ops, target_ops, new_link_ops, evidence_ops, options_ops.
    rewrite !Zlen_app, !encs_cons. cbn [enc]. rewrite !Zlen_app, !Zlen_le_store, Hd. vm_compute. discriminate. }
  rewrite writes_buffer; [done| |unfold kCommandBytes; lia].
  unfold command_ops, token_ops, new_link_ops, evidence_ops, options_ops.
  repeat (apply Forall_cons; split; [done|]). by apply Forall_nil.
Qed.

Lemma authority_length a : authority_fits a -> Zlen (serialize_path_authority a) <= 17000.
Proof.
  intros Hf. rewrite path_authority_bytes by done. pose proof Hf as [_ _ _ _ Hd _ _ _ [Hs _] _ _ He]. unfold digest_ok in *.
  unfold path_authority_ops. rewrite !encs_app, !Zlen_app, Zlen_u32s, !encs_cons. cbn [enc].
  rewrite !Zlen_app, !Zlen_le_store, Hd, He. change (Zlen (bytes_of kPathAuthorityDomain)) with 21.
  change (Zlen (encs [])) with 0. unfold kMaxAuthoritySpines in *. lia.
Qed.

Lemma decodes_request_fields limits q :
  request_fits limits q ->
  decodes kMaxDetailBytes (read_request_fields limits) (encs (concat (request_chains q)))
    (kRequestDomain, rq_id q, RequestKind_to_u16 (rq_kind q), rq_version q, clamp_to kMaxNameBytes (rq_client q),
     rq_from q, rq_to q, rq_constraints q, serialize_command (rq_command q), serialize_path_authority (rq_authority q),
     rq_token q, rq_ttl q).
Proof.
  intros [? ? ? ? ? Hcs Hcm Ha ? ? Hb]. pose proof (command_length _ Hcm). pose proof (authority_length _ Ha).
  assert (decodes kMaxDetailBytes read_string (enc (WString kRequestDomain)) kRequestDomain)
    by (apply decodes_plain; split; vm_compute; done).
  assert (decodes kMaxDetailBytes (read_block (max_frame_payload limits)) (enc (WBlock (serialize_command (rq_command q))))
            (serialize_command (rq_command q))) by (apply decodes_block; unfold u32_max; lia).
  assert (decodes kMaxDetailBytes (read_block (max_frame_payload limits)) (enc (WBlock (serialize_path_authority (rq_authority q))))
            (serialize_path_authority (rq_authority q))) by (apply decodes_block; unfold u32_max; lia).
  pose proof (wired_decodes (Wired := wired_constraints) _ Hcs) as Hc.
  unfold read_request_fields, request_chains. cbn [concat app]. wire_run.
Qed.

Lemma request_ops_ok limits q : request_fits limits q -> Forall (Forall op_ok) (request_chains q).
Proof.
  intros [? ? ? ? ? Hcs Hcm Ha ? ? Hb]. pose proof (command_length _ Hcm). pose proof (authority_length _ Ha).
  unfold request_chains, node_ops. repeat (apply Forall_cons; split); try by apply Forall_nil.
  all: try (by apply token_ops_ok); try (by apply (wired_ops (Wired := wired_constraints))); try exact I.
  - split; vm_compute; done.
  - by apply clamped_ok; [auto with slf|].
  - cbn [op_ok]. unfold u32_max. lia.
  - cbn [op_ok]. unfold u32_max. lia.
Qed.

Lemma request_length limits q : request_fits limits q -> Zlen (encs (concat (request_chains q))) <= 19000.
Proof.
  intros [? ? ? ? ? Hcs Hcm Ha Ht ? Hb]. pose proof (command_length _ Hcm). pose proof (authority_length _ Ha).
  pose proof (tf_digest _ Ht) as Hd. unfold digest_ok in Hd.
  pose proof (clamp_to_length kMaxNameBytes (rq_client q) ltac:(vm_compute; discriminate)) as Hn.
  unfold request_chains, node_ops, constraints_ops, token_ops, flag_op. cbn [concat app]. rewrite !encs_cons. cbn [enc].
  rewrite !Zlen_app, !Zlen_le_store, Hd. change (Zlen (bytes_of kRequestDomain)) with 14. change (Zlen (encs [])) with 0.
  change (Zlen (bytes_of (clamp_to kMaxNameBytes (rq_client q)))) with (strlen (clamp_to kMaxNameBytes (rq_client q))).
  unfold kMaxNameBytes in *. lia.
Qed.

Lemma encode_request_bytes limits q : request_fits limits q -> encode_request q = encs (concat (request_chains q)).
Proof.
  intros H. unfold encode_request. rewrite write_chains_fit; [done|by eapply request_ops_ok|].
  pose proof (request_length _ _ H). change (Zlen (buffer (new_writer kMaxBlockBytes))) with 0.
  change (max_bytes (new_writer kMaxBlockBytes)) with (4 * 1024 * 1024). lia.
Qed.

(** The fields of an encoded request, and a reader at its end. *)
Lemma request_fields_back limits q :
  request_fits limits q ->
  fields SC_Truncated "request payload is incomplete" (read_request_fields limits)
    (new_reader (encode_request q) kMaxDetailBytes)
  = (Value (kRequestDomain, rq_id q, RequestKind_to_u16 (rq_kind q), rq_version q, clamp_to kMaxNameBytes (rq_client q),
       rq_from q, rq_to q, rq_constraints q, serialize_command (rq_command q), serialize_path_authority (rq_authority q),
       rq_token q, rq_ttl q), MkReader [] (Zlen (encode_request q)) kMaxDetailBytes).
Proof.
  intros H. rewrite (encode_request_bytes limits) by done.
  exact (decodes_run _ _ _ _ (decodes_fields _ _ _ _ _ _ (decodes_request_fields limits q H))).
Qed.

Lemma request_back limits q :
  request_fits limits q -> decode_request (encode_request q) limits = Value (clamped_request q).
Proof.
  intros H. pose proof (rqf_command _ _ H) as Hc. pose proof (rqf_authority _ _ H) as Ha.
  unfold decode_request. rewrite request_fields_back by done. clear H.
  rewrite bool_decide_true by done. cbn [negb]. rewrite RequestKind_of_to_u16. cbn [opt_or mbind Outcome_bind].
  unfold check, expect_end, exhausted, remaining. cbn [br_rest]. rewrite Zlen_nil. cbn [Z.eqb negb].
  rewrite deserialize_serialize_command by done. cbn [mbind Outcome_bind]. by rewrite path_authority_back.
Qed.

(** ** Responses *)

Record response_fits (limits : TransportLimits) (r : Response) : Prop := {
  rsf_id : u64_ok (rs_id r);
  rsf_code : code_fits (rs_code r);
  rsf_detail : text_ok kMaxDetailBytes (rs_detail r);
  rsf_version : u16_ok (rs_version r);
  rsf_controller : incarnation_fits (rs_controller r);
  rsf_epoch : u64_ok (rs_epoch r);
  rsf_generation : u64_ok (rs_generation r);
  rsf_digest : digest_ok (rs_topology_digest r);
  rsf_max : u32_ok (rs_max_payload r);
  rsf_server : text_ok kMaxNameBytes (rs_server_name r);
  rsf_uptime : u64_ok (rs_uptime r);
  rsf_status : status_fits (rs_status r);
  rsf_assessment : assessment_fits (rs_assessment r);
  rsf_spines : Zlen (rs_spines r) <= kMaxWireSpines /\ Forall spine_entry_fits (rs_spines r);
  rsf_health : health_fits (rs_health r);
  rsf_result : wire_result_fits (rs_result r);
  rsf_authority : authority_fits (rs_authority r);
  rsf_check : code_fits (code (rs_check r)) /\ text_ok kMaxDetailBytes (detail (rs_check r));
  rsf_lease : token_fits (rs_lease_token r);
  rsf_requester : text_ok kMaxNameBytes (rs_lease_requester r);
  rsf_blocks : 20000 <= max_frame_payload limits;
  rsf_size : Zlen (encs (concat (response_chains r))) <= kMaxBlockBytes
}.

Definition clamped_response (r : Response) : Response :=
  MkResponse (rs_id r) (rs_code r) (clamp_detail (rs_detail r)) (rs_version r) (rs_controller r) (rs_epoch r)
    (rs_generation r) (rs_topology_digest r) (rs_max_payload r) (clamp_to kMaxNameBytes (rs_server_name r)) (rs_uptime r)
    (clamped_status (rs_status r)) (clamped_assessment (rs_assessment r)) (clamped_spine <$> rs_spines r)
    (clamped_health (rs_health r)) (clamped_result (rs_result r)) (rs_authority r)
    (MkStatus (code (rs_check r)) (clamp_detail (detail (rs_check r)))) (rs_lease_token r)
    (clamp_to kMaxNameBytes (rs_lease_requester r)).

Definition response_head_ops (r : Response) : list WriteOp :=
  [WString kResponseDomain; WU64 (rs_id r); code_op (rs_code r); WString (clamp_to kMaxDetailBytes (rs_detail r));
   WU16 (rs_version r); WU64 (hi (rs_controller r)); WU64 (lo (rs_controller r)); WU64 (rs_epoch r);
   WU64 (rs_generation r); digest_op (rs_topology_digest r); WU32 (rs_max_payload r);
   WString (clamp_to kMaxNameBytes (rs_server_name r)); WU64 (rs_uptime r)].

Definition response_tail_ops (r : Response) : list WriteOp :=
  [code_op (code (rs_check r)); WString (clamp_to kMaxDetailBytes (detail (rs_check r)))] ++ token_ops (rs_lease_token r)
  ++ [WString (clamp_to kMaxNameBytes (rs_lease_requester r))].

(** The operations of a response, grouped as they are read. *)
Lemma response_ops_split r :
  concat (response_chains r)
  = response_head_ops r ++ status_ops (rs_status r) ++ assessment_ops (rs_assessment r) ++ [count_op (rs_spines r)]
    ++ concat (spine_eligibility_ops <$> rs_spines r) ++ health_ops (rs_health r) ++ wire_result_ops (rs_result r)
    ++ [WBlock (serialize_path_authority (rs_authority r))] ++ response_tail_ops r.
Proof.
  unfold response_chains, response_head_ops, response_tail_ops. cbn [concat app]. do 13 f_equal.
  rewrite concat_app. cbn [concat app]. done.
Qed.

Lemma decodes_response_head limits r :
  response_fits limits r ->
  decodes kMaxDetailBytes read_response_head (encs (response_head_ops r))
    (rs_id r, rs_code r, clamp_to kMaxDetailBytes (rs_detail r), rs_version r, rs_controller r, rs_epoch r,
     rs_generation r, rs_topology_digest r, rs_max_payload r, clamp_to kMaxNameBytes (rs_server_name r), rs_uptime r).
Proof.
  intros []. assert (decodes kMaxDetailBytes read_string (enc (WString kResponseDomain)) kResponseDomain)
    by (apply decodes_plain; split; vm_compute; done).
  unfold read_response_head, response_head_ops. eapply decodes_to_nil; [apply decodes_fields; wire_run|]. cbv beta iota.
  eapply decodes_bind_nil; [by apply decodes_ensure, bool_decide_true|]. apply decodes_ret.
Qed.

Lemma decodes_authority_block {B} limits a (k : list byte -> Reader B) ops b :
  authority_fits a -> 20000 <= max_frame_payload limits ->
  decodes kMaxDetailBytes (k (serialize_path_authority a)) (encs ops) b ->
  decodes kMaxDetailBytes (read_block (max_frame_payload limits) ≫= k)
    (encs ([WBlock (serialize_path_authority a)] ++ ops)) b.
Proof.
  intros Ha Hb H. pose proof (authority_length _ Ha). cbn [app]. rewrite encs_cons. eapply decodes_bind; [|exact H].
  apply decodes_block; unfold u32_max; lia.
Qed.

Lemma decodes_response limits r :
  response_fits limits r ->
  decodes kMaxDetailBytes (read_response limits) (encs (concat (response_chains r))) (clamped_response r).
Proof.
  intros H. pose proof H as [? ? ? ? ? ? ? ? ? ? ? Hst Has [Hn Hsp] Hh Hr Ha [? ?] ? ? Hb _].
  assert (u32_ok (Zlen (rs_spines r))) by (eapply count_fits; [exact Hn|vm_compute; discriminate]).
  rewrite response_ops_split. unfold read_response.
  rewrite encs_app. eapply decodes_bind; [by eapply decodes_response_head|]. cbv beta iota.
  rewrite encs_app. eapply decodes_bind; [by apply (wired_decodes (Wired := wired_status))|].
  rewrite encs_app. eapply decodes_bind; [by apply (wired_decodes (Wired := wired_assessment))|].
  apply decodes_single_count; [done|]. eapply decodes_within; [done|].
  rewrite encs_app. eapply decodes_bind; [by eapply (decodes_elems decode_spine_eligibility); [exact wired_spine_entry|]|].
  rewrite encs_app. eapply decodes_bind; [by apply (wired_decodes (Wired := wired_health))|].
  rewrite encs_app. eapply decodes_bind; [by apply (wired_decodes (Wired := wired_result))|].
  apply decodes_authority_block; [done..|]. rewrite path_authority_back by done.
  eapply decodes_bind_nil; [apply decodes_lift|].
  eapply decodes_to_nil; [apply decodes_fields; unfold response_tail_ops; cbn [app]; wire_run|]. apply decodes_ret.
Qed.

Lemma response_ops_ok limits r : response_fits limits r -> Forall op_ok (concat (response_chains r)).
Proof.
  intros [? ? ? ? ? ? ? ? ? ? ? Hst Has [Hn Hsp] Hh Hr Ha [? ?] ? ? Hb _].
  pose proof (authority_length _ Ha). rewrite response_ops_split. unfold response_head_ops, response_tail_ops.
  rewrite !Forall_app. split_and!.
  - repeat (apply Forall_cons; split; [first [exact I | by apply clamped_ok; auto with slf | by (split; vm_compute)]|]).
    by apply Forall_nil.
  - by apply (wired_ops (Wired := wired_status)).
  - by apply (wired_ops (Wired := wired_assessment)).
  - plain_ops.
  - by eapply wired_all_ops; [exact wired_spine_entry|].
  - by apply (wired_ops (Wired := wired_health)).
  - by apply (wired_ops (Wired := wired_result)).
  - apply Forall_cons. split; [cbn [op_ok]; unfold u32_max; lia|by apply Forall_nil].
  - repeat (apply Forall_cons; split; [first [exact I | by apply clamped_ok; auto with slf]|]). by apply Forall_nil.
  - apply token_ops_ok.
  - apply Forall_cons. split; [by apply clamped_ok; auto with slf|by apply Forall_nil].
Qed.

Lemma Forall_concat_inv {A} (P : A -> Prop) ls : Forall P (concat ls) -> Forall (Forall P) ls.
Proof.
  induction ls as [|l ls IH]; intros H; [by apply Forall_nil|]. apply Forall_app in H as [H1 H2].
  apply Forall_cons. split; [done|by apply IH].
Qed.

Lemma encode_response_bytes limits r : response_fits limits r -> encode_response r = encs (concat (response_chains r)).
Proof.
  intros H. unfold encode_response. rewrite write_chains_fit; [done| |].
  - by eapply Forall_concat_inv, response_ops_ok.
  - exact (rsf_size _ _ H).
Qed.

Lemma response_back limits r :
  response_fits limits r -> decode_response (encode_response r) limits = Value (clamped_response r).
Proof.
  intros H. rewrite (encode_response_bytes limits) by done. unfold decode_response.
  by apply run_to_end_decodes, decodes_response.
Qed.

(** ** Nothing is clamped when the texts are short *)

Lemma clamp_detail_plain t : plain_text t -> clamp_detail t = t.
Proof. intros [_ H]. by apply clamp_to_small. Qed.

(** A request that fits its wire widths reaches the peer as it was sent: decoding
    the encoded payload gives the request back, its client name cut at 256 bytes,
    whatever the kind, the constraints, the command and the authority it carries. *)
Theorem request_crosses_wire limits q :
  request_fits limits q -> decode_request (encode_request q) limits = Value (clamped_request q).
Proof. apply request_back. Qed.

(** C16: A response whose lists and numbers fit the wire reaches the client: decoding
    the encoded payload gives the response back with its texts cut at the documented
    bounds and the nine recovery fields that are not sent at their defaults. The
    assessment, the spine list, the health report, the status, the command result, the
    authority and the lease all survive together. *)
Theorem response_crosses_wire limits r :
  response_fits limits r -> decode_response (encode_response r) limits = Value (clamped_response r).
Proof. apply response_back. Qed.
