(* ===== verification/ServerSpec.v ===== *)
(** * Remote calls (src/service.cpp)

    A session of calls over a connection is the handler run in order: the server
    answers every request it decodes, in the order of arrival, and the client
    gets the responses its requests produced. What does not decode never reaches
    the handler. *)
From S2P Require Import Prelude Status Checked Identity Bytes Digest Capacity Model Codec Sample CodecSpec Topology Eligibility Governance GovernanceSpec Store StoreDir Runtime Transport TransportSpec Service ServiceSpec ServiceRoundtrip Server.

#[local] Strategy 10000 [sha_finish update_span sha256 le_store].
#[local] Opaque digest_of_two encode_request encode_response decode_request decode_response.

Lemma frame_of_ok k flags id : u32_ok flags -> u64_ok id -> header_ok (frame_of (RequestKind_to_u16 k) flags id).
Proof.
  intros Hf Hi. split; [done|apply RequestKind_u16_ok|done|done|]. unfold frame_of, fits. simpl. lia.
Qed.

Lemma request_frame_ok q : u64_ok (rq_id q) -> header_ok (request_frame q).
Proof. intros. apply frame_of_ok; [unfold fits; lia|done]. Qed.
Lemma reply_frame_ok k id : u64_ok id -> header_ok (reply_frame k id).
Proof. intros. apply frame_of_ok; [unfold fits, kFlagReply; lia|done]. Qed.

(** A frame that was written is the next one the other side reads. *)
Lemma written_is_read c d answers limits h payload bytes w rest :
  write_frame c answers h payload limits = (success, bytes) -> valid d = true -> header_ok h ->
  max_frame_payload limits <= u32_max -> stream w = bytes ++ rest ->
  exists w', read_frame d limits w = (Value (stamp h payload, payload), w') /\ stream w' = rest.
Proof.
  intros Hw Hd Hh Hl Hs. apply write_frame_inv in Hw as (-> & Hp); [|done]. rewrite <- (assoc_L (++)) in Hs.
  destruct (read_frame_whole d limits w h payload rest Hd Hh Hp Hl Hs) as (w' & E & Hs' & _). by exists w'.
Qed.

Section Sessions.
Context {St Io : Type} `{!RequestHandler St Io}.
Context (limits : TransportLimits) (c d : Connection).

(** One call: the request, what the clocks and files of the server answer meanwhile, and
    what the two kernels take of the frames. *)
Record Exchange := MkExchange { ex_request : Request; ex_io : Io; ex_out : list SendAnswer; ex_back : list SendAnswer }.

(** The response of a call and the frames that carry it. *)
Record Carried := MkCarried { ca_response : Response; ca_sent : list byte; ca_reply : list byte }.

(** The handler run over the requests in order, every frame accepted for sending. *)
Inductive session : St -> list Exchange -> list Carried -> St -> Prop :=
| session_nil st : session st [] [] st
| session_cons st x r st1 sent reply xs rs st2 :
    request_fits limits (ex_request x) -> rq_version (ex_request x) = kProtocolVersion ->
    rq_kind (ex_request x) <> RK_Bye ->
    handle (ex_io x) (clamped_request (ex_request x)) st = Answered r st1 ->
    response_fits limits r ->
    write_frame c (ex_out x) (request_frame (ex_request x)) (encode_request (ex_request x)) limits = (success, sent) ->
    write_frame d (ex_back x) (reply_frame (rq_kind (ex_request x)) (rs_id r)) (encode_response r) limits = (success, reply) ->
    session st1 xs rs st2 ->
    session st (x :: xs) (MkCarried r sent reply :: rs) st2.

Context (Hc : valid c = true) (Hd : valid d = true) (Hl : max_frame_payload limits <= u32_max).

(** ** The server's side *)

Lemma serve_frame_answers q io answers sent reply st r st1 l rest :
  request_fits limits q -> rq_version q = kProtocolVersion -> rq_kind q <> RK_Bye ->
  handle io (clamped_request q) st = Answered r st1 ->
  (exists out, write_frame c out (request_frame q) (encode_request q) limits = (success, sent)) ->
  write_frame d answers (reply_frame (rq_kind q) (rs_id r)) (encode_response r) limits = (success, reply) ->
  stream (ln_wire l) = sent ++ rest -> ln_state l = st ->
  exists l', serve_frame limits d io answers l = (Continues, l') /\ ln_state l' = st1 /\
    ln_sent l' = ln_sent l ++ reply /\ stream (ln_wire l') = rest /\
    ss_protocol_errors (ln_stats l') = ss_protocol_errors (ln_stats l).
Proof.
  intros Hq Hv Hb Hh (out & Hw) Hr Hs Hst. unfold serve_frame.
  destruct (written_is_read c d out limits _ _ _ (ln_wire l) rest Hw Hd) as (w' & -> & Hs'); [|done..|].
  { apply request_frame_ok, (rqf_id _ _ Hq). }
  unfold respond. rewrite request_back by done. cbn [rq_version clamped_request]. rewrite Hv. cbn [Z.eqb Pos.eqb kProtocolVersion negb].
  rewrite Hst, Hh. change (rq_kind (clamped_request q)) with (rq_kind q). rewrite Hr. change (status_ok success) with true. cbn [negb orb].
  rewrite bool_decide_false by done. eexists. split; [reflexivity|]. done.
Qed.

(** All the calls of a session, one turn of the loop each. *)
Lemma serve_session st xs rs st2 : session st xs rs st2 -> forall fuel turns l rest,
  (forall n x, xs !! n = Some x -> turns n = MkTurn true (ex_io x) (ex_back x)) ->
  stream (ln_wire l) = concat (ca_sent <$> rs) ++ rest -> ln_state l = st ->
  exists l', serve_loop (List.length xs + fuel) limits d turns l
             = serve_loop fuel limits d (fun n => turns (List.length xs + n)%nat) l' /\
    ln_state l' = st2 /\ ln_sent l' = ln_sent l ++ concat (ca_reply <$> rs) /\ stream (ln_wire l') = rest /\
    ss_protocol_errors (ln_stats l') = ss_protocol_errors (ln_stats l).
Proof.
  intros Hses. induction Hses as [st|st x r st1 sent reply xs rs st2 Hq Hv Hb Hh Hrf Hw Hr Hses IH];
    intros fuel turns l rest Ht Hs Hst.
  { exists l. split_and!; try done. by rewrite app_nil_r. }
  cbn [fmap list_fmap concat ca_sent ca_reply] in *. rewrite <- (assoc_L (++)) in Hs.
  destruct (serve_frame_answers (ex_request x) (ex_io x) (ex_back x) sent reply st r st1 l _ Hq Hv Hb Hh
              (ex_intro _ (ex_out x) Hw) Hr Hs Hst) as (l1 & E & Hst1 & Hsent & Hs1 & He).
  destruct (IH fuel (fun n => turns (S n)) l1 rest) as (l' & E' & Hst' & Hsent' & Hs' & He'); [|done..|].
  { intros n y Hy. by apply Ht. }
  exists l'. split_and!; try done; [| |congruence].
  - change (List.length (x :: xs) + fuel)%nat with (S (List.length xs + fuel)). cbn [serve_loop].
    rewrite (Ht 0%nat x eq_refl). cbn [tn_running tn_io tn_answers negb]. by rewrite E, E'.
  - by rewrite Hsent', Hsent, (assoc_L (++)).
Qed.

(** ** The client's side *)

(** The calls of a session, each waiting for its reply. *)
Fixpoint client_calls (os : SocketOs) (fc : FabricClient) (xs : list Exchange) (w : list Arrival)
    : list (Outcome Response) * list byte * list Arrival :=
  match xs with
  | [] => ([], [], w)
  | x :: xs =>
      let '(o, sent, w) := client_call os fc (ex_request x) 0 (ex_out x) w in
      let '(os', sent', w) := client_calls os fc xs w in
      (o :: os', sent ++ sent', w)
  end.

(** The reply that is read decides the outcome, whatever was asked. *)
Lemma call_returns os fc q answers sent k r back reply w rest :
  fc_connection fc = c -> fc_limits fc = limits ->
  write_frame c answers (request_frame q) (encode_request q) limits = (success, sent) ->
  response_fits limits r ->
  write_frame d back (reply_frame k (rs_id r)) (encode_response r) limits = (success, reply) ->
  stream w = reply ++ rest ->
  exists w', client_call os fc q 0 answers w = (Value (clamped_response r), sent, w') /\ stream w' = rest.
Proof.
  intros Ec El Hw Hr Hb Hs. unfold client_call. cbn [Z.eqb]. change (status_ok success) with true. cbn [negb].
  rewrite Ec, El, Hw. change (status_ok success) with true. cbn [negb].
  destruct (written_is_read d c back limits _ _ _ w rest Hb Hc) as (w' & -> & Hs'); [|done..|].
  { apply reply_frame_ok, (rsf_id _ _ Hr). }
  exists w'. split; [|done]. cbn [fh_flags stamp reply_frame frame_of].
  change (Z.land kFlagReply kFlagReply =? 0) with false. cbv iota. by rewrite response_back.
Qed.

Lemma calls_return os fc st xs rs st2 : session st xs rs st2 -> forall w rest,
  fc_connection fc = c -> fc_limits fc = limits -> stream w = concat (ca_reply <$> rs) ++ rest ->
  exists w', client_calls os fc xs w
             = ((fun r => Value (clamped_response (ca_response r))) <$> rs, concat (ca_sent <$> rs), w') /\ stream w' = rest.
Proof.
  intros Hses. induction Hses as [st|st x r st1 sent reply xs rs st2 Hq Hv Hb Hh Hrf Hw Hr Hses IH]; intros w rest Ec El Hs.
  { by exists w. }
  cbn [fmap list_fmap concat ca_sent ca_reply ca_response] in *. rewrite <- (assoc_L (++)) in Hs.
  destruct (call_returns os fc (ex_request x) (ex_out x) sent (rq_kind (ex_request x)) r (ex_back x) reply w _ Ec El Hw Hrf Hr Hs)
    as (w1 & E & Hs1).
  destruct (IH w1 rest Ec El Hs1) as (w' & E' & Hs').
  exists w'. split; [|done]. cbn [client_calls]. by rewrite E, E'.
Qed.
End Sessions.


(** ** What reaches the handler *)

(** C15: Only intact, decodable requests of this protocol version reach the handler: a turn
    that changes the handler's state has consumed exactly the bytes of one encoded frame,
    digest included, whose payload decodes to the request that was handled. Malformed,
    corrupt, cut or foreign input is counted or dropped and leaves the state alone. *)
Theorem only_intact_requests_are_handled {St Io : Type} `{!RequestHandler St Io} limits d io answers (l : Line St) t l' :
  serve_frame limits d io answers l = (t, l') -> ln_state l' <> ln_state l ->
  exists h payload bytes q, encode_frame h payload limits = Value bytes /\
    stream (ln_wire l) = bytes ++ stream (ln_wire l') /\
    decode_request payload limits = Value q /\ rq_version q = kProtocolVersion /\
    ((exists r, handle io q (ln_state l) = Answered r (ln_state l')) \/ handle io q (ln_state l) = Died (ln_state l')).
Proof.
  unfold serve_frame. intros H Hne. destruct (read_frame d limits (ln_wire l)) as [[[h payload]|e] w] eqn:E.
  2: { destruct (answers_failure (code e)); injection H as <- <-; by destruct Hne. }
  apply read_frame_inv in E as (Hs & Eh & _ & Hp & _).
  assert (encode_frame h payload limits = Value (frame_head h payload ++ payload)) as Henc.
  { rewrite encode_frame_Value, <- Eh by done. done. }
  unfold respond in H. destruct (decode_request payload limits) as [q|e] eqn:Eq.
  2: { destruct (write_frame _ _ _ _ _) as [written sent]. injection H as <- <-. by destruct Hne. }
  destruct (Z.eqb_spec (rq_version q) kProtocolVersion) as [Hv|]; cbn [negb] in H.
  2: { destruct (write_frame _ _ _ _ _) as [written sent]. injection H as <- <-. by destruct Hne. }
  exists h, payload, (frame_head h payload ++ payload), q.
  destruct (handle io q (ln_state l)) as [r st|st] eqn:Eh'.
  - destruct (write_frame _ _ _ _ _) as [written sent]. injection H as <- <-. cbn [ln_wire ln_state].
    split_and!; try done; [by rewrite <- (assoc_L (++))|]. left. by exists r.
  - injection H as <- <-. cbn [ln_wire ln_state]. split_and!; try done; [by rewrite <- (assoc_L (++))|]. by right.
Qed.

(** The client takes whatever reply comes next for the answer to its request: after a call
    that timed out, the next call returns the response to the earlier one. *)
Lemma stale_reply_is_accepted os limits c d fc q1 q2 r1 answers sent back reply w rest :
  valid c = true -> valid d = true -> max_frame_payload limits <= u32_max ->
  fc_connection fc = c -> fc_limits fc = limits ->
  write_frame c answers (request_frame q2) (encode_request q2) limits = (success, sent) ->
  response_fits limits r1 -> rs_id r1 = rq_id q1 -> rq_id q1 <> rq_id q2 ->
  write_frame d back (reply_frame (rq_kind q1) (rs_id r1)) (encode_response r1) limits = (success, reply) ->
  stream w = reply ++ rest ->
  exists r w', client_call os fc q2 0 answers w = (Value r, sent, w') /\ rs_id r <> rq_id q2.
Proof.
  intros Hc Hd Hl Ec El Hw Hr Hid Hne Hb Hs.
  destruct (call_returns limits c d Hc Hl os fc q2 answers sent (rq_kind q1) r1 back reply w rest Ec El Hw Hr Hb Hs)
    as (w' & E & _).
  exists (clamped_response r1), w'. split; [done|]. cbn [rs_id clamped_response]. congruence.
Qed.

(** ** Witnesses *)

Module Sample_service.
Definition index : option TopologyIndex := Eval vm_compute in
  match build_index Sample.observed with Value ix => Some ix | Failure _ => None end.
Definition runtime : ControllerRuntime :=
  match index with
  | Some ix => with_topology Sample.observed ix (new_runtime (default_runtime_config 9 "") None)
  | None => new_runtime (default_runtime_config 9 "") None
  end.
Definition io : ServiceIo :=
  MkServiceIo 1000 2000 io_fine snapshot_io_fine.
Definition ping : Request :=
  MkRequest 7 RK_Ping kProtocolVersion "probe" default_node default_node default_constraints default_command
    default_authority default_token 0.
Definition paths : Request :=
  MkRequest 8 RK_Paths kProtocolVersion "probe" (node_of_leaf 1) (node_of_leaf 2) default_constraints default_command
    default_authority default_token 0.
Definition answered (q : Request) (rt : ControllerRuntime) : Response * ControllerRuntime :=
  match handle io q rt with Answered r rt => (r, rt) | Died rt => (default_response, rt) end.
Definition pong : Response := Eval vm_compute in (answered ping runtime).1.
Definition assessed : Response := Eval vm_compute in (answered paths runtime).1.

Lemma ping_answered : handle io (clamped_request ping) runtime = Answered pong runtime.
Proof. vm_compute. reflexivity. Qed.
Lemma paths_answered : handle io (clamped_request paths) runtime = Answered assessed (answered paths runtime).2.
Proof. vm_compute. reflexivity. Qed.

(** Closed conditions on widths and texts, evaluated. *)
Ltac closed :=
  repeat match goal with
    | |- fits _ _ => solve [vm_compute; split; [discriminate|reflexivity]]
    | |- _ /\ _ => split
    | |- Forall ?P ?l =>
        let l' := eval vm_compute in l in change (Forall P l'); first [apply Forall_nil; exact I | apply Forall_cons]
    | |- forall s, s ∈ _ -> _ => intros ? ?%elem_of_nil; done
    | |- forall r, _ = Some r -> _ => by intros
    | |- tier_valid _ => vm_compute; by first [left | right]
    | |- _ = _ => solve [vm_compute; reflexivity]
    | |- _ <= _ => solve [vm_compute; discriminate]
    | |- _ => progress unfold code_fits, incarnation_fits, digest_ok, node_fits, wire_list, sets_fit, ratio_fits,
                plain_text, text_ok, tier_cast_ok, admin_cast_ok, evidence_fits
    | |- _ => split
    end.

Lemma default_token_fits : token_fits default_token.
Proof. closed. Qed.
Lemma default_command_fits : command_fits default_command.
Proof. split; try exact default_token_fits; try (by left); closed. Qed.
Lemma default_authority_fits : authority_fits default_authority.
Proof. closed. Qed.

Lemma sample_request_fits k id from to :
  u64_ok id -> node_fits from -> node_fits to ->
  request_fits default_transport_limits
    (MkRequest id k kProtocolVersion "probe" from to default_constraints default_command default_authority default_token 0).
Proof.
  intros Hi Hf Ht. split; try done; try exact default_token_fits; try exact default_command_fits;
    try exact default_authority_fits; closed.
Qed.

Lemma pong_fits : response_fits default_transport_limits pong.
Proof. split; try exact default_token_fits; try exact default_authority_fits; closed. Qed.
Lemma assessed_fits : response_fits default_transport_limits assessed.
Proof. split; try exact default_token_fits; try exact default_authority_fits; closed. Qed.

(** The kernels take the first request and the second reply in two pieces. *)
Local Abbreviation Exchange := (@Exchange ServiceIo).
Definition x1 : Exchange := MkExchange ping io [MkSend 50 Sample_wire.errno] [].
Definition x2 : Exchange := MkExchange paths io [] [MkSend 64 Sample_wire.errno].
Definition sent_of (x : Exchange) : list byte :=
  (write_frame 5 (ex_out x) (request_frame (ex_request x)) (encode_request (ex_request x)) default_transport_limits).2.
Definition reply_of (x : Exchange) (r : Response) : list byte :=
  (write_frame 6 (ex_back x) (reply_frame (rq_kind (ex_request x)) (rs_id r)) (encode_response r) default_transport_limits).2.
Definition carried : list Carried := [MkCarried pong (sent_of x1) (reply_of x1 pong); MkCarried assessed (sent_of x2) (reply_of x2 assessed)].
Definition sent_bytes : list byte := concat (ca_sent <$> carried).
Definition reply_bytes : list byte := concat (ca_reply <$> carried).

Lemma sent_fine (x : Exchange) r :
  status_ok (write_frame 5 (ex_out x) (request_frame (ex_request x)) (encode_request (ex_request x)) default_transport_limits).1
  && status_ok (write_frame 6 (ex_back x) (reply_frame (rq_kind (ex_request x)) (rs_id r)) (encode_response r) default_transport_limits).1
  && bool_decide (detail (write_frame 5 (ex_out x) (request_frame (ex_request x)) (encode_request (ex_request x)) default_transport_limits).1 = "")
  && bool_decide (detail (write_frame 6 (ex_back x) (reply_frame (rq_kind (ex_request x)) (rs_id r)) (encode_response r) default_transport_limits).1 = "")
  = true ->
  write_frame 5 (ex_out x) (request_frame (ex_request x)) (encode_request (ex_request x)) default_transport_limits = (success, sent_of x) /\
  write_frame 6 (ex_back x) (reply_frame (rq_kind (ex_request x)) (rs_id r)) (encode_response r) default_transport_limits
  = (success, reply_of x r).
Proof.
  unfold sent_of, reply_of. destruct (write_frame 5 _ _ _ _) as [[c1 d1] b1], (write_frame 6 _ _ _ _) as [[c2 d2] b2].
  rewrite !andb_true_iff, !bool_decide_eq_true. cbn [fst snd detail]. unfold status_ok. cbn [code].
  intros [[[Hc1%bool_decide_eq_true Hc2%bool_decide_eq_true] ->] ->]. by subst.
Qed.

Lemma sample_session : session default_transport_limits 5 6 runtime [x1; x2] carried (answered paths runtime).2.
Proof.
  destruct (sent_fine x1 pong) as [W1 B1]; [vm_compute; reflexivity|].
  destruct (sent_fine x2 assessed) as [W2 B2]; [vm_compute; reflexivity|].
  eapply session_cons; [|done|done|exact ping_answered|exact pong_fits|exact W1|exact B1|].
  { apply sample_request_fits; closed. }
  eapply session_cons; [|done|done|exact paths_answered|exact assessed_fits|exact W2|exact B2|apply session_nil].
  apply sample_request_fits; closed.
Qed.
End Sample_service.
Import Sample_service.

Lemma request_crosses_wire_witness :
  decode_request (encode_request paths) default_transport_limits = Value (clamped_request paths).
Proof. apply (request_crosses_wire default_transport_limits paths). apply sample_request_fits; closed. Defined.

Lemma response_crosses_wire_witness :
  decode_response (encode_response assessed) default_transport_limits = Value (clamped_response assessed).
Proof. apply (response_crosses_wire default_transport_limits assessed). exact assessed_fits. Defined.


(** A turn that serves the query counts it in the state of the runtime. *)
Definition before : Line ControllerRuntime := MkLine [Arrived (sent_of x2)] no_stats runtime [].
Definition turned : Turned * Line ControllerRuntime := serve_frame default_transport_limits 6 io [] before.

Lemma turned_counts : (n_queries (rt_counters (ln_state turned.2)) =? n_queries (rt_counters (ln_state before))) = false.
Proof. vm_compute. reflexivity. Qed.

Lemma turned_eq : serve_frame default_transport_limits 6 io [] before = (turned.1, turned.2).
Proof. unfold turned. apply surjective_pairing. Qed.

#[local] Opaque before turned.

Lemma only_intact_requests_are_handled_witness :
  exists h payload bytes q, encode_frame h payload default_transport_limits = Value bytes /\
    stream (ln_wire before) = bytes ++ stream (ln_wire turned.2) /\
    decode_request payload default_transport_limits = Value q /\ rq_version q = kProtocolVersion /\
    ((exists r, handle io q (ln_state before) = Answered r (ln_state turned.2)) \/ handle io q (ln_state before) = Died (ln_state turned.2)).
Proof.
  apply (only_intact_requests_are_handled default_transport_limits 6 io [] before turned.1); [exact turned_eq|].
  intros E. pose proof turned_counts as H. rewrite E, Z.eqb_refl in H. discriminate.
Defined.

(** A request may ask for up to 4096 spine sets, but an answer with more than 64 cannot be read. *)
Definition many_sets : Response :=
  put_assessment (MkAssessment (node_of_leaf 1) (node_of_leaf 2) RC_LeafLeafMultiSpine EV_Eligible SC_Ok 7 3
    zero_incarnation zero_digest [1] [1] 0 (MkSets (replicate 65 (MkSet [1] [1] 10000 1)) false 65) empty_capacity [] 0 false)
    default_response.

Lemma many_sets_unreadable :
  decode_response (encode_response many_sets) default_transport_limits
  = fail SC_Exhausted "path assessment spine set count exceeds the accepted bound".
Proof. vm_compute. reflexivity. Qed.
