(* ===== verification/ServerThreads.v ===== *)
(** * The threads of the server (src/service.cpp)

    [FabricServer] runs an accept thread and a pool of workers, and [stop] joins
    them from a third. A step is what one thread does between two points where
    others may run: one critical section, one atomic access, one system call.
    [handles] is the set of socket handles the process holds open. *)
From S2P Require Import Prelude Status Identity Transport Service Server.

(** ** Creation *)

Record ServerConfig := MkServerConfig { sc_endpoint : Endpoint; sc_limits : TransportLimits; sc_name : string; sc_trace : bool }.

Definition server_create (config : ServerConfig) (has_handler : bool) : Outcome ServerConfig :=
  if negb has_handler then fail SC_Invalid "server requires a request handler"
  else if (max_connections (sc_limits config) =? 0) || (max_connections (sc_limits config) >? 4096) then
    fail SC_Invalid "max_connections must be in 1..4096"
  else Value config.

Definition worker_count (limits : TransportLimits) : Z := Z.max 1 (Z.min (max_connections limits) 16).

(** ** State *)

(** A worker is at the head of its loop, has taken a connection off the queue, has entered it
    in the list of active sockets, is inside a turn, has left its inner loop, has taken the
    socket off the list and is about to close it, or has returned. *)
Inductive Worker :=
| W_Idle | W_Holding (h : Z) | W_Registered (h : Z) | W_Serving (h : Z) | W_Leaving (h : Z) | W_Closing (h : Z) | W_Returned.

#[export] Instance Worker_eq_dec : EqDecision Worker.
Proof. solve_decision. Defined.

(** The accept thread: absent, at the head of its loop, inside [accept], with a connection
    it has not handed over, or returned. *)
Inductive Acceptor := A_Absent | A_Head | A_Accepting | A_Holding (h : Z) | A_Returned.

(** How far [stop] has got: not called, the flags are down, the listener is closed, the accept
    thread is joined, the active sockets are shut down, the workers are told to stop. *)
Inductive StopPhase := P_None | P_Flagged | P_Unlistened | P_Joined | P_Shut | P_Requested.

#[export] Instance StopPhase_eq_dec : EqDecision StopPhase.
Proof. solve_decision. Defined.

Record FabricServer := MkServer {
  sv_running : bool;
  sv_started : bool;
  sv_listener : TcpListener;
  sv_acceptor : Acceptor;
  sv_queue : list Z;
  sv_workers : list Worker;
  sv_active : list Z;
  sv_shut : gset Z;
  sv_stats : ServerStats;
  sv_phase : StopPhase;
  sv_handles : gset Z
}.

Definition no_listener : TcpListener := MkListener kInvalidSocket 0.

Definition new_server (handles : gset Z) : FabricServer :=
  MkServer false false no_listener A_Absent [] [] [] ∅ no_stats P_None handles.

(** [FabricServer::stats]: the counters and the number of active connections. *)
Definition server_stats (s : FabricServer) : ServerStats * Z := (sv_stats s, wrap 32 (Zlen (sv_active s))).

(** [std::find] and [erase]: the first occurrence, when there is one. *)
Fixpoint erase_first (h : Z) (l : list Z) : list Z :=
  match l with
  | [] => []
  | x :: l => if x =? h then l else x :: erase_first h l
  end.

Definition register_active (h : Z) (s : FabricServer) : FabricServer :=
  MkServer (sv_running s) (sv_started s) (sv_listener s) (sv_acceptor s) (sv_queue s) (sv_workers s) (sv_active s ++ [h])
    (sv_shut s) (sv_stats s) (sv_phase s) (sv_handles s).
Definition unregister_active (h : Z) (s : FabricServer) : FabricServer :=
  MkServer (sv_running s) (sv_started s) (sv_listener s) (sv_acceptor s) (sv_queue s) (sv_workers s)
    (erase_first h (sv_active s)) (sv_shut s) (sv_stats s) (sv_phase s) (sv_handles s).
Definition shutdown_active (s : FabricServer) : FabricServer :=
  MkServer (sv_running s) (sv_started s) (sv_listener s) (sv_acceptor s) (sv_queue s) (sv_workers s) (sv_active s)
    (list_to_set (sv_active s) ∪ sv_shut s) (sv_stats s) (sv_phase s) (sv_handles s).

(** *** Field updates *)

Definition with_worker (i : nat) (w : Worker) (s : FabricServer) : FabricServer :=
  MkServer (sv_running s) (sv_started s) (sv_listener s) (sv_acceptor s) (sv_queue s) (<[i := w]> (sv_workers s))
    (sv_active s) (sv_shut s) (sv_stats s) (sv_phase s) (sv_handles s).
Definition with_acceptor (a : Acceptor) (s : FabricServer) : FabricServer :=
  MkServer (sv_running s) (sv_started s) (sv_listener s) a (sv_queue s) (sv_workers s) (sv_active s) (sv_shut s)
    (sv_stats s) (sv_phase s) (sv_handles s).
Definition with_queue (q : list Z) (s : FabricServer) : FabricServer :=
  MkServer (sv_running s) (sv_started s) (sv_listener s) (sv_acceptor s) q (sv_workers s) (sv_active s) (sv_shut s)
    (sv_stats s) (sv_phase s) (sv_handles s).
Definition with_stats (st : ServerStats) (s : FabricServer) : FabricServer :=
  MkServer (sv_running s) (sv_started s) (sv_listener s) (sv_acceptor s) (sv_queue s) (sv_workers s) (sv_active s)
    (sv_shut s) st (sv_phase s) (sv_handles s).
Definition with_phase (p : StopPhase) (s : FabricServer) : FabricServer :=
  MkServer (sv_running s) (sv_started s) (sv_listener s) (sv_acceptor s) (sv_queue s) (sv_workers s) (sv_active s)
    (sv_shut s) (sv_stats s) p (sv_handles s).
(** A handle that the system gives out is a new socket: nothing has shut it down. *)
Definition with_new_handle (h : Z) (s : FabricServer) : FabricServer :=
  MkServer (sv_running s) (sv_started s) (sv_listener s) (sv_acceptor s) (sv_queue s) (sv_workers s) (sv_active s)
    (sv_shut s ∖ {[h]}) (sv_stats s) (sv_phase s) ({[h]} ∪ sv_handles s).
Definition with_closed (h : Z) (s : FabricServer) : FabricServer :=
  MkServer (sv_running s) (sv_started s) (sv_listener s) (sv_acceptor s) (sv_queue s) (sv_workers s) (sv_active s)
    (sv_shut s) (sv_stats s) (sv_phase s) (close_socket h (sv_handles s)).

(** ** The operations of the threads *)

(** [start], when the listener is bound: the pool and the accept thread are created. *)
Definition server_started (limits : TransportLimits) (l : TcpListener) (handles : gset Z) (s : FabricServer) : FabricServer :=
  MkServer true true l A_Head (sv_queue s) (replicate (Z.to_nat (worker_count limits)) W_Idle) (sv_active s)
    (sv_shut s ∖ {[listener_socket l]}) (sv_stats s) (sv_phase s) handles.

(** The critical section of the accept thread: the connection is queued, or dropped and so closed. *)
Definition hand_over (limits : TransportLimits) (h : Z) (s : FabricServer) : FabricServer :=
  let s := with_acceptor A_Head s in
  if Zlen (sv_queue s) <? max_connections limits then
    with_stats (count_accepted true (sv_stats s)) (with_queue (sv_queue s ++ [h]) s)
  else with_closed h (with_stats (count_accepted false (sv_stats s)) s).

(** The first stores of [stop]. *)
Definition stop_flags (s : FabricServer) : FabricServer :=
  MkServer false false (sv_listener s) (sv_acceptor s) (sv_queue s) (sv_workers s) (sv_active s) (sv_shut s) (sv_stats s)
    P_Flagged (sv_handles s).

Definition stop_listener (s : FabricServer) : FabricServer :=
  let '(l, handles) := listener_close (sv_listener s) (sv_handles s) in
  MkServer (sv_running s) (sv_started s) l (sv_acceptor s) (sv_queue s) (sv_workers s) (sv_active s) (sv_shut s)
    (sv_stats s) P_Unlistened handles.

(** The workers have returned: they are dropped, and the queue with the connections in it. *)
Definition stop_finish (s : FabricServer) : FabricServer :=
  MkServer (sv_running s) (sv_started s) (sv_listener s) (sv_acceptor s) [] [] (sv_active s) (sv_shut s) (sv_stats s)
    P_None (foldr close_socket (sv_handles s) (sv_queue s)).

(** What a worker at the head of its loop does: it takes a connection, returns, or waits again. *)
Definition worker_head (s : FabricServer) : option (Worker * list Z) :=
  match sv_queue s with
  | h :: q => Some (W_Holding h, q)
  | [] => if sv_running s then None else Some (W_Returned, [])
  end.

Section Steps.
Context {St Io : Type} `{RequestHandler St Io}.
Context (limits : TransportLimits).

(** One step of the accept thread; [true] marks a step that needs a peer to act. *)
Inductive accept_step : bool -> FabricServer -> FabricServer -> Prop :=
| as_enter s : sv_acceptor s = A_Head -> sv_running s = true -> accept_step false s (with_acceptor A_Accepting s)
| as_leave s : sv_acceptor s = A_Head -> sv_running s = false -> accept_step false s (with_acceptor A_Returned s)
| as_deadline s : sv_acceptor s = A_Accepting -> accept_step false s (with_acceptor A_Head s)
| as_failed s : sv_acceptor s = A_Accepting -> accept_step false s (with_acceptor A_Returned s)
| as_connection s h :
    sv_acceptor s = A_Accepting -> listener_socket (sv_listener s) <> kInvalidSocket ->
    h <> kInvalidSocket -> h ∉ sv_handles s ->
    accept_step true s (with_acceptor (A_Holding h) (with_new_handle h s))
| as_hand_over s h : sv_acceptor s = A_Holding h -> accept_step false s (hand_over limits h s).

(** One step of worker [i]. A turn ends when something arrives on the socket, or when the
    socket has been shut down. *)
Inductive worker_step (i : nat) : bool -> FabricServer -> FabricServer -> Prop :=
| ws_head s w q : sv_workers s !! i = Some W_Idle -> worker_head s = Some (w, q) ->
    worker_step i false s (with_worker i w (with_queue q s))
| ws_requested s : sv_workers s !! i = Some W_Idle -> sv_phase s = P_Requested ->
    worker_step i false s (with_worker i W_Returned s)
| ws_register s h : sv_workers s !! i = Some (W_Holding h) ->
    worker_step i false s (with_worker i (W_Registered h) (register_active h s))
| ws_turn s h : sv_workers s !! i = Some (W_Registered h) -> sv_running s = true ->
    worker_step i false s (with_worker i (W_Serving h) s)
| ws_stopped s h : sv_workers s !! i = Some (W_Registered h) -> sv_running s = false ->
    worker_step i false s (with_worker i (W_Leaving h) s)
| ws_exhausted s h : sv_workers s !! i = Some (W_Registered h) -> worker_step i false s (with_worker i (W_Leaving h) s)
| ws_served s h (io : Io) answers w (st : St) t l :
    sv_workers s !! i = Some (W_Serving h) ->
    serve_frame limits h io answers (MkLine w (sv_stats s) st []) = (t, l) -> t <> Ends ->
    worker_step i (negb (bool_decide (h ∈ sv_shut s)))
      s (with_worker i (match t with Continues => W_Registered h | _ => W_Leaving h end) (with_stats (ln_stats l) s))
| ws_unregister s h : sv_workers s !! i = Some (W_Leaving h) ->
    worker_step i false s (with_worker i (W_Closing h) (unregister_active h s))
| ws_close s h : sv_workers s !! i = Some (W_Closing h) ->
    worker_step i false s (with_worker i W_Idle (with_closed h s)).

(** One step of [stop]. *)
Inductive stop_step : FabricServer -> FabricServer -> Prop :=
| ss_begin s : sv_phase s = P_None -> sv_started s = true -> stop_step s (stop_flags s)
| ss_listener s : sv_phase s = P_Flagged -> stop_step s (stop_listener s)
| ss_join s : sv_phase s = P_Unlistened -> sv_acceptor s = A_Returned ->
    stop_step s (with_phase P_Joined (with_acceptor A_Absent s))
| ss_shutdown s : sv_phase s = P_Joined -> stop_step s (with_phase P_Shut (shutdown_active s))
| ss_request s : sv_phase s = P_Shut -> stop_step s (with_phase P_Requested s)
| ss_finish s : sv_phase s = P_Requested -> Forall (eq W_Returned) (sv_workers s) -> stop_step s (stop_finish s).

(** A step of the server. [start] is called while no thread of an earlier run is left. *)
Inductive server_step : bool -> FabricServer -> FabricServer -> Prop :=
| st_start os e s l handles :
    sv_running s = false -> sv_phase s = P_None -> sv_workers s = [] -> sv_acceptor s = A_Absent ->
    listener_socket (sv_listener s) = kInvalidSocket ->
    bind os e (sv_handles s) = (Value l, handles) -> listener_socket l <> kInvalidSocket ->
    listener_socket l ∉ sv_handles s ->
    server_step false s (server_started limits l handles s)
| st_accept peer s s' : accept_step peer s s' -> server_step peer s s'
| st_worker i peer s s' : worker_step i peer s s' -> server_step peer s s'
| st_stop s s' : stop_step s s' -> server_step false s s'.

(** What a server may come to from a fresh one, in a process that holds [base]. *)
Inductive reachable (base : gset Z) : FabricServer -> Prop :=
| reach_new : reachable base (new_server base)
| reach_step peer s s' : reachable base s -> server_step peer s s' -> reachable base s'.
End Steps.
