(* ===== verification/ServerThreadsSpec.v ===== *)
(** * What the server's threads keep (src/service.cpp)

    In every interleaving of the accept thread, the workers, [start] and [stop]:
    each open socket is held by exactly one of them, the list of active sockets
    names only sockets that a worker still holds, and once [stop] has shut the
    active sockets down no worker waits on a socket that was missed. *)
From S2P Require Import Prelude Status Identity Transport TransportSpec Service Server ServerSpec ServerThreads.

(** ** Handles accounted for *)

(** The process holds [base] and, besides, exactly the handles of [l], once each. *)
Record accounts (base : gset Z) (l : list Z) (handles : gset Z) : Prop := {
  ac_once : NoDup l;
  ac_valid : kInvalidSocket ∉ l;
  ac_foreign : forall h, h ∈ l -> h ∉ base;
  ac_exact : handles = base ∪ list_to_set l
}.

#[export] Instance accounts_perm base : Proper ((≡ₚ) ==> (=) ==> iff) (accounts base).
Proof.
  assert (forall l l' handles, l ≡ₚ l' -> accounts base l handles -> accounts base l' handles) as H.
  { intros l l' handles E [H1 H2 H3 H4]. split.
    - by rewrite <- E.
    - by rewrite <- E.
    - intros h Hh. apply H3. by rewrite E.
    - rewrite H4. f_equal. by apply list_to_set_perm_L. }
  intros l l' E ? handles ->. split; apply H; done.
Qed.

Lemma accounts_open base l handles h :
  accounts base l handles -> h <> kInvalidSocket -> h ∉ handles -> accounts base (h :: l) ({[h]} ∪ handles).
Proof.
  intros [H1 H2 H3 ->] Hv Hf. split.
  - apply NoDup_cons. split; [set_solver|done].
  - set_solver.
  - intros x [->|Hx]%elem_of_cons; [set_solver|by apply H3].
  - set_solver.
Qed.

Lemma accounts_close base l handles h : accounts base (h :: l) handles -> accounts base l (close_socket h handles).
Proof.
  intros [[Hn H1]%NoDup_cons H2 H3 ->]. unfold close_socket.
  destruct (Z.eqb_spec h kInvalidSocket) as [->|]; [set_solver|]. split; [done|set_solver| |].
  - intros x Hx. apply H3. by right.
  - assert (h ∉ base) by (apply H3; left). set_solver.
Qed.

Lemma accounts_close_all base l rest handles :
  accounts base (l ++ rest) handles -> accounts base rest (foldr close_socket handles l).
Proof.
  revert rest. induction l as [|h l IH]; intros rest H; [done|]. cbn [foldr]. apply accounts_close, IH.
  by rewrite Permutation_app_comm, <- (assoc_L (++)), (Permutation_app_comm rest l) || by rewrite <- Permutation_middle.
Qed.

(** ** Who holds what *)

Definition worker_handle (w : Worker) : list Z :=
  match w with
  | W_Holding h | W_Registered h | W_Serving h | W_Leaving h | W_Closing h => [h]
  | W_Idle | W_Returned => []
  end.

(** The socket a worker has on the list of active sockets. *)
Definition worker_active (w : Worker) : list Z :=
  match w with W_Registered h | W_Serving h | W_Leaving h => [h] | _ => [] end.

Definition acceptor_handle (a : Acceptor) : list Z := match a with A_Holding h => [h] | _ => [] end.
Definition listener_handle (l : TcpListener) : list Z :=
  if listener_socket l =? kInvalidSocket then [] else [listener_socket l].

Definition owned (s : FabricServer) : list Z :=
  listener_handle (sv_listener s) ++ acceptor_handle (sv_acceptor s) ++ sv_queue s ++ concat (worker_handle <$> sv_workers s).

(** Changing one worker changes its own share only. *)
Lemma worker_share (f : Worker -> list Z) ws i w :
  ws !! i = Some w ->
  exists rest, concat (f <$> ws) ≡ₚ f w ++ rest /\ forall w', concat (f <$> <[i := w']> ws) ≡ₚ f w' ++ rest.
Proof.
  intros H. exists (concat (f <$> take i ws) ++ concat (f <$> drop (S i) ws)). split.
  - rewrite <- (take_drop_middle ws i w H) at 1. rewrite fmap_app, fmap_cons, concat_app. cbn [concat].
    by rewrite Permutation_app_swap_app.
  - intros w'. rewrite insert_take_drop by (by eapply lookup_lt_Some). rewrite fmap_app, fmap_cons, concat_app. cbn [concat].
    by rewrite Permutation_app_swap_app.
Qed.

Lemma erase_first_perm h l : h ∈ l -> l ≡ₚ h :: erase_first h l.
Proof.
  induction l as [|x l IH]; [by intros ?%elem_of_nil|]. cbn [erase_first].
  destruct (Z.eqb_spec x h) as [->|Hne]; [done|]. intros [->|Hh]%elem_of_cons; [done|].
  rewrite Permutation_swap. by rewrite <- IH.
Qed.

Lemma bind_handles os e handles l handles' :
  bind os e handles = (Value l, handles') -> handles' = {[listener_socket l]} ∪ handles.
Proof.
  unfold bind. intros H. repeat (case_match; try discriminate). by injection H as <- <-.
Qed.

(** ** The invariant *)

Section Invariant.
Context (limits : TransportLimits) (base : gset Z).

(** The parts that depend on where [stop] is. *)
Record phase_ok (s : FabricServer) : Prop := {
  ph_running : sv_running s = true -> sv_phase s = P_None /\ sv_started s = true;
  ph_started : sv_started s = true -> sv_phase s = P_None /\ sv_running s = true;
  ph_rest : sv_phase s = P_None -> sv_started s = false ->
    sv_acceptor s = A_Absent /\ sv_workers s = [] /\ sv_queue s = [] /\ listener_socket (sv_listener s) = kInvalidSocket;
  ph_listener : sv_phase s <> P_None -> sv_phase s <> P_Flagged -> listener_socket (sv_listener s) = kInvalidSocket;
  ph_joined : sv_phase s = P_Joined \/ sv_phase s = P_Shut \/ sv_phase s = P_Requested -> sv_acceptor s = A_Absent;
  ph_shut : sv_phase s = P_Shut \/ sv_phase s = P_Requested -> forall h, W_Serving h ∈ sv_workers s -> h ∈ sv_shut s;
  ph_live : sv_started s = true \/ sv_phase s = P_Flagged \/ sv_phase s = P_Unlistened -> sv_acceptor s <> A_Absent
}.

Record server_inv (s : FabricServer) : Prop := {
  inv_handles : accounts base (owned s) (sv_handles s);
  inv_active : sv_active s ≡ₚ concat (worker_active <$> sv_workers s);
  inv_queue : Zlen (sv_queue s) <= Z.max 0 (max_connections limits);
  inv_workers : Zlen (sv_workers s) <= 16;
  inv_phase : phase_ok s
}.

Lemma new_server_inv : server_inv (new_server base).
Proof.
  split; [split; cbn; [apply NoDup_nil_2|set_solver|set_solver|set_solver]|done|..|]; [unfold Zlen; cbn; lia..|].
  split; cbn; naive_solver.
Qed.

(** *** Workers *)

(** What the server owns, with the share of worker [i] and the queue in front. *)
Lemma owned_worker s s' i w w' :
  sv_workers s !! i = Some w -> sv_workers s' = <[i := w']> (sv_workers s) -> sv_listener s' = sv_listener s ->
  sv_acceptor s' = sv_acceptor s ->
  exists rest, owned s ≡ₚ worker_handle w ++ sv_queue s ++ rest /\ owned s' ≡ₚ worker_handle w' ++ sv_queue s' ++ rest.
Proof.
  intros H E1 E2 E3. destruct (worker_share worker_handle (sv_workers s) i w H) as (r & Hr & Hr').
  exists (listener_handle (sv_listener s) ++ acceptor_handle (sv_acceptor s) ++ r). unfold owned.
  rewrite E1, E2, E3, Hr, Hr'. split; solve_Permutation.
Qed.

Lemma active_worker s i w w' :
  server_inv s -> sv_workers s !! i = Some w ->
  exists rest, sv_active s ≡ₚ worker_active w ++ rest /\
    concat (worker_active <$> <[i := w']> (sv_workers s)) ≡ₚ worker_active w' ++ rest.
Proof.
  intros Hinv H. destruct (worker_share worker_active (sv_workers s) i w H) as (r & Hr & Hr').
  exists r. split; [|done]. by rewrite (inv_active _ Hinv).
Qed.

(** The phase conditions survive a change of a worker that does not begin a turn. *)
Lemma phase_worker s s' i w' :
  phase_ok s -> sv_running s' = sv_running s -> sv_started s' = sv_started s -> sv_phase s' = sv_phase s ->
  sv_acceptor s' = sv_acceptor s -> sv_listener s' = sv_listener s -> sv_shut s' = sv_shut s ->
  sv_workers s' = <[i := w']> (sv_workers s) -> (sv_queue s = [] -> sv_queue s' = []) ->
  (forall h, w' = W_Serving h -> sv_running s = true) -> phase_ok s'.
Proof.
  intros [H1 H2 H3 H4 H5 H6 H7] E1 E2 E3 E4 E5 E6 Hw Hq Hs. split; rewrite ?E1, ?E2, ?E3, ?E4, ?E5, ?E6, ?Hw; try done.
  - intros Hp Hst. destruct (H3 Hp Hst) as (? & E & ? & ?). rewrite E. split_and!; try done. by apply Hq.
  - intros Hp h Hin. apply list_elem_of_lookup in Hin as (j & Hj). destruct (decide (i = j)) as [<-|Hne].
    + apply list_lookup_insert_Some in Hj as [(_ & -> & _)|[? _]]; [|done].
      destruct (H1 (Hs h eq_refl)) as [E _]. rewrite E in Hp. by destruct Hp.
    + rewrite list_lookup_insert_ne in Hj by done. eapply H6; [done|]. by eapply list_elem_of_lookup_2.
Qed.

Lemma worker_inv s s' i w w' :
  server_inv s -> sv_workers s !! i = Some w -> sv_workers s' = <[i := w']> (sv_workers s) ->
  sv_listener s' = sv_listener s -> sv_acceptor s' = sv_acceptor s -> sv_running s' = sv_running s ->
  sv_started s' = sv_started s -> sv_phase s' = sv_phase s -> sv_shut s' = sv_shut s ->
  (forall rest, accounts base (worker_handle w ++ sv_queue s ++ rest) (sv_handles s) ->
    accounts base (worker_handle w' ++ sv_queue s' ++ rest) (sv_handles s')) ->
  (forall r, sv_active s ≡ₚ worker_active w ++ r -> sv_active s' ≡ₚ worker_active w' ++ r) ->
  Zlen (sv_queue s') <= Zlen (sv_queue s) -> (sv_queue s = [] -> sv_queue s' = []) ->
  (forall h, w' = W_Serving h -> sv_running s = true) -> server_inv s'.
Proof.
  intros Hinv Hi E1 E2 E3 E4 E5 E6 E7 Hown Hact Hq Hq0 Hserve. pose proof Hinv as [H1 H2 H3 H4 H5].
  destruct (owned_worker s s' i w w' Hi E1 E2 E3) as (rest & P & P').
  destruct (active_worker s i w w' Hinv Hi) as (r & A & A').
  split.
  - rewrite P'. apply Hown. by rewrite <- P.
  - rewrite E1, A'. by apply Hact.
  - lia.
  - rewrite E1. unfold Zlen in *. by rewrite length_insert.
  - by eapply phase_worker.
Qed.
End Invariant.

Section Steps.
Context {St Io : Type} `{!RequestHandler St Io}.
Context (limits : TransportLimits) (base : gset Z).

Lemma worker_step_inv i peer s s' :
  worker_step (Io := Io) limits i peer s s' -> server_inv limits base s -> server_inv limits base s'.
Proof.
  intros Hstep Hinv. destruct Hstep as [s w q Hi Hh|s Hi Hp|s h Hi|s h Hi Hr|s h Hi Hr|s h Hi|s h io answers w st t l Hi Hs Ht|s h Hi|s h Hi].
  - unfold worker_head in Hh. destruct (sv_queue s) as [|h q'] eqn:Eq.
    + destruct (sv_running s); [done|]. injection Hh as <- <-.
      eapply worker_inv; [exact Hinv|exact Hi|try done..]; by rewrite Eq.
    + injection Hh as <- <-. eapply worker_inv; [exact Hinv|exact Hi|try done..].
      * intros rest. rewrite Eq. cbn. done.
      * rewrite Eq. cbn. rewrite Zlen_cons. lia.
      * by rewrite Eq.
  - by eapply worker_inv; [exact Hinv|exact Hi|..].
  - eapply worker_inv; [exact Hinv|exact Hi|try done..]. intros r E. cbn in *. by rewrite E, Permutation_app_comm.
  - eapply worker_inv; [exact Hinv|exact Hi|try done..].
  - eapply worker_inv; [exact Hinv|exact Hi|try done..].
  - eapply worker_inv; [exact Hinv|exact Hi|try done..].
  - destruct t; [|..|done]; (eapply worker_inv; [exact Hinv|exact Hi|try done..]).
  - eapply worker_inv; [exact Hinv|exact Hi|try done..]. intros r E. cbn in *.
    assert (h ∈ sv_active s) as Hin by (rewrite E; left).
    apply erase_first_perm in Hin. apply (Permutation_cons_inv (a := h)). by rewrite <- Hin.
  - eapply worker_inv; [exact Hinv|exact Hi|try done..]. intros rest Ha. cbn in *. by apply accounts_close.
Qed.

(** *** The accept thread *)

Lemma accept_inv s s' :
  server_inv limits base s -> sv_acceptor s <> A_Absent -> sv_acceptor s' <> A_Absent ->
  sv_workers s' = sv_workers s -> sv_listener s' = sv_listener s -> sv_running s' = sv_running s ->
  sv_started s' = sv_started s -> sv_phase s' = sv_phase s -> sv_active s' = sv_active s ->
  (forall rest, accounts base (acceptor_handle (sv_acceptor s) ++ sv_queue s ++ rest) (sv_handles s) ->
    accounts base (acceptor_handle (sv_acceptor s') ++ sv_queue s' ++ rest) (sv_handles s')) ->
  Zlen (sv_queue s') <= Z.max 0 (max_connections limits) -> server_inv limits base s'.
Proof.
  intros [H1 H2 H3 H4 [P1 P2 P3 P4 P5 P6 P7]] Ha Ha' E1 E2 E3 E4 E5 E6 Hown Hq.
  split; rewrite ?E1, ?E6; try done.
  - set (rest := listener_handle (sv_listener s) ++ concat (worker_handle <$> sv_workers s)).
    assert (owned s ≡ₚ acceptor_handle (sv_acceptor s) ++ sv_queue s ++ rest) as O
      by (unfold owned, rest; solve_Permutation).
    assert (owned s' ≡ₚ acceptor_handle (sv_acceptor s') ++ sv_queue s' ++ rest) as O'
      by (unfold owned, rest; rewrite E1, E2; solve_Permutation).
    rewrite O'. apply Hown. by rewrite <- O.
  - split; rewrite ?E1, ?E2, ?E3, ?E4, ?E5; try done.
    + intros Hp Hs. by destruct (P3 Hp Hs).
    + intros Hp. by destruct (Ha (P5 Hp)).
    + intros Hp h. destruct (Ha (P5 (or_intror Hp))).
Qed.

Lemma accept_step_inv peer s s' :
  accept_step limits peer s s' -> server_inv limits base s -> server_inv limits base s'.
Proof.
  intros Hstep Hinv. pose proof (inv_queue _ _ _ Hinv) as Hq.
  destruct Hstep as [s E Hr|s E Hr|s E|s E|s h E Hl Hv Hf|s h E].
  1-4: apply (accept_inv s); try done; by rewrite E.
  - apply (accept_inv s); try done; [by rewrite E|]. rewrite E. cbn. intros rest H. by apply accounts_open.
  - unfold hand_over. cbn [sv_queue with_acceptor]. destruct (Z.ltb_spec (Zlen (sv_queue s)) (max_connections limits)).
    + apply (accept_inv s); try done; [by rewrite E| |].
      * rewrite E. cbn. intros rest H'. rewrite <- (assoc_L (++)). by rewrite Permutation_app_swap_app.
      * cbn. rewrite Zlen_app. change (Zlen [h]) with 1. lia.
    + apply (accept_inv s); try done; [by rewrite E|]. rewrite E. cbn. intros rest H'. by apply accounts_close.
Qed.

(** *** [start] and [stop] *)

Lemma idle_handles n : concat (worker_handle <$> replicate n W_Idle) = [] /\ concat (worker_active <$> replicate n W_Idle) = [].
Proof. induction n as [|n [IH1 IH2]]; [done|]. cbn. by rewrite IH1, IH2. Qed.

Lemma start_inv os e s l handles :
  sv_running s = false -> sv_phase s = P_None -> sv_workers s = [] -> sv_acceptor s = A_Absent ->
  listener_socket (sv_listener s) = kInvalidSocket -> bind os e (sv_handles s) = (Value l, handles) ->
  listener_socket l <> kInvalidSocket -> listener_socket l ∉ sv_handles s ->
  server_inv limits base s -> server_inv limits base (server_started limits l handles s).
Proof.
  intros Hr Hp Hw Ha Hl Hb Hv Hf [H1 H2 H3 H4 [P1 P2 P3 P4 P5 P6 P7]]. apply bind_handles in Hb as ->.
  destruct (idle_handles (Z.to_nat (worker_count limits))) as [I1 I2].
  split; cbn [server_started sv_workers sv_active sv_queue sv_handles]; try done.
  - unfold owned in *. cbn [server_started sv_listener sv_acceptor sv_queue sv_workers acceptor_handle]. rewrite I1.
    rewrite Hw, Ha in H1. unfold listener_handle in *. rewrite Hl in H1. cbn in H1.
    destruct (Z.eqb_spec (listener_socket l) kInvalidSocket); [done|]. cbn. by apply accounts_open.
  - rewrite I2, H2, Hw. done.
  - unfold Zlen. rewrite length_replicate. unfold worker_count. lia.
  - split; cbn; rewrite ?Hp; naive_solver.
Qed.

Lemma returned_handles ws : Forall (eq W_Returned) ws -> concat (worker_handle <$> ws) = [] /\ concat (worker_active <$> ws) = [].
Proof. induction 1 as [|w ws <- _ [IH1 IH2]]; [done|]. cbn. by rewrite IH1, IH2. Qed.

Lemma serving_active ws h : W_Serving h ∈ ws -> h ∈ concat (worker_active <$> ws).
Proof.
  intros H. apply list_elem_of_In, in_concat. exists [h]. split; [|by left].
  apply list_elem_of_In, list_elem_of_fmap. by exists (W_Serving h).
Qed.

Lemma stopping_flags s : phase_ok s -> sv_phase s <> P_None -> sv_running s = false /\ sv_started s = false.
Proof.
  intros [P1 P2 _ _ _ _ _] Hp. split; apply not_true_is_false; intros H; [apply P1 in H|apply P2 in H]; naive_solver.
Qed.

(** Conditions on phases: every case is decided by the phase at hand. *)
Ltac phases :=
  intros; repeat match goal with H : _ \/ _ |- _ => destruct H end; try congruence;
  try (exfalso; congruence); split_and?; auto; try congruence.

Lemma stop_step_inv s s' : stop_step s s' -> server_inv limits base s -> server_inv limits base s'.
Proof.
  intros Hstep Hinv. pose proof Hinv as [H1 H2 H3 H4 HP]. pose proof HP as [P1 P2 P3 P4 P5 P6 P7].
  pose proof (stopping_flags s HP) as Hst.
  destruct Hstep as [s Hp Hs|s Hp|s Hp Ha|s Hp|s Hp|s Hp Hw]; try (rewrite Hp in Hst; destruct Hst as [Hr Hs]; [done|]).
  - split; try done. split; cbn; phases.
  - pose proof (P7 (or_intror (or_introl Hp))) as Ha. unfold stop_listener, listener_close.
    destruct (Z.eqb_spec (listener_socket (sv_listener s)) kInvalidSocket) as [El|El].
    + split; try done. split; cbn; phases.
    + split; cbn; try done; [|split; cbn; phases].
      unfold owned, listener_handle in *. cbn [sv_listener sv_acceptor sv_queue sv_workers listener_socket] in *.
      destruct (Z.eqb_spec (listener_socket (sv_listener s)) kInvalidSocket); [done|]. by apply accounts_close.
  - assert (listener_socket (sv_listener s) = kInvalidSocket) by (apply P4; by rewrite Hp).
    split; try done; [|split; cbn; phases]. unfold owned in *. by rewrite Ha in H1.
  - assert (listener_socket (sv_listener s) = kInvalidSocket) by (apply P4; by rewrite Hp).
    assert (sv_acceptor s = A_Absent) by (apply P5; auto). split; try done. split; cbn; phases.
    all: apply elem_of_union; left; apply elem_of_list_to_set; rewrite H2; by apply serving_active.
  - assert (listener_socket (sv_listener s) = kInvalidSocket) by (apply P4; by rewrite Hp).
    assert (sv_acceptor s = A_Absent) by (apply P5; auto). split; try done. split; cbn; phases.
  - assert (listener_socket (sv_listener s) = kInvalidSocket) as Hl by (apply P4; by rewrite Hp).
    assert (sv_acceptor s = A_Absent) as Ha by (apply P5; auto).
    destruct (returned_handles _ Hw) as [R1 R2]. unfold stop_finish. split; cbn [sv_handles sv_active sv_queue sv_workers].
    + unfold owned, listener_handle in *. cbn [sv_listener sv_acceptor sv_queue sv_workers].
      rewrite R1, Ha, Hl in H1. rewrite Ha, Hl. by apply (accounts_close_all base _ []).
    + by rewrite H2, R2.
    + unfold Zlen. cbn. lia.
    + unfold Zlen. cbn. lia.
    + split; cbn; phases.
Qed.

Lemma server_step_inv peer s s' :
  server_step (Io := Io) limits peer s s' -> server_inv limits base s -> server_inv limits base s'.
Proof.
  intros [os e s0 l handles ? ? ? ? ? ? ? ?|p s0 s1 H|i p s0 s1 H|s0 s1 H].
  - by eapply start_inv.
  - by eapply accept_step_inv.
  - by eapply worker_step_inv.
  - by apply stop_step_inv.
Qed.

Lemma reachable_inv s : reachable (Io := Io) limits base s -> server_inv limits base s.
Proof. induction 1; [apply new_server_inv|by eapply server_step_inv]. Qed.

(** ** Stopping *)

Definition phase_rank (p : StopPhase) : nat :=
  match p with P_None => 0 | P_Requested => 1 | P_Shut => 2 | P_Joined => 3 | P_Unlistened => 4 | P_Flagged => 5 end.
Definition acceptor_rank (a : Acceptor) : nat :=
  match a with A_Absent | A_Returned => 0 | A_Head => 1 | A_Holding _ => 7 | A_Accepting => 8 end.
Definition worker_rank (w : Worker) : nat :=
  match w with
  | W_Returned => 0 | W_Idle => 1 | W_Closing _ => 2 | W_Leaving _ => 3 | W_Registered _ => 4 | W_Serving _ | W_Holding _ => 5
  end.

(** How much is left to do once [stop] is under way. *)
Definition work_left (s : FabricServer) : nat :=
  phase_rank (sv_phase s) + acceptor_rank (sv_acceptor s) + 5 * List.length (sv_queue s)
  + sum_list (worker_rank <$> sv_workers s).

Lemma sum_insert ws i w w' :
  ws !! i = Some w ->
  (sum_list (worker_rank <$> <[i := w']> ws) + worker_rank w = sum_list (worker_rank <$> ws) + worker_rank w')%nat.
Proof.
  revert i. induction ws as [|x ws IH]; intros [|i] H; [done|done| |].
  - injection H as ->. cbn. lia.
  - change (<[S i := w']> (x :: ws)) with (x :: <[i := w']> ws). rewrite !fmap_cons. specialize (IH i H).
    cbn [sum_list_with]. unfold id in *. lia.
Qed.

Ltac ranks := simpl worker_rank in *; simpl List.length in *; lia.

Lemma worker_step_less i peer s s' :
  worker_step (Io := Io) limits i peer s s' -> sv_running s = false -> (work_left s' < work_left s)%nat.
Proof.
  intros Hstep Hr. unfold work_left.
  destruct Hstep as [s w q Hi Hh|s Hi Hp|s h Hi|s h Hi Hr'|s h Hi Hr'|s h Hi|s h io answers w st t l Hi Hs Ht|s h Hi|s h Hi];
    pose proof (fun w' => sum_insert _ _ _ w' Hi) as Hsum; cbn [with_worker with_queue with_stats with_closed register_active unregister_active sv_phase sv_acceptor sv_queue sv_workers] in *; try congruence.
  - unfold worker_head in Hh. destruct (sv_queue s) as [|h q'] eqn:Eq.
    + rewrite Hr in Hh. injection Hh as <- <-. specialize (Hsum W_Returned). ranks.
    + injection Hh as <- <-. specialize (Hsum (W_Holding h)). ranks.
  - specialize (Hsum W_Returned). ranks.
  - specialize (Hsum (W_Registered h)). ranks.
  - specialize (Hsum (W_Leaving h)). ranks.
  - specialize (Hsum (W_Leaving h)). ranks.
  - destruct t; [specialize (Hsum (W_Registered h))|specialize (Hsum (W_Leaving h))|done]; ranks.
  - specialize (Hsum (W_Closing h)). ranks.
  - specialize (Hsum W_Idle). ranks.
Qed.

Lemma accept_step_less peer s s' :
  accept_step limits peer s s' -> sv_running s = false -> (work_left s' < work_left s)%nat.
Proof.
  intros Hstep Hr. unfold work_left. destruct Hstep as [s E Hr'|s E Hr'|s E|s E|s h E Hl Hv Hf|s h E]; try congruence;
    try (cbn; rewrite E; cbn; lia).
  unfold hand_over. cbn [sv_queue with_acceptor]. destruct (_ <? _); cbn -[sum_list]; rewrite E; cbn -[sum_list].
  - rewrite length_app. cbn [List.length]. lia.
  - lia.
Qed.

Lemma stop_step_less s s' : stop_step s s' -> sv_phase s <> P_None -> (work_left s' < work_left s)%nat.
Proof.
  intros Hstep Hne. unfold work_left. destruct Hstep as [s Hp Hs|s Hp|s Hp Ha|s Hp|s Hp|s Hp Hw]; try done;
    try (cbn -[sum_list]; rewrite Hp; cbn -[sum_list]; rewrite ?Ha; cbn -[sum_list]; lia).
  - unfold stop_listener, listener_close. destruct (_ =? _); cbn -[sum_list]; rewrite Hp; cbn -[sum_list]; lia.
  - rewrite Hp. cbn [stop_finish sv_phase sv_acceptor sv_queue sv_workers phase_rank fmap list_fmap sum_list_with List.length]. lia.
Qed.

Lemma server_step_less peer s s' :
  server_step (Io := Io) limits peer s s' -> sv_phase s <> P_None -> sv_running s = false -> (work_left s' < work_left s)%nat.
Proof.
  intros [os e s0 l handles ? ? ? ? ? ? ? ?|p s0 s1 H|i p s0 s1 H|s0 s1 H] Hne Hr; [done|..].
  - by eapply accept_step_less.
  - by eapply worker_step_less.
  - by apply stop_step_less.
Qed.

(** On a socket that has been shut down, with nothing left to read, a turn ends the connection. *)
Lemma serve_frame_cut h (io : Io) answers stats (st : St) :
  exists l, serve_frame limits h io answers (MkLine [] stats st []) = (Breaks, l).
Proof.
  assert (exists e, read_frame h limits [] = (Failure e, []) /\ answers_failure (code e) = false) as (e & Hr & Ha).
  { unfold read_frame, conn_read_all. destruct (negb (valid h)); cbn; eexists; split; reflexivity. }
  unfold serve_frame. cbn [ln_wire]. rewrite Hr, Ha. by eexists.
Qed.

(** A worker that is not done has a step of its own that needs no peer. *)
Lemma worker_can_step (st : St) (io : Io) s i w :
  server_inv limits base s -> sv_phase s = P_Requested -> sv_workers s !! i = Some w -> w <> W_Returned ->
  exists s', worker_step (Io := Io) limits i false s s'.
Proof.
  intros Hinv Hp Hi Hw. destruct w as [|h|h|h|h|h|]; [..|done].
  - eexists. by apply ws_requested.
  - eexists. by eapply ws_register.
  - eexists. by eapply ws_exhausted.
  - assert (h ∈ sv_shut s) as Hs.
    { apply (ph_shut _ (inv_phase _ _ _ Hinv)); [by right|]. by eapply list_elem_of_lookup_2. }
    destruct (serve_frame_cut h io [] (sv_stats s) st) as [l E].
    pose proof (ws_served limits i s h io [] [] st Breaks l Hi E ltac:(done)) as H.
    rewrite bool_decide_true in H by done. eexists. exact H.
  - eexists. by eapply ws_unregister.
  - eexists. by eapply ws_close.
Qed.

Lemma stop_can_step (st : St) (io : Io) s :
  server_inv limits base s -> sv_phase s <> P_None -> exists s', server_step (Io := Io) limits false s s'.
Proof.
  intros Hinv Hne. destruct (stopping_flags s (inv_phase _ _ _ Hinv) Hne) as [Hr Hs].
  destruct (sv_phase s) eqn:Hp; [done|..].
  - eexists. by apply st_stop, ss_listener.
  - pose proof (ph_live _ (inv_phase _ _ _ Hinv) (or_intror (or_intror Hp))) as Hl.
    destruct (sv_acceptor s) as [| | |h|] eqn:Ha; [done|..].
    + eexists. by apply st_accept, as_leave.
    + eexists. by apply st_accept, as_deadline.
    + eexists. by eapply st_accept, as_hand_over.
    + eexists. by apply st_stop, ss_join.
  - eexists. by apply st_stop, ss_shutdown.
  - eexists. by apply st_stop, ss_request.
  - destruct (decide (Forall (eq W_Returned) (sv_workers s))) as [Hw|Hw].
    + eexists. by apply st_stop, ss_finish.
    + apply not_Forall_Exists, Exists_exists in Hw as (w & Hin & Hw); [|apply _]. apply list_elem_of_lookup in Hin as (i & Hi).
      destruct (worker_can_step st io s i w Hinv Hp Hi) as (s' & H'); [by intros ->|].
      exists s'. by eapply st_worker.
Qed.
End Steps.

(** ** What the server promises *)

(** Every run of the threads from [s] ends, whatever the interleaving, without the help of a
    peer, with no worker left and every handle given back. *)
Inductive stops {St Io : Type} `{!RequestHandler St Io} (limits : TransportLimits) (base : gset Z) (s : FabricServer) : Prop :=
| stops_done : sv_phase s = P_None -> sv_started s = false -> sv_workers s = [] -> sv_active s = [] ->
    sv_handles s = base -> stops limits base s
| stops_later : (exists s', server_step (Io := Io) limits false s s') ->
    (forall peer s', server_step (Io := Io) limits peer s s' -> stops limits base s') -> stops limits base s.

Section Promises.
Context {St Io : Type} `{!RequestHandler St Io}.
Context (limits : TransportLimits) (base : gset Z).

Lemma rest_handles s :
  server_inv limits base s -> sv_phase s = P_None -> sv_started s = false ->
  sv_workers s = [] /\ sv_active s = [] /\ sv_handles s = base.
Proof.
  intros [[_ _ _ He] Hact _ _ HP] Hp Hs. destruct (ph_rest _ HP Hp Hs) as (Ha & Hw & Hq & Hl). split_and!; [done|..].
  - rewrite Hw in Hact. by apply Permutation_nil_r in Hact.
  - rewrite He. unfold owned, listener_handle. rewrite Ha, Hw, Hq, Hl. cbn. set_solver.
Qed.

(** A step while [stop] is under way leaves it under way, or is its last. *)
Lemma stop_goes_on peer s s' :
  server_step (Io := Io) limits peer s s' -> sv_phase s <> P_None ->
  sv_phase s' <> P_None \/ (sv_phase s' = P_None /\ sv_started s' = sv_started s).
Proof.
  intros [os e s0 l handles ? ? ? ? ? ? ? ?|p s0 s1 H|i p s0 s1 H|s0 s1 H] Hne; [done|left|left|].
  - destruct H; try done. unfold hand_over. by case_match.
  - by destruct H.
  - destruct H; try (left; done); [left|by right]. unfold stop_listener, listener_close. by case_match.
Qed.

Lemma stops_by (st : St) (io : Io) n s :
  (work_left s < n)%nat -> server_inv limits base s -> sv_phase s <> P_None -> stops (Io := Io) limits base s.
Proof.
  revert s. induction n as [|n IH]; intros s Hn Hinv Hne; [lia|]. apply stops_later; [by eapply stop_can_step|].
  intros peer s' Hstep. destruct (stopping_flags s (inv_phase _ _ _ Hinv) Hne) as [Hr Hs].
  pose proof (server_step_less _ _ _ _ Hstep Hne Hr). pose proof (server_step_inv _ _ _ _ _ Hstep Hinv) as Hinv'.
  destruct (stop_goes_on _ _ _ Hstep Hne) as [Hne'|[Hp' Hs']]; [apply IH; [lia|done..]|]. rewrite Hs in Hs'.
  destruct (rest_handles _ Hinv' Hp' Hs') as (? & ? & ?). by apply stops_done.
Qed.

Lemma active_held s h :
  server_inv limits base s -> h ∈ sv_active s -> h ∈ sv_handles s /\ exists w, w ∈ sv_workers s /\ worker_handle w = [h].
Proof.
  intros [[_ _ _ He] Hact _ _ _] Hh. rewrite Hact in Hh. apply list_elem_of_In, in_concat in Hh as (x & Hx & Hin).
  apply list_elem_of_In, list_elem_of_fmap in Hx as (w & -> & Hw). assert (worker_handle w = [h]) as E.
  { destruct w; cbn in Hin; try done; by destruct Hin as [->|[]]. }
  split; [|by exists w]. rewrite He. apply elem_of_union; right. apply elem_of_list_to_set. unfold owned.
  rewrite !elem_of_app. do 3 right. apply list_elem_of_In, in_concat. exists [h]. split; [|by left].
  rewrite <- E. by apply list_elem_of_In, list_elem_of_fmap_2.
Qed.

(** C9: in every interleaving of the threads each open socket is held by exactly one of the
    listener, the accept thread, the queue and the workers; a socket on the list of active
    sockets is one that a worker still holds open, so [stop] never shuts down a handle that was
    closed and given to someone else; the queue and the pool keep their bounds; and a server
    that is stopped holds nothing. *)
Theorem server_handles_accounted s :
  reachable (Io := Io) limits base s ->
  accounts base (owned s) (sv_handles s) /\
  (forall h, h ∈ sv_active s -> h ∈ sv_handles s /\ exists w, w ∈ sv_workers s /\ worker_handle w = [h]) /\
  Zlen (sv_queue s) <= Z.max 0 (max_connections limits) /\ Zlen (sv_workers s) <= 16 /\
  (sv_phase s = P_None -> sv_started s = false -> sv_workers s = [] /\ sv_active s = [] /\ sv_handles s = base).
Proof.
  intros Hinv%reachable_inv. pose proof Hinv as [H1 _ H3 H4 _]. split_and!; try done.
  - intros h. by apply active_held.
  - by apply rest_handles.
Qed.

(** C11: once [stop] has passed over the list of active sockets, every worker that is inside a
    turn is on a socket that was shut down, so its read returns: none slipped in behind. *)
Theorem stop_wakes_every_reader s h :
  reachable (Io := Io) limits base s -> sv_phase s = P_Shut \/ sv_phase s = P_Requested ->
  W_Serving h ∈ sv_workers s -> h ∈ sv_shut s.
Proof. intros Hinv%reachable_inv Hp. by apply (ph_shut _ (inv_phase _ _ _ Hinv)). Qed.

End Promises.

(** ** A run: a connection is accepted, a worker reads from it, and the server is stopped *)
Module Sample_server.
Definition before_start : gset Z := {[0; 1; 2]}.
Definition limits : TransportLimits := default_transport_limits.
Definition bound : Outcome TcpListener * gset Z := bind Sample_wire.socket_os (MkEndpoint "127.0.0.1" 0) before_start.
Definition listener : TcpListener := match bound.1 with Value l => l | Failure _ => no_listener end.

Definition started : FabricServer := server_started limits listener bound.2 (new_server before_start).
Definition holding : FabricServer := with_acceptor (A_Holding 7) (with_new_handle 7 (with_acceptor A_Accepting started)).
Definition queued : FabricServer := hand_over limits 7 holding.
Definition registered : FabricServer := with_worker 3 (W_Registered 7) (register_active 7 (with_worker 3 (W_Holding 7) (with_queue [] queued))).
Definition serving : FabricServer := with_worker 3 (W_Serving 7) registered.
Definition stopping : FabricServer := stop_flags serving.
Definition joined : FabricServer := with_phase P_Joined (with_acceptor A_Absent (with_acceptor A_Returned (stop_listener stopping))).
Definition shut : FabricServer := with_phase P_Shut (shutdown_active joined).

Abbreviation reach := (reachable (Io := ServiceIo) limits before_start).

Lemma serving_reached : reach serving.
Proof.
  assert (reach started) as H1.
  { eapply reach_step; [apply reach_new|]. by apply (st_start _ Sample_wire.socket_os (MkEndpoint "127.0.0.1" 0)). }
  assert (reach holding) as H2.
  { eapply reach_step; [eapply reach_step; [exact H1|by apply st_accept, as_enter]|]. apply st_accept. by apply as_connection. }
  assert (reach queued) as H3 by (eapply reach_step; [exact H2|by apply st_accept, as_hand_over]).
  assert (reach registered) as H4.
  { eapply reach_step; [eapply reach_step; [exact H3|]|].
    - eapply (st_worker _ 3). by apply (ws_head _ 3 _ (W_Holding 7) []).
    - eapply (st_worker _ 3). by apply ws_register. }
  eapply reach_step; [exact H4|]. eapply (st_worker _ 3). by apply ws_turn.
Qed.

Lemma stopping_reached : reach stopping.
Proof. eapply reach_step; [exact serving_reached|]. by apply st_stop, ss_begin. Qed.

Lemma shut_reached : reach shut.
Proof.
  eapply reach_step; [eapply reach_step; [eapply reach_step; [eapply reach_step; [exact stopping_reached|]|]|]|].
  - by apply st_stop, ss_listener.
  - by apply st_accept, as_leave.
  - by apply st_stop, ss_join.
  - by apply st_stop, ss_shutdown.
Qed.
End Sample_server.
Import Sample_server.

Lemma server_handles_accounted_witness :
  accounts before_start (owned serving) (sv_handles serving) /\ sv_active serving = [7] /\ 7 ∈ sv_handles serving.
Proof.
  destruct (server_handles_accounted limits before_start serving serving_reached) as (H & Ha & _).
  split_and!; [exact H|reflexivity|apply Ha; by left].
Defined.

Lemma stop_wakes_every_reader_witness : 7 ∈ sv_shut shut.
Proof.
  apply (stop_wakes_every_reader limits before_start shut 7 shut_reached); [by left|].
  apply (list_elem_of_lookup_2 _ 3). reflexivity.
Defined.

