(* ===== verification/Spec.v ===== *)
(** * The textual fabric specification (include/slf/spec.hpp, src/spec.cpp)

    [parse_spec] reads a text line by line into a builder and freezes it;
    [format_spec] prints a fabric. Texts are byte strings; the positions of the
    tokenizer are the remaining bytes. *)
From S2P Require Import Prelude Status Checked Identity Bytes Digest Model Builder.

(** ** Tokens *)

Record Token := MkToken { tk_key : string; tk_value : string; tk_quoted : bool }.

Definition is_space (c : byte) : bool := bool_decide (c = x20) || bool_decide (c = x09) || bool_decide (c = x0d).

(** A double quote, and a text between two of them. *)
Definition dquote : string := text_of [x22].
Definition in_quotes (s : string) : string := dquote +:+ s +:+ dquote.

Definition escape_byte (c : byte) : list byte :=
  if bool_decide (c = x22) then [x5c; x22]
  else if bool_decide (c = x5c) then [x5c; x5c]
  else if bool_decide (c = x0a) then [x5c; x6e]
  else if bool_decide (c = x09) then [x5c; x74]
  else if bool_decide (c = x0d) then [x5c; x72]
  else [c].

Definition quote_value (text : string) : string :=
  text_of ([x22] ++ concat (escape_byte <$> bytes_of text) ++ [x22]).

(** [while (i < n && p(line[i])) ++i;] *)
Fixpoint span_while (p : byte -> bool) (l : list byte) : list byte * list byte :=
  match l with
  | [] => ([], [])
  | c :: r => if p c then let '(a, b) := span_while p r in (c :: a, b) else ([], l)
  end.

Definition skip_spaces (l : list byte) : list byte := (span_while is_space l).2.

Definition unescape_byte (c : byte) : option byte :=
  if bool_decide (c = x6e) then Some x0a
  else if bool_decide (c = x74) then Some x09
  else if bool_decide (c = x72) then Some x0d
  else if bool_decide (c = x22) then Some x22
  else if bool_decide (c = x5c) then Some x5c
  else None.

(** The bytes behind an opening quote: the value and what follows the closing one. *)
Fixpoint quoted_value (l : list byte) : Outcome (list byte * list byte) :=
  match l with
  | [] => fail SC_Invalid "unterminated quoted value"
  | c :: r =>
      if bool_decide (c = x5c) then
        match r with
        | [] => fail SC_Invalid "trailing backslash in a quoted value"
        | e :: r =>
            match unescape_byte e with
            | None => fail SC_Invalid "unsupported escape sequence in a quoted value"
            | Some b => '(v, rest) ← quoted_value r; Value (b :: v, rest)
            end
        end
      else if bool_decide (c = x22) then Value ([], r)
      else '(v, rest) ← quoted_value r; Value (c :: v, rest)
  end.

(** The value behind [=]: quoted or a word. *)
Definition token_value (l : list byte) : Outcome (string * bool * list byte) :=
  match l with
  | c :: r =>
      if bool_decide (c = x22) then '(v, rest) ← quoted_value r; Value (text_of v, true, rest)
      else let '(v, rest) := span_while (fun c => negb (is_space c)) l in
        match v with
        | [] => fail SC_Invalid "empty unquoted value"
        | _ => Value (text_of v, false, rest)
        end
  | [] => fail SC_Invalid "empty unquoted value"
  end.

Fixpoint tokens_loop (fuel : nat) (l : list byte) : Outcome (list Token) :=
  match fuel with
  | O => fail SC_Internal "out of fuel"
  | S fuel =>
      match skip_spaces l with
      | [] => Value []
      | l =>
          let '(key, rest) := span_while (fun c => negb (bool_decide (c = x3d)) && negb (is_space c)) l in
          match rest with
          | c :: rest =>
              if negb (bool_decide (c = x3d)) then fail SC_Invalid ("expected key=value near " +:+ in_quotes (text_of l))
              else match key with
              | [] => fail SC_Invalid "empty key in a key=value pair"
              | _ =>
                  '(value, quoted, rest) ← token_value rest;
                  tokens ← tokens_loop fuel rest;
                  Value (MkToken (text_of key) value quoted :: tokens)
              end
          | [] => fail SC_Invalid ("expected key=value near " +:+ in_quotes (text_of l))
          end
      end
  end.

Definition tokenize_line (line : list byte) : Outcome (list Token) :=
  match skip_spaces line with
  | [] => Value []
  | l =>
      let '(directive, rest) := span_while (fun c => negb (is_space c)) l in
      tokens ← tokens_loop (S (List.length rest)) rest;
      Value (MkToken (text_of directive) "" false :: tokens)
  end.

(** ** Arguments of a directive *)

Record Args := MkArgs { a_values : gmap string string; a_where : string; a_duplicate : string }.

Definition add_arg (a : Args) (t : Token) : Args :=
  MkArgs (<[tk_key t := tk_value t]> (a_values a)) (a_where a)
    (if bool_decide (is_Some (a_values a !! tk_key t)) then tk_key t else a_duplicate a).

Definition make_args (tokens : list Token) (where_ : string) : Args :=
  fold_left add_arg (tail tokens) (MkArgs ∅ where_ "").

Definition args_check (a : Args) : Status :=
  if bool_decide (a_duplicate a = "") then success
  else MkStatus SC_Invalid (a_where a +:+ ": duplicate key " +:+ in_quotes (a_duplicate a)).

(** A failed accessor names the key. *)
Definition key_fail {A} (a : Args) (c : StatusCode) (before key after : string) : Outcome A :=
  fail c (a_where a +:+ ": " +:+ before +:+ in_quotes key +:+ after).

Definition missing_key {A} (a : Args) (key : string) : Outcome A :=
  key_fail a SC_Invalid "missing required key " key "".

Definition arg_str (a : Args) (key : string) (required : bool) (max : Z) (fallback : string) : Outcome string :=
  match a_values a !! key with
  | None => if required then missing_key a key else Value fallback
  | Some v =>
      if bool_decide (v = "") then key_fail a SC_Invalid "key " key " is empty"
      else if strlen v >? max then key_fail a SC_Exhausted "key " key " exceeds the configured length bound"
      else if negb (is_valid_utf8 v) then key_fail a SC_Invalid "key " key " is not valid UTF-8"
      else Value v
  end.

Definition arg_u64 (a : Args) (key : string) (required : bool) (fallback : Z) : Outcome Z :=
  match a_values a !! key with
  | None => if required then missing_key a key else Value fallback
  | Some v =>
      match parse_u64 v with
      | None => key_fail a SC_Invalid "key " key " is not an unsigned decimal integer"
      | Some n => Value n
      end
  end.

Definition arg_u32 (a : Args) (key : string) (required : bool) (fallback : Z) : Outcome Z :=
  v ← arg_u64 a key required fallback;
  match checked_narrow_u32 v with
  | None => key_fail a SC_Overflow "key " key " does not fit in 32 bits"
  | Some n => Value n
  end.

Definition arg_bool (a : Args) (key : string) (required fallback : bool) : Outcome bool :=
  match a_values a !! key with
  | None => if required then missing_key a key else Value fallback
  | Some v =>
      if bool_decide (v = "true") then Value true
      else if bool_decide (v = "false") then Value false
      else key_fail a SC_Invalid "key " key " must be true or false"
  end.

(** Iteration over a [std::map<std::string, std::string>] is in byte order of the keys. *)
Definition entry_le (p q : string * string) : Prop := bytes_lt (bytes_of q.1) (bytes_of p.1) = false.

#[export] Instance entry_le_dec : RelDecision entry_le.
Proof. intros p q. unfold entry_le. apply _. Defined.

Definition reject_unknown (a : Args) (allowed : list string) : Status :=
  match List.find (fun p => negb (bool_decide (p.1 ∈ allowed))) (merge_sort entry_le (map_to_list (a_values a))) with
  | Some p => MkStatus SC_Invalid (a_where a +:+ ": unknown key " +:+ in_quotes p.1)
  | None => success
  end.

(** ** The parser's state *)

Record SpecLimits := MkSpecLimits {
  max_file_bytes : Z;
  max_line_bytes : Z;
  max_lines : Z;
  spec_max_name : Z;
  spec_builder : BuilderLimits
}.

Definition default_spec_limits : SpecLimits := MkSpecLimits (16 * 1024 * 1024) 8192 1000000 256 default_limits.

Record SpecState := MkSpec {
  sp_builder : option FabricBuilder;
  sp_options : FabricOptions;
  sp_generation : TopologyGeneration;
  sp_nodes_started : bool;
  sp_have_fabric : bool;
  sp_id : FabricId;
  sp_name : string;
  sp_site : string;
  sp_epoch : Epoch;
  sp_state : FabricState
}.

Definition initial_spec : SpecState := MkSpec None default_options 0 false false 0 "" "" 0 FS_Operational.

Definition with_spec_builder (b : FabricBuilder) (s : SpecState) : SpecState :=
  MkSpec (Some b) (sp_options s) (sp_generation s) (sp_nodes_started s) (sp_have_fabric s) (sp_id s) (sp_name s)
    (sp_site s) (sp_epoch s) (sp_state s).
Definition with_spec_options (o : FabricOptions) (s : SpecState) : SpecState :=
  MkSpec (sp_builder s) o (sp_generation s) (sp_nodes_started s) (sp_have_fabric s) (sp_id s) (sp_name s)
    (sp_site s) (sp_epoch s) (sp_state s).
Definition start_nodes (s : SpecState) : SpecState :=
  MkSpec (sp_builder s) (sp_options s) (sp_generation s) true (sp_have_fabric s) (sp_id s) (sp_name s)
    (sp_site s) (sp_epoch s) (sp_state s).

Definition fabric_first : string := "the fabric directive must appear before any other directive".

(** The builder is made when the first record needs it. *)
Definition spec_new_builder (limits : SpecLimits) (s : SpecState) : FabricBuilder :=
  new_builder (sp_id s) (sp_name s) (sp_generation s) (sp_epoch s) (sp_options s) (spec_builder limits).

Definition ensure_builder (limits : SpecLimits) (s : SpecState) : Outcome (FabricBuilder * SpecState) :=
  match sp_builder s with
  | Some b => Value (b, s)
  | None =>
      if negb (sp_have_fabric s) then fail SC_Invalid fabric_first
      else
        let b := spec_new_builder limits s in
        let '(st, b) := if bool_decide (sp_site s = "") then (success, b) else set_site b (sp_site s) in
        if negb (status_ok st) then Failure st
        else
          let '(st, b) := set_state b (sp_state s) in
          if negb (status_ok st) then Failure st else Value (b, with_spec_builder b s)
  end.

(** Adds a record, stopping at the builder's refusal. *)
Definition spec_add {R} (add : FabricBuilder -> R -> Status * FabricBuilder) (b : FabricBuilder) (s : SpecState) (r : R)
    : Outcome SpecState :=
  let '(st, b) := add b r in
  if negb (status_ok st) then Failure st else Value (with_spec_builder b s).

(** Any failing accessor makes the directive malformed. *)
Definition malformed {A} (a : Args) (what : string) (o : Outcome A) : Outcome A :=
  match o with
  | Value v => Value v
  | Failure _ => fail SC_Invalid (a_where a +:+ ": " +:+ what +:+ " directive has a malformed argument")
  end.

Definition unknown {A} (a : Args) (what value : string) : Outcome A :=
  fail SC_Invalid (a_where a +:+ ": unknown " +:+ what +:+ " " +:+ in_quotes value).

(** A parser of an enumeration, or the complaint that names the text. *)
Definition parsed_as {A} (a : Args) (what value : string) (o : option A) : Outcome A :=
  match o with Some v => Value v | None => unknown a what value end.

Definition spec_invalid {A} (a : Args) (tail : string) : Outcome A := fail SC_Invalid (a_where a +:+ ": " +:+ tail).

Definition require_generation (a : Args) (fallback : TopologyGeneration) : Outcome TopologyGeneration :=
  arg_u64 a "generation" false fallback.

(** ** Directives *)

Definition fabric_directive (limits : SpecLimits) (a : Args) (s : SpecState) : Outcome SpecState :=
  if sp_have_fabric s then spec_invalid a "the fabric directive may appear only once"
  else
    _ ← check (reject_unknown a ["id"; "name"; "site"; "generation"; "epoch"; "state"]);
    id ← arg_u64 a "id" true 0;
    name ← arg_str a "name" true (spec_max_name limits) "";
    site ← arg_str a "site" false (spec_max_name limits) "";
    generation ← arg_u64 a "generation" false 1;
    epoch ← arg_u64 a "epoch" false 1;
    if id =? 0 then spec_invalid a "fabric id zero is reserved"
    else if generation =? 0 then spec_invalid a "fabric generation must be non-zero"
    else
      text ← arg_str a "state" false 64 "";
      state ← if bool_decide (text = "") then Value (sp_state s)
              else parsed_as a "fabric state" text (parse_fabric_state text);
      Value (MkSpec (sp_builder s) (sp_options s) generation (sp_nodes_started s) true id name site epoch state).

Definition option_directive (a : Args) (s : SpecState) : Outcome SpecState :=
  if sp_nodes_started s then
    spec_invalid a "option directives must appear before any node, port, or link directive"
  else
    let o := sp_options s in
    _ ← check (reject_unknown a ["allow_same_tier_adjacency"; "require_domain_diversity"; "min_eligible_spines";
                                 "evidence_policy"]);
    peer ← arg_bool a "allow_same_tier_adjacency" false (allow_same_tier_adjacency o);
    diversity ← arg_bool a "require_domain_diversity" false (require_domain_diversity o);
    min_spines ← arg_u32 a "min_eligible_spines" false (min_eligible_spines o);
    text ← arg_str a "evidence_policy" false 64 "";
    policy ← if bool_decide (text = "") then Value (evidence_policy o)
             else parsed_as a "evidence policy" text (parse_evidence_policy text);
    Value (with_spec_options (MkOptions peer diversity min_spines policy) s).

Definition domain_directive (limits : SpecLimits) (a : Args) (s : SpecState) : Outcome SpecState :=
  '(b, s) ← ensure_builder limits s;
  let s := start_nodes s in
  _ ← check (reject_unknown a ["id"; "name"; "generation"]);
  id ← arg_u32 a "id" true 0;
  name ← arg_str a "name" true (spec_max_name limits) "";
  generation ← require_generation a (sp_generation s);
  spec_add add_failure_domain b s (MkDomain id name generation).

Definition leaf_directive (limits : SpecLimits) (a : Args) (s : SpecState) : Outcome SpecState :=
  '(b, s) ← ensure_builder limits s;
  let s := start_nodes s in
  _ ← check (reject_unknown a ["id"; "name"; "role"; "domain"; "state"; "access_mbps"; "access_links";
                               "role_incarnation"; "generation"]);
  '(id, name, role_text, domain, state_text, capacity, access_links, incarnation, generation) ←
    malformed a "a leaf"
      (id ← arg_u32 a "id" true 0;
       name ← arg_str a "name" true (spec_max_name limits) "";
       role_text ← arg_str a "role" true 32 "";
       domain ← arg_u32 a "domain" false 0;
       state_text ← arg_str a "state" false 32 "active";
       capacity ← arg_u64 a "access_mbps" false 0;
       access_links ← arg_u32 a "access_links" false 0;
       incarnation ← arg_u64 a "role_incarnation" false 1;
       generation ← require_generation a (sp_generation s);
       Value (id, name, role_text, domain, state_text, capacity, access_links, incarnation, generation));
  role ← match parse_leaf_role role_text with
         | Some r => Value r
         | None =>
             if bool_decide (is_Some (parse_spine_role role_text)) then
               fail SC_ContradictoryRole
                 (a_where a +:+ ": leaf " +:+ std_to_string id +:+ " carries a spine-tier role")
             else unknown a "leaf role" role_text
         end;
  state ← parsed_as a "node state" state_text (parse_node_state state_text);
  spec_add add_leaf b s (MkLeaf id name role incarnation domain state capacity access_links generation).

Definition spine_directive (limits : SpecLimits) (a : Args) (s : SpecState) : Outcome SpecState :=
  '(b, s) ← ensure_builder limits s;
  let s := start_nodes s in
  _ ← check (reject_unknown a ["id"; "name"; "role"; "domain"; "state"; "fabric_mbps"; "role_incarnation";
                               "generation"]);
  '(id, name, role_text, domain, state_text, capacity, incarnation, generation) ←
    malformed a "a spine"
      (id ← arg_u32 a "id" true 0;
       name ← arg_str a "name" true (spec_max_name limits) "";
       role_text ← arg_str a "role" true 32 "";
       domain ← arg_u32 a "domain" false 0;
       state_text ← arg_str a "state" false 32 "active";
       capacity ← arg_u64 a "fabric_mbps" false 0;
       incarnation ← arg_u64 a "role_incarnation" false 1;
       generation ← require_generation a (sp_generation s);
       Value (id, name, role_text, domain, state_text, capacity, incarnation, generation));
  role ← match parse_spine_role role_text with
         | Some r => Value r
         | None =>
             if bool_decide (is_Some (parse_leaf_role role_text)) then
               fail SC_ContradictoryRole
                 (a_where a +:+ ": spine " +:+ std_to_string id +:+ " carries a leaf-tier role")
             else unknown a "spine role" role_text
         end;
  state ← parsed_as a "node state" state_text (parse_node_state state_text);
  spec_add add_spine b s (MkSpine id name role incarnation domain state capacity generation).

Definition port_directive (limits : SpecLimits) (a : Args) (s : SpecState) : Outcome SpecState :=
  '(b, s) ← ensure_builder limits s;
  let s := start_nodes s in
  _ ← check (reject_unknown a ["id"; "owner"; "speed_mbps"; "admin"; "generation"]);
  '(id, owner_text, speed, admin_text, generation) ←
    malformed a "a port"
      (id ← arg_u32 a "id" true 0;
       owner_text ← arg_str a "owner" true 64 "";
       speed ← arg_u64 a "speed_mbps" true 0;
       admin_text ← arg_str a "admin" false 32 "enabled";
       generation ← require_generation a (sp_generation s);
       Value (id, owner_text, speed, admin_text, generation));
  owner ← parsed_as a "port owner" owner_text (parse_node_key owner_text);
  admin ← parsed_as a "port admin state" admin_text (parse_port_admin admin_text);
  spec_add add_port b s (MkPort id owner speed admin generation).

(** Without a class the tiers of the endpoints decide. *)
Definition link_class_of (a : Args) (text : string) (na nb : NodeKey) : Outcome LinkClass :=
  if bool_decide (text = "") then
    Value (if bool_decide (tier na = tier nb) then LC_SameTierPeer else LC_LeafSpine)
  else if bool_decide (text = "leaf_spine") then Value LC_LeafSpine
  else if bool_decide (text = "same_tier_peer") then Value LC_SameTierPeer
  else unknown a "link class" text.

(** [link] and [history-link], which differ in the builder operation. *)
Definition link_directive (add : FabricBuilder -> LinkRecord -> Status * FabricBuilder) (limits : SpecLimits) (a : Args)
    (s : SpecState) : Outcome SpecState :=
  '(b, s) ← ensure_builder limits s;
  let s := start_nodes s in
  _ ← check (reject_unknown a ["id"; "a"; "pa"; "b"; "pb"; "class"; "admin"; "speed_mbps"; "generation"]);
  '(id, a_text, b_text, pa, pb, class_text, admin_text, speed, generation) ←
    malformed a "a link"
      (id ← arg_u32 a "id" true 0;
       a_text ← arg_str a "a" true 64 "";
       b_text ← arg_str a "b" true 64 "";
       pa ← arg_u32 a "pa" true 0;
       pb ← arg_u32 a "pb" true 0;
       class_text ← arg_str a "class" false 32 "";
       admin_text ← arg_str a "admin" false 32 "enabled";
       speed ← arg_u64 a "speed_mbps" false 0;
       generation ← require_generation a (sp_generation s);
       Value (id, a_text, b_text, pa, pb, class_text, admin_text, speed, generation));
  na ← parsed_as a "link endpoint" a_text (parse_node_key a_text);
  nb ← parsed_as a "link endpoint" b_text (parse_node_key b_text);
  cls ← link_class_of a class_text na nb;
  admin ← parsed_as a "link admin state" admin_text (parse_link_admin admin_text);
  spec_add add b s (MkLink id na pa nb pb cls admin speed generation).

Definition evidence_directive (limits : SpecLimits) (a : Args) (s : SpecState) : Outcome SpecState :=
  '(b, s) ← ensure_builder limits s;
  _ ← check (reject_unknown a ["link"; "observed"; "generation"; "observer"; "epoch"; "seq"; "at_ms"]);
  '(link, observed_text, generation, observer_text, epoch, seq, at_ms) ←
    malformed a "an evidence"
      (link ← arg_u32 a "link" true 0;
       observed_text ← arg_str a "observed" true 32 "";
       generation ← require_generation a (sp_generation s);
       observer_text ← arg_str a "observer" true 40 "";
       epoch ← arg_u64 a "epoch" false 1;
       seq ← arg_u64 a "seq" true 0;
       at_ms ← arg_u64 a "at_ms" false 0;
       Value (link, observed_text, generation, observer_text, epoch, seq, at_ms));
  observed ← parsed_as a "observation" observed_text (parse_link_observation observed_text);
  observer ← match parse_incarnation observer_text with
             | Some i => Value i
             | None => spec_invalid a "observer must be 32 hexadecimal digits"
             end;
  spec_add add_evidence b s (MkEvidence link observed generation observer epoch seq at_ms).

(** ** Lines *)

Definition run_directive (limits : SpecLimits) (directive : string) (a : Args) (s : SpecState) : Outcome SpecState :=
  if bool_decide (directive = "fabric") then fabric_directive limits a s
  else if negb (sp_have_fabric s) then spec_invalid a fabric_first
  else if bool_decide (directive = "option") then option_directive a s
  else if bool_decide (directive = "domain") then domain_directive limits a s
  else if bool_decide (directive = "leaf") then leaf_directive limits a s
  else if bool_decide (directive = "spine") then spine_directive limits a s
  else if bool_decide (directive = "port") then port_directive limits a s
  else if bool_decide (directive = "link") then link_directive add_link limits a s
  else if bool_decide (directive = "history-link") then link_directive add_history_link limits a s
  else if bool_decide (directive = "evidence") then evidence_directive limits a s
  else unknown a "directive" directive.

Definition strip_return (line : list byte) : list byte :=
  match last line with
  | Some c => if bool_decide (c = x0d) then take (List.length line - 1) line else line
  | None => line
  end.

Definition strip_comment (line : list byte) : list byte := (span_while (fun c => negb (bool_decide (c = x23))) line).1.

(** One line; [number] is its number, from 1. *)
Definition parse_line (limits : SpecLimits) (number : Z) (line : list byte) (s : SpecState) : Outcome SpecState :=
  let line := strip_return line in
  let label := "line " +:+ std_to_string number in
  if number >? max_lines limits then fail SC_Exhausted "specification exceeds the configured line bound"
  else if Zlen line >? max_line_bytes limits then
    fail SC_Exhausted (label +:+ " exceeds the configured line length bound")
  else
    match tokenize_line (strip_comment line) with
    | Failure st => fail (code st) (label +:+ ": " +:+ detail st)
    | Value [] => Value s
    | Value (t :: tokens) =>
        let a := make_args (t :: tokens) (label +:+ " (" +:+ tk_key t +:+ ")") in
        _ ← check (args_check a);
        run_directive limits (tk_key t) a s
    end.

(** The lines of a text: one more than its line feeds. *)
Fixpoint split_lines (text : list byte) : list (list byte) :=
  match text with
  | [] => [[]]
  | c :: r =>
      if bool_decide (c = x0a) then [] :: split_lines r
      else match split_lines r with
           | line :: lines => (c :: line) :: lines
           | [] => [[c]]
           end
  end.

Fixpoint parse_lines (limits : SpecLimits) (number : Z) (lines : list (list byte)) (s : SpecState) : Outcome SpecState :=
  match lines with
  | [] => Value s
  | line :: lines =>
      let number := wrap 32 (number + 1) in
      s ← parse_line limits number line s;
      parse_lines limits number lines s
  end.

(** The second component is what is written through [report_out]. *)
Definition parse_spec (text : string) (limits : SpecLimits) : Outcome Fabric * option ValidationReport :=
  if strlen text >? max_file_bytes limits then (fail SC_Exhausted "specification exceeds the configured size bound", None)
  else if bool_decide (x00 ∈ bytes_of text) then (fail SC_Invalid "specification contains a NUL byte", None)
  else if negb (is_valid_utf8 text) then (fail SC_Invalid "specification is not valid UTF-8", None)
  else match parse_lines limits 0 (split_lines (bytes_of text)) initial_spec with
  | Failure st => (Failure st, None)
  | Value s =>
      match ensure_builder limits s with
      | Failure st => (Failure st, None)
      | Value (b, _) => let '(fabric, b) := freeze b in (fabric, Some (b_report b))
      end
  end.

(** ** Printing *)

(** A printed value: a word, or a text in quotes with its escapes. *)
Inductive SpecValue := Word (s : string) | Quoted (s : string).

Definition value_text (v : SpecValue) : string :=
  match v with Word s => s | Quoted s => quote_value s end.

Definition field_text (p : string * SpecValue) : string := " " +:+ p.1 +:+ "=" +:+ value_text p.2.

Definition line_feed : string := text_of [x0a].

(** A directive, its fields in order, and the line feed. *)
Definition spec_line (directive : string) (fields : list (string * SpecValue)) : string :=
  directive +:+ String.concat "" (field_text <$> fields) +:+ line_feed.

Definition number (z : Z) : SpecValue := Word (std_to_string z).
Definition truth (b : bool) : SpecValue := Word (if b then "true" else "false").

Definition fabric_fields (f : Fabric) : list (string * SpecValue) :=
  [("id", number (fab_id f)); ("name", Quoted (fab_name f))]
  ++ (if bool_decide (fab_site f = "") then [] else [("site", Quoted (fab_site f))])
  ++ [("generation", number (fab_generation f)); ("epoch", number (fab_epoch f));
      ("state", Word (FabricState_to_string (fab_state f)))].

Definition option_fields (o : FabricOptions) : list (string * SpecValue) :=
  [("allow_same_tier_adjacency", truth (allow_same_tier_adjacency o));
   ("require_domain_diversity", truth (require_domain_diversity o));
   ("min_eligible_spines", number (min_eligible_spines o));
   ("evidence_policy", Word (EvidencePolicy_to_string (evidence_policy o)))].

Definition domain_fields (d : FailureDomainRecord) : list (string * SpecValue) :=
  [("id", number (dom_id d)); ("name", Quoted (dom_name d)); ("generation", number (dom_generation d))].

Definition leaf_fields (l : LeafRecord) : list (string * SpecValue) :=
  [("id", number (leaf_id l)); ("name", Quoted (leaf_name l)); ("role", Word (LeafRole_to_string (leaf_role l)));
   ("domain", number (leaf_domain l)); ("state", Word (NodeState_to_string (leaf_state l)));
   ("access_mbps", number (leaf_access_capacity l)); ("access_links", number (leaf_access_links l));
   ("role_incarnation", number (leaf_incarnation l)); ("generation", number (leaf_generation l))].

Definition spine_fields (s : SpineRecord) : list (string * SpecValue) :=
  [("id", number (spine_id s)); ("name", Quoted (spine_name s)); ("role", Word (SpineRole_to_string (spine_role s)));
   ("domain", number (spine_domain s)); ("state", Word (NodeState_to_string (spine_state s)));
   ("fabric_mbps", number (spine_fabric_capacity s)); ("role_incarnation", number (spine_incarnation s));
   ("generation", number (spine_generation s))].

Definition port_fields (p : PortRecord) : list (string * SpecValue) :=
  [("id", number (port_id p)); ("owner", Word (NodeKey_to_string (port_owner p))); ("speed_mbps", number (port_speed p));
   ("admin", Word (PortAdmin_to_string (port_admin p))); ("generation", number (port_generation p))].

Definition link_fields (l : LinkRecord) : list (string * SpecValue) :=
  [("id", number (link_id l)); ("a", Word (NodeKey_to_string (link_a l))); ("pa", number (link_port_a l));
   ("b", Word (NodeKey_to_string (link_b l))); ("pb", number (link_port_b l));
   ("class", Word (LinkClass_to_string (link_cls l))); ("admin", Word (LinkAdmin_to_string (link_admin l)))]
  ++ (if link_declared_speed l =? 0 then [] else [("speed_mbps", number (link_declared_speed l))])
  ++ [("generation", number (link_generation l))].

Definition evidence_fields (r : LinkEvidence) : list (string * SpecValue) :=
  [("link", number (ev_link r)); ("observed", Word (LinkObservation_to_string (ev_observed r)));
   ("generation", number (ev_generation r)); ("observer", Word (incarnation_to_string (ev_observer r)));
   ("epoch", number (ev_epoch r)); ("seq", number (ev_seq r)); ("at_ms", number (ev_at_ms r))].

(** The directives of a fabric, in the order they are printed. *)
Definition spec_lines (f : Fabric) : list (string * list (string * SpecValue)) :=
  [("fabric", fabric_fields f); ("option", option_fields (fab_options f))]
  ++ ((fun d => ("domain", domain_fields d)) <$> domains f)
  ++ ((fun l => ("leaf", leaf_fields l)) <$> leaves f)
  ++ ((fun s => ("spine", spine_fields s)) <$> spines f)
  ++ ((fun p => ("port", port_fields p)) <$> ports f)
  ++ ((fun l => ("link", link_fields l)) <$> links f)
  ++ ((fun l => ("history-link", link_fields l)) <$> history_links f)
  ++ ((fun r => ("evidence", evidence_fields r)) <$> evidence f).

Definition format_spec (f : Fabric) : string :=
  String.concat "" ((fun p => spec_line p.1 p.2) <$> spec_lines f).

(** ** Files *)

(** What the file system answers: the size when the file can be examined, whether it opens,
    and the bytes [fread] delivers. *)
Record SpecFile := MkSpecFile { sf_size : option Z; sf_opens : bool; sf_read : list byte }.

Definition load_spec_file (path : string) (file : SpecFile) (limits : SpecLimits)
    : Outcome Fabric * option ValidationReport :=
  match sf_size file with
  | None => (fail SC_NotFound ("cannot stat specification file: " +:+ path), None)
  | Some size =>
      if size >? max_file_bytes limits then
        (fail SC_Exhausted "specification file exceeds the configured size bound", None)
      else if negb (sf_opens file) then (fail SC_IoError ("cannot open specification file: " +:+ path), None)
      else
        let read := take (Z.to_nat size) (sf_read file) in
        if negb (Zlen read =? size) then (fail SC_IoError ("short read on specification file: " +:+ path), None)
        else parse_spec (text_of read) limits
  end.

(** [short] is how many bytes [fwrite] managed when not all, [closes] whether [fclose]
    flushes; the second component is the file left behind. *)
Definition write_spec_file (path : string) (opens : bool) (short : option nat) (closes : bool) (f : Fabric)
    : Status * option (list byte) :=
  let text := bytes_of (format_spec f) in
  if negb opens then (MkStatus SC_IoError ("cannot create specification file: " +:+ path), None)
  else
    let written := match short with Some k => take k text | None => text end in
    if negb (Zlen written =? Zlen text) then (MkStatus SC_IoError "short write on specification file", Some written)
    else if negb closes then (MkStatus SC_IoError "cannot flush specification file", Some written)
    else (success, Some written).
