(* ===== verification/SpecText.v ===== *)
(** * The text of a specification (src/spec.cpp)

    What the tokenizer reads back from a printed line, and how a printed text
    splits into its lines. *)
From S2P Require Import Prelude Status Checked Identity Bytes Digest Model Builder Spec.

(** ** Plain words *)

(** The bytes of the words that are printed: digits, small letters and the marks in them. *)
Definition plain_byte (b : byte) : bool :=
  let z := Z_of_byte b in
  ((48 <=? z) && (z <=? 58)) || ((97 <=? z) && (z <=? 122)) || (z =? 95) || (z =? 45).

Definition plain_word (s : string) : bool := negb (bool_decide (s = "")) && forallb plain_byte (bytes_of s).

Lemma forallb_Forall {A} (p : A -> bool) l : forallb p l = true <-> Forall (fun x => p x = true) l.
Proof. rewrite forallb_forall, Forall_forall. by setoid_rewrite list_elem_of_In. Qed.

Lemma plain_word_spec s : plain_word s = true <-> s <> "" /\ Forall (fun b => plain_byte b = true) (bytes_of s).
Proof. unfold plain_word. by rewrite andb_true_iff, negb_true_iff, bool_decide_eq_false, forallb_Forall. Qed.

Lemma bytes_of_nil s : bytes_of s = [] -> s = "".
Proof. intros H. by apply (bytes_of_inj s ""). Qed.

(** No byte of a word has a meaning for the tokenizer. *)
Lemma plain_byte_other b :
  plain_byte b = true ->
  is_space b = false /\ b <> x3d /\ b <> x22 /\ b <> x23 /\ b <> x0a /\ b <> x0d /\ b <> x00 /\ 0 <= Z_of_byte b < 128.
Proof.
  intros H. assert (0 <= Z_of_byte b < 128) as Hr.
  { unfold plain_byte in H. pose proof (Z_of_byte_range b).
    repeat (apply orb_true_iff in H as [H|H]); bool_to_prop; lia. }
  split_and!; try lia; try (intros ->; by vm_compute in H).
  unfold is_space. rewrite !orb_false_iff, !bool_decide_eq_false. split_and!; intros ->; by vm_compute in H.
Qed.

Lemma digit_plain b : is_digit b -> plain_byte b = true.
Proof.
  unfold is_digit, plain_byte. intros H. apply orb_true_iff. left. apply orb_true_iff. left.
  apply orb_true_iff. left. apply andb_true_iff. rewrite !Z.leb_le. lia.
Qed.

Lemma number_plain z : plain_word (std_to_string z) = true.
Proof.
  apply plain_word_spec. split.
  - intros E. pose proof (std_to_string_length z) as H. rewrite E in H. simpl in H. lia.
  - eapply Forall_impl; [apply std_to_string_digits|]. apply digit_plain.
Qed.

Lemma plain_app s t : plain_word s = true -> plain_word t = true -> plain_word (s +:+ t) = true.
Proof.
  rewrite !plain_word_spec. intros [H1 H2] [H3 H4]. split.
  - destruct s; [done|discriminate].
  - rewrite bytes_of_app. by apply Forall_app.
Qed.

Lemma node_plain k : plain_word (NodeKey_to_string k) = true.
Proof. unfold NodeKey_to_string. case_match; apply plain_app; (reflexivity || apply number_plain). Qed.

Lemma hex_char_plain d : 0 <= d < 16 -> plain_byte (hex_char d) = true.
Proof.
  intros H. unfold plain_byte, hex_char. destruct (Z.ltb_spec d 10); rewrite Z_of_byte_of_Z, Z.mod_small by lia.
  - repeat (apply orb_true_iff; left). apply andb_true_iff. rewrite !Z.leb_le. lia.
  - apply orb_true_iff; left. apply orb_true_iff; left. apply orb_true_iff; right.
    apply andb_true_iff. rewrite !Z.leb_le. lia.
Qed.

Lemma hex_digits_plain n v : Forall (fun b => plain_byte b = true) (hex_digits n v).
Proof.
  induction n as [|n IH]; cbn [hex_digits]; [constructor|]. constructor; [|done].
  apply hex_char_plain. rewrite land_15. apply Z.mod_pos_bound. lia.
Qed.

Lemma incarnation_plain i : plain_word (incarnation_to_string i) = true.
Proof.
  apply plain_word_spec. unfold incarnation_to_string, hex_u64. split.
  - intros E. apply (f_equal (fun s => List.length (bytes_of s))) in E. rewrite bytes_of_text_of in E.
    rewrite length_app, !hex_digits_length in E. discriminate.
  - rewrite bytes_of_text_of. apply Forall_app. split; apply hex_digits_plain.
Qed.

(** ** One line *)

Lemma span_while_app p (a rest : list byte) :
  Forall (fun b => p b = true) a -> match rest with [] => True | c :: _ => p c = false end ->
  span_while p (a ++ rest) = (a, rest).
Proof.
  induction 1 as [|b a Hb Ha IH]; cbn [app span_while].
  - destruct rest as [|c rest]; [done|]. intros H. cbn [span_while]. by rewrite H.
  - intros H. by rewrite Hb, IH.
Qed.

Lemma skip_spaces_word l : match l with [] => True | c :: _ => is_space c = false end -> skip_spaces l = l.
Proof. unfold skip_spaces. destruct l as [|c l]; [done|]. intros H. cbn [span_while]. by rewrite H. Qed.

(** Escaping and reading an escaped text. *)
Lemma quoted_value_escape v rest : quoted_value (concat (escape_byte <$> v) ++ x22 :: rest) = Value (v, rest).
Proof.
  induction v as [|c v IH]; [done|]. rewrite fmap_cons. cbn [concat]. rewrite <- (assoc_L (++)).
  unfold escape_byte at 1.
  repeat (case_bool_decide; [subst c; cbn [app]; cbn -[fmap list_fmap concat]; rewrite IH; done|]).
  cbn [app quoted_value]. rewrite !bool_decide_false by done. by rewrite IH.
Qed.

(** The values that can be read back: a quoted text may hold anything but the comment mark,
    which the parser looks for before it looks at quotes, and NUL. *)
Definition quotable (s : string) : Prop := is_valid_utf8 s = true /\ (x23 ∉ bytes_of s) /\ (x00 ∉ bytes_of s).
Definition value_ok (v : SpecValue) : Prop :=
  match v with Word s => plain_word s = true | Quoted s => quotable s end.
Definition fields_ok (fields : list (string * SpecValue)) : Prop :=
  Forall (fun p => plain_word p.1 = true /\ value_ok p.2) fields.

Definition value_of (v : SpecValue) : string := match v with Word s | Quoted s => s end.
Definition token_of (p : string * SpecValue) : Token :=
  MkToken p.1 (value_of p.2) (match p.2 with Word _ => false | Quoted _ => true end).

Definition value_bytes (v : SpecValue) : list byte :=
  match v with Word s => bytes_of s | Quoted s => x22 :: concat (escape_byte <$> bytes_of s) ++ [x22] end.
Definition field_bytes (p : string * SpecValue) : list byte := x20 :: bytes_of p.1 ++ x3d :: value_bytes p.2.
Definition fields_bytes (fields : list (string * SpecValue)) : list byte := concat (field_bytes <$> fields).

Definition starts_spaced (l : list byte) : Prop := match l with [] => True | c :: _ => c = x20 end.

Lemma starts_spaced_fields fields : starts_spaced (fields_bytes fields).
Proof. by destruct fields. Qed.

Lemma word_no_space s : plain_word s = true -> Forall (fun b => negb (is_space b) = true) (bytes_of s).
Proof.
  intros [_ H]%plain_word_spec. eapply Forall_impl; [exact H|]. intros b Hb.
  by destruct (plain_byte_other b Hb) as [-> _].
Qed.

Lemma word_cons s : plain_word s = true -> exists b r, bytes_of s = b :: r /\ plain_byte b = true.
Proof.
  intros [Hn H]%plain_word_spec. destruct (bytes_of s) as [|b r] eqn:E; [by apply bytes_of_nil in E|].
  exists b, r. split; [done|]. by apply Forall_cons in H as [H _].
Qed.

Lemma token_value_bytes v rest :
  value_ok v -> starts_spaced rest ->
  token_value (value_bytes v ++ rest)
  = Value (value_of v, match v with Word _ => false | Quoted _ => true end, rest).
Proof.
  intros Hv Hr. destruct v as [s|s]; cbn [value_bytes value_of value_ok] in *.
  - destruct (word_cons s Hv) as (b & r & E & Hb).
    pose proof (span_while_app (fun c => negb (is_space c)) (bytes_of s) rest (word_no_space s Hv)) as Hs.
    rewrite E in *. cbn [app token_value]. destruct (plain_byte_other b Hb) as (_ & _ & Hq & _).
    rewrite (bool_decide_false _ Hq). cbn [app] in Hs. rewrite Hs.
    + by rewrite <- E, text_of_bytes_of.
    + destruct rest as [|c rest]; [done|]. cbn in Hr. by subst c.
  - cbn [app token_value]. rewrite bool_decide_true, <- (assoc_L (++)) by done. cbn [app].
    rewrite quoted_value_escape. unfold mbind, Outcome_bind. by rewrite text_of_bytes_of.
Qed.

Lemma tokens_loop_fields fuel fields :
  fields_ok fields -> (List.length fields < fuel)%nat ->
  tokens_loop fuel (fields_bytes fields) = Value (token_of <$> fields).
Proof.
  intros H. revert fuel. induction H as [|[k v] fields [Hk Hv] _ IH]; intros fuel Hf;
    (destruct fuel as [|fuel]; [cbn [List.length] in Hf; lia|]); [done|].
  cbn [fst snd] in Hk, Hv. destruct (word_cons k Hk) as (b & r & Ek & Hb).
  destruct (plain_byte_other b Hb) as (Hbs & _).
  cbn [tokens_loop]. unfold fields_bytes. rewrite fmap_cons. cbn [concat]. fold (fields_bytes fields).
  unfold field_bytes at 1. cbn [fst snd app].
  replace (skip_spaces (x20 :: (bytes_of k ++ x3d :: value_bytes v) ++ fields_bytes fields))
    with (b :: r ++ x3d :: value_bytes v ++ fields_bytes fields).
  2: { rewrite <- (assoc_L (++)). unfold skip_spaces. rewrite Ek. cbn [span_while app].
       change (is_space x20) with true. cbv iota. cbn [app]. by rewrite Hbs. }
  cbv iota. rewrite app_comm_cons, span_while_app; [..|by rewrite bool_decide_true].
  2: { rewrite <- Ek. apply plain_word_spec in Hk as [_ Hk]. eapply Forall_impl; [exact Hk|]. intros c Hc.
       destruct (plain_byte_other c Hc) as (-> & Hq & _). by rewrite (bool_decide_false _ Hq). }
  rewrite bool_decide_true by done. cbn [negb].
  rewrite token_value_bytes by (done || apply starts_spaced_fields). unfold mbind, Outcome_bind.
  cbn [List.length] in Hf. rewrite IH by lia. rewrite fmap_cons, <- Ek, text_of_bytes_of. done.
Qed.

Lemma fields_bytes_length fields : (List.length fields <= List.length (fields_bytes fields))%nat.
Proof.
  induction fields as [|p fields IH]; [done|]. unfold fields_bytes in *. rewrite fmap_cons. cbn [concat].
  rewrite length_app. unfold field_bytes at 1. simpl. lia.
Qed.

(** The tokens of a printed line are its directive and its fields. *)
Lemma tokenize_fields directive fields :
  plain_word directive = true -> fields_ok fields ->
  tokenize_line (bytes_of directive ++ fields_bytes fields) = Value (MkToken directive "" false :: (token_of <$> fields)).
Proof.
  intros Hd Hf. unfold tokenize_line. destruct (word_cons directive Hd) as (b & r & E & Hb).
  destruct (plain_byte_other b Hb) as (Hbs & _). rewrite skip_spaces_word by by rewrite E.
  pose proof (span_while_app (fun c => negb (is_space c)) (bytes_of directive) (fields_bytes fields) (word_no_space _ Hd)) as Hs.
  rewrite E in *. cbn [app] in *. rewrite Hs.
  2: { pose proof (starts_spaced_fields fields) as H. destruct (fields_bytes fields); [done|]. cbn in H. by subst. }
  pose proof (fields_bytes_length fields).
  rewrite tokens_loop_fields by (done || lia). unfold mbind, Outcome_bind. by rewrite <- E, text_of_bytes_of.
Qed.

(** ** Bytes of a printed line *)

Definition line_bytes (p : string * list (string * SpecValue)) : list byte := bytes_of p.1 ++ fields_bytes p.2.
Definition line_ok (p : string * list (string * SpecValue)) : Prop := plain_word p.1 = true /\ fields_ok p.2.

Lemma escape_byte_cases c b :
  b ∈ escape_byte c -> b <> x0a /\ b <> x0d /\ (b = c \/ b <> x23 /\ b <> x00).
Proof.
  unfold escape_byte. intros H.
  repeat (case_bool_decide; [repeat (apply elem_of_cons in H as [->|H]; [split_and!; (done || by right)|]); by apply elem_of_nil in H|]).
  apply list_elem_of_singleton in H as ->. auto.
Qed.

(** Neither line ends, comments nor NUL appear in a printed line. *)
Definition clean_byte (b : byte) : Prop := b <> x0a /\ b <> x0d /\ b <> x23 /\ b <> x00.

Lemma plain_clean s : plain_word s = true -> Forall clean_byte (bytes_of s).
Proof.
  intros [_ H]%plain_word_spec. eapply Forall_impl; [exact H|]. intros b Hb.
  destruct (plain_byte_other b Hb) as (_ & _ & _ & H1 & H2 & H3 & H4 & _). by split_and!.
Qed.

Lemma quoted_clean s : quotable s -> Forall clean_byte (concat (escape_byte <$> bytes_of s)).
Proof.
  intros (_ & Hh & Hz). apply Forall_forall. intros b (l & (c & -> & Hc)%list_elem_of_fmap & Hb)%elem_of_concat.
  destruct (escape_byte_cases c b Hb) as (H1 & H2 & [->|[H3 H4]]); [|done].
  split_and!; try done; by intros ->.
Qed.

Lemma value_clean v : value_ok v -> Forall clean_byte (value_bytes v).
Proof.
  destruct v as [s|s]; cbn [value_ok value_bytes]; intros H; [by apply plain_clean|].
  constructor; [done|]. apply Forall_app. split; [by apply quoted_clean|by repeat constructor].
Qed.

Lemma line_clean p : line_ok p -> Forall clean_byte (line_bytes p).
Proof.
  intros [Hd Hf]. apply Forall_app. split; [by apply plain_clean|]. unfold fields_bytes. apply Forall_concat, Forall_fmap.
  eapply Forall_impl; [exact Hf|]. intros [k v] [Hk Hv]. cbn [fst snd] in *. unfold compose, field_bytes. cbn [fst snd].
  constructor; [done|]. apply Forall_app. split; [by apply plain_clean|]. constructor; [done|by apply value_clean].
Qed.

(** ** UTF-8 of a printed line *)

Abbreviation utf8 l := (is_valid_utf8 (text_of l) = true).

Lemma utf8_app l k : utf8 l -> utf8 k -> utf8 (l ++ k).
Proof.
  intros Hl Hk. pose proof (is_valid_utf8_app _ _ Hl Hk) as H.
  rewrite <- (text_of_bytes_of (text_of l ++ text_of k)%string), bytes_of_app, !bytes_of_text_of in H. exact H.
Qed.

Lemma utf8_concat ls : Forall (fun l => utf8 l) ls -> utf8 (concat ls).
Proof. induction 1 as [|l ls Hl _ IH]; [done|]. cbn [concat]. by apply utf8_app. Qed.

Lemma utf8_ascii l : Forall (fun b => Z_of_byte b < 128) l -> utf8 l.
Proof.
  intros H. apply is_valid_utf8_spec. exists (Z_of_byte <$> l). rewrite bytes_of_text_of. split.
  - apply Forall_fmap. eapply Forall_impl; [exact H|]. intros b Hb. unfold compose, scalar_value.
    pose proof (Z_of_byte_range b). lia.
  - induction H as [|b l Hb _ IH]; [done|]. rewrite !fmap_cons. cbn [concat].
    replace (utf8_encode (Z_of_byte b)) with [b]; [by rewrite <- IH|].
    unfold utf8_encode. rewrite (proj2 (Z.ltb_lt _ _) Hb). by rewrite byte_of_Z_of_byte.
Qed.

Lemma utf8_plain s : plain_word s = true -> utf8 (bytes_of s).
Proof.
  intros [_ H]%plain_word_spec. apply utf8_ascii. eapply Forall_impl; [exact H|]. intros b Hb.
  apply plain_byte_other in Hb. tauto.
Qed.

Lemma escape_ascii c b : Z_of_byte c < 128 -> b ∈ escape_byte c -> Z_of_byte b < 128.
Proof.
  unfold escape_byte. intros Hc H.
  repeat (case_bool_decide; [repeat (apply elem_of_cons in H as [->|H]; [done|]); by apply elem_of_nil in H|]).
  by apply list_elem_of_singleton in H as ->.
Qed.

Lemma escape_high c : 128 <= Z_of_byte c -> escape_byte c = [c].
Proof.
  intros H. unfold escape_byte. repeat (case_bool_decide; [subst c; by vm_compute in H|]). done.
Qed.

(** The encoding of one scalar value stays valid when its bytes are escaped: the escaped
    bytes are ASCII, and the bytes of longer encodings are not escaped. *)
Lemma utf8_escape_scalar cp : scalar_value cp -> utf8 (concat (escape_byte <$> utf8_encode cp)).
Proof.
  intros Hs. destruct (Z.ltb_spec cp 128) as [Hc|Hc].
  - unfold utf8_encode. rewrite (proj2 (Z.ltb_lt _ _) Hc). cbn [fmap list_fmap concat]. rewrite app_nil_r.
    apply utf8_ascii, Forall_forall. intros b. apply escape_ascii.
    rewrite Z_of_byte_of_Z, Z.mod_small; unfold scalar_value in Hs; lia.
  - assert (concat (escape_byte <$> utf8_encode cp) = utf8_encode cp) as ->.
    { assert (Forall (fun b => 128 <= Z_of_byte b) (utf8_encode cp)) as H.
      { unfold utf8_encode. rewrite (proj2 (Z.ltb_ge _ _) Hc). unfold scalar_value in Hs.
        repeat case_match; bool_to_prop; repeat constructor; rewrite Z_of_byte_of_Z; divlia. }
      induction H as [|b l Hb _ IH]; [done|]. rewrite fmap_cons. cbn [concat]. by rewrite (escape_high b Hb), IH. }
    apply is_valid_utf8_spec. exists [cp]. split; [by apply Forall_singleton|]. rewrite bytes_of_text_of. cbn. by rewrite app_nil_r.
Qed.

Lemma utf8_quoted s : is_valid_utf8 s = true -> utf8 (concat (escape_byte <$> bytes_of s)).
Proof.
  intros (cps & Hs & ->)%is_valid_utf8_spec.
  induction Hs as [|cp cps Hcp _ IH]; [done|]. rewrite fmap_cons. cbn [concat].
  rewrite fmap_app, concat_app. apply utf8_app; [by apply utf8_escape_scalar|done].
Qed.

Lemma utf8_value v : value_ok v -> utf8 (value_bytes v).
Proof.
  destruct v as [s|s]; cbn [value_ok value_bytes]; intros H; [by apply utf8_plain|].
  apply (utf8_app [x22]); [done|]. apply utf8_app; [|done]. by apply utf8_quoted, H.
Qed.

Lemma utf8_line p : line_ok p -> utf8 (line_bytes p).
Proof.
  intros [Hd Hf]. apply utf8_app; [by apply utf8_plain|]. apply utf8_concat, Forall_fmap.
  eapply Forall_impl; [exact Hf|]. intros [k v] [Hk Hv]. unfold compose, field_bytes. cbn [fst snd] in *.
  apply (utf8_app [x20]); [done|]. apply utf8_app; [by apply utf8_plain|].
  apply (utf8_app [x3d]); [done|]. by apply utf8_value.
Qed.
