(* ===== verification/SpecRoundtrip.v ===== *)
(** * A printed specification is read back (src/spec.cpp)

    [parse_spec] inverts [format_spec] on every well-formed fabric that the
    text can carry: the printed lines are re-read one by one, each adds its
    record to the builder, and the fabric that is frozen is the original. *)
From S2P Require Import Prelude Status Checked Identity Bytes Digest Model Builder BuilderSpec Sample Freeze BuilderOrder Codec CodecSpec Spec SpecText.

(** ** The bytes of a printed text *)

Lemma bytes_of_concat l : bytes_of (String.concat "" l) = concat (bytes_of <$> l).
Proof.
  induction l as [|x l IH]; [done|]. rewrite fmap_cons. cbn [concat]. destruct l as [|y l].
  - cbn. by rewrite app_nil_r.
  - change (String.concat "" (x :: y :: l)) with (x ++ "" ++ String.concat "" (y :: l))%string.
    by rewrite bytes_of_app, <- IH.
Qed.

Lemma value_text_bytes v : bytes_of (value_text v) = value_bytes v.
Proof. destruct v as [s|s]; [done|]. cbn [value_text value_bytes]. unfold quote_value. by rewrite bytes_of_text_of. Qed.

Lemma field_text_bytes p : bytes_of (field_text p) = field_bytes p.
Proof. unfold field_text. by rewrite !bytes_of_app, value_text_bytes. Qed.

Lemma spec_line_bytes p : bytes_of (spec_line p.1 p.2) = line_bytes p ++ [x0a].
Proof.
  unfold spec_line, line_bytes, fields_bytes, line_feed. rewrite !bytes_of_app, bytes_of_concat, bytes_of_text_of, <- (assoc_L (++)).
  do 2 f_equal. rewrite <- list_fmap_compose. f_equal. apply list_fmap_ext. intros _ q _. apply field_text_bytes.
Qed.

Definition printed (ps : list (string * list (string * SpecValue))) : list byte :=
  concat ((fun p => line_bytes p ++ [x0a]) <$> ps).

Lemma format_spec_bytes f : bytes_of (format_spec f) = printed (spec_lines f).
Proof.
  unfold format_spec, printed. rewrite bytes_of_concat. f_equal. rewrite <- list_fmap_compose.
  apply list_fmap_ext. intros _ p _. apply spec_line_bytes.
Qed.

Lemma split_lines_app l rest : x0a ∉ l -> split_lines (l ++ x0a :: rest) = l :: split_lines rest.
Proof.
  induction l as [|c l IH]; intros H; [done|]. cbn [app split_lines].
  rewrite bool_decide_false by (intros ->; apply H; left). rewrite IH; [done|]. intros H'. apply H. by right.
Qed.

Lemma clean_not b l : Forall clean_byte l -> ~ clean_byte b -> b ∉ l.
Proof. rewrite Forall_forall. intros H Hb Hin. by apply Hb, H. Qed.

Lemma split_printed ps : Forall line_ok ps -> split_lines (printed ps) = (line_bytes <$> ps) ++ [[]].
Proof.
  induction 1 as [|p ps Hp _ IH]; [done|]. unfold printed. rewrite !fmap_cons. cbn [concat]. fold (printed ps).
  rewrite <- (assoc_L (++)). cbn [app]. rewrite split_lines_app, IH; [done|].
  apply (clean_not _ _ (line_clean p Hp)). by intros [? _].
Qed.

Lemma printed_utf8 ps : Forall line_ok ps -> is_valid_utf8 (text_of (printed ps)) = true.
Proof.
  intros H. apply utf8_concat, Forall_fmap. eapply Forall_impl; [exact H|]. intros p Hp.
  apply utf8_app; [by apply utf8_line|done].
Qed.

Lemma printed_no_nul ps : Forall line_ok ps -> x00 ∉ printed ps.
Proof.
  intros H (l & (p & -> & Hp)%list_elem_of_fmap & Hb)%elem_of_concat. rewrite Forall_forall in H.
  apply elem_of_app in Hb as [Hb|Hb]; [|by apply list_elem_of_singleton in Hb].
  pose proof (line_clean p (H p Hp)) as Hc. rewrite Forall_forall in Hc. by destruct (Hc _ Hb) as (_ & _ & _ & ?).
Qed.

(** ** Arguments of a printed line *)

(** The value of a key in a list of fields. *)
Definition field_value (k : string) (fields : list (string * SpecValue)) : option string :=
  (fun p => value_of p.2) <$> List.find (fun p => bool_decide (p.1 = k)) fields.

Definition line_args (p : string * list (string * SpecValue)) (where_ : string) : Args :=
  make_args (MkToken p.1 "" false :: (token_of <$> p.2)) where_.

Lemma add_args_spec fields a :
  NoDup (fst <$> fields) -> (forall k, k ∈ fst <$> fields -> a_values a !! k = None) ->
  fold_left add_arg (token_of <$> fields) a
  = MkArgs (a_values (fold_left add_arg (token_of <$> fields) a)) (a_where a) (a_duplicate a) /\
  (forall k, a_values (fold_left add_arg (token_of <$> fields) a) !! k
             = match field_value k fields with Some v => Some v | None => a_values a !! k end).
Proof.
  revert a. induction fields as [|[k v] fields IH]; intros a Hnd Hfree; [by destruct a|].
  rewrite !fmap_cons in *. apply NoDup_cons in Hnd as [Hk Hnd]. cbn [fold_left].
  assert (add_arg a (token_of (k, v)) = MkArgs (<[k := value_of v]> (a_values a)) (a_where a) (a_duplicate a)) as ->.
  { unfold add_arg. cbn [token_of tk_key tk_value fst snd]. rewrite (Hfree k) by left.
    rewrite bool_decide_false; [done|]. by intros [? ?]. }
  destruct (IH (MkArgs (<[k := value_of v]> (a_values a)) (a_where a) (a_duplicate a)) Hnd) as [H1 H2].
  - intros k' Hk'. cbn [a_values]. rewrite lookup_insert_ne by (intros <-; done). apply Hfree. by right.
  - split; [exact H1|]. intros k'. rewrite H2. unfold field_value at 2. cbn [List.find fst snd a_values].
    destruct (bool_decide_reflect (k = k')) as [<-|Hne].
    + cbn [fmap option_fmap option_map snd]. rewrite lookup_insert_eq.
      destruct (field_value k fields) as [w|] eqn:E; [|done]. exfalso. apply Hk.
      unfold field_value in E. destruct (List.find _ fields) as [q|] eqn:Ef; [|done].
      apply find_some in Ef as [Hin Hq]. apply bool_decide_eq_true in Hq as <-.
      apply list_elem_of_fmap. exists q. split; [done|by apply list_elem_of_In].
    + fold (field_value k' fields). by rewrite lookup_insert_ne.
Qed.

(** The keys of a printed line are all different. *)
Definition keys_ok (p : string * list (string * SpecValue)) : Prop := NoDup (fst <$> p.2).

Lemma line_args_value p w k : keys_ok p -> a_values (line_args p w) !! k = field_value k p.2.
Proof.
  intros H. unfold line_args, make_args. cbn [tail].
  destruct (add_args_spec p.2 (MkArgs ∅ w "") H) as [_ E]; [intros; apply lookup_empty|]. rewrite E.
  cbn [a_values]. rewrite lookup_empty. by destruct (field_value k p.2).
Qed.

Lemma line_args_check p w : keys_ok p -> args_check (line_args p w) = success.
Proof.
  intros H. unfold line_args, make_args. cbn [tail].
  destruct (add_args_spec p.2 (MkArgs ∅ w "") H) as [E _]; [intros; apply lookup_empty|]. by rewrite E.
Qed.

Lemma reject_unknown_ok a allowed :
  (forall k, is_Some (a_values a !! k) -> k ∈ allowed) -> reject_unknown a allowed = success.
Proof.
  intros H. unfold reject_unknown. destruct (List.find _ _) as [[k v]|] eqn:E; [|done]. exfalso.
  apply find_some in E as [Hin Hk]. apply list_elem_of_In in Hin. rewrite merge_sort_Permutation in Hin.
  apply elem_of_map_to_list in Hin. cbn [fst] in Hk. apply negb_true_iff, bool_decide_eq_false in Hk.
  apply Hk, H. by eexists.
Qed.

Lemma line_args_known p w allowed :
  keys_ok p -> forallb (fun q => bool_decide (q.1 ∈ allowed)) p.2 = true -> reject_unknown (line_args p w) allowed = success.
Proof.
  intros Hk Ha. apply reject_unknown_ok. intros k [v Hv]. rewrite line_args_value in Hv by done.
  unfold field_value in Hv. destruct (List.find _ p.2) as [q|] eqn:E; [|done]. apply find_some in E as [Hin Hq].
  apply bool_decide_eq_true in Hq as <-. rewrite forallb_forall in Ha. by apply Ha, bool_decide_eq_true in Hin.
Qed.

(** ** Reading printed values *)

Lemma arg_u64_number (a : Args) k required fallback z :
  a_values a !! k = Some (std_to_string z) -> u64_ok z -> arg_u64 a k required fallback = Value z.
Proof. intros H Hz. unfold arg_u64. by rewrite H, parse_u64_to_string. Qed.

Lemma arg_u32_number (a : Args) k required fallback z :
  a_values a !! k = Some (std_to_string z) -> u32_ok z -> arg_u32 a k required fallback = Value z.
Proof.
  intros H Hz. unfold arg_u32. rewrite (arg_u64_number a k required fallback z H) by (by eapply (fits_mono 32)).
  unfold mbind, Outcome_bind, checked_narrow_u32. unfold fits, u32_max in *. destruct (Z.gtb_spec z (2 ^ 32 - 1)); [lia|done].
Qed.

Lemma arg_bool_truth (a : Args) k required fallback (b : bool) :
  a_values a !! k = Some (if b then "true" else "false")%string -> arg_bool a k required fallback = Value b.
Proof. intros H. unfold arg_bool. rewrite H. by destruct b. Qed.

Lemma arg_str_text (a : Args) k required max fallback s :
  a_values a !! k = Some s -> s <> "" -> strlen s <= max -> is_valid_utf8 s = true ->
  arg_str a k required max fallback = Value s.
Proof.
  intros H Hn Hl Hu. unfold arg_str. rewrite H, (bool_decide_false _ Hn), Hu.
  destruct (Z.gtb_spec (strlen s) max); [lia|done].
Qed.

Lemma arg_str_word (a : Args) k required max fallback s :
  a_values a !! k = Some s -> plain_word s = true -> strlen s <= max -> arg_str a k required max fallback = Value s.
Proof.
  intros H Hw Hl. apply arg_str_text; [done| |done|].
  - by apply plain_word_spec in Hw as [? _].
  - rewrite <- (text_of_bytes_of s). by apply utf8_plain.
Qed.

Lemma strlen_app s t : strlen (s +:+ t) = strlen s + strlen t.
Proof. unfold strlen. by rewrite bytes_of_app, Zlen_app. Qed.

Lemma strlen_number z : strlen (std_to_string z) <= 20.
Proof. unfold strlen, Zlen. pose proof (std_to_string_length z). lia. Qed.

Lemma strlen_node k : strlen (NodeKey_to_string k) <= 64.
Proof.
  pose proof (strlen_number (index k)). unfold NodeKey_to_string, LeafId_to_string, SpineId_to_string.
  case_match; rewrite strlen_app; [change (strlen "leaf:") with 5|change (strlen "spine:") with 6]; lia.
Qed.

Lemma strlen_incarnation i : strlen (incarnation_to_string i) <= 40.
Proof.
  unfold strlen, incarnation_to_string, hex_u64, Zlen. rewrite bytes_of_text_of, length_app, !hex_digits_length. lia.
Qed.

Lemma node_key_back k : tier_valid (tier k) -> u32_ok (index k) -> parse_node_key (NodeKey_to_string k) = Some k.
Proof. intros Ht Hi. apply parse_node_key_to_string; [|done]. intros n E. destruct Ht as [Ht|Ht]; congruence. Qed.

#[local] Hint Resolve number_plain node_plain incarnation_plain strlen_node strlen_incarnation : slf.

(** ** One line of the parser *)

Lemma strip_return_clean l : Forall clean_byte l -> strip_return l = l.
Proof.
  intros H. unfold strip_return. destruct (last l) as [c|] eqn:E; [|done].
  apply last_Some_elem_of in E. rewrite Forall_forall in H. destruct (H c E) as (_ & Hc & _).
  by rewrite bool_decide_false.
Qed.

Lemma strip_comment_clean l : Forall clean_byte l -> strip_comment l = l.
Proof.
  intros H. unfold strip_comment. rewrite <- (app_nil_r l) at 1. rewrite span_while_app; [done| |done].
  eapply Forall_impl; [exact H|]. intros b (_ & _ & Hb & _). by rewrite bool_decide_false.
Qed.

Lemma parse_line_printed limits n p s :
  n <= max_lines limits -> Zlen (line_bytes p) <= max_line_bytes limits -> line_ok p -> keys_ok p ->
  exists w, parse_line limits n (line_bytes p) s = run_directive limits p.1 (line_args p w) s.
Proof.
  intros Hn Hl Hp Hk. unfold parse_line. pose proof (line_clean p Hp) as Hc. destruct Hp as [Hd Hf].
  rewrite (strip_return_clean _ Hc), (strip_comment_clean _ Hc).
  destruct (Z.gtb_spec n (max_lines limits)); [lia|]. destruct (Z.gtb_spec (Zlen (line_bytes p)) (max_line_bytes limits)); [lia|].
  unfold line_bytes. rewrite tokenize_fields by done. cbv zeta.
  cbn [tk_key]. match goal with |- context [make_args _ ?w] => exists w; change (make_args _ w) with (line_args p w) end.
  by rewrite line_args_check.
Qed.

(** The lines of a list of directives, each of which the parser gets through. *)
Definition lines_fit (limits : SpecLimits) (ps : list (string * list (string * SpecValue))) : Prop :=
  Forall (fun p => line_ok p /\ keys_ok p /\ Zlen (line_bytes p) <= max_line_bytes limits) ps.

Lemma parse_lines_cons limits n p rest s :
  0 <= n -> n + 1 <= max_lines limits <= u32_max ->
  line_ok p -> keys_ok p -> Zlen (line_bytes p) <= max_line_bytes limits ->
  exists w, parse_lines limits n (line_bytes p :: rest) s
            = (run_directive limits p.1 (line_args p w) s ≫= fun s' => parse_lines limits (n + 1) rest s').
Proof.
  intros H0 Hn Hp Hk Hl. cbn [parse_lines]. rewrite wrap_small by (unfold fits, u32_max in *; lia).
  destruct (parse_line_printed limits (n + 1) p s ltac:(lia) Hl Hp Hk) as (w & E). exists w. by rewrite E.
Qed.

(** ** Each record line adds its record *)

#[local] Opaque std_to_string.

(** The parser is past the header and would continue with builder [b]. *)
Record stage (limits : SpecLimits) (s : SpecState) (b : FabricBuilder) : Prop := {
  sg_builder : exists s', ensure_builder limits s = Value (b, s') /\ sp_have_fabric s' = true;
  sg_have : sp_have_fabric s = true
}.

Lemma spec_add_stage {R} limits (add : FabricBuilder -> R -> Status * FabricBuilder) b s r st b1 :
  sp_have_fabric s = true -> add b r = (st, b1) -> status_ok st = true ->
  exists s1, spec_add add b s r = Value s1 /\ stage limits s1 b1.
Proof.
  intros Hs Ha Hst. exists (with_spec_builder b1 s). unfold spec_add. rewrite Ha, Hst. split; [done|].
  split; [|done]. exists (with_spec_builder b1 s). by destruct s.
Qed.

(** A name the parser accepts. *)
Definition spec_name (limits : SpecLimits) (n : string) : Prop :=
  n <> "" /\ strlen n <= spec_max_name limits /\ is_valid_utf8 n = true.

(** What reading a line for record [r] amounts to. *)
Definition reads_as {R} limits (directive : string) (fields : R -> list (string * SpecValue))
    (add : FabricBuilder -> R -> Status * FabricBuilder) (r : R) : Prop :=
  forall s b st b1 w, stage limits s b -> add b r = (st, b1) -> status_ok st = true ->
  exists s1, run_directive limits directive (line_args (directive, fields r) w) s = Value s1 /\ stage limits s1 b1.

(** Reads the next argument from its printed value. *)
Ltac read_arg HV :=
  first
  [ erewrite arg_u32_number; [|rewrite HV; reflexivity|eassumption]
  | erewrite arg_u64_number; [|rewrite HV; reflexivity|eassumption]
  | erewrite arg_str_word; [|rewrite HV; reflexivity|cbn [value_of snd]; solve [auto with slf]|cbn [value_of snd]; solve [auto with slf]]
  | erewrite arg_str_text; [|rewrite HV; reflexivity|eassumption|eassumption|eassumption] ].

(** Opens a record directive: the builder is there and no key is unknown. *)
Ltac open_directive H HV :=
  intros s b st b1 w [(s' & He & Hs') Hs] Ha Hst;
  match goal with |- context [line_args ?p w] =>
    assert (keys_ok p) as Hk by (repeat (apply NoDup_cons; split; [set_solver by discriminate|]); apply NoDup_nil; exact I);
    pose proof (fun k => line_args_value p w k Hk) as HV;
    pose proof (fun allowed => line_args_known p w allowed Hk) as H;
    generalize dependent (line_args p w); intros a HV H
  end;
  unfold run_directive; rewrite Hs; cbn [fst negb];
  repeat (rewrite bool_decide_false by discriminate); rewrite bool_decide_true by done.

(** Reads the arguments in order. *)
Ltac read_args H HV :=
  rewrite H by reflexivity; cbn [mbind Outcome_bind check]; unfold require_generation;
  repeat (read_arg HV; cbn [mbind Outcome_bind]); cbn [malformed mbind Outcome_bind value_of snd].

Lemma domain_reads limits d :
  domain_fits d -> spec_name limits (dom_name d) -> reads_as limits "domain" domain_fields add_failure_domain d.
Proof.
  intros [F1 F2] (N1 & N2 & N3). open_directive H HV. unfold domain_directive. rewrite He.
  cbn [mbind Outcome_bind]. read_args H HV.
  replace (MkDomain _ _ _) with d by by destruct d. by eapply spec_add_stage.
Qed.

(** Enumerations are read back from their names. *)
Lemma enumeration_texts :
  (forall x, parse_leaf_role (LeafRole_to_string x) = Some x) /\ (forall x, parse_spine_role (SpineRole_to_string x) = Some x) /\
  (forall x, parse_node_state (NodeState_to_string x) = Some x) /\ (forall x, parse_port_admin (PortAdmin_to_string x) = Some x) /\
  (forall x, parse_fabric_state (FabricState_to_string x) = Some x) /\
  (forall x, parse_evidence_policy (EvidencePolicy_to_string x) = Some x) /\
  (forall x, parse_link_observation (LinkObservation_to_string x) = Some x) /\
  (forall x, x = LA_Enabled \/ x = LA_Disabled -> parse_link_admin (LinkAdmin_to_string x) = Some x).
Proof. split_and!; [by intros [] ..|by intros x [-> | ->]]. Qed.

Lemma leaf_reads limits l :
  leaf_fits l -> spec_name limits (leaf_name l) -> reads_as limits "leaf" leaf_fields add_leaf l.
Proof.
  intros (F1 & F2 & F3 & F4 & F5 & F6) (N1 & N2 & N3). open_directive H HV. unfold leaf_directive. rewrite He.
  assert (plain_word (LeafRole_to_string (leaf_role l)) = true) by by destruct (leaf_role l).
  assert (strlen (LeafRole_to_string (leaf_role l)) <= 32) by by destruct (leaf_role l).
  assert (plain_word (NodeState_to_string (leaf_state l)) = true) by by destruct (leaf_state l).
  assert (strlen (NodeState_to_string (leaf_state l)) <= 32) by by destruct (leaf_state l).
  cbn [mbind Outcome_bind]. read_args H HV. destruct enumeration_texts as (E1 & _ & E2 & _). rewrite E1, E2.
  cbn [parsed_as mbind Outcome_bind].
  replace (MkLeaf _ _ _ _ _ _ _ _ _) with l by by destruct l. by eapply spec_add_stage.
Qed.

Lemma spine_reads limits l :
  spine_fits l -> spec_name limits (spine_name l) -> reads_as limits "spine" spine_fields add_spine l.
Proof.
  intros (F1 & F2 & F3 & F4 & F5) (N1 & N2 & N3). open_directive H HV. unfold spine_directive. rewrite He.
  assert (plain_word (SpineRole_to_string (spine_role l)) = true) by by destruct (spine_role l).
  assert (strlen (SpineRole_to_string (spine_role l)) <= 32) by by destruct (spine_role l).
  assert (plain_word (NodeState_to_string (spine_state l)) = true) by by destruct (spine_state l).
  assert (strlen (NodeState_to_string (spine_state l)) <= 32) by by destruct (spine_state l).
  cbn [mbind Outcome_bind]. read_args H HV. destruct enumeration_texts as (_ & E1 & E2 & _). rewrite E1, E2.
  cbn [parsed_as mbind Outcome_bind].
  replace (MkSpine _ _ _ _ _ _ _ _) with l by by destruct l. by eapply spec_add_stage.
Qed.

Lemma port_reads limits p : port_fits p -> reads_as limits "port" port_fields add_port p.
Proof.
  intros (F1 & F2 & F3 & F4 & F5). open_directive H HV. unfold port_directive. rewrite He.
  assert (plain_word (PortAdmin_to_string (port_admin p)) = true) by by destruct (port_admin p).
  assert (strlen (PortAdmin_to_string (port_admin p)) <= 32) by by destruct (port_admin p).
  cbn [mbind Outcome_bind]. read_args H HV. destruct enumeration_texts as (_ & _ & _ & E & _).
  rewrite node_key_back, E by done. cbn [parsed_as mbind Outcome_bind].
  replace (MkPort _ _ _ _ _) with p by by destruct p. by eapply spec_add_stage.
Qed.

Lemma evidence_reads limits r : evidence_fits r -> reads_as limits "evidence" evidence_fields add_evidence r.
Proof.
  intros (F1 & F2 & F3 & F4 & F5 & F6 & F7). open_directive H HV. unfold evidence_directive. rewrite He.
  assert (plain_word (LinkObservation_to_string (ev_observed r)) = true) by by destruct (ev_observed r).
  assert (strlen (LinkObservation_to_string (ev_observed r)) <= 32) by by destruct (ev_observed r).
  cbn [mbind Outcome_bind]. read_args H HV. destruct enumeration_texts as (_ & _ & _ & _ & _ & _ & E & _).
  rewrite parse_incarnation_to_string, E by done. cbn [parsed_as mbind Outcome_bind].
  replace (MkEvidence _ _ _ _ _ _ _) with r by by destruct r. by eapply spec_add_stage.
Qed.

Lemma arg_u64_absent (a : Args) k fallback : a_values a !! k = None -> arg_u64 a k false fallback = Value fallback.
Proof. intros H. unfold arg_u64. by rewrite H. Qed.

(** The class is always printed, so the tiers are not consulted. *)
Lemma link_class_back a c na nb : link_class_of a (LinkClass_to_string c) na nb = Value c.
Proof. by destruct c. Qed.

Lemma link_fields_keys l : NoDup (fst <$> link_fields l).
Proof. unfold link_fields. destruct (link_declared_speed l =? 0); apply (bool_decide_unpack _); reflexivity. Qed.

Lemma link_speed_read a l :
  (forall k, a_values a !! k = field_value k (link_fields l)) -> u64_ok (link_declared_speed l) ->
  arg_u64 a "speed_mbps" false 0 = Value (link_declared_speed l).
Proof.
  intros HV F. unfold link_fields in HV. destruct (Z.eqb_spec (link_declared_speed l) 0) as [->|].
  - apply arg_u64_absent. by rewrite HV.
  - apply arg_u64_number; [|done]. by rewrite HV.
Qed.

(** The other keys do not depend on whether the speed is printed. *)
Lemma link_field_value k l :
  k <> "speed_mbps" ->
  field_value k (link_fields l)
  = field_value k [("id", number (link_id l)); ("a", Word (NodeKey_to_string (link_a l))); ("pa", number (link_port_a l));
       ("b", Word (NodeKey_to_string (link_b l))); ("pb", number (link_port_b l));
       ("class", Word (LinkClass_to_string (link_cls l))); ("admin", Word (LinkAdmin_to_string (link_admin l)));
       ("generation", number (link_generation l))].
Proof.
  intros H. unfold link_fields, field_value. destruct (link_declared_speed l =? 0); [done|].
  cbn [app List.find fst]. repeat (case_bool_decide; [try done; congruence|]). done.
Qed.

Lemma link_directive_reads limits add l a s b s' st b1 :
  link_fits l -> (forall k, a_values a !! k = field_value k (link_fields l)) ->
  (forall allowed, forallb (fun q => bool_decide (q.1 ∈ allowed)) (link_fields l) = true -> reject_unknown a allowed = success) ->
  ensure_builder limits s = Value (b, s') -> sp_have_fabric s' = true -> add b l = (st, b1) -> status_ok st = true ->
  exists s1, link_directive add limits a s = Value s1 /\ stage limits s1 b1.
Proof.
  intros (F1 & F2 & F3 & F4 & F5 & F6 & F7 & F8 & F9 & F10) HV H He Hs' Ha Hst. unfold link_directive. rewrite He.
  pose proof (link_speed_read a l HV F9) as Hsp.
  assert (plain_word (LinkClass_to_string (link_cls l)) = true) by by destruct (link_cls l).
  assert (strlen (LinkClass_to_string (link_cls l)) <= 32) by by destruct (link_cls l).
  assert (plain_word (LinkAdmin_to_string (link_admin l)) = true) by by destruct F8 as [-> | ->].
  assert (strlen (LinkAdmin_to_string (link_admin l)) <= 32) by by destruct F8 as [-> | ->].
  assert (reject_unknown a ["id"; "a"; "pa"; "b"; "pb"; "class"; "admin"; "speed_mbps"; "generation"] = success) as Hk.
  { apply H. unfold link_fields. by destruct (link_declared_speed l =? 0). }
  assert (forall k, k <> "speed_mbps" -> a_values a !! k = _) as HV' by (intros k Hk'; rewrite HV; by apply link_field_value).
  cbn [mbind Outcome_bind]. rewrite Hk, Hsp. cbn [mbind Outcome_bind check]. unfold require_generation.
  erewrite (arg_u32_number a "id") by (rewrite ?HV' by discriminate; done).
  erewrite (arg_u32_number a "pa") by (rewrite ?HV' by discriminate; done).
  erewrite (arg_u32_number a "pb") by (rewrite ?HV' by discriminate; done).
  erewrite (arg_u64_number a "generation") by (rewrite ?HV' by discriminate; done).
  erewrite (arg_str_word a "a") by (rewrite ?HV' by discriminate; first [reflexivity|cbn [value_of snd]; auto with slf]).
  erewrite (arg_str_word a "b") by (rewrite ?HV' by discriminate; first [reflexivity|cbn [value_of snd]; auto with slf]).
  erewrite (arg_str_word a "class") by (rewrite ?HV' by discriminate; first [reflexivity|cbn [value_of snd]; auto with slf]).
  erewrite (arg_str_word a "admin") by (rewrite ?HV' by discriminate; first [reflexivity|cbn [value_of snd]; auto with slf]).
  cbn [malformed mbind Outcome_bind value_of snd]. destruct enumeration_texts as (_ & _ & _ & _ & _ & _ & _ & E).
  rewrite !node_key_back, E by done. cbn [parsed_as mbind Outcome_bind]. rewrite link_class_back. cbn [mbind Outcome_bind].
  replace (MkLink _ _ _ _ _ _ _ _ _) with l by by destruct l. by eapply spec_add_stage.
Qed.

Lemma link_reads limits l : link_fits l -> reads_as limits "link" link_fields add_link l.
Proof.
  intros F s b st b1 w [(s' & He & Hs') Hs] Ha Hst. unfold run_directive. rewrite Hs.
  eapply (link_directive_reads limits add_link); try done; intros.
  - by apply (line_args_value ("link", link_fields l)), link_fields_keys.
  - apply line_args_known; [apply link_fields_keys|done].
Qed.

Lemma history_reads limits l : link_fits l -> reads_as limits "history-link" link_fields add_history_link l.
Proof.
  intros F s b st b1 w [(s' & He & Hs') Hs] Ha Hst. unfold run_directive. rewrite Hs.
  eapply (link_directive_reads limits add_history_link); try done; intros.
  - by apply (line_args_value ("history-link", link_fields l)), link_fields_keys.
  - apply line_args_known; [apply link_fields_keys|done].
Qed.

(** ** The header lines *)

Lemma arg_str_absent (a : Args) k max fallback : a_values a !! k = None -> arg_str a k false max fallback = Value fallback.
Proof. intros H. unfold arg_str. by rewrite H. Qed.

(** The parser's state behind the two header lines of [f]. *)
Definition header_state (f : Fabric) : SpecState :=
  MkSpec None (fab_options f) (fab_generation f) false true (fab_id f) (fab_name f) (fab_site f) (fab_epoch f) (fab_state f).

Lemma fabric_keys f : keys_ok ("fabric", fabric_fields f).
Proof. unfold keys_ok, fabric_fields. cbn [snd]. case_bool_decide; apply (bool_decide_unpack _); reflexivity. Qed.

Lemma fabric_site_read limits a f :
  (forall k, a_values a !! k = field_value k (fabric_fields f)) -> fab_site f = "" \/ spec_name limits (fab_site f) ->
  arg_str a "site" false (spec_max_name limits) "" = Value (fab_site f).
Proof.
  intros HV Hs. unfold fabric_fields in HV. case_bool_decide as E.
  - rewrite E. apply arg_str_absent. by rewrite HV.
  - destruct Hs as [|(H1 & H2 & H3)]; [done|]. apply arg_str_text; [by rewrite HV|done..].
Qed.

Lemma fabric_field_value k f :
  k <> "site" ->
  field_value k (fabric_fields f)
  = field_value k [("id", number (fab_id f)); ("name", Quoted (fab_name f)); ("generation", number (fab_generation f));
       ("epoch", number (fab_epoch f)); ("state", Word (FabricState_to_string (fab_state f)))].
Proof.
  intros H. unfold fabric_fields, field_value. destruct (bool_decide (fab_site f = "")); [done|].
  cbn [app List.find fst]. repeat (case_bool_decide; [try done; congruence|]). done.
Qed.

Lemma fabric_reads limits f w :
  fab_id f <> 0 -> fab_generation f <> 0 -> u64_ok (fab_id f) -> u64_ok (fab_generation f) -> u64_ok (fab_epoch f) ->
  spec_name limits (fab_name f) -> fab_site f = "" \/ spec_name limits (fab_site f) ->
  run_directive limits "fabric" (line_args ("fabric", fabric_fields f) w) initial_spec
  = Value (MkSpec None default_options (fab_generation f) false true (fab_id f) (fab_name f) (fab_site f) (fab_epoch f) (fab_state f)).
Proof.
  intros Hid Hg F1 F2 F3 (N1 & N2 & N3) Hsite.
  pose proof (fun k => line_args_value _ w k (fabric_keys f)) as HV. cbn [snd] in HV.
  assert (reject_unknown (line_args ("fabric", fabric_fields f) w) ["id"; "name"; "site"; "generation"; "epoch"; "state"] = success) as Hk.
  { apply line_args_known; [apply fabric_keys|]. cbn [snd]. unfold fabric_fields. by case_match. }
  revert HV Hk. generalize (line_args ("fabric", fabric_fields f) w) as a. intros a HV Hk.
  assert (plain_word (FabricState_to_string (fab_state f)) = true) as Hw by by destruct (fab_state f).
  assert (strlen (FabricState_to_string (fab_state f)) <= 64) as Hl by by destruct (fab_state f).
  pose proof (fabric_site_read limits a f HV Hsite) as Hs.
  assert (forall k, k <> "site" -> a_values a !! k = _) as HV' by (intros k Hk'; rewrite HV; by apply fabric_field_value).
  unfold run_directive. rewrite bool_decide_true by done. unfold fabric_directive. cbn [sp_have_fabric initial_spec].
  rewrite Hk. cbn [mbind Outcome_bind check].
  erewrite (arg_u64_number a "id") by (rewrite ?HV' by discriminate; done). cbn [mbind Outcome_bind].
  erewrite (arg_str_text a "name") by (rewrite ?HV' by discriminate; done). cbn [mbind Outcome_bind].
  rewrite Hs. cbn [mbind Outcome_bind].
  erewrite (arg_u64_number a "generation") by (rewrite ?HV' by discriminate; done). cbn [mbind Outcome_bind].
  erewrite (arg_u64_number a "epoch") by (rewrite ?HV' by discriminate; done). cbn [mbind Outcome_bind value_of snd].
  rewrite (proj2 (Z.eqb_neq _ _) Hid), (proj2 (Z.eqb_neq _ _) Hg).
  erewrite (arg_str_word a "state") by (rewrite ?HV' by discriminate; first [reflexivity|cbn [value_of snd]; done]).
  cbn [mbind Outcome_bind value_of snd]. apply plain_word_spec in Hw as [Hne _]. rewrite (bool_decide_false _ Hne).
  destruct enumeration_texts as (_ & _ & _ & _ & E & _). rewrite E. done.
Qed.

Lemma option_reads limits o s w :
  sp_have_fabric s = true -> sp_nodes_started s = false -> u32_ok (min_eligible_spines o) ->
  run_directive limits "option" (line_args ("option", option_fields o) w) s = Value (with_spec_options o s).
Proof.
  intros Hs Hn F.
  assert (keys_ok ("option", option_fields o)) as Hk by (apply (bool_decide_unpack _); reflexivity).
  pose proof (fun k => line_args_value _ w k Hk) as HV. cbn [snd] in HV.
  pose proof (line_args_known _ w ["allow_same_tier_adjacency"; "require_domain_diversity"; "min_eligible_spines";
    "evidence_policy"] Hk ltac:(reflexivity)) as Hr.
  revert HV Hr. generalize (line_args ("option", option_fields o) w) as a. intros a HV Hr.
  assert (plain_word (EvidencePolicy_to_string (evidence_policy o)) = true) as Hw by by destruct (evidence_policy o).
  assert (strlen (EvidencePolicy_to_string (evidence_policy o)) <= 64) as Hl by by destruct (evidence_policy o).
  unfold run_directive. rewrite Hs. cbn [negb]. rewrite bool_decide_false by discriminate. rewrite bool_decide_true by done.
  unfold option_directive. rewrite Hn, Hr. cbn [mbind Outcome_bind check].
  erewrite (arg_bool_truth a "allow_same_tier_adjacency") by (rewrite HV; reflexivity). cbn [mbind Outcome_bind].
  erewrite (arg_bool_truth a "require_domain_diversity") by (rewrite HV; reflexivity). cbn [mbind Outcome_bind].
  erewrite (arg_u32_number a "min_eligible_spines") by (rewrite ?HV; done). cbn [mbind Outcome_bind].
  erewrite (arg_str_word a "evidence_policy") by (rewrite ?HV; first [reflexivity|cbn [value_of snd]; done]).
  cbn [mbind Outcome_bind value_of snd]. apply plain_word_spec in Hw as [Hne _]. rewrite (bool_decide_false _ Hne).
  destruct enumeration_texts as (_ & _ & _ & _ & _ & E & _). rewrite E. cbn [parsed_as mbind Outcome_bind]. by destruct o.
Qed.

(** ** The whole text *)

Definition fabric_names (f : Fabric) : list string :=
  fab_name f :: fab_site f :: (dom_name <$> domains f) ++ (leaf_name <$> leaves f) ++ (spine_name <$> spines f).

(** What a text can carry: no comment mark and no NUL in a name, no reserved zero, and the
    printed text within the parser's bounds. *)
Record spec_fits (limits : SpecLimits) (f : Fabric) : Prop := {
  sf_id : fab_id f <> 0;
  sf_generation : fab_generation f <> 0;
  sf_names : forall n, n ∈ fabric_names f -> (x23 ∉ bytes_of n) /\ (x00 ∉ bytes_of n);
  sf_name_bytes : max_name_bytes (spec_builder limits) <= spec_max_name limits;
  sf_bytes : strlen (format_spec f) <= max_file_bytes limits;
  sf_lines : Zlen (split_lines (bytes_of (format_spec f))) <= max_lines limits <= u32_max;
  sf_line : forall l, l ∈ split_lines (bytes_of (format_spec f)) -> Zlen l <= max_line_bytes limits
}.

Lemma name_quotable lim n : name_ok lim n -> (x23 ∉ bytes_of n) /\ (x00 ∉ bytes_of n) -> value_ok (Quoted n).
Proof. intros (_ & Hu & _) [H1 H2]. by split_and!. Qed.

Lemma name_spec_name limits n :
  name_ok (spec_builder limits) n -> max_name_bytes (spec_builder limits) <= spec_max_name limits -> spec_name limits n.
Proof. intros (Hn & Hu & Hl) H. split_and!; [done|lia|done]. Qed.

(** Fields whose values are words, once the quoted ones are known. *)
Ltac words_ok :=
  repeat (apply Forall_cons; split; [split; [reflexivity|cbn [value_ok snd number truth]; first [eassumption | solve [auto with slf] | solve [repeat case_match; reflexivity]]]|]);
  apply Forall_nil; exact I.

Section Text.
Context (limits : SpecLimits) (f : Fabric).
Local Abbreviation lim := (spec_builder limits).
Hypothesis wf : fabric_wf lim f.
Hypothesis bounded : fabric_bounded lim f.
Hypothesis fits : fabric_fits f.
Hypothesis text : spec_fits limits f.
Hypothesis disjoint : forall l h, l ∈ links f -> h ∈ history_links f -> link_id l <> link_id h.
Hypothesis untied : forall r s, r ∈ evidence f -> s ∈ evidence f -> ev_tied r s -> r = s.

Lemma name_value n : n ∈ fabric_names f -> name_ok lim n -> value_ok (Quoted n).
Proof. intros Hin Hn. eapply name_quotable; [exact Hn|]. by apply (sf_names _ _ text). Qed.

Lemma words_of_enums :
  (forall x, plain_word (LeafRole_to_string x) = true) /\ (forall x, plain_word (SpineRole_to_string x) = true) /\
  (forall x, plain_word (NodeState_to_string x) = true) /\ (forall x, plain_word (PortAdmin_to_string x) = true) /\
  (forall x, plain_word (FabricState_to_string x) = true) /\ (forall x, plain_word (EvidencePolicy_to_string x) = true) /\
  (forall x, plain_word (LinkObservation_to_string x) = true) /\ (forall x, plain_word (LinkClass_to_string x) = true) /\
  (forall x, x = LA_Enabled \/ x = LA_Disabled -> plain_word (LinkAdmin_to_string x) = true).
Proof. split_and!; [by intros [] ..|by intros x [-> | ->]]. Qed.

Lemma link_line_ok dir l : plain_word dir = true -> link_fits l -> line_ok (dir, link_fields l) /\ keys_ok (dir, link_fields l).
Proof.
  intros Hd (_ & _ & _ & _ & _ & _ & _ & Hadm & _). split; [split; [done|]|apply link_fields_keys].
  destruct words_of_enums as (_ & _ & _ & _ & _ & _ & _ & Hc & Ha). specialize (Ha _ Hadm).
  cbn [snd]. unfold link_fields. destruct (link_declared_speed l =? 0); cbn [app]; words_ok.
Qed.

Lemma lines_ok : Forall (fun p => line_ok p /\ keys_ok p) (spec_lines f).
Proof.
  pose proof wf as []. pose proof fits as []. destruct words_of_enums as (W1 & W2 & W3 & W4 & W5 & W6 & W7 & W8 & W9).
  assert (value_ok (Quoted (fab_name f))) as Hname by (apply name_value; [left|done]).
  unfold spec_lines. rewrite !Forall_app, !Forall_fmap. unfold compose. split_and!.
  - apply Forall_cons. split; [split; [split; [done|]|apply fabric_keys]|].
    + cbn [snd]. unfold fabric_fields. case_bool_decide; cbn [app]; [words_ok|].
      assert (value_ok (Quoted (fab_site f))) by (apply name_value; [right; left|by destruct fw_site]). words_ok.
    + apply Forall_singleton. split; [split; [done|]|apply (bool_decide_unpack _); reflexivity].
      cbn [snd]. unfold option_fields. words_ok.
  - apply Forall_forall. intros d Hd. split; [split; [done|]|apply (bool_decide_unpack _); reflexivity].
    assert (value_ok (Quoted (dom_name d))) by (apply name_value; [do 2 right; set_solver|by apply fw_domains]).
    cbn [snd]. unfold domain_fields. words_ok.
  - apply Forall_forall. intros d Hd. split; [split; [done|]|apply (bool_decide_unpack _); reflexivity].
    assert (value_ok (Quoted (leaf_name d))) by (apply name_value; [do 2 right; set_solver|by apply fw_leaves]).
    cbn [snd]. unfold leaf_fields. words_ok.
  - apply Forall_forall. intros d Hd. split; [split; [done|]|apply (bool_decide_unpack _); reflexivity].
    assert (value_ok (Quoted (spine_name d))) by (apply name_value; [do 2 right; set_solver|by apply fw_spines]).
    cbn [snd]. unfold spine_fields. words_ok.
  - apply Forall_forall. intros d Hd. split; [split; [done|]|apply (bool_decide_unpack _); reflexivity].
    cbn [snd]. unfold port_fields. words_ok.
  - apply Forall_forall. intros d Hd. apply link_line_ok; auto.
  - apply Forall_forall. intros d Hd. apply link_line_ok; auto.
  - apply Forall_forall. intros d Hd. split; [split; [done|]|apply (bool_decide_unpack _); reflexivity].
    cbn [snd]. unfold evidence_fields. words_ok.
Qed.

Lemma parse_records {R} dir (fields : R -> list (string * SpecValue)) add (l : list R) n rest s b b' :
  (forall r, r ∈ l -> reads_as limits dir fields add r) ->
  lines_fit limits ((fun r => (dir, fields r)) <$> l) -> stage limits s b -> add_all add b l = (success, b') ->
  0 <= n -> n + Zlen l <= max_lines limits <= u32_max ->
  exists s', parse_lines limits n ((line_bytes <$> ((fun r => (dir, fields r)) <$> l)) ++ rest) s
             = parse_lines limits (n + Zlen l) rest s' /\ stage limits s' b'.
Proof.
  intros Hr. revert n s b. induction l as [|r l IH]; intros n s b Hf Hs Ha Hn Hb.
  - injection Ha as <-. exists s. by rewrite Z.add_0_r.
  - apply add_all_cons in Ha as (st & b1 & Hx & Hst & Hl). rewrite fmap_cons in Hf.
    apply Forall_cons in Hf as [(Hok & Hk & Hlen) Hf]. rewrite Zlen_cons in *. pose proof (Zlen_nonneg l).
    rewrite !fmap_cons. cbn [app].
    destruct (parse_lines_cons limits n (dir, fields r) ((line_bytes <$> ((fun r => (dir, fields r)) <$> l)) ++ rest) s
      Hn ltac:(lia) Hok Hk Hlen) as (w & ->).
    destruct (Hr r ltac:(left) s b st b1 w Hs Hx Hst) as (s1 & E & Hs1). cbn [fst]. rewrite E. cbn [mbind Outcome_bind].
    destruct (IH ltac:(intros; apply Hr; by right) (n + 1) s1 b1 Hf Hs1 Hl) as (s2 & E2 & Hs2); [lia..|].
    exists s2. split; [|done]. rewrite E2. f_equal. lia.
Qed.

Lemma text_lines : split_lines (bytes_of (format_spec f)) = (line_bytes <$> spec_lines f) ++ [[]].
Proof.
  rewrite format_spec_bytes. apply split_printed. eapply Forall_impl; [apply lines_ok|]. by intros p [? _].
Qed.

Lemma all_lines_fit : lines_fit limits (spec_lines f).
Proof.
  apply Forall_forall. intros p Hp. pose proof lines_ok as H. rewrite Forall_forall in H. destruct (H p Hp) as [H1 H2].
  split_and!; [done..|]. apply (sf_line _ _ text). rewrite text_lines. apply elem_of_app. left. by apply list_elem_of_fmap_2.
Qed.

Lemma known_name n : name_ok lim n -> spec_name limits n.
Proof. intros H. apply name_spec_name; [done|apply (sf_name_bytes _ _ text)]. Qed.

(** The builder that the first record finds. *)
Lemma header_builder_stage :
  exists b, core_eq (st_base lim f) b /\ stage limits (header_state f) b.
Proof.
  pose proof (rebuild_header lim f wf) as Hc. pose proof wf as [].
  set (b0 := new_builder (fab_id f) (fab_name f) (fab_generation f) (fab_epoch f) (fab_options f) lim) in *.
  assert (b_frozen b0 = false) as Hfz by (unfold b0, new_builder; by repeat case_match).
  assert (b_site b0 = "") as Hst by (unfold b0, new_builder; by repeat case_match).
  assert (b_limits b0 = lim) as Hlim by (unfold b0, new_builder; by repeat case_match).
  exists (set_state (set_site b0 (fab_site f)).2 (fab_state f)).2. split; [done|]. split; [|done].
  eexists. split; [|shelve].
  unfold ensure_builder, header_state, spec_new_builder. cbn [sp_builder sp_have_fabric negb sp_id sp_name sp_generation sp_epoch
    sp_options sp_site sp_state]. fold b0.
  assert ((if bool_decide (fab_site f = "") then (success, b0) else set_site b0 (fab_site f)) = (success, with_site (fab_site f) b0)
    /\ set_site b0 (fab_site f) = (success, with_site (fab_site f) b0)) as [-> ->].
  { assert (set_site b0 (fab_site f) = (success, with_site (fab_site f) b0)) as E.
    { unfold set_site, guarded. rewrite Hfz, Hlim. cbv zeta. case_decide as Ed; [done|].
      destruct fw_site as [|Hn]; [done|]. apply check_name_ok in Hn as ->. done. }
    split; [|done]. case_bool_decide as Eb; [|done]. rewrite Eb. f_equal. rewrite <- Hst. by destruct b0. }
  unfold set_state, guarded. cbn [b_frozen with_site fst snd]. rewrite Hfz. reflexivity.
  Unshelve. done.
Qed.

(** The lines behind the two of the header. *)
Definition record_lines : list (string * list (string * SpecValue)) :=
  ((fun d => ("domain", domain_fields d)) <$> domains f) ++ ((fun l => ("leaf", leaf_fields l)) <$> leaves f)
  ++ ((fun s => ("spine", spine_fields s)) <$> spines f) ++ ((fun p => ("port", port_fields p)) <$> ports f)
  ++ ((fun l => ("link", link_fields l)) <$> links f) ++ ((fun l => ("history-link", link_fields l)) <$> history_links f)
  ++ ((fun r => ("evidence", evidence_fields r)) <$> evidence f).

Lemma spec_lines_split :
  spec_lines f = ("fabric", fabric_fields f) :: ("option", option_fields (fab_options f)) :: record_lines.
Proof. reflexivity. Qed.

(** The record lines, one kind after the other, rebuild the fabric's builder. *)
Lemma records_read s b :
  stage limits s b -> core_eq (st_base lim f) b ->
  exists s' b', parse_lines limits 2 ((line_bytes <$> record_lines) ++ [[]]) s = Value s' /\
    stage limits s' b' /\ core_eq (st_evidence lim f (evidence f)) b'.
Proof.
  intros Hs C. pose proof all_lines_fit as Hfit. pose proof (sf_lines _ _ text) as Hn. rewrite text_lines in Hn.
  pose proof wf as []. pose proof fits as [].
  rewrite spec_lines_split in *. do 2 apply Forall_cons_1 in Hfit as [_ Hfit].
  unfold lines_fit, record_lines in *. rewrite !Forall_app in Hfit. destruct Hfit as (L1 & L2 & L3 & L4 & L5 & L6 & L7).
  unfold Zlen in Hn. rewrite length_app, !fmap_cons in Hn. cbn [List.length] in Hn.
  rewrite !fmap_app, !length_app, !length_fmap in Hn. rewrite !fmap_app, <- !(assoc_L (++)).
  destruct (rebuild_domains lim f wf bounded disjoint b C) as (b1 & A1 & C1).
  destruct (rebuild_leaves lim f wf bounded disjoint b1 C1) as (b2 & A2 & C2).
  destruct (rebuild_spines lim f wf bounded disjoint b2 C2) as (b3 & A3 & C3).
  destruct (rebuild_ports lim f wf bounded disjoint b3 C3) as (b4 & A4 & C4).
  destruct (rebuild_links lim f wf bounded disjoint b4 C4) as (b5 & A5 & C5).
  destruct (rebuild_history lim f wf bounded disjoint b5 C5) as (b6 & A6 & C6).
  destruct (rebuild_evidence lim f wf bounded disjoint b6 C6) as (b7 & A7 & C7).
  edestruct (parse_records "domain" domain_fields) as (s1 & -> & H1); [|exact L1|exact Hs|exact A1|clear; lia|clear -Hn; unfold Zlen; lia|].
  { intros r Hr. apply domain_reads; [auto|]. by apply known_name, fw_domains. }
  edestruct (parse_records "leaf" leaf_fields) as (s2 & -> & H2); [|exact L2|exact H1|exact A2|clear -Hn; unfold Zlen; lia..|].
  { intros r Hr. apply leaf_reads; [auto|]. by apply known_name, fw_leaves. }
  edestruct (parse_records "spine" spine_fields) as (s3 & -> & H3); [|exact L3|exact H2|exact A3|clear -Hn; unfold Zlen; lia..|].
  { intros r Hr. apply spine_reads; [auto|]. by apply known_name, fw_spines. }
  edestruct (parse_records "port" port_fields) as (s4 & -> & H4); [|exact L4|exact H3|exact A4|clear -Hn; unfold Zlen; lia..|].
  { intros r Hr. apply port_reads; auto. }
  edestruct (parse_records "link" link_fields) as (s5 & -> & H5); [|exact L5|exact H4|exact A5|clear -Hn; unfold Zlen; lia..|].
  { intros r Hr. apply link_reads; auto. }
  edestruct (parse_records "history-link" link_fields) as (s6 & -> & H6); [|exact L6|exact H5|exact A6|clear -Hn; unfold Zlen; lia..|].
  { intros r Hr. apply history_reads; auto. }
  edestruct (parse_records "evidence" evidence_fields) as (s7 & -> & H7); [|exact L7|exact H6|exact A7|clear -Hn; unfold Zlen; lia..|].
  { intros r Hr. apply evidence_reads; auto. }
  exists s7, b7. split; [|done]. cbn [parse_lines]. unfold parse_line.
  rewrite wrap_small by (clear -Hn; unfold Prelude.fits, u32_max, Zlen in *; lia).
  match goal with |- context [?n >? max_lines limits] => destruct (Z.gtb_spec n (max_lines limits)); [clear -Hn H; unfold Zlen in *; lia|] end.
  cbn [strip_return last]. change (Zlen (@nil byte)) with 0.
  assert (0 <= max_line_bytes limits).
  { apply (sf_line _ _ text []). rewrite text_lines. apply elem_of_app. right. left. }
  destruct (Z.gtb_spec 0 (max_line_bytes limits)); [lia|]. done.
Qed.

Lemma format_read : exists report, parse_spec (format_spec f) limits = (Value f, Some report).
Proof.
  pose proof wf as []. pose proof fits as []. pose proof all_lines_fit as Hfit. pose proof (sf_lines _ _ text) as Hn.
  rewrite text_lines in Hn.
  unfold parse_spec. destruct (Z.gtb_spec (strlen (format_spec f)) (max_file_bytes limits)) as [Hb|_];
    [pose proof (sf_bytes _ _ text); lia|].
  rewrite bool_decide_false.
  2: { rewrite format_spec_bytes. apply printed_no_nul. eapply Forall_impl; [apply lines_ok|]. by intros p [? _]. }
  assert (is_valid_utf8 (format_spec f) = true) as ->.
  { rewrite <- (text_of_bytes_of (format_spec f)), format_spec_bytes. apply printed_utf8.
    eapply Forall_impl; [apply lines_ok|]. by intros p [? _]. }
  cbn [negb]. rewrite text_lines.
  rewrite spec_lines_split in *. apply Forall_cons in Hfit as [(K1 & K2 & K3) Hfit].
  apply Forall_cons in Hfit as [(J1 & J2 & J3) _].
  rewrite Zlen_app, !fmap_cons, !Zlen_cons in Hn. change (Zlen (@nil (list byte))) with 0 in Hn.
  match type of Hn with context [Zlen ?l] => pose proof (Zlen_nonneg l) end.
  rewrite !fmap_cons. cbn [app].
  edestruct (parse_lines_cons limits 0 ("fabric", fabric_fields f)) as (w & ->); [lia|lia|done..|]. cbn [fst].
  rewrite fabric_reads; try done.
  2: apply (sf_id _ _ text). 2: apply (sf_generation _ _ text). 2: by apply known_name.
  2: { destruct fw_site; [by left|right; by apply known_name]. }
  cbn [mbind Outcome_bind].
  edestruct (parse_lines_cons limits (0 + 1) ("option", option_fields (fab_options f))) as (w' & ->); [lia|lia|done..|].
  cbn [fst]. rewrite option_reads by done. cbn [mbind Outcome_bind].
  change (with_spec_options (fab_options f) _) with (header_state f). change (0 + 1 + 1) with 2.
  destruct header_builder_stage as (b & C & Hs).
  destruct (records_read (header_state f) b Hs C) as (s' & b' & -> & [(s2 & -> & _) _] & C').
  pose proof (rebuild_freeze lim f wf bounded disjoint b' untied C') as E. destruct (freeze b') as [o b2]. simpl in E. subst o.
  by exists (b_report b2).
Qed.
End Text.


Definition line_fits (limits : SpecLimits) (f : Fabric) : bool :=
  forallb (fun l => Zlen l <=? max_line_bytes limits) (split_lines (bytes_of (format_spec f))).

Definition name_fits (n : string) : bool :=
  negb (bool_decide (x23 ∈ bytes_of n)) && negb (bool_decide (x00 ∈ bytes_of n)).

(** The conditions of [spec_fits], decided. *)
Lemma spec_fits_decided limits f :
  negb (fab_id f =? 0) && negb (fab_generation f =? 0) && forallb name_fits (fabric_names f)
  && (max_name_bytes (spec_builder limits) <=? spec_max_name limits)
  && (strlen (format_spec f) <=? max_file_bytes limits)
  && (Zlen (split_lines (bytes_of (format_spec f))) <=? max_lines limits) && (max_lines limits <=? u32_max)
  && line_fits limits f = true -> spec_fits limits f.
Proof.
  rewrite !andb_true_iff, !negb_true_iff, !Z.eqb_neq, !Z.leb_le. unfold line_fits.
  rewrite !forallb_Forall, !Forall_forall. intros [[[[[[[? ?] Hn] ?] ?] ?] ?] Hl]. split; auto.
  - intros n Hin. apply Hn in Hin. unfold name_fits in Hin.
    by rewrite andb_true_iff, !negb_true_iff, !bool_decide_eq_false in Hin.
  - intros l Hin. apply Hl in Hin. by apply Z.leb_le.
Qed.

Lemma sample_spec_fits : spec_fits default_spec_limits Sample.observed.
Proof. apply spec_fits_decided. vm_compute. reflexivity. Qed.


(** A name may hold '#' for the builder, and then the printed text is not read back:
    the rest of its line is taken for a comment before the quotes are looked at. *)
Definition hash_named : Outcome Fabric :=
  (freeze (new_builder 9 "rack #1" 7 3 default_options default_limits)).1.

Lemma hash_in_name_unreadable :
  match hash_named with
  | Value f => (parse_spec (format_spec f) default_spec_limits).1 = fail SC_Invalid "line 1: unterminated quoted value"
  | Failure _ => False
  end.
Proof. vm_compute. reflexivity. Qed.
