(* ===== verification/SpecBuild.v ===== *)
(** * What a specification text may build (src/spec.cpp)

    The parser only ever drives the public operations of a fresh builder, so
    the fabric of any text it accepts is well formed, and the work it does is
    bounded by the lines it is given. *)
From S2P Require Import Prelude Status Checked Identity Bytes Digest Model Builder BuilderSpec Sample Freeze CodecSpec Topology TopologySpec Spec.

(** An operation whose links end at leaves and spines. *)
Definition op_typed (op : BuilderOp) : Prop :=
  match op with OpLink l => tier_valid (tier (link_a l)) /\ tier_valid (tier (link_b l)) | _ => True end.

(** A builder that public operations have led to. *)
Definition driven (lim : BuilderLimits) (b : FabricBuilder) : Prop :=
  exists id name gen epoch opts ops, b = run_ops (new_builder id name gen epoch opts lim) ops /\ Forall op_typed ops.

Lemma driven_new lim id name gen epoch opts : driven lim (new_builder id name gen epoch opts lim).
Proof. exists id, name, gen, epoch, opts, []. split; [done|constructor]. Qed.

Lemma driven_op lim b op : op_typed op -> driven lim b -> driven lim (apply_op b op).2.
Proof.
  intros Hop (id & name & gen & epoch & opts & ops & -> & Hops). exists id, name, gen, epoch, opts, (ops ++ [op]).
  split; [unfold run_ops; by rewrite fold_left_app|]. apply Forall_app. by split; [|constructor].
Qed.

Lemma driven_limits lim b : driven lim b -> b_limits b = lim.
Proof.
  intros (id & name & gen & epoch & opts & ops & -> & _). rewrite (gr_limits _ _ (grows_run_ops _ ops)).
  unfold new_builder. cbv zeta. by repeat case_match.
Qed.

Lemma driven_sizes lim b : driven lim b -> builder_sizes b.
Proof. intros (id & name & gen & epoch & opts & ops & -> & _). apply run_ops_sizes, new_builder_sizes. Qed.

(** Only [add_link] changes the links, and it adds the one it is given. *)
Lemma apply_op_links b op k l :
  b_links (apply_op b op).2 !! k = Some l -> b_links b !! k = Some l \/ op = OpLink l.
Proof.
  assert (forall gs accept, b_links accept = b_links b -> b_links (guarded b gs accept).2 = b_links b) as Hg.
  { intros gs accept E. unfold guarded. by repeat case_match. }
  destruct op; cbn [apply_op]; try (unfold set_site, set_state, add_failure_domain, add_port, add_history_link, add_evidence;
    cbv zeta; rewrite Hg by done; by left).
  - destruct (add_leaf b r) as [s b'] eqn:E. apply add_leaf_cases in E as [[_ [p ->]]|(_ & _ & [p ->] & _)]; by left.
  - destruct (add_spine b r) as [s b'] eqn:E. apply add_spine_cases in E as [[_ [p ->]]|(_ & _ & [p ->] & _)]; by left.
  - unfold add_link, guarded. repeat case_match; try (by left). cbn [snd with_links b_links]. rewrite lookup_insert.
    case_decide; [intros [= <-]; by right|by left].
Qed.

Lemma driven_links lim b k l :
  driven lim b -> b_links b !! k = Some l -> tier_valid (tier (link_a l)) /\ tier_valid (tier (link_b l)).
Proof.
  intros (id & name & gen & epoch & opts & ops & -> & Hops). revert k l. induction ops as [|op ops IH] using rev_ind; intros k l.
  - change (run_ops ?b []) with b. assert (b_links (new_builder id name gen epoch opts lim) = ∅) as ->.
    { unfold new_builder. cbv zeta. by repeat case_match. }
    by rewrite lookup_empty.
  - apply Forall_app in Hops as [Hops [Hop _]%Forall_cons]. unfold run_ops. rewrite fold_left_app.
    intros [H| ->]%apply_op_links; [by eapply IH|exact Hop].
Qed.

Lemma driven_freeze lim b f b' :
  driven lim b -> freeze b = (Value f, b') -> Zlen (issues (b_report b')) < 2 ^ 32 -> fabric_wf lim f.
Proof.
  intros Hd Hf Hlen. rewrite <- (driven_limits _ _ Hd). destruct Hd as (id & name & gen & epoch & opts & ops & -> & _).
  eapply freeze_wf; [apply run_ops_wf, new_builder_wf| |exact Hf|exact Hlen].
  eapply report_wf_grows; [apply grows_run_ops|apply new_builder_report_wf].
Qed.

Lemma driven_report_wf lim b : driven lim b -> report_wf b.
Proof.
  intros (id & name & gen & epoch & opts & ops & -> & _).
  eapply report_wf_grows; [apply grows_run_ops|apply new_builder_report_wf].
Qed.

(** The bounds of the builder leave room for the indices of the topology arrays. *)
Definition limits_indexable (lim : BuilderLimits) : Prop :=
  Z.max 0 (max_leaves lim) + Z.max 0 (max_spines lim) <= u32_max /\ 2 * Z.max 0 (max_links lim) < 2 ^ 32.

Lemma assemble_tables b :
  leaves (assemble b) = values (b_leaves b) /\ spines (assemble b) = values (b_spines b) /\ links (assemble b) = values (b_links b).
Proof. unfold assemble. cbv zeta. by destruct (compute_digests _). Qed.

Lemma driven_indexable lim b f b' ix :
  limits_indexable lim -> driven lim b -> freeze b = (Value f, b') -> Zlen (issues (b_report b')) < 2 ^ 32 ->
  build_index f = Value ix -> indexable lim f.
Proof.
  intros [Hn Hl] Hd Hf Hlen Hix. pose proof (driven_freeze _ _ _ _ Hd Hf Hlen) as Hwf.
  destruct (driven_sizes _ _ Hd) as [_ S1 S2 _ S3 _ _]. rewrite (driven_limits _ _ Hd) in S1, S2, S3.
  destruct (freeze_Value _ _ _ (driven_report_wf _ _ Hd) Hf) as (_ & E & _ & _).
  destruct (assemble_tables b) as (E1 & E2 & E3). rewrite <- E in E1, E2, E3. clear E. split.
  - exact Hwf.
  - intros l Hin. rewrite E3 in Hin. apply elem_of_values in Hin as [k Hk]. by eapply driven_links.
  - unfold build_index in Hix. destruct (digest_is_zero (topology_digest f)); [discriminate|done].
  - rewrite E1, E2. unfold Zlen. rewrite !length_values. lia.
  - rewrite E3. unfold Zlen. rewrite length_values. lia.
Qed.

(** ** The parser keeps a driven builder *)

Definition spec_driven (lim : BuilderLimits) (s : SpecState) : Prop :=
  forall b, sp_builder s = Some b -> driven lim b.

#[export] Hint Resolve driven_new : slf.

Section Driven.
Context (limits : SpecLimits).
Local Abbreviation lim := (spec_builder limits).

Lemma ensure_builder_driven s b s' :
  ensure_builder limits s = Value (b, s') -> spec_driven lim s -> driven lim b /\ spec_driven lim s'.
Proof.
  unfold ensure_builder. intros H Hs. destruct (sp_builder s) as [b0|] eqn:E.
  { injection H as <- <-. split; [by apply Hs|done]. }
  destruct (negb (sp_have_fabric s)); [discriminate|].
  assert (driven lim (if bool_decide (sp_site s = "") then (success, spec_new_builder limits s)
                      else set_site (spec_new_builder limits s) (sp_site s)).2) as Hb.
  { destruct (bool_decide (sp_site s = "")); [apply driven_new|]. apply (driven_op _ _ (OpSite (sp_site s)) I), driven_new. }
  destruct (if bool_decide _ then _ else _) as [st b1]. simpl in Hb.
  destruct (negb (status_ok st)); [discriminate|].
  pose proof (driven_op _ _ (OpState (sp_state s)) I Hb) as Hb2. cbn [apply_op] in Hb2.
  destruct (set_state b1 (sp_state s)) as [st2 b2]. destruct (negb (status_ok st2)); [discriminate|].
  injection H as <- <-. split; [exact Hb2|]. intros b' [= <-]. exact Hb2.
Qed.

Lemma spec_add_driven {R} (add : FabricBuilder -> R -> Status * FabricBuilder) (op : R -> BuilderOp) b s r s' :
  (forall b r, add b r = apply_op b (op r)) -> op_typed (op r) -> driven lim b -> spec_add add b s r = Value s' -> spec_driven lim s'.
Proof.
  intros Hop Ht Hb H. unfold spec_add in H. pose proof (driven_op _ _ (op r) Ht Hb) as Hb'. rewrite <- Hop in Hb'.
  destruct (add b r) as [st b1]. destruct (negb (status_ok st)); [discriminate|]. injection H as <-.
  intros b' [= <-]. exact Hb'.
Qed.

Lemma parsed_as_Value {A} a what text (o : option A) v : parsed_as a what text o = Value v -> o = Some v.
Proof. unfold parsed_as. by destruct o; intros [= ->]. Qed.

Lemma parse_node_key_tier text key : parse_node_key text = Some key -> tier_valid (tier key).
Proof.
  unfold parse_node_key, parse_tier, tier_valid. intros H. repeat (case_match; try discriminate); injection H as <-; cbn [tier]; simplify_eq; auto.
Qed.

(** Runs the binds of an accepted record directive, and applies the step of its builder operation. *)
Ltac inv_directive :=
  repeat (inv_value; cbv zeta in *; match goal with
    | H : context [let '(_, _) := ?x in _] |- _ => is_var x; destruct x
    end); cbv zeta in *; inv_value.

Ltac adds op :=
  inv_directive;
  match goal with
  | H : spec_add _ ?b ?s1 _ = Value _ |- _ =>
      apply (spec_add_driven _ op b s1) in H; [exact H|done|try exact I|eapply proj1, ensure_builder_driven; eassumption]
  end.

Lemma fabric_directive_driven a s s' :
  fabric_directive limits a s = Value s' -> spec_driven lim s -> spec_driven lim s'.
Proof.
  unfold fabric_directive, spec_invalid. intros H Hs. destruct (sp_have_fabric s); [discriminate|].
  inv_value. repeat case_match; try discriminate; inv_value; exact Hs.
Qed.

Lemma option_directive_driven a s s' :
  option_directive a s = Value s' -> spec_driven lim s -> spec_driven lim s'.
Proof.
  unfold option_directive, spec_invalid. intros H Hs. destruct (sp_nodes_started s); [discriminate|].
  inv_value. exact Hs.
Qed.

Lemma domain_directive_driven a s s' :
  domain_directive limits a s = Value s' -> spec_driven lim s -> spec_driven lim s'.
Proof. unfold domain_directive. intros H Hs. adds OpDomain. Qed.

Lemma leaf_directive_driven a s s' :
  leaf_directive limits a s = Value s' -> spec_driven lim s -> spec_driven lim s'.
Proof. unfold leaf_directive. intros H Hs. adds OpLeaf. Qed.

Lemma spine_directive_driven a s s' :
  spine_directive limits a s = Value s' -> spec_driven lim s -> spec_driven lim s'.
Proof. unfold spine_directive. intros H Hs. adds OpSpine. Qed.

Lemma port_directive_driven a s s' :
  port_directive limits a s = Value s' -> spec_driven lim s -> spec_driven lim s'.
Proof. unfold port_directive. intros H Hs. adds OpPort. Qed.

Lemma link_directive_driven a s s' :
  link_directive add_link limits a s = Value s' -> spec_driven lim s -> spec_driven lim s'.
Proof. unfold link_directive. intros H Hs. adds OpLink.
  repeat match goal with H : parsed_as _ _ _ _ = Value _ |- _ => apply parsed_as_Value in H end.
  by split; eapply parse_node_key_tier.
Qed.

Lemma history_directive_driven a s s' :
  link_directive add_history_link limits a s = Value s' -> spec_driven lim s -> spec_driven lim s'.
Proof. unfold link_directive. intros H Hs. adds OpHistory. Qed.

Lemma evidence_directive_driven a s s' :
  evidence_directive limits a s = Value s' -> spec_driven lim s -> spec_driven lim s'.
Proof. unfold evidence_directive. intros H Hs. adds OpEvidence. Qed.

#[local] Hint Resolve fabric_directive_driven option_directive_driven domain_directive_driven leaf_directive_driven
  spine_directive_driven port_directive_driven link_directive_driven history_directive_driven
  evidence_directive_driven : slf.

Lemma run_directive_driven d a s s' :
  run_directive limits d a s = Value s' -> spec_driven lim s -> spec_driven lim s'.
Proof.
  unfold run_directive. intros H Hs.
  repeat match type of H with (if ?c then _ else _) = _ => destruct c; [solve [eauto with slf | discriminate]|] end.
  discriminate.
Qed.

Lemma parse_line_driven n line s s' :
  parse_line limits n line s = Value s' -> spec_driven lim s -> spec_driven lim s'.
Proof.
  unfold parse_line. intros H Hs. repeat case_match; try discriminate; inv_value; [exact Hs|].
  by eapply run_directive_driven.
Qed.

Lemma parse_lines_driven lines : forall n s s',
  parse_lines limits n lines s = Value s' -> spec_driven lim s -> spec_driven lim s'.
Proof.
  induction lines as [|line lines IH]; intros n s s' H Hs; cbn [parse_lines] in H; [by inv_value|].
  inv_value. eapply IH; [eassumption|]. by eapply parse_line_driven.
Qed.

(** An accepted text froze a driven builder. *)
Lemma parse_spec_driven text f r :
  parse_spec text limits = (Value f, Some r) ->
  exists b b', driven lim b /\ freeze b = (Value f, b') /\ r = b_report b'.
Proof.
  unfold parse_spec. intros H. repeat (case_match; try discriminate).
  simplify_eq. eexists _, _. split_and!; [|eassumption|done].
  eapply proj1, ensure_builder_driven; [eassumption|]. eapply parse_lines_driven; [eassumption|]. discriminate.
Qed.
End Driven.

(** C27: Whatever the text, when [parse_spec] accepts it the fabric it returns is
    well formed for the builder's limits: sorted unique records of one generation,
    no dangling port or endpoint, no doubled cable, bounded UTF-8 names, digests
    of its canonical encoding. Text takes no way around the builder's validation. *)
Theorem parsed_fabric_well_formed text limits f r :
  parse_spec text limits = (Value f, Some r) -> Zlen (issues r) < 2 ^ 32 -> fabric_wf (spec_builder limits) f.
Proof.
  intros H Hr. apply parse_spec_driven in H as (b & b' & Hb & Hf & ->). by eapply driven_freeze.
Qed.

Definition sample_text : string := Eval vm_compute in format_spec Sample.observed.

Definition sample_text_report : ValidationReport := Eval vm_compute in
  default Sample.report (parse_spec sample_text default_spec_limits).2.

Lemma parsed_fabric_well_formed_witness : fabric_wf (spec_builder default_spec_limits) Sample.observed.
Proof.
  apply (parsed_fabric_well_formed sample_text default_spec_limits Sample.observed sample_text_report);
    vm_compute; reflexivity.
Defined.
