(* ===== verification/Refusals.v ===== *)
(** * Failures never carry [Ok] (src/spec.cpp, src/topology.cpp, src/eligibility.cpp)

    An [Outcome] built from a [Status] is a failure whatever its code, so a
    caller that maps the code to an exit status relies on the failing paths
    giving a code other than [Ok]. They do: for reading a specification, building
    the index and answering a query. *)
From S2P Require Import Prelude Status Identity Bytes Capacity Model Builder Topology Eligibility EligibilitySpec Spec.

Definition refuses {A} (o : Outcome A) : Prop := forall st, o = Failure st -> code st <> SC_Ok.

Lemma refuses_Value {A} (a : A) : refuses (Value a).
Proof. done. Qed.
Lemma refuses_fail {A} c d : c <> SC_Ok -> refuses (fail (A := A) c d).
Proof. intros Hc st [= <-]. exact Hc. Qed.
Lemma refuses_check st : refuses (check st).
Proof.
  intros st'. unfold check. destruct (status_ok st) eqn:E; [done|]. intros [= <-] Hc%status_ok_spec. congruence.
Qed.
Lemma refuses_not_ok {A} st : negb (status_ok st) = true -> refuses (Failure (A := A) st).
Proof. intros H st' [= <-] Hc%status_ok_spec. by rewrite Hc in H. Qed.
Lemma refuses_bind {A B} (o : Outcome A) (k : A -> Outcome B) : refuses o -> (forall a, refuses (k a)) -> refuses (o ≫= k).
Proof. intros Ho Hk. destruct o as [a|st]; [apply Hk|]. intros st' [= <-]. by apply Ho. Qed.
Lemma refuses_again {A B} (o : Outcome A) st : refuses o -> o = Failure st -> refuses (Failure (A := B) st).
Proof. intros Ho E st' [= <-]. by apply Ho. Qed.

Create HintDb refuses discriminated.
#[export] Hint Resolve refuses_Value refuses_check refuses_not_ok : refuses.

(** Follows the code of a fallible function to each of its returns. *)
Ltac refuse :=
  repeat match goal with
    | |- refuses (fail _ _) => by apply refuses_fail
    | |- refuses (_ ≫= _) => apply refuses_bind; [|intros ?]
    | |- refuses _ => solve [auto with refuses]
    | |- refuses (let '(_, _) := ?x in _) => destruct x
    | |- refuses (if ?b then _ else _) => destruct b eqn:?
    | |- refuses (match ?x with _ => _ end) => destruct x eqn:?
    | |- refuses (let _ := _ in _) => cbv zeta
    | |- refuses ((fun _ => _) _) => cbv beta
    end.

(** ** Reading a specification *)

Lemma quoted_value_refuses l : refuses (quoted_value l).
Proof.
  assert (forall n l, (List.length l <= n)%nat -> refuses (quoted_value l)) as H; [|by eapply H].
  clear l. induction n as [|n IH]; intros [|c l] Hl; cbn [List.length] in Hl; try lia; cbn [quoted_value]; refuse;
    apply IH; cbn [List.length] in *; lia.
Qed.
#[export] Hint Resolve quoted_value_refuses : refuses.

Lemma token_value_refuses l : refuses (token_value l).
Proof. unfold token_value. refuse. Qed.
#[export] Hint Resolve token_value_refuses : refuses.

Lemma tokens_loop_refuses fuel l : refuses (tokens_loop fuel l).
Proof. revert l. induction fuel as [|fuel IH]; intros l; cbn [tokens_loop]; refuse; apply IH. Qed.
#[export] Hint Resolve tokens_loop_refuses : refuses.

Lemma tokenize_line_refuses l : refuses (tokenize_line l).
Proof. unfold tokenize_line. refuse. Qed.

Lemma arg_str_refuses a key required max fallback : refuses (arg_str a key required max fallback).
Proof. unfold arg_str, missing_key, key_fail. refuse. Qed.
Lemma arg_u64_refuses a key required fallback : refuses (arg_u64 a key required fallback).
Proof. unfold arg_u64, missing_key, key_fail. refuse. Qed.
#[export] Hint Resolve tokenize_line_refuses arg_str_refuses arg_u64_refuses : refuses.
Lemma arg_u32_refuses a key required fallback : refuses (arg_u32 a key required fallback).
Proof. unfold arg_u32, key_fail. refuse. Qed.
Lemma arg_bool_refuses a key required fallback : refuses (arg_bool a key required fallback).
Proof. unfold arg_bool, missing_key, key_fail. refuse. Qed.
Lemma malformed_refuses {A} a what (o : Outcome A) : refuses (malformed a what o).
Proof. unfold malformed. refuse. Qed.
Lemma parsed_as_refuses {A} a what value (o : option A) : refuses (parsed_as a what value o).
Proof. unfold parsed_as, unknown. refuse. Qed.
Lemma spec_invalid_refuses {A} a tail : refuses (spec_invalid (A := A) a tail).
Proof. unfold spec_invalid. refuse. Qed.
Lemma spec_add_refuses {R} (add : FabricBuilder -> R -> Status * FabricBuilder) b s r : refuses (spec_add add b s r).
Proof. unfold spec_add. refuse. Qed.
Lemma link_class_of_refuses a text na nb : refuses (link_class_of a text na nb).
Proof. unfold link_class_of, unknown. refuse. Qed.
Lemma ensure_builder_refuses limits s : refuses (ensure_builder limits s).
Proof. unfold ensure_builder. refuse. Qed.
#[export] Hint Resolve arg_u32_refuses arg_bool_refuses malformed_refuses parsed_as_refuses spec_invalid_refuses
  spec_add_refuses link_class_of_refuses ensure_builder_refuses : refuses.

Lemma run_directive_refuses limits d a s : refuses (run_directive limits d a s).
Proof.
  unfold run_directive, fabric_directive, option_directive, domain_directive, leaf_directive, spine_directive,
    port_directive, link_directive, evidence_directive, require_generation, unknown. refuse.
Qed.
#[export] Hint Resolve run_directive_refuses : refuses.

Lemma parse_line_refuses limits n line s : refuses (parse_line limits n line s).
Proof.
  unfold parse_line. refuse. apply refuses_fail. by eapply tokenize_line_refuses.
Qed.
#[export] Hint Resolve parse_line_refuses : refuses.

Lemma parse_lines_refuses limits lines n s : refuses (parse_lines limits n lines s).
Proof. revert n s. induction lines as [|line lines IH]; intros n s; cbn [parse_lines]; cbv zeta; refuse. Qed.

Lemma freeze_refuses b : refuses (freeze b).1.
Proof.
  unfold freeze. destruct (b_frozen b); [by apply refuses_fail|]. destruct (finish_report _) as [st b'].
  destruct (negb (status_ok st)) eqn:E; [by apply refuses_not_ok|apply refuses_Value].
Qed.

Lemma parse_spec_refuses text limits : refuses (parse_spec text limits).1.
Proof.
  unfold parse_spec. repeat (case_match; [by apply refuses_fail|]).
  destruct (parse_lines limits 0 _ _) as [s|st] eqn:E; [|eapply refuses_again; [apply parse_lines_refuses|exact E]].
  destruct (ensure_builder limits s) as [[b s']|st] eqn:E2; [|eapply refuses_again; [apply ensure_builder_refuses|exact E2]].
  pose proof (freeze_refuses b) as Hfreeze. by destruct (freeze b).
Qed.

Lemma load_spec_file_refuses path file limits : refuses (load_spec_file path file limits).1.
Proof.
  unfold load_spec_file. destruct (sf_size file); [|by apply refuses_fail].
  destruct (_ >? _); [by apply refuses_fail|]. destruct (negb (sf_opens file)); [by apply refuses_fail|]. cbv zeta.
  destruct (negb (_ =? _)); [by apply refuses_fail|apply parse_spec_refuses].
Qed.

(** ** The topology index *)

Lemma collect_edges_refuses f ls es xs ps : refuses (collect_edges f ls es xs ps).
Proof. revert es xs ps. induction ls as [|l ls IH]; intros es xs ps; cbn [collect_edges]; cbv zeta; refuse. Qed.

Lemma count_slots_refuses keys source counts : refuses (count_slots keys source counts).
Proof. revert counts. induction source as [|e r IH]; intros counts; cbn [count_slots]; cbv zeta; refuse. Qed.

Lemma scatter_refuses keys source cursor destination : refuses (scatter keys source cursor destination).
Proof. revert cursor destination. induction source as [|e r IH]; intros cursor destination; cbn [scatter]; cbv zeta; refuse. Qed.
#[export] Hint Resolve collect_edges_refuses count_slots_refuses scatter_refuses : refuses.

Lemma build_csr_refuses keys source : refuses (build_csr keys source).
Proof. unfold build_csr. cbv zeta. refuse. Qed.
#[export] Hint Resolve build_csr_refuses : refuses.

Lemma build_index_refuses f : refuses (build_index f).
Proof. unfold build_index. cbv zeta. refuse. Qed.

(** ** Queries *)

Lemma evaluate_uplink_returns en leaf u c : exists r, evaluate_uplink en leaf u c = Value r.
Proof. unfold evaluate_uplink. repeat case_match; by eexists. Qed.

Lemma evaluate_each_refuses en leaf c us processed out t n : refuses (evaluate_each en leaf c us processed out t n).1.
Proof.
  revert processed out n. induction us as [|u us IH]; intros processed out n; [apply refuses_Value|].
  cbn [evaluate_each]. unfold mbind, Poll_bind. destruct (poll_when _ t n) as [[] n']; [by apply refuses_fail|]. cbv zeta.
  destruct (negb _); [apply IH|]. destruct (evaluate_uplink_returns en leaf u c) as [r ->]. apply IH.
Qed.

Lemma assess_leaf_pair_refuses en from to c t n : refuses (assess_leaf_pair en from to c t n).1.
Proof.
  unfold assess_leaf_pair. destruct (find_leaf _ from); [|by apply refuses_fail]. destruct (find_leaf _ to); [|by apply refuses_fail].
  cbv zeta. destruct (from =? to); [apply refuses_Value|]. unfold evaluate_uplinks.
  destruct (pa_cls _); try apply refuses_Value; unfold mbind, Poll_bind.
  all: pose proof (evaluate_each_refuses en from c (uplinks (en_index en) from) 0 [] t n) as H1;
    destruct (evaluate_each en from c (uplinks (en_index en) from) 0 [] t n) as [[l1|s1] n1]; cbn [fst] in H1;
    [|exact (refuses_again _ _ H1 eq_refl)].
  all: pose proof (evaluate_each_refuses en to c (uplinks (en_index en) to) 0 [] t n1) as H2;
    destruct (evaluate_each en to c (uplinks (en_index en) to) 0 [] t n1) as [[l2|s2] n2]; cbn [fst] in H2;
    [|exact (refuses_again _ _ H2 eq_refl)].
  all: match goal with |- context [select_spine_sets ?a ?b ?t ?n] => by destruct (select_spine_sets a b t n) end.
Qed.

Lemma assess_leaf_to_spine_refuses en from to c : refuses (assess_leaf_to_spine en from to c).
Proof.
  unfold assess_leaf_to_spine. destruct (find_leaf _ from); [|by apply refuses_fail]. destruct (find_spine _ to); [|by apply refuses_fail].
  cbv zeta. destruct (pa_cls _); try apply refuses_Value. destruct (List.find _ _) as [u|]; [|apply refuses_Value].
  unfold assess_first_uplink. destruct (evaluate_uplink_returns en from u c) as [r ->]. apply refuses_Value.
Qed.
