(* ===== verification/Platform.v ===== *)
(** * Operating-system wrappers (src/platform.cpp)

    The file wrappers and the child processes, in their POSIX form, over what the
    system calls answer; and the quoting that turns the arguments of a child into
    one Windows command line. *)
From S2P Require Import Prelude Status Identity.

Definition last_os_error (what : string) : Status :=
  MkStatus SC_IoError (what +:+ " failed at the operating system level").

(** ** Command lines *)

Definition needs_quotes (c : byte) : bool :=
  bool_decide (c = x20) || bool_decide (c = x09) || bool_decide (c = x0a) || bool_decide (c = x0b) || bool_decide (c = x22).

(** The loop of [quote_argument]; [backslashes] are those read since the last other byte. *)
Fixpoint quote_loop (bs : list byte) (backslashes : nat) : list byte :=
  match bs with
  | [] => replicate (backslashes * 2) x5c
  | c :: r =>
      if bool_decide (c = x5c) then quote_loop r (S backslashes)
      else if bool_decide (c = x22) then replicate (backslashes * 2 + 1) x5c ++ x22 :: quote_loop r 0
      else replicate backslashes x5c ++ c :: quote_loop r 0
  end.

Definition quote_argument (argument : list byte) : list byte :=
  if negb (bool_decide (argument = [])) && negb (existsb needs_quotes argument) then argument
  else x22 :: quote_loop argument 0 ++ [x22].

Record ProcessOptions := MkProcessOptions {
  po_executable : list byte;
  po_arguments : list (list byte);
  po_working_directory : string;
  po_inherit_output : bool
}.

Definition command_line (o : ProcessOptions) : list byte :=
  fold_left (fun line a => line ++ x20 :: quote_argument a) (po_arguments o) (quote_argument (po_executable o)).

(** ** Files *)

Definition sync_file (handle : bool) (fflush fd fdatasync : Z) : Status :=
  if negb handle then MkStatus SC_Invalid "sync_file called with a null handle"
  else if negb (fflush =? 0) then last_os_error "fflush"
  else if fd <? 0 then MkStatus SC_IoError "invalid file descriptor"
  else if negb (fdatasync =? 0) then last_os_error "fdatasync"
  else success.

Definition remove_file (ec : option string) : Status :=
  match ec with Some message => MkStatus SC_IoError ("remove failed: " +:+ message) | None => success end.

Definition replace_file (rename : Z) : Status :=
  if negb (rename =? 0) then last_os_error "rename" else success.

(** What the file system answers about one entry: whether it is a regular file, and its size;
    [inl] is the message of an error. *)
Record DirectoryEntry := MkDirectoryEntry { en_regular : string + bool; en_size : string + Z }.

(** The loop of [directory_bytes]. The error code is shared by the calls of the body, and is
    looked at when the next entry is visited. *)
Fixpoint sum_entries (max_files : Z) (l : list DirectoryEntry) (ec : option string) (count total : Z) : Outcome Z :=
  match l with
  | [] => Value total
  | e :: l =>
      match ec with
      | Some message => fail SC_IoError ("directory iteration failed: " +:+ message)
      | None =>
          if count >=? max_files then fail SC_Exhausted "directory entry bound reached"
          else
            let count := wrap 32 (count + 1) in
            match en_regular e with
            | inl message => sum_entries max_files l (Some message) count total
            | inr false => sum_entries max_files l None count total
            | inr true =>
                match en_size e with
                | inl message => sum_entries max_files l (Some message) count total
                | inr size =>
                    if size >? u64_max - total then fail SC_Overflow "directory size overflow"
                    else sum_entries max_files l None count (total + size)
                end
            end
      end
  end.

(** [entries] when the directory can be opened; when it cannot the loop has nothing to visit. *)
Definition directory_bytes (is_directory : bool) (entries : string + list DirectoryEntry) (max_files : Z) : Outcome Z :=
  if negb is_directory then fail SC_NotFound "not a directory"
  else match entries with
  | inl message => sum_entries max_files [] (Some message) 0 0
  | inr l => sum_entries max_files l None 0 0
  end.

(** ** Child processes *)

Record ChildProcess := MkChild { ch_valid : bool; ch_pid : Z }.

Definition no_child : ChildProcess := MkChild false 0.

Definition child_reset (c : ChildProcess) : ChildProcess := if negb (ch_valid c) then c else no_child.

(** The process that takes over, and the one it was taken from. *)
Definition child_move (other : ChildProcess) : ChildProcess * ChildProcess := (other, no_child).
Definition child_assign (c other : ChildProcess) : ChildProcess * ChildProcess := (other, no_child).

Definition spawn (fork : Z) : Outcome ChildProcess :=
  if fork <? 0 then Failure (last_os_error "fork") else Value (MkChild true (wrap 32 fork)).

(** The answer of [waitpid] with [WNOHANG]: the child has exited, or was ended by a signal, or
    ended otherwise; it still runs; the call was interrupted; it failed. *)
Inductive WaitAnswer := WA_Exited (status : Z) | WA_Signalled (signal : Z) | WA_Other | WA_Running | WA_Interrupted | WA_Failed.

Section Kernel.
Context {K : Type} (waitpid : K -> Z -> WaitAnswer * K).

Definition running (c : ChildProcess) (k : K) : bool * K :=
  if negb (ch_valid c) then (false, k)
  else let '(a, k) := waitpid k (ch_pid c) in (match a with WA_Running => true | _ => false end, k).

(** [kill]: the result of the system call and whether the error was [ESRCH]. *)
Definition kill (c : ChildProcess) (result : Z) (no_such_process : bool) : Status :=
  if negb (ch_valid c) then MkStatus SC_Invalid "kill on an invalid process handle"
  else if negb (result =? 0) && negb no_such_process then last_os_error "kill"
  else success.

(** The loop of [wait]: [clock i] is the time read after the [i]-th poll. *)
Fixpoint wait_loop (fuel : nat) (c : ChildProcess) (timeout_ms start : Z) (clock : nat -> Z) (k : K) : option (Outcome Z) * K :=
  match fuel with
  | O => (None, k)
  | S fuel =>
      let '(a, k) := waitpid k (ch_pid c) in
      match a with
      | WA_Exited status => (Some (Value status), k)
      | WA_Signalled signal => (Some (Value (128 + signal)), k)
      | WA_Other => (Some (fail SC_Indeterminate "child terminated without an exit status"), k)
      | WA_Failed => (Some (Failure (last_os_error "waitpid")), k)
      | WA_Running | WA_Interrupted =>
          if negb (timeout_ms =? 0) && (wrap 64 (clock O - start) >=? timeout_ms) then
            (Some (fail SC_DeadlineExpired "child process did not exit before the deadline"), k)
          else wait_loop fuel c timeout_ms start (fun n => clock (S n)) k
      end
  end.

Definition wait (fuel : nat) (c : ChildProcess) (timeout_ms start : Z) (clock : nat -> Z) (k : K) : option (Outcome Z) * K :=
  if negb (ch_valid c) then (Some (fail SC_Invalid "wait on an invalid process handle"), k)
  else wait_loop fuel c timeout_ms start clock k.
End Kernel.
