(* ===== verification/PlatformSpec.v ===== *)
(** * What the wrappers promise (src/platform.cpp)

    A command line determines the program and the arguments it was built from, a
    directory whose entries all answer is summed exactly or refused by its bounds,
    and waiting for a child with a deadline returns. *)
From S2P Require Import Prelude Status Identity Platform.

(** ** Command lines *)

(** Reads back what [quote_loop] wrote, up to the closing quote. *)
Fixpoint unquote (bs : list byte) (backslashes : nat) : option (list byte * list byte) :=
  match bs with
  | [] => None
  | c :: r =>
      if bool_decide (c = x5c) then unquote r (S backslashes)
      else if bool_decide (c = x22) then
        if Nat.even backslashes then Some (replicate (Nat.div2 backslashes) x5c, r)
        else match unquote r 0 with
             | Some (a, r) => Some (replicate (Nat.div2 backslashes) x5c ++ x22 :: a, r)
             | None => None
             end
      else match unquote r 0 with Some (a, r) => Some (replicate backslashes x5c ++ c :: a, r) | None => None end
  end.

(** Reads up to the first blank. *)
Fixpoint bare (bs : list byte) : list byte * list byte :=
  match bs with
  | [] => ([], [])
  | c :: r => if bool_decide (c = x20) then ([], bs) else let '(a, r) := bare r in (c :: a, r)
  end.

Definition read_argument (bs : list byte) : option (list byte * list byte) :=
  match bs with
  | c :: r => if bool_decide (c = x22) then unquote r 0 else Some (bare bs)
  | [] => Some ([], [])
  end.

Lemma unquote_backslashes k r n : unquote (replicate k x5c ++ r) n = unquote r (n + k).
Proof.
  revert n. induction k as [|k IH]; intros n; [by rewrite Nat.add_0_r|]. cbn [replicate app unquote].
  rewrite bool_decide_true by done. rewrite IH. f_equal. lia.
Qed.

Lemma unquote_quote_loop a n r : unquote (quote_loop a n ++ x22 :: r) 0 = Some (replicate n x5c ++ a, r).
Proof.
  revert n. induction a as [|c a IH]; intros n; cbn [quote_loop].
  - rewrite unquote_backslashes. cbn [unquote]. rewrite bool_decide_false, bool_decide_true by done.
    replace (0 + n * 2)%nat with (2 * n)%nat by lia. by rewrite Nat.even_even, Nat.div2_double, app_nil_r.
  - case_bool_decide as E1; [|case_bool_decide as E2].
    + subst. rewrite IH, replicate_S_end, <- app_assoc. done.
    + subst. rewrite <- app_assoc, unquote_backslashes. cbn [app unquote].
      rewrite bool_decide_false, bool_decide_true by done. replace (0 + (n * 2 + 1))%nat with (S (2 * n)) by lia.
      rewrite Nat.even_succ, <- Nat.negb_even, Nat.even_even, Nat.div2_succ_double, IH. done.
    + rewrite <- app_assoc, unquote_backslashes. cbn [app unquote]. rewrite !bool_decide_false by done. by rewrite IH.
Qed.

Lemma bare_blank a r : existsb needs_quotes a = false -> r = [] \/ (exists r', r = x20 :: r') -> bare (a ++ r) = (a, r).
Proof.
  intros Ha Hr. induction a as [|c a IH].
  - destruct Hr as [->|[r' ->]]; done.
  - cbn [existsb] in Ha. apply orb_false_iff in Ha as [Hc Ha]. cbn [app bare].
    rewrite bool_decide_false; [by rewrite IH|]. intros ->. discriminate.
Qed.

Lemma read_quoted a r : r = [] \/ (exists r', r = x20 :: r') -> read_argument (quote_argument a ++ r) = Some (a, r).
Proof.
  intros Hr. unfold quote_argument. destruct (negb _ && negb _) eqn:E.
  - apply andb_true_iff in E as [Hne Hq%negb_true_iff]. destruct a as [|c a]; [done|]. cbn [app read_argument].
    rewrite bool_decide_false; [by rewrite <- (bare_blank (c :: a) r)|]. intros ->. cbn in Hq. discriminate.
  - cbn [app read_argument]. rewrite bool_decide_true by done. rewrite <- app_assoc. apply (unquote_quote_loop a 0).
Qed.

Lemma command_line_spread o :
  command_line o = quote_argument (po_executable o) ++ concat ((fun a => x20 :: quote_argument a) <$> po_arguments o).
Proof.
  unfold command_line. generalize (quote_argument (po_executable o)). induction (po_arguments o) as [|a l IH]; intros q.
  - by rewrite app_nil_r.
  - cbn [fold_left]. rewrite IH, fmap_cons. cbn [concat]. by rewrite <- (assoc_L (++)).
Qed.

Lemma blank_or_end l : concat ((fun a => x20 :: quote_argument a) <$> l) = []
  \/ exists r', concat ((fun a => x20 :: quote_argument a) <$> l) = x20 :: r'.
Proof. destruct l as [|a l]; [by left|]. right. by eexists. Qed.

Lemma quoted_arguments_inj l l' :
  concat ((fun a => x20 :: quote_argument a) <$> l) = concat ((fun a => x20 :: quote_argument a) <$> l') -> l = l'.
Proof.
  revert l'. induction l as [|a l IH]; intros [|a' l'] H; try done. rewrite !fmap_cons in H. cbn [concat app] in H.
  injection H as H. apply (f_equal read_argument) in H. rewrite !read_quoted in H by apply blank_or_end.
  injection H as -> H. by rewrite (IH l' H).
Qed.


(** Blanks, quotes and trailing backslashes: four arguments that a naive quoting confuses. *)
Definition awkward : ProcessOptions :=
  MkProcessOptions (bytes_of "C:\slf dir\slfctl") [bytes_of "a\"; []; [x22]; bytes_of "b c\\" ] "" false.


(** ** Directories *)

Definition answers (e : DirectoryEntry) : Prop := exists b n, en_regular e = inr b /\ en_size e = inr n /\ fits 64 n.
Definition bytes_in (e : DirectoryEntry) : Z := match en_regular e, en_size e with inr true, inr n => n | _, _ => 0 end.

Lemma bytes_in_total l : Forall answers l -> 0 <= foldr Z.add 0 (bytes_in <$> l).
Proof.
  induction 1 as [|e l (b & n & Eb & En & [Hn _]) Hl IH]; [done|]. rewrite fmap_cons. cbn [foldr].
  assert (0 <= bytes_in e) by (unfold bytes_in; rewrite Eb, En; by destruct b). lia.
Qed.

Lemma sum_entries_exact max_files l count total :
  Forall answers l -> 0 <= count -> count + Zlen l <= max_files -> max_files < 2 ^ 32 -> 0 <= total ->
  total + foldr Z.add 0 (bytes_in <$> l) <= u64_max ->
  sum_entries max_files l None count total = Value (total + foldr Z.add 0 (bytes_in <$> l)).
Proof.
  intros Hl. revert count total. induction Hl as [|e l (b & n & Eb & En & Hn) Hl IH]; intros count total Hc Hm Hf Ht Hs.
  { cbn. f_equal. lia. }
  pose proof (bytes_in_total l Hl) as Hnn.
  rewrite Zlen_cons in Hm. pose proof (Zlen_nonneg l). cbn [sum_entries].
  destruct (Z.geb_spec count max_files); [lia|]. rewrite wrap_small by (unfold fits; lia).
  rewrite fmap_cons in *. cbn [foldr] in *. unfold bytes_in at 1 in Hs. unfold bytes_in at 1. rewrite Eb, En in *. destruct Hn as [Hn _].
  destruct b.
  - destruct (Z.gtb_spec n (u64_max - total)); [lia|]. rewrite IH by lia. f_equal. lia.
  - rewrite IH by lia. f_equal.
Qed.

(** A directory that cannot be opened is reported as empty. *)
Lemma unreadable_directory_is_empty message max_files : directory_bytes true (inl message) max_files = Value 0.
Proof. done. Qed.

(** An entry that vanishes while it is examined ends the sum when another entry follows, and is
    passed over when it is the last. *)
Lemma vanished_entry_depends_on_order message size max_files :
  2 <= max_files -> fits 64 size ->
  directory_bytes true (inr [MkDirectoryEntry (inr true) (inl message); MkDirectoryEntry (inr true) (inr size)]) max_files
    = fail SC_IoError ("directory iteration failed: " +:+ message) /\
  directory_bytes true (inr [MkDirectoryEntry (inr true) (inr size); MkDirectoryEntry (inr true) (inl message)]) max_files
    = Value size.
Proof.
  intros Hm [Hs Hs']. unfold directory_bytes. cbn [negb sum_entries en_regular en_size].
  destruct (Z.geb_spec 0 max_files); [lia|]. split; [done|]. change (wrap 32 (0 + 1)) with 1.
  destruct (Z.gtb_spec size (u64_max - 0)); [unfold u64_max in *; lia|]. destruct (Z.geb_spec 1 max_files); [lia|]. done.
Qed.

(** ** Child processes *)

Section Wait.
Context {K : Type} (waitpid : K -> Z -> WaitAnswer * K).

(** The clock of the loop up to a number of rounds: each takes a millisecond or more. *)
Definition ticks (rounds start : Z) (clock : nat -> Z) : Prop :=
  forall n, Z.of_nat n <= rounds -> start + Z.of_nat n <= clock n < 2 ^ 64.

Lemma wait_loop_returns c timeout start from clock k fuel :
  0 < timeout -> 0 <= start <= from -> ticks (timeout - (from - start)) from clock -> from - start <= timeout < Z.of_nat fuel + (from - start) ->
  exists o k', wait_loop waitpid fuel c timeout start clock k = (Some o, k').
Proof.
  intros Ht. revert from clock k. induction fuel as [|fuel IH]; intros from clock k Hs Hc Hf; [lia|].
  cbn [wait_loop]. destruct (waitpid k (ch_pid c)) as [a k1]. pose proof (Hc 0%nat ltac:(lia)) as H0.
  rewrite (wrap_small 64 (clock 0%nat - start)) by (unfold fits; lia).
  destruct a; try (eexists _, _; reflexivity).
  all: destruct (Z.eqb_spec timeout 0); [lia|]; cbn [negb andb]; destruct (Z.geb_spec (clock 0%nat - start) timeout);
    [eexists _, _; reflexivity|].
  all: apply (IH (from + 1)); [lia|intros j Hj; specialize (Hc (S j) ltac:(lia)); lia|lia].
Qed.

(** waiting for a child with a deadline returns: when each round of the loop takes at least
    a millisecond, [timeout_ms + 1] rounds end with the status of the child, an error, or
    [DeadlineExpired], whatever the kernel answers in between. *)
Theorem wait_with_deadline_returns c timeout start clock k :
  0 < timeout -> 0 <= start -> ticks timeout start clock ->
  exists o k', wait waitpid (S (Z.to_nat timeout)) c timeout start clock k = (Some o, k').
Proof.
  intros Ht Hs Hc. unfold wait. destruct (negb (ch_valid c)); [by eexists _, _|].
  apply (wait_loop_returns c timeout start start); [lia|lia| |lia]. by rewrite Z.sub_diag, Z.sub_0_r.
Qed.
End Wait.

(** Asking whether the child runs collects its exit status when it does not: a later [wait]
    has nothing left to wait for and fails. *)
Lemma running_loses_the_status {K} (waitpid : K -> Z -> WaitAnswer * K) c k1 k2 k3 status fuel timeout start clock :
  ch_valid c = true -> waitpid k1 (ch_pid c) = (WA_Exited status, k2) -> waitpid k2 (ch_pid c) = (WA_Failed, k3) ->
  running waitpid c k1 = (false, k2) /\
  wait waitpid (S fuel) c timeout start clock k2 = (Some (Failure (last_os_error "waitpid")), k3).
Proof. intros Hv H1 H2. unfold running, wait. rewrite Hv. cbn [negb wait_loop]. by rewrite H1, H2. Qed.

(** A child that is still running at the first two polls and then exits with 7. *)
Definition countdown (k : nat) (_ : Z) : WaitAnswer * nat :=
  match k with O => (WA_Exited 7, O) | S k => (WA_Running, k) end.

Lemma wait_with_deadline_returns_witness :
  exists o k', wait countdown 51 (MkChild true 4242) 50 1000 (fun n => 1000 + 2 * Z.of_nat n) 2%nat = (Some o, k').
Proof.
  apply (wait_with_deadline_returns countdown (MkChild true 4242) 50 1000); [lia|lia|]. intros n Hn. lia.
Defined.
