(* ===== verification/Cli.v ===== *)
(** * The command-line tool (src/tools/slfctl/main.cpp)

    Option parsing, the constraints a query is made with, and the commands as
    functions of the options and of what the outside world answers. A command
    yields its exit status; the text it prints is left out. *)
From S2P Require Import Prelude Status Identity Bytes Capacity Model Builder Topology Eligibility Governance Store StoreDir Runtime Transport Service Server ServerThreads Spec.

(** ** Exit statuses *)

Definition exit_code_for (c : StatusCode) : Z :=
  match c with
  | SC_Ok => 0
  | SC_Invalid | SC_Unsupported | SC_ContradictoryRole | SC_IllegalAdjacency | SC_Overflow | SC_Exhausted => 3
  | SC_Refused | SC_Fenced | SC_Stale => 4
  | SC_Cancelled => 7
  | SC_Unknown | SC_Indeterminate | SC_Incomplete | SC_Conflicting => 5
  | SC_IoError | SC_Closed => 6
  | SC_Corrupt | SC_Truncated | SC_IntegrityError | SC_IncompatibleVersion => 8
  | SC_NotFound | SC_NotStarted | SC_AlreadyExists | SC_DuplicateIdentity | SC_DanglingEdge | SC_CrossGeneration | SC_Busy => 9
  | SC_DeadlineExpired | SC_Internal => 6
  | _ => 6
  end.

(** ** Options *)

(** The members of [Options] by the kind of value they hold. *)
Inductive TextOption :=
| O_Spec | O_State | O_Bind | O_From | O_To | O_Leaf | O_Fault | O_Kind | O_Value | O_Token | O_Requester | O_Observed
| O_MaxOversub.
Inductive NumberOption := O_Port | O_Workers | O_Link | O_Ttl | O_MinCapacity | O_MinSpines | O_Sets | O_Explanations.
Inductive FlagOption := O_Diversity | O_Evidence | O_NoPeer | O_Quiet | O_Replace.

#[export] Instance TextOption_eq_dec : EqDecision TextOption.
Proof. solve_decision. Defined.
#[export] Instance NumberOption_eq_dec : EqDecision NumberOption.
Proof. solve_decision. Defined.
#[export] Instance FlagOption_eq_dec : EqDecision FlagOption.
Proof. solve_decision. Defined.

Record Options := MkCliOptions {
  o_text : TextOption -> string;
  o_number : NumberOption -> Z;
  o_flag : FlagOption -> bool;
  o_positional : list string
}.

Definition default_cli_options : Options :=
  MkCliOptions (fun t => match t with O_Bind => "127.0.0.1" | O_Fault => "none" | O_Requester => "slfctl" | _ => "" end)
    (fun n => match n with O_Workers => 2 | O_Sets => 4 | O_Explanations => 8 | _ => 0 end) (fun _ => false) [].

Definition set_text (t : TextOption) (v : string) (o : Options) : Options :=
  MkCliOptions (fun k => if decide (k = t) then v else o_text o k) (o_number o) (o_flag o) (o_positional o).
Definition set_number (n : NumberOption) (v : Z) (o : Options) : Options :=
  MkCliOptions (o_text o) (fun k => if decide (k = n) then v else o_number o k) (o_flag o) (o_positional o).
Definition set_flag (f : FlagOption) (o : Options) : Options :=
  MkCliOptions (o_text o) (o_number o) (fun k => if decide (k = f) then true else o_flag o k) (o_positional o).
Definition add_positional (v : string) (o : Options) : Options :=
  MkCliOptions (o_text o) (o_number o) (o_flag o) (o_positional o ++ [v]).

Definition text_option (a : string) : option TextOption :=
  if bool_decide (a = "--spec") then Some O_Spec
  else if bool_decide (a = "--state") then Some O_State
  else if bool_decide (a = "--bind") then Some O_Bind
  else if bool_decide (a = "--from") then Some O_From
  else if bool_decide (a = "--to") then Some O_To
  else if bool_decide (a = "--leaf") then Some O_Leaf
  else if bool_decide (a = "--fault") then Some O_Fault
  else if bool_decide (a = "--kind") then Some O_Kind
  else if bool_decide (a = "--value") then Some O_Value
  else if bool_decide (a = "--token") then Some O_Token
  else if bool_decide (a = "--requester") then Some O_Requester
  else if bool_decide (a = "--observed") then Some O_Observed
  else if bool_decide (a = "--max-oversub") then Some O_MaxOversub
  else None.

Definition number_option (a : string) : option NumberOption :=
  if bool_decide (a = "--port") then Some O_Port
  else if bool_decide (a = "--workers") then Some O_Workers
  else if bool_decide (a = "--link") then Some O_Link
  else if bool_decide (a = "--ttl") then Some O_Ttl
  else if bool_decide (a = "--min-capacity") then Some O_MinCapacity
  else if bool_decide (a = "--min-spines") then Some O_MinSpines
  else if bool_decide (a = "--sets") then Some O_Sets
  else if bool_decide (a = "--explanations") then Some O_Explanations
  else None.

Definition flag_option (a : string) : option FlagOption :=
  if bool_decide (a = "--diversity") then Some O_Diversity
  else if bool_decide (a = "--evidence") then Some O_Evidence
  else if bool_decide (a = "--no-peer") then Some O_NoPeer
  else if bool_decide (a = "--quiet") then Some O_Quiet
  else if bool_decide (a = "--replace") then Some O_Replace
  else None.

(** A parsed number when it is in the range of the option. *)
Definition in_range (lowest highest : Z) (v : option Z) : option Z :=
  match v with Some n => if (n <? lowest) || (n >? highest) then None else Some n | None => None end.

Definition parse_number (n : NumberOption) (text : string) : option Z :=
  match n with
  | O_Port => in_range 1 65535 (parse_u32 text)
  | O_Workers => in_range 0 8 (parse_u32 text)
  | O_Link | O_MinSpines => parse_u32 text
  | O_Ttl | O_MinCapacity => parse_u64 text
  | O_Sets | O_Explanations => in_range 0 64 (parse_u32 text)
  end.

Definition number_complaint (n : NumberOption) : string :=
  match n with
  | O_Port => "--port must be in 1..65535"
  | O_Workers => "--workers must be in 0..8"
  | O_Link => "--link must be an unsigned integer"
  | O_Ttl => "--ttl must be an unsigned integer"
  | O_MinCapacity => "--min-capacity must be an unsigned integer"
  | O_MinSpines => "--min-spines must be an unsigned integer"
  | O_Sets => "--sets must be in 0..64"
  | O_Explanations => "--explanations must be in 0..64"
  end.

Definition starts_with_dash (a : string) : bool :=
  match bytes_of a with c :: _ => bool_decide (c = x2d) | [] => false end.

(** [parse_options]: the options, a refusal, or the end of the process at [--help]. *)
Inductive ParsedOptions := Parses (o : Options) | Refuses (st : Status) | ShowsHelp.

Fixpoint parse_args (args : list string) (o : Options) : ParsedOptions :=
  match args with
  | [] => Parses o
  | a :: rest =>
      match text_option a with
      | Some t =>
          match rest with
          | [] => Refuses (MkStatus SC_Invalid (a +:+ " requires a value"))
          | v :: rest => parse_args rest (set_text t v o)
          end
      | None =>
          match number_option a with
          | Some n =>
              match rest with
              | [] => Refuses (MkStatus SC_Invalid (a +:+ " requires a value"))
              | text :: rest =>
                  match parse_number n text with
                  | None => Refuses (MkStatus SC_Invalid (number_complaint n))
                  | Some v => parse_args rest (set_number n v o)
                  end
              end
          | None =>
              match flag_option a with
              | Some f => parse_args rest (set_flag f o)
              | None =>
                  if bool_decide (a = "--help") || bool_decide (a = "-h") then ShowsHelp
                  else if starts_with_dash a then Refuses (MkStatus SC_Invalid ("unknown option " +:+ a))
                  else parse_args rest (add_positional a o)
              end
          end
      end
  end.

(** The arguments after the program's name. *)
Definition parse_options (args : list string) : ParsedOptions := parse_args args default_cli_options.

(** ** Queries on a file *)

Definition load_spec (o : Options) (file : SpecFile) : Outcome Fabric * option ValidationReport :=
  if bool_decide (o_text o O_Spec = "") then (fail SC_Invalid "--spec FILE is required", None)
  else load_spec_file (o_text o O_Spec) file default_spec_limits.

Definition parse_ratio (text : string) : Outcome Rational :=
  match split_at_byte x3a (bytes_of text) with
  | None => fail SC_Invalid "--max-oversub must be NUM:DEN"
  | Some (n, d) =>
      match parse_u64 (text_of n), parse_u64 (text_of d) with
      | Some n, Some d => rational_make n d
      | _, _ => fail SC_Invalid "--max-oversub must be NUM:DEN with decimal integers"
      end
  end.

Definition make_constraints (f : Fabric) (o : Options) : Outcome PathConstraints :=
  let c := defaults_for (fab_options f) in
  ratio ← (if bool_decide (o_text o O_MaxOversub = "") then Value (pc_max_oversubscription c)
           else r ← parse_ratio (o_text o O_MaxOversub); Value (Some r));
  Value (MkConstraints (o_flag o O_Diversity || pc_domain_diversity c)
           (if negb (o_number o O_MinSpines =? 0) then o_number o O_MinSpines else pc_min_eligible_spines c)
           (if negb (o_number o O_MinCapacity =? 0) then o_number o O_MinCapacity else pc_min_total_capacity_mbps c)
           ratio (negb (o_flag o O_NoPeer) && pc_allow_peer_paths c) (o_flag o O_Evidence || pc_require_evidence c)
           (o_number o O_Sets) (o_number o O_Explanations)).

(** ** Commands *)

(** An exit status, or what the command goes on with. *)
Definition Exits (A : Type) : Type := Z + A.
#[export] Instance Exits_ret : MRet Exits := fun A a => inr a.
#[export] Instance Exits_bind : MBind Exits := fun A B k m => match m with inl n => inl n | inr a => k a end.

Definition exit_with {A} (n : Z) : Exits A := inl n.
Definition or_exit {A} (o : Outcome A) : Exits A :=
  match o with Value v => inr v | Failure st => inl (exit_code_for (code st)) end.
(** What is missing from the command line ends the command as a usage error. *)
Definition or_usage {A} (o : Outcome A) : Exits A := match o with Value v => inr v | Failure _ => inl 2 end.
Definition given {A} (o : option A) : Exits A := match o with Some v => inr v | None => inl 2 end.
Definition exit_of (r : Exits Z) : Z := match r with inl n | inr n => n end.

Definition command_validate (o : Options) (file : SpecFile) : Z :=
  exit_of (_ ← or_exit (load_spec o file).1; mret 0).

Definition command_digest (o : Options) (file : SpecFile) : Z :=
  exit_of (_ ← or_exit (load_spec o file).1; mret 0).

Definition command_inspect (o : Options) (file : SpecFile) : Z :=
  exit_of (f ← or_exit (load_spec o file).1; _ ← or_exit (build_index f); mret 0).

Definition assess (en : EligibilityEngine) (from to : NodeKey) (c : PathConstraints) : Outcome PathAssessment :=
  match tier from, tier to with
  | T_Leaf, T_Leaf => (assess_leaf_pair en (index from) (index to) c live_token 0%nat).1
  | T_Leaf, T_Spine => assess_leaf_to_spine en (index from) (index to) c
  | _, _ => fail SC_Unsupported "only leaf-to-leaf and leaf-to-spine queries are supported"
  end.

Definition assessment_exit (a : PathAssessment) : Z :=
  exit_code_for (if bool_decide (pa_verdict a = EV_Eligible) then SC_Ok else pa_code a).

Definition command_paths (o : Options) (file : SpecFile) : Z :=
  exit_of
    (f ← or_exit (load_spec o file).1;
     from ← given (parse_node_key (o_text o O_From));
     to ← given (parse_node_key (o_text o O_To));
     c ← or_usage (make_constraints f o);
     ix ← or_exit (build_index f);
     a ← or_exit (assess (MkEngine ix zero_incarnation) from to c);
     mret (assessment_exit a)).

(** [--leaf], or [--from] when it is absent. *)
Definition leaf_text (o : Options) : string :=
  if bool_decide (o_text o O_Leaf = "") then o_text o O_From else o_text o O_Leaf.

Definition command_spines (o : Options) (file : SpecFile) : Z :=
  exit_of
    (f ← or_exit (load_spec o file).1;
     leaf ← given (parse_leaf_id (leaf_text o));
     c ← or_usage (make_constraints f o);
     ix ← or_exit (build_index f);
     l ← or_exit (eligible_spines_for_leaf (MkEngine ix zero_incarnation) leaf c live_token 0%nat).1;
     mret (if count_eligible l =? 0 then 5 else 0)).

Definition health_exit (h : FabricHealth) : Z := match h with FH_Operational => 0 | FH_Degraded => 4 | _ => 5 end.

Definition command_health (o : Options) (file : SpecFile) : Z :=
  exit_of
    (f ← or_exit (load_spec o file).1;
     c ← or_usage (make_constraints f o);
     ix ← or_exit (build_index f);
     r ← or_exit (health (MkEngine ix zero_incarnation) c zero_incarnation (fab_epoch f) live_token 0%nat).1;
     mret (health_exit (hr_health r))).

(** *** The controller in the process *)

(** What the outside world answers while a command runs a controller. *)
Record ToolIo := MkToolIo {
  ti_start : StartIo;
  ti_install : AppendIo;
  ti_lease : AppendIo;
  ti_now : Z;
  ti_short : option nat;
  ti_sync : Status
}.

Definition tool_config (id : FabricId) (name site dir : string) (options : FabricOptions) (persist : bool) (workers : Z)
    : RuntimeConfig :=
  let d := default_runtime_config id dir in
  MkRuntimeConfig id name site options (rc_limits d) dir persist workers (rc_authority_ttl d) (rc_max_dedup d)
    (rc_max_history d) (rc_compaction_threshold d) (rc_sweep_interval d) (rc_store d) (rc_evidence_historical d).

Definition done (st : Status) : Outcome unit := if status_ok st then Value tt else Failure st.

(** [slfctl authorize] once the controller runs: a lease, and a path authority. *)
Definition authorize_with (o : Options) (f : Fabric) (c : PathConstraints) (io : ToolIo) (rt : ControllerRuntime)
    : Exits (Z * ControllerRuntime) :=
  let '(installed, rt) := install_fabric (ti_install io) f true rt in
  match done installed with
  | Failure st => inl (exit_code_for (code st))
  | Value _ =>
      let '(lease, rt) := acquire_authority (ti_lease io) (ti_now io) "slfctl" 0 rt in
      match lease, parse_node_key (o_text o O_From), parse_node_key (o_text o O_To) with
      | Failure st, _, _ => inl (exit_code_for (code st))
      | Value _, Some from, Some to =>
          let '(authority, rt) := authorize_path (ti_now io) from to c (o_number o O_Ttl) rt in
          match authority with
          | Failure st => inl (exit_code_for (code st))
          | Value _ =>
              let '(stopped, rt) := stop (ti_short io) (ti_sync io) rt in
              inr (if status_ok stopped then 0 else exit_code_for (code stopped), rt)
          end
      | Value _, _, _ => inl 2
      end
  end.

Definition authorize_from (rt : ControllerRuntime) (o : Options) (file : SpecFile) (io : ToolIo) : Exits (Z * ControllerRuntime) :=
  let '(started, rt) := start (ti_start io) rt in
  _ ← or_exit (done started);
  f ← or_exit (load_spec o file).1;
  c ← or_usage (make_constraints f o);
  authorize_with o f c io rt.

(** [slfctl authorize]: a controller in memory; its state when the command ends with success. *)
Definition command_authorize (o : Options) (file : SpecFile) (io : ToolIo) : Exits (Z * ControllerRuntime) :=
  authorize_from (new_runtime (tool_config 0 "fabric" "" "" default_options false 0) None) o file io.

(** [slfctl serve] up to the point where it listens. *)
Definition serve_setup (o : Options) (file : SpecFile) (io : ToolIo) (disk : option Directory) (os : SocketOs) (handles : gset Z)
    : Exits (ControllerRuntime * TcpListener * gset Z) :=
  f ← or_exit (load_spec o file).1;
  fault ← given (parse_fault_point (o_text o O_Fault));
  let rt := new_runtime (tool_config (fab_id f) (fab_name f) (fab_site f) (o_text o O_State) (fab_options f)
                           (negb (bool_decide (o_text o O_State = ""))) (o_number o O_Workers)) disk in
  let '(started, rt) := start (ti_start io) rt in
  _ ← or_exit (done started);
  let '(installed, rt) := install_fabric (ti_install io) f (o_flag o O_Replace) rt in
  _ ← or_exit (if bool_decide (code installed = SC_AlreadyExists) then Value tt else done installed);
  let rt := set_fault_point fault rt in
  config ← or_exit (server_create (MkServerConfig (MkEndpoint (o_text o O_Bind) (o_number o O_Port)) default_transport_limits
                                     "slf-controller" false) true);
  let '(l, handles) := bind os (sc_endpoint config) handles in
  l ← or_exit l;
  mret (rt, l, handles).

(** Its end, when the server no longer runs. *)
Definition serve_exit (stopped_server stopped_runtime : Status) : Z :=
  if status_ok stopped_server && status_ok stopped_runtime then 0 else exit_code_for SC_IoError.

(** *** The client *)

Definition query_request (k : RequestKind) (from to : NodeKey) (c : PathConstraints) : Request :=
  MkRequest 1 k kProtocolVersion "" from to c default_command default_authority default_token 0.

Definition client_request (o : Options) (sub : string) : Exits Request :=
  let plain c := MkConstraints (pc_domain_diversity c) (pc_min_eligible_spines c) (pc_min_total_capacity_mbps c)
                   (pc_max_oversubscription c) (pc_allow_peer_paths c) in
  if bool_decide (sub = "status") then mret (query_request RK_Status default_node default_node default_constraints)
  else if bool_decide (sub = "paths") then
    from ← given (parse_node_key (o_text o O_From));
    to ← given (parse_node_key (o_text o O_To));
    let c := defaults_for default_options in
    mret (query_request RK_Paths from to
            (MkConstraints (o_flag o O_Diversity)
               (if negb (o_number o O_MinSpines =? 0) then o_number o O_MinSpines else pc_min_eligible_spines c)
               (pc_min_total_capacity_mbps c) (pc_max_oversubscription c) (pc_allow_peer_paths c)
               (o_flag o O_Evidence || pc_require_evidence c) (o_number o O_Sets) (pc_max_explanations c)))
  else if bool_decide (sub = "spines") then
    leaf ← given (parse_leaf_id (leaf_text o));
    let c := default_constraints in
    mret (query_request RK_EligibleSpines (node_of_leaf leaf) default_node
            (plain c (o_flag o O_Evidence || pc_require_evidence c) (pc_max_sets c) (pc_max_explanations c)))
  else if bool_decide (sub = "health") then
    let c := default_constraints in
    mret (query_request RK_Health default_node default_node
            (plain c (o_flag o O_Evidence) (pc_max_sets c) (pc_max_explanations c)))
  else if bool_decide (sub = "lease") then mret (query_request RK_Status default_node default_node default_constraints)
  else if bool_decide (sub = "compact") then mret (query_request RK_Compact default_node default_node default_constraints)
  else exit_with 2.

(** What the kernel takes of each frame the client sends, and what arrives on its socket. *)
Record ClientIo := MkClientIo {
  ci_hello : list SendAnswer;
  ci_request : list SendAnswer;
  ci_bye : list SendAnswer;
  ci_wire : list Arrival
}.

(** A call on the client, then its destructor where it is not closed before. *)
Definition client_session (o : Options) (sub : string) (os : SocketOs) (io : ClientIo) (fc : FabricClient)
    : Exits Response * list Arrival :=
  let '(hello, _, w) := handshake os fc "slfctl" (ci_hello io) (ci_wire io) in
  match or_exit hello with
  | inl n => (inl n, w)
  | inr _ =>
      match client_request o sub with
      | inl n => (inl n, w)
      | inr q => let '(r, _, w) := client_call os fc q 0 (ci_request io) w in (or_exit r, w)
      end
  end.

Definition command_client (o : Options) (os : SocketOs) (io : ClientIo) (handles : gset Z) : Z * gset Z :=
  match o_positional o with
  | _ :: sub :: _ =>
      let '(client, handles) := client_connect os (MkEndpoint (o_text o O_Bind) (o_number o O_Port)) default_transport_limits handles in
      match client with
      | Failure st => (exit_code_for (code st), handles)
      | Value fc =>
          let '(r, w) := client_session o sub os io fc in
          let '(_, _, _, handles) := client_close fc (ci_bye io) w handles in
          (exit_of (r ← r; mret (exit_code_for (rs_code r))), handles)
      end
  | _ => (2, handles)
  end.

(** ** [main] *)

(** Everything the outside world answers to one run of the tool; [wo_served] is how the two
    stops at the end of [serve] went. *)
Record World := MkWorld {
  wo_file : SpecFile;
  wo_tool : ToolIo;
  wo_disk : option Directory;
  wo_os : SocketOs;
  wo_client : ClientIo;
  wo_handles : gset Z;
  wo_served : Status * Status
}.

Definition run_command (command : string) (o : Options) (w : World) : Z :=
  if bool_decide (command = "validate") then command_validate o (wo_file w)
  else if bool_decide (command = "inspect") then command_inspect o (wo_file w)
  else if bool_decide (command = "digest") then command_digest o (wo_file w)
  else if bool_decide (command = "paths") then command_paths o (wo_file w)
  else if bool_decide (command = "spines") then command_spines o (wo_file w)
  else if bool_decide (command = "health") then command_health o (wo_file w)
  else if bool_decide (command = "authorize") then
    exit_of (r ← command_authorize o (wo_file w) (wo_tool w); mret r.1)
  else if bool_decide (command = "serve") then
    exit_of (_ ← serve_setup o (wo_file w) (wo_tool w) (wo_disk w) (wo_os w) (wo_handles w);
             mret (serve_exit (wo_served w).1 (wo_served w).2))
  else if bool_decide (command = "client") then (command_client o (wo_os w) (wo_client w) (wo_handles w)).1
  else 2.

(** [main], on the arguments after the program's name. *)
Definition slfctl (args : list string) (w : World) : Z :=
  match args with
  | [] => 2
  | command :: _ =>
      if bool_decide (command = "help") || bool_decide (command = "--help") || bool_decide (command = "-h") then 0
      else if bool_decide (command = "version") || bool_decide (command = "--version") then 0
      else match parse_options args with
      | ShowsHelp => 0
      | Refuses _ => 2
      | Parses o => run_command command o w
      end
  end.
