(* ===== verification/CliSpec.v ===== *)
(** * What the command-line tool promises (src/tools/slfctl/main.cpp)

    Exit status 0 of a query is backed by the fabric of the file; the numbers it
    accepts are in range, so what it asks of a server arrives as it was meant; its
    exit statuses are the documented ones; and the client gives its socket back. *)
From S2P Require Import Prelude Status Identity Bytes Capacity Model Builder BuilderSpec Sample Freeze CodecSpec Topology TopologySpec Eligibility EligibilitySpec Governance GovernanceSpec Store StoreDir Runtime Transport TransportSpec Service Server ServiceSpec ServiceRoundtrip ServerSpec ServerThreads Spec SpecBuild Refusals Cli.

(** ** Exit statuses *)

Lemma exit_code_for_range c : exit_code_for c = 0 \/ 2 <= exit_code_for c <= 9.
Proof. destruct c; cbn; lia. Qed.

Lemma exit_code_for_Ok c : exit_code_for c = 0 <-> c = SC_Ok.
Proof. by destruct c. Qed.

Definition documented (n : Z) : Prop := n = 0 \/ 2 <= n <= 9.

Lemma documented_exits (r : Exits Z) :
  (forall n, r = inl n -> documented n) -> (forall n, r = inr n -> documented n) -> documented (exit_of r).
Proof. intros Hl Hr. destruct r as [n|n]; [by apply Hl|by apply Hr]. Qed.

(** The steps of a command end it with documented statuses only. *)
Definition ends_documented {A} (P : A -> Prop) (r : Exits A) : Prop := match r with inl n => documented n | inr a => P a end.

Lemma ends_bind {A B} (P : A -> Prop) (Q : B -> Prop) (m : Exits A) (k : A -> Exits B) :
  ends_documented P m -> (forall a, P a -> ends_documented Q (k a)) -> ends_documented Q (m ≫= k).
Proof. destruct m as [n|a]; cbn; [done|]. intros Ha Hk. by apply Hk. Qed.

Lemma ends_or_exit {A} (o : Outcome A) : ends_documented (fun _ => True) (or_exit o).
Proof. destruct o as [a|st]; [done|]. apply exit_code_for_range. Qed.
Lemma ends_or_usage {A} (o : Outcome A) : ends_documented (fun _ => True) (or_usage o).
Proof. destruct o as [a|st]; [done|]. right. lia. Qed.
Lemma ends_given {A} (o : option A) : ends_documented (fun _ => True) (given o).
Proof. destruct o as [a|]; [done|]. right. lia. Qed.
Lemma ends_exit_of (r : Exits Z) : ends_documented documented r -> documented (exit_of r).
Proof. by destruct r. Qed.

Ltac documents :=
  repeat match goal with
    | |- documented (exit_of _) => apply ends_exit_of
    | |- ends_documented _ (or_exit _ ≫= _) => eapply ends_bind; [apply ends_or_exit|intros ? _]
    | |- ends_documented _ (or_usage _ ≫= _) => eapply ends_bind; [apply ends_or_usage|intros ? _]
    | |- ends_documented _ (given _ ≫= _) => eapply ends_bind; [apply ends_given|intros ? _]
    | |- context [let '(_, _) := ?x in _] => destruct x
    | |- documented (exit_code_for _) => apply exit_code_for_range
    | |- documented _ => progress unfold assessment_exit, health_exit, serve_exit
    | |- documented (if ?b then _ else _) => destruct b
    | |- documented (match ?h with FH_Operational => _ | _ => _ end) => destruct h
    | |- documented _ => unfold documented; lia
    | |- ends_documented documented (mret ?n) => change (documented n)
    | |- ends_documented (fun _ => True) (mret _) => exact I
    | |- ends_documented _ (exit_with 2) => right; lia
    end.

Lemma client_documented o os io handles : documented (command_client o os io handles).1.
Proof.
  unfold command_client. destruct (o_positional o) as [|? [|sub ?]]; [right; cbn; lia..|].
  destruct (client_connect os (MkEndpoint (o_text o O_Bind) (o_number o O_Port)) default_transport_limits handles) as [[fc|st] h]; [|apply exit_code_for_range].
  destruct (client_session o sub os io fc) as [r w] eqn:E. destruct (client_close fc (ci_bye io) w h) as [[[? ?] ?] ?]. cbn [fst].
  apply ends_exit_of. eapply (ends_bind (fun _ => True)); [|intros r' _; documents].
  unfold client_session in E. destruct (handshake os fc "slfctl" (ci_hello io) (ci_wire io)) as [[hello ?] w1]. pose proof (ends_or_exit hello) as Hh.
  destruct (or_exit hello); [by injection E as <- _|].
  assert (ends_documented (fun _ => True) (client_request o sub)) as Hq.
  { unfold client_request. cbv zeta. repeat (case_bool_decide; [solve [documents]|]). documents. }
  destruct (client_request o sub); [by injection E as <- _|]. destruct (client_call os fc _ 0 (ci_request io) w1) as [[res ?] ?].
  injection E as <- _. apply ends_or_exit.
Qed.

Lemma authorize_documented rt o file io : ends_documented (fun r => documented r.1) (authorize_from rt o file io).
Proof.
  unfold authorize_from. destruct (start (ti_start io) rt) as [started rt1].
  eapply ends_bind; [apply ends_or_exit|intros _ _]. eapply ends_bind; [apply ends_or_exit|intros f _].
  eapply ends_bind; [apply ends_or_usage|intros c _]. unfold authorize_with.
  destruct (install_fabric (ti_install io) f true rt1) as [installed rt2]. destruct (done installed); [|apply exit_code_for_range].
  destruct (acquire_authority (ti_lease io) (ti_now io) "slfctl" 0 rt2) as [lease rt3]. destruct lease; [|apply exit_code_for_range].
  destruct (parse_node_key (o_text o O_From)) as [from|], (parse_node_key (o_text o O_To)) as [to|]; try (right; lia).
  destruct (authorize_path (ti_now io) from to c (o_number o O_Ttl) rt3) as [authority rt4]. destruct authority; [|apply exit_code_for_range].
  destruct (stop (ti_short io) (ti_sync io) rt4) as [stopped rt5]. cbn. destruct (status_ok stopped); [by left|apply exit_code_for_range].
Qed.

Lemma serve_documented o file io disk os handles : ends_documented (fun _ => True) (serve_setup o file io disk os handles).
Proof.
  unfold serve_setup. eapply ends_bind; [apply ends_or_exit|intros f _]. eapply ends_bind; [apply ends_given|intros fault _].
  cbv zeta. destruct (start (ti_start io) _) as [started rt1]. eapply ends_bind; [apply ends_or_exit|intros _ _].
  destruct (install_fabric (ti_install io) f (o_flag o O_Replace) rt1) as [installed rt2]. eapply ends_bind; [apply ends_or_exit|intros _ _].
  eapply ends_bind; [apply ends_or_exit|intros config _]. destruct (bind os _ handles) as [l h].
  eapply ends_bind; [apply ends_or_exit|intros l' _]. exact I.
Qed.

Lemma command_documented command o w : documented (run_command command o w).
Proof.
  unfold run_command, command_validate, command_inspect, command_digest, command_paths, command_spines, command_health.
  repeat (case_bool_decide; [solve [documents]|]). case_bool_decide.
  { apply ends_exit_of. eapply ends_bind; [apply authorize_documented|]. intros [n rt] Hn. exact Hn. }
  case_bool_decide.
  { apply ends_exit_of. eapply ends_bind; [apply serve_documented|intros _ _]. documents. }
  case_bool_decide; [apply client_documented|documents].
Qed.

(** whatever the arguments and whatever the outside world answers, the tool ends with one of
    the exit statuses its documentation lists: 0, or 2 to 9. *)
Theorem slfctl_exit_documented args w : slfctl args w = 0 \/ 2 <= slfctl args w <= 9.
Proof.
  unfold slfctl. destruct args as [|command rest]; [by right|]. case_match; [by left|]. case_match; [by left|].
  destruct (parse_options (command :: rest)); [apply command_documented|by right|by left].
Qed.

(** ** Options *)

(** The range of every number the tool goes on with. *)
Definition number_bound (n : NumberOption) : Z :=
  match n with
  | O_Port => 65535
  | O_Workers => 8
  | O_Link | O_MinSpines => u32_max
  | O_Ttl | O_MinCapacity => u64_max
  | O_Sets | O_Explanations => 64
  end.

Record options_ok (o : Options) : Prop := {
  oo_numbers : forall n, 0 <= o_number o n <= number_bound n;
  oo_positional : Forall (fun a => starts_with_dash a = false) (o_positional o)
}.

Lemma parse_u64_range text v : parse_u64 text = Some v -> 0 <= v <= u64_max.
Proof.
  unfold parse_u64. destruct (_ || _); [done|]. apply parse_digits_range. unfold u64_max. lia.
Qed.

Lemma parse_u32_range text v : parse_u32 text = Some v -> 0 <= v <= u32_max.
Proof.
  unfold parse_u32. destruct (parse_u64 text) as [n|] eqn:E; [|done]. apply parse_u64_range in E.
  destruct (Z.gtb_spec n u32_max); [done|]. intros [= <-]. lia.
Qed.

Lemma in_range_bound lowest highest v n : in_range lowest highest v = Some n -> lowest <= n <= highest.
Proof.
  unfold in_range. destruct v as [m|]; [|done].
  destruct (Z.ltb_spec m lowest), (Z.gtb_spec m highest); try done. intros [= <-]. lia.
Qed.

Lemma parse_number_bound n text v : parse_number n text = Some v -> 0 <= v <= number_bound n.
Proof.
  destruct n; cbn [parse_number number_bound]; intros H;
    try (apply in_range_bound in H; lia); first [by apply parse_u32_range in H|by apply parse_u64_range in H].
Qed.

Lemma default_options_ok : options_ok default_cli_options.
Proof. split; [|by constructor]. intros []; cbn; unfold u32_max, u64_max; lia. Qed.

Lemma set_number_ok n v o : options_ok o -> 0 <= v <= number_bound n -> options_ok (set_number n v o).
Proof. intros [H1 H2] Hv. split; [|done]. intros k. cbn [set_number o_number]. destruct (decide (k = n)) as [->|]; [done|apply H1]. Qed.

Lemma add_positional_ok a o : options_ok o -> starts_with_dash a = false -> options_ok (add_positional a o).
Proof. intros [H1 H2] Ha. split; [done|]. cbn. apply Forall_app. by split; [|constructor]. Qed.

(** An accepted argument list splits off its first option. *)
Lemma parse_args_ok n args o o' :
  (List.length args <= n)%nat -> parse_args args o = Parses o' -> options_ok o -> options_ok o'.
Proof.
  revert args o. induction n as [|n IH]; intros [|a rest] o Hn H Ho; cbn [List.length] in Hn; try lia;
    [by injection H as <-..|].
  cbn [parse_args] in H. destruct (text_option a) as [t|].
  { destruct rest as [|v rest]; [done|]. eapply IH; [|exact H|]; [cbn in Hn; lia|]. by destruct Ho. }
  destruct (number_option a) as [k|].
  { destruct rest as [|v rest]; [done|]. destruct (parse_number k v) as [x|] eqn:E; [|done].
    eapply IH; [|exact H|]; [cbn in Hn; lia|]. apply set_number_ok; [done|]. by eapply parse_number_bound. }
  destruct (flag_option a) as [f|]; [eapply IH; [|exact H|]; [lia|by destruct Ho]|].
  destruct (_ || _); [done|]. destruct (starts_with_dash a) eqn:E; [done|].
  eapply IH; [|exact H|]; [lia|]. by apply add_positional_ok.
Qed.

Lemma parse_options_ok args o : parse_options args = Parses o -> options_ok o.
Proof. intros H. by apply (parse_args_ok _ _ _ _ (le_n _) H), default_options_ok. Qed.

(** ** What the client sends *)

Lemma parse_node_key_fits text key : parse_node_key text = Some key -> node_fits key.
Proof.
  intros H. split; [by eapply parse_node_key_tier|]. unfold parse_node_key in H.
  repeat (case_match; try discriminate). injection H as <-. cbn [index].
  match goal with E : parse_u32 _ = Some _ |- _ => apply parse_u32_range in E end. unfold fits, u32_max in *. lia.
Qed.

Lemma parse_leaf_id_fits text leaf : parse_leaf_id text = Some leaf -> node_fits (node_of_leaf leaf).
Proof.
  unfold parse_leaf_id. destruct (parse_node_key text) as [key|] eqn:E; [|done]. apply parse_node_key_fits in E as [_ E].
  case_bool_decide; [|done]. intros [= <-]. split; [by left|exact E].
Qed.

Lemma query_request_fits k from to c :
  node_fits from -> node_fits to -> constraints_fit c -> request_fits default_transport_limits (query_request k from to c).
Proof.
  intros Hf Ht Hc.
  split; try done; try exact Sample_service.default_token_fits; try exact Sample_service.default_command_fits;
    try exact Sample_service.default_authority_fits; by vm_compute.
Qed.

Lemma plain_constraints_fit c :
  u32_ok (pc_min_eligible_spines c) -> u64_ok (pc_min_total_capacity_mbps c) -> pc_max_oversubscription c = None ->
  0 <= pc_max_sets c <= 64 -> 0 <= pc_max_explanations c <= 64 -> constraints_fit c.
Proof. intros H1 H2 H3 H4 H5. split; [done|done|by rewrite H3|lia|lia]. Qed.

(** A request of the client is plain: default blocks, and few sets and explanations. *)
Lemma client_request_plain o sub q :
  options_ok o -> client_request o sub = inr q ->
  request_fits default_transport_limits q /\ clamped_request q = q /\
  0 <= pc_max_sets (rq_constraints q) <= 64 /\ 0 <= pc_max_explanations (rq_constraints q) <= 64.
Proof.
  intros Ho H. pose proof (oo_numbers _ Ho O_MinSpines) as Hm. pose proof (oo_numbers _ Ho O_Sets) as Hs.
  cbn [number_bound] in Hm, Hs.
  assert (exists k from to c, q = query_request k from to c /\ node_fits from /\ node_fits to /\
            u32_ok (pc_min_eligible_spines c) /\ u64_ok (pc_min_total_capacity_mbps c) /\ pc_max_oversubscription c = None /\
            0 <= pc_max_sets c <= 64 /\ 0 <= pc_max_explanations c <= 64) as (k & from & to & c & -> & Hf & Ht & H1 & H2 & H3 & H4 & H5).
  { assert (node_fits default_node) as Hd by (split; [by left|by vm_compute]).
    unfold client_request in H. cbv zeta in H.
    repeat (case_bool_decide; [|]); try discriminate;
      repeat match type of H with
        | (given ?x ≫= _) = _ => destruct x eqn:?; [|discriminate]; cbn [given mbind Exits_bind] in H
        end;
      injection H as <-; eexists _, _, _, _; (split; [reflexivity|]);
      repeat match goal with
        | E : parse_node_key _ = Some _ |- _ => apply parse_node_key_fits in E
        | E : parse_leaf_id _ = Some _ |- _ => apply parse_leaf_id_fits in E
        end; cbn [pc_min_eligible_spines pc_min_total_capacity_mbps pc_max_oversubscription pc_max_sets pc_max_explanations
                  default_constraints defaults_for default_options min_eligible_spines] ;
      split_and!; try done; try (destruct (o_number o O_MinSpines =? 0); cbn); unfold fits, u32_max in *; lia. }
  split; [apply query_request_fits; [done|done|by apply plain_constraints_fit]|]. by split.
Qed.

(** C13: whatever options the tool accepts, the request its client sends is decoded by a server
    to that very request, and asks for no more sets and explanations than an answer can carry. *)
Theorem client_requests_arrive args o sub q :
  parse_options args = Parses o -> client_request o sub = inr q ->
  decode_request (encode_request q) default_transport_limits = Value q /\
  pc_max_sets (rq_constraints q) <= kMaxWireSets /\ pc_max_explanations (rq_constraints q) <= kMaxWireExplanations.
Proof.
  intros Ho%parse_options_ok Hq. destruct (client_request_plain o sub q Ho Hq) as (Hf & Hc & H1 & H2).
  split_and!; [rewrite <- Hc at 2; by apply request_back|unfold kMaxWireSets; lia|unfold kMaxWireExplanations; lia].
Qed.

(** ** The socket of the client *)

Lemma client_close_handles fc answers w handles :
  (client_close fc answers w handles).2 = (conn_close (fc_connection fc) handles).2.
Proof.
  unfold client_close. destruct (if valid _ then _ else _) as [[? ?] ?]. by destruct (conn_close _ _).
Qed.

(** the client command gives its socket back on every path: connection refused, handshake
    failed, usage error, request failed, or answered. *)
Theorem client_returns_socket o os io handles :
  os_fresh (os_socket os) handles -> (command_client o os io handles).2 = handles.
Proof.
  intros Hos. unfold command_client. destruct (o_positional o) as [|? [|sub ?]]; [done..|]. unfold client_connect.
  pose proof (connect_opens_one os (MkEndpoint (o_text o O_Bind) (o_number o O_Port)) default_transport_limits handles Hos) as Hc.
  unfold opens_one in Hc. destruct (connect _ _ _ _) as [[c|st] h]; [|exact Hc]. destruct Hc as (_ & _ & _ & Hc).
  destruct (client_session o sub os io _) as [r w]. pose proof (client_close_handles (MkClient default_transport_limits c 1) (ci_bye io) w h) as Hh.
  destruct (client_close _ _ w h) as [[[? ?] ?] h']. cbn [snd fc_connection] in *. by rewrite Hh.
Qed.

(** ** A query that ends with status 0 *)

Lemma or_exit_inr {A} (o : Outcome A) a : or_exit o = inr a -> o = Value a.
Proof. by destruct o; intros [= ->]. Qed.

(** Runs back through the steps of a command that ended with status 0. *)
Lemma exit_zero_bind {A} (m : Exits A) (k : A -> Exits Z) :
  (forall n, m = inl n -> n <> 0) -> exit_of (m ≫= k) = 0 -> exists a, m = inr a /\ exit_of (k a) = 0.
Proof. destruct m as [n|a]; intros Hn H; [by destruct (Hn n eq_refl)|by exists a]. Qed.

Lemma exit_zero_or_exit {A} (o : Outcome A) (k : A -> Exits Z) :
  refuses o -> exit_of (or_exit o ≫= k) = 0 -> exists a, o = Value a /\ exit_of (k a) = 0.
Proof.
  intros Ho H. apply exit_zero_bind in H as (a & Ha & H); [exists a; split; [by apply or_exit_inr|done]|].
  intros n En. destruct o as [a|st]; [done|]. injection En as <-. rewrite exit_code_for_Ok. by apply Ho.
Qed.

Lemma exit_zero_given {A} (o : option A) (k : A -> Exits Z) :
  exit_of (given o ≫= k) = 0 -> exists a, o = Some a /\ exit_of (k a) = 0.
Proof. destruct o as [a|]; [by exists a|done]. Qed.

Lemma exit_zero_or_usage {A} (o : Outcome A) (k : A -> Exits Z) :
  exit_of (or_usage o ≫= k) = 0 -> exists a, o = Value a /\ exit_of (k a) = 0.
Proof. destruct o as [a|]; [by exists a|done]. Qed.

Lemma load_spec_refuses o file : refuses (load_spec o file).1.
Proof. unfold load_spec. destruct (bool_decide _); [by apply refuses_fail|apply load_spec_file_refuses]. Qed.

Lemma assess_refuses en from to c : refuses (assess en from to c).
Proof.
  unfold assess. destruct (tier from), (tier to); try (by apply refuses_fail);
    [apply assess_leaf_pair_refuses|apply assess_leaf_to_spine_refuses].
Qed.

Lemma assessment_exit_zero en from to c a :
  assess en from to c = Value a -> assessment_exit a = 0 -> pa_verdict a = EV_Eligible.
Proof.
  intros Ha. unfold assessment_exit. case_bool_decide as Hv; [done|]. intros H%exit_code_for_Ok.
  unfold assess in Ha. destruct (tier from), (tier to); try discriminate.
  - by apply (assessment_code_decides en (index from) (index to) 0 c live_token 0 a (or_introl Ha)).
  - by apply (assessment_code_decides en (index from) 0 (index to) c live_token 0 a (or_intror Ha)).
Qed.

(** What a file that loads holds. *)
Lemma load_spec_driven o file f r :
  load_spec o file = (Value f, Some r) ->
  exists b b', driven default_limits b /\ freeze b = (Value f, b') /\ r = b_report b'.
Proof.
  unfold load_spec. case_bool_decide; [done|]. unfold load_spec_file. repeat (case_match; try done). cbv zeta.
  intros Hp. by apply parse_spec_driven in Hp.
Qed.

Lemma load_spec_report o file f rep : load_spec o file = (Value f, rep) -> exists r, rep = Some r.
Proof.
  unfold load_spec. case_bool_decide; [done|]. unfold load_spec_file, parse_spec. intros H'.
  repeat (case_match; try discriminate). injection H' as _ <-. by eexists.
Qed.

Lemma default_limits_indexable : limits_indexable default_limits.
Proof. split; by vm_compute. Qed.


(** ** A run of the tool on a printed fabric *)
Module Sample_tool.
Definition file : SpecFile := MkSpecFile (Some (strlen sample_text)) true (bytes_of sample_text).
Definition socket_world : World :=
  MkWorld file (MkToolIo (start_io_fine (MkInc 1 2) 1000) io_fine io_fine 1000 None success) None Sample_wire.socket_os
    (MkClientIo [] [] [] []) ∅ (success, success).
Definition options (rest : list string) : Options :=
  match parse_options rest with Parses o => o | _ => default_cli_options end.
Definition query : list string := ["--spec"; "fabric.slf"; "--from"; "leaf:1"; "--to"; "leaf:2"; "--sets"; "2"].
Definition ask : list string := ["client"; "paths"; "--port"; "9000"; "--from"; "leaf:1"; "--to"; "spine:2"; "--evidence"].

Lemma query_parses : parse_options ("paths" :: query) = Parses (options ("paths" :: query)).
Proof. reflexivity. Qed.
Lemma query_exits : slfctl ("paths" :: query) socket_world = 0.
Proof. vm_compute. reflexivity. Qed.
Lemma query_report : forall r, (load_spec (options ("paths" :: query)) file).2 = Some r -> Zlen (issues r) < 2 ^ 32.
Proof.
  assert ((load_spec (options ("paths" :: query)) file).2 = Some sample_text_report) as -> by (vm_compute; reflexivity).
  intros r [= <-]. vm_compute. reflexivity.
Qed.
Definition asked : Request :=
  match client_request (options ask) "paths" with inr q => q | inl _ => default_request end.
End Sample_tool.
Import Sample_tool.


Lemma client_requests_arrive_witness : decode_request (encode_request asked) default_transport_limits = Value asked.
Proof. apply (client_requests_arrive ask (options ask) "paths" asked); reflexivity. Defined.

Lemma client_returns_socket_witness :
  (command_client (options ask) Sample_wire.socket_os (MkClientIo [] [] [] []) ∅).2 = ∅.
Proof.
  apply client_returns_socket. intros socket Hs. injection Hs as <-. split; [discriminate|set_solver].
Defined.
