(* ===== verification/Scenario.v ===== *)
(** * A controller's life, end to end

    A controller boots over an empty directory, grants a lease, changes the state of its
    fabric, crashes and comes back: the runs at which the theorems on the runtime are
    applied. *)
From S2P Require Import Prelude Status Checked Identity Bytes Digest Capacity Model Builder BuilderSpec Sample Freeze Codec CodecSpec Topology Eligibility Governance GovernanceSpec Store StoreDir StoreSpec StoreDirSpec Durability Effect EffectSpec Runtime RuntimeSpec Replay Archive Restart Session.

#[local] Strategy 10000 [sha_finish update_span sha256 le_store].

Module Scenario.
Definition cfg : RuntimeConfig := default_runtime_config 9 "state".
Definition boot_io : StartIo := start_io_fine (MkInc 5 9) 1000.
Definition booted : ControllerRuntime := (start boot_io (new_runtime cfg None)).2.
Definition leased : ControllerRuntime := (acquire_authority io_fine 2000 "operator" 60000 booted).2.
Definition token_of (rt : ControllerRuntime) : AuthorityToken :=
  match rt_lease rt with Some l => al_token l | None => default_token end.
Definition fabric_of (rt : ControllerRuntime) : Fabric :=
  match rt_fabric rt with Some f => f | None => Sample.observed end.
Definition command (state : FabricState) (request : RequestId) (rt : ControllerRuntime) : Command :=
  MkCommand request (token_of rt) (rt_generation rt) (rt_epoch rt) CK_SetFabricState state (node_of_leaf 0) NS_Draining 0 PA_Enabled 0
    LA_Enabled (MkLink 0 (node_of_leaf 0) 0 (node_of_leaf 0) 0 LC_LeafSpine LA_Enabled 0 0)
    (MkEvidence 0 LO_Unknown 0 zero_incarnation 0 0 0) default_options.
Definition runtime_of (a : Applied) : ControllerRuntime := match a with Returned _ rt => rt | Exited rt => rt end.
Definition result_of (a : Applied) : option CommandResult := match a with Returned r _ => Some r | Exited _ => None end.
Definition quiesce : Command := command FS_Draining 77 leased.
Definition applied : Applied := apply io_fine 3000 quiesce leased.
Definition quiesced : ControllerRuntime := runtime_of applied.
Definition answer : CommandResult :=
  default (MkResult SC_Indeterminate "" 0 0 0 zero_digest false false default_token) (result_of applied).
Definition again_io : StartIo := start_io_fine (MkInc 6 10) 5000.
Definition recovered : ControllerRuntime := (start again_io (new_runtime cfg (disk_of quiesced))).2.
End Scenario.

Import Scenario.

#[local] Instance Fabric_eq_dec : EqDecision Fabric.
Proof. solve_decision. Defined.

(** What the run is, evaluated. *)
Definition first_fabric : Fabric := value_or (initial_fabric cfg 1) Sample.observed.

Definition store_checks (s : FabricStore) : bool :=
  negb (fs_poisoned s) && (fs_last_sequence s <=? 10) && (Zlen (fs_bytes s) <=? 10000).

Definition own_mutation (a : Applied) : bool :=
  match a with Returned r _ => res_mutated r && negb (res_deduplicated r) | Exited _ => false end.
Definition lease_checks (rt : ControllerRuntime) : bool :=
  match rt_lease rt with
  | Some l =>
      let t := al_token l in
      (Zlen (digest_bytes (tok_topology_digest t)) =? 32) && (tok_lease t =? 1) && (tok_generation t =? 1) && (tok_issued_at t =? 2000)
      && (tok_expires_at t =? 62000) && (hi (tok_controller t) =? 5) && (lo (tok_controller t) =? 9) && (tok_epoch t =? 1)
      && (rt_epoch rt =? 1) && (rt_generation rt =? 1)
  | None => false
  end.
Definition journal_checks (rt : ControllerRuntime) : bool :=
  match rt_store rt with Some s => store_checks s | None => false end.

Definition scenario_checks : bool :=
  rt_started booted && bool_decide (rt_fabric booted = Some first_fabric)
  && journal_checks quiesced
  && (Zlen (default [] (disk_of quiesced)) =? 1) && (rt_epoch quiesced =? 1) && (rt_generation quiesced =? 2)
  && own_mutation applied
  && (Zlen (serialize_fabric (fabric_of quiesced)) <=? 1000)
  && lease_checks leased.

Lemma scenario_runs : scenario_checks = true.
Proof. vm_compute. reflexivity. Qed.

Lemma boot_runs : start boot_io (new_runtime cfg None) = ((start boot_io (new_runtime cfg None)).1, booted).
Proof. unfold booted. apply surjective_pairing. Qed.

Lemma leased_step : journal_step cfg booted leased.
Proof. exact (js_acquire cfg io_fine 2000 "operator" 60000 booted). Qed.

Lemma applied_eq : apply io_fine 3000 quiesce leased = applied.
Proof. unfold applied. reflexivity. Qed.

#[local] Opaque booted leased applied first_fabric serialize_fabric disk_of.

Lemma scenario_facts :
  rt_started booted = true /\ rt_fabric booted = Some first_fabric /\ journal_checks quiesced = true
  /\ Zlen (default [] (disk_of quiesced)) = 1 /\ rt_epoch quiesced = 1 /\ rt_generation quiesced = 2
  /\ own_mutation applied = true /\ Zlen (serialize_fabric (fabric_of quiesced)) <= 1000 /\ lease_checks leased = true.
Proof.
  pose proof scenario_runs as H. unfold scenario_checks in H.
  apply andb_prop in H as [H H9]. apply andb_prop in H as [H H8]. apply andb_prop in H as [H H7]. apply andb_prop in H as [H H6].
  apply andb_prop in H as [H H5]. apply andb_prop in H as [H H4]. apply andb_prop in H as [H H3]. apply andb_prop in H as [H1 H2].
  exact (conj H1 (conj (bool_decide_eq_true_1 _ H2) (conj H3 (conj (proj1 (Z.eqb_eq _ _) H4) (conj (proj1 (Z.eqb_eq _ _) H5)
    (conj (proj1 (Z.eqb_eq _ _) H6) (conj H7 (conj (proj1 (Z.leb_le _ _) H8) H9)))))))).
Qed.

Lemma own_mutation_spec a d :
  own_mutation a = true ->
  let r := default d (result_of a) in a = Returned r (runtime_of a) /\ res_mutated r = true /\ res_deduplicated r = false.
Proof.
  destruct a as [r rt|rt]; [|done]. cbn. intros [H1 H2]%andb_prop. by apply negb_true_iff in H2.
Qed.

Lemma quiesce_applied : apply io_fine 3000 quiesce leased = Returned answer quiesced /\ res_mutated answer = true /\ res_deduplicated answer = false.
Proof. rewrite applied_eq. destruct scenario_facts as (_ & _ & _ & _ & _ & _ & H & _). exact (own_mutation_spec _ _ H). Qed.

#[local] Opaque quiesced answer.

Lemma lease_checks_spec rt : lease_checks rt = true -> token_fits (token_of rt) /\ rt_epoch rt = 1 /\ rt_generation rt = 1.
Proof.
  unfold lease_checks, token_of. destruct (rt_lease rt) as [l|]; [|done]. cbv zeta. rewrite !andb_true_iff, !Z.eqb_eq.
  intros (((((((((H1 & H2) & H3) & H4) & H5) & H6) & H7) & H8) & H9) & H10). split; [|done].
  split; [unfold fits; lia..|exact H1|unfold fits; lia|unfold fits; lia].
Qed.

Lemma scenario_config_ok : config_ok cfg.
Proof. split; vm_compute; split || idtac; congruence. Qed.

Lemma boot_io_ok : io_ok boot_io.
Proof. split; vm_compute; split; congruence. Qed.
Lemma again_io_ok : io_ok again_io.
Proof. split; vm_compute; split; congruence. Qed.

Lemma first_fabric_persistable : persistable cfg first_fabric.
Proof. split; [vm_compute; reflexivity|vm_compute; split; congruence]. Qed.

Lemma booted_lived : lived cfg booted.
Proof.
  destruct scenario_facts as (H1 & H2 & _).
  eapply (lived_boot cfg boot_io None); [exact boot_io_ok|by left|exact boot_runs|exact H1|].
  intros g Hg. assert (g = first_fabric) as -> by congruence. exact first_fabric_persistable.
Qed.

Lemma leased_lived : lived cfg leased.
Proof. eapply lived_step; [exact booted_lived|exact leased_step]. Qed.

Lemma command_fits_when state request rt :
  u64_ok request -> u64_ok (rt_epoch rt) -> u64_ok (rt_generation rt) -> token_fits (token_of rt) -> command_fits (command state request rt).
Proof.
  intros H1 H2 H3 H4. assert (u32_ok 0) by done. assert (u64_ok 0) by done. split; try done; [split; [by left|done]|by left].
Qed.

Lemma quiesce_fits : command_fits quiesce.
Proof.
  destruct scenario_facts as (_ & _ & _ & _ & _ & _ & _ & _ & H). apply lease_checks_spec in H as (H1 & H2 & H3).
  unfold quiesce. apply command_fits_when; [unfold fits; lia|rewrite H2; unfold fits; lia|rewrite H3; unfold fits; lia|exact H1].
Qed.

Lemma quiesced_lived : lived cfg quiesced.
Proof. eapply lived_step; [exact leased_lived|]. exact (js_apply cfg io_fine 3000 quiesce leased answer quiesced quiesce_fits (proj1 quiesce_applied)). Qed.

Lemma room_when rt :
  journal_checks rt = true -> Zlen (default [] (disk_of rt)) = 1 -> rt_epoch rt = 1 -> room cfg rt.
Proof.
  intros H E1 E2. split.
  - unfold journal_checks in H. destruct (rt_store rt) as [s|]; [|done]. unfold store_checks in H.
    rewrite !andb_true_iff, negb_true_iff, !Z.leb_le in H. exists s. split_and!; [done|tauto|lia|].
    change (max_recovery_bytes (rc_store cfg)) with 268435456. unfold kTrailerBytes. lia.
  - rewrite E1. change (max_segments (rc_store cfg)) with 4. lia.
  - rewrite E2. lia.
Qed.

Lemma quiesced_room : room cfg quiesced.
Proof. destruct scenario_facts as (_ & _ & H & E1 & E2 & _). exact (room_when _ H E1 E2). Qed.

(** ** The theorems at this run *)


Lemma runtime_consistent_witness : rt_ok quiesced /\ rt_started quiesced = true.
Proof.
  destruct scenario_facts as (H1 & _).
  destruct (runtime_consistent boot_io (new_runtime cfg None) _ booted quiesced eq_refl boot_runs) as (A & B & _).
  - exact H1.
  - eapply rtc_l; [exact (journal_step_live _ _ _ leased_step)|]. eapply rtc_once.
    exact (ls_apply io_fine 3000 quiesce leased answer quiesced (proj1 quiesce_applied)).
  - exact (conj A B).
Defined.

Lemma applied_at_most_once_witness : exists r rt', apply io_fine 4000 quiesce quiesced = Returned r rt' /\ res_deduplicated r = true.
Proof.
  destruct quiesce_applied as (Ha & Hm & Hd).
  destruct (lived_lives cfg leased scenario_config_ok leased_lived) as (chs & window & created & HL).
  eexists _, _. split; [|shelve].
  exact (applied_at_most_once io_fine 3000 quiesce leased answer quiesced quiesced io_fine 4000 quiesce
    (lv_ok _ _ _ _ _ HL) Ha Hm Hd (rtc_refl _ _) eq_refl).
  Unshelve. reflexivity.
Defined.

Lemma fabric_of_spec rt : is_Some (rt_fabric rt) -> rt_fabric rt = Some (fabric_of rt).
Proof. unfold fabric_of. by intros [f ->]. Qed.

#[local] Opaque fabric_of.

Lemma quiesced_fabric : rt_fabric quiesced = Some (fabric_of quiesced) /\ fab_generation (fabric_of quiesced) = 2.
Proof.
  destruct (lived_lives cfg quiesced scenario_config_ok quiesced_lived) as (chs & window & created & HL).
  destruct (ok_published _ (lv_ok _ _ _ _ _ HL) (lv_started _ _ _ _ _ HL)) as (f & ix & E & _ & _ & Eg).
  assert (rt_fabric quiesced = Some (fabric_of quiesced)) as Ef by exact (fabric_of_spec _ (mk_is_Some _ _ E)).
  assert (fabric_of quiesced = f) as Efg by (rewrite Ef in E; exact (Some_inj _ _ E)). rewrite <- Efg in Eg.
  destruct scenario_facts as (_ & _ & _ & _ & _ & H & _). exact (conj Ef (eq_trans (eq_sym Eg) H)).
Qed.

Lemma quiesced_small : Zlen (serialize_fabric (fabric_of quiesced)) <= max_record_bytes (rc_store cfg).
Proof. destruct scenario_facts as (_ & _ & _ & _ & _ & _ & _ & H & _). change (max_record_bytes (rc_store cfg)) with 1048576. lia. Qed.

Lemma comes_back : exists rt', start again_io (new_runtime cfg (disk_of quiesced)) = (success, rt') /\ rt_started rt' = true.
Proof.
  destruct quiesced_fabric as [Ef Eg].
  apply (crash_starts cfg (MkInc 6 10) 5000 quiesced (fabric_of quiesced) scenario_config_ok quiesced_lived quiesced_room again_io_ok eq_refl);
    [change (max_records_per_segment (rc_store cfg)) with 100000; lia|exact Ef|rewrite Eg; unfold fits; lia|exact quiesced_small].
Qed.




(** ** A controller without persistence: progress *)

Module Volatile.
Definition cfg : RuntimeConfig :=
  MkRuntimeConfig 9 "fabric" "" default_options default_limits "" false 2 30000 4096 4096 512 25 default_store_config true.
Definition booted : ControllerRuntime := (start (start_io_fine (MkInc 5 9) 1000) (new_runtime cfg None)).2.
Definition leased : ControllerRuntime := (acquire_authority io_fine 2000 "operator" 60000 booted).2.
Definition drain : Command := command FS_Draining 77 leased.
Definition effect : Outcome Fabric :=
  apply_command_to (rc_limits (rt_config leased)) (fabric_of leased) drain (target_generation drain leased) (rt_epoch leased) (rt_incarnation leased).
Definition after : Fabric := value_or effect Sample.observed.
Definition checks : bool :=
  rt_started booted && negb (inc_is_zero (rt_incarnation booted)) && negb (inc_is_zero (rt_incarnation leased)) && rt_started leased
  && bool_decide (rt_fault_point leased = FP_None) && (wrap 64 (rt_lease_counter booted + 1) =? 1)
  && bool_decide (code (validate_token (token_of leased) (authority_context 3000 leased)) = SC_Ok)
  && (Zlen (rt_dedup leased) =? 0) && (rc_max_dedup (rt_config leased) =? 4096) && ok effect && ok (build_index after).
End Volatile.

Lemma volatile_runs :
  Volatile.checks = true /\ rt_store Volatile.booted = None /\ rt_store Volatile.leased = None /\ is_Some (rt_lease Volatile.leased)
  /\ is_Some (rt_fabric Volatile.leased).
Proof. split_and!; [vm_compute; reflexivity..|vm_compute; eexists; reflexivity|vm_compute; eexists; reflexivity]. Qed.

Lemma volatile_booted : Volatile.booted = (start (start_io_fine (MkInc 5 9) 1000) (new_runtime Volatile.cfg None)).2.
Proof. unfold Volatile.booted. reflexivity. Qed.
Lemma volatile_leased : Volatile.leased = (acquire_authority io_fine 2000 "operator" 60000 Volatile.booted).2.
Proof. unfold Volatile.leased. reflexivity. Qed.

Lemma value_or_ok {A} (o : Outcome A) d : ok o = true -> o = Value (value_or o d).
Proof. by destruct o. Qed.

Lemma volatile_effect :
  ok Volatile.effect = true ->
  apply_command_to (rc_limits (rt_config Volatile.leased)) (fabric_of Volatile.leased) Volatile.drain
    (target_generation Volatile.drain Volatile.leased) (rt_epoch Volatile.leased) (rt_incarnation Volatile.leased) = Value Volatile.after.
Proof. unfold Volatile.after, Volatile.effect. apply value_or_ok. Qed.

#[local] Opaque Volatile.booted Volatile.leased Volatile.effect Volatile.after.

Lemma volatile_facts :
  rt_started Volatile.booted = true /\ inc_is_zero (rt_incarnation Volatile.booted) = false
  /\ inc_is_zero (rt_incarnation Volatile.leased) = false /\ rt_started Volatile.leased = true /\ rt_fault_point Volatile.leased = FP_None
  /\ wrap 64 (rt_lease_counter Volatile.booted + 1) = 1
  /\ code (validate_token (token_of Volatile.leased) (authority_context 3000 Volatile.leased)) = SC_Ok
  /\ Zlen (rt_dedup Volatile.leased) = 0 /\ rc_max_dedup (rt_config Volatile.leased) = 4096 /\ ok Volatile.effect = true
  /\ ok (build_index Volatile.after) = true.
Proof.
  destruct volatile_runs as (H & _). unfold Volatile.checks in H.
  apply andb_prop in H as [H H11]. apply andb_prop in H as [H H10]. apply andb_prop in H as [H H9]. apply andb_prop in H as [H H8].
  apply andb_prop in H as [H H7]. apply andb_prop in H as [H H6]. apply andb_prop in H as [H H5]. apply andb_prop in H as [H H4].
  apply andb_prop in H as [H H3]. apply andb_prop in H as [H1 H2].
  exact (conj H1 (conj (proj1 (negb_true_iff _) H2) (conj (proj1 (negb_true_iff _) H3) (conj H4 (conj (bool_decide_eq_true_1 _ H5)
    (conj (proj1 (Z.eqb_eq _ _) H6) (conj (bool_decide_eq_true_1 _ H7) (conj (proj1 (Z.eqb_eq _ _) H8) (conj (proj1 (Z.eqb_eq _ _) H9)
    (conj H10 H11)))))))))).
Qed.

Lemma started_ok io c rt : rt = (start io (new_runtime c None)).2 -> rt_started rt = true -> rt_ok rt.
Proof. intros -> H. by destruct (start_ok io (new_runtime c None) _ _ eq_refl (surjective_pairing _) H) as [Hok _]. Qed.

Lemma granted_ok io now who ttl rt rt' : rt' = (acquire_authority io now who ttl rt).2 -> rt_ok rt -> rt_ok rt'.
Proof. intros -> H. by apply acquire_ok. Qed.

Lemma volatile_ok : rt_ok Volatile.leased.
Proof. exact (granted_ok _ _ _ _ _ _ volatile_leased (started_ok _ _ _ volatile_booted (proj1 volatile_facts))). Qed.

Lemma empty_window {A} (l : list A) : Zlen l = 0 -> l = [].
Proof. destruct l; [done|]. rewrite Zlen_cons. pose proof (Zlen_nonneg l). lia. Qed.

Lemma lease_is_granted_witness :
  exists l rt', acquire_authority io_fine 2000 "operator" 60000 Volatile.booted = (Value l, rt')
    /\ code (validate_authority 61999 (al_token l) rt') = SC_Ok /\ code (validate_authority 62000 (al_token l) rt') <> SC_Ok.
Proof.
  destruct volatile_facts as (H1 & H2 & _ & _ & _ & H6 & _). destruct volatile_runs as (_ & Hs & _).
  destruct (lease_is_granted 2000 "operator" 60000 Volatile.booted 62000 H1 H2) as (l & rt' & E & _ & _ & _ & Hv).
  - intros s E. rewrite Hs in E. discriminate E.
  - discriminate.
  - vm_compute. discriminate.
  - reflexivity.
  - lia.
  - reflexivity.
  - rewrite H6. lia.
  - exists l, rt'. split; [exact E|]. split; [apply Hv; lia|]. rewrite Hv. lia.
Defined.

Lemma authorised_command_commits_witness :
  exists r rt', apply io_fine 3000 Volatile.drain Volatile.leased = Returned r rt' /\ res_code r = SC_Ok
    /\ rt_fabric rt' = Some Volatile.after.
Proof.
  destruct volatile_facts as (_ & _ & H3 & H4 & H5 & _ & H7 & H8 & H9 & H10 & H11). destruct volatile_runs as (_ & _ & Hs & _ & Hf).
  destruct (authorised_command_commits 3000 Volatile.drain Volatile.leased (fabric_of Volatile.leased) Volatile.after
    (value_or (build_index Volatile.after) (MkIndex Volatile.after [] (MkCsr [] []) (MkCsr [] []) (MkCsr [] []) 0 0 0)) volatile_ok) as (r & rt' & E & Hc & _ & Hp & _).
  - split; [exact H4|discriminate|rewrite (empty_window _ H8); reflexivity|rewrite H8, H9; lia|exact H7|reflexivity|reflexivity].
  - exact (fabric_of_spec _ Hf).
  - reflexivity.
  - exact (volatile_effect H10).
  - exact (value_or_ok _ _ H11).
  - exact H5.
  - exact H3.
  - intros s E. rewrite Hs in E. discriminate E.
  - intros s E. rewrite Hs in E. discriminate E.
  - exists r, rt'. exact (conj E (conj Hc Hp)).
Defined.
